(* ===== verification/_CoqProject ===== *)
-Q . S2P
Prelude.v
Slab.v
Words.v
Lists.v
FixedMemCache.v
Memory.v
Murmur.v
HashTable.v
Kv.v
KvCache.v
Migrate.v
Machine.v
Log.v
LogInv.v
Tls.v
RaftConn.v
Proto.v
Cluster.v
Server.v
Election.v
Votes.v
Leaders.v
Delivery.v
Sessions.v
Main.v
SizeClass.v
Thread.v
ThreadInv.v
ThreadConn.v
ThreadEvents.v
ThreadRun.v
ThreadTotal.v
ThreadSpec.v
ThreadSet.v
ThreadCache.v
Service.v
