(* ===== verification/Prelude.v ===== *)
(** * Verification of umem-cache

    umem-cache is an in-memory key-value cache.  The main thread listens and
    hands clients to worker threads; each worker thread serves its clients alone,
    from slab-allocated values found through a hash table, within a budget of
    memory.  In a cluster, a raft server per machine elects a leader and
    replicates one log entry, the description of the cluster.

    ** Files, bottom up

    - Prelude: machine integers, the option monad for faults, shared lemmas
      and tactics.
    - Slab (slab.c, slab.h, align.h): the order of a slab, pointers packed with
      offsets.
    - Words (embed_pointer.h): memory of 8-byte words.
    - Lists (list.h): doubly linked lists, LRU lists and hash chains in that
      memory.
    - FixedMemCache (fixed_mem_cache.c): the pool of connections.
    - Memory (memory.c): the byte budget of a thread.
    - Murmur (murmur_hash3.c): the hash of keys.
    - HashTable (hash_table.c): the index, its incremental migration and the
      ghost fingerprints.
    - Kv (kv.c): values that span several objects, as I/O vectors and byte
      positions.
    - KvCache (kv_cache.c): the slab allocator of values, in word memory.
    - Migrate (kv_cache.c): heaps that name objects instead of addresses, and
      that giving an object back, which may move live objects to reclaim a slab,
      does not change the heap.
    - Machine (machine.c): the machines of a cluster, sorting and searching.
    - Log, LogInv (log.c): the cluster log and the changes an administrator
      asks for; the invariant of every log a cluster goes through.
    - Tls (tls.c): TLS sessions.
    - RaftConn (raft_conn.c): connections between machines and the reference
      counts of logs.
    - Proto (raft_proto.h): the wire format.
    - Cluster (member.c, cluster.c): a candidate's or leader's view of the
      other machines.
    - Server (service_raft.c): the state of the raft server, every handler, its
      event loop and its start.
    - Election, Votes (service_raft.c): terms, votes and elections of one
      machine.  Leaders: the machines of a cluster together.  Delivery
      (service_raft.c, raft_conn.c, raft_proto.h): messages from one machine to
      another.
    - Sessions (service_raft.c, raft_conn.c): which connections own a TLS session.
    - Main (main.c): the arguments and the start of the program.
    - SizeClass (thread.c): the table of size classes.
    - Thread (thread.c, conn.h): the state of a cache thread and every handler,
      on handles of connections and values.  ThreadInv, ThreadConn, ThreadEvents
      and ThreadRun: its invariant, kept by every operation and every run.
      ThreadTotal: every event returns.  ThreadSpec, ThreadSet: what clients get,
      locks, memory, storing values.  ThreadCache: the counters a thread keeps
      of a size class, an abstraction of KvCache, follow it.
    - Service (service.c, socket.c, epoll.h, and the dispatch and start of
      threads in thread.c): the main thread.

    ** Conventions

    A C function is a Gallina function of the same name.  A [w]-bit integer is
    a [Z] with its wrap-around written out ([u32], [u64]).  Code that
    dereferences memory or asserts runs in the option monad, where [None] is a
    fault.  The builds with and without [CONFIG_KERNEL_TLS] are one model with a
    flag.  The handlers of Server.v run in a state monad over the whole machine
    with the outcomes "returned", "left the process" and "fault"; those of
    Thread.v in one with [Ret], [Fault] and [Overrun], which marks the places
    where bytes of a client are stored without a check, and the read of a
    command into a full buffer, which the source excludes by an assertion.  [malloc], [mmap],
    [read], [send], GnuTLS and the like are parameters or answers in an input
    list: theorems hold for all of them.

    Thread.v names a value by a handle that stays when the allocator moves the
    value: [kv_cache_free_transparent] shows that moving keeps every pointer,
    list and chain, and [cache_classes_refine] that the counters Thread.v keeps
    of the allocator are right.

    ** Fuel and bounds

    Loops are structural recursion over the data they walk.  Where the source's
    loop has no such measure the definition takes fuel, and a theorem shows that
    the fuel given is enough: [order_loop] runs over at most [SLAB_ORDER_MAX]
    orders, [merge_disjoint] over the length of both arrays, [bsearch_loop] over
    the length of its interval, [reclaim_while] over the values on the two
    replacement lists, the walks over a free list over its length and the repair
    of borrowers over their number.  Runs of a thread have at most 2^48 events,
    so that handles and counters stay far from 2^64, and clients announce values
    below 2^62 bytes; what happens beyond is stated separately
    ([client_bytes_unchecked]).

    ** What the theorems show

    - Slab to Migrate: packed pointers round-trip; the free lists, LRU lists
      and hash chains implement their abstract sequences; the hash table
      implements a finite map at every stage of a migration, and migrations
      finish; allocation returns fresh objects inside their slab and giving them
      back is transparent; values are copied and listed byte by byte in order and
      within bounds; the memory budget is conserved.
    - Machine to LogInv: requests for a change are validated as documented,
      ids and versions are handed out correctly, and every reachable log is
      well formed.
    - Tls to Main: reference counts are exact; a vote request, a heartbeat and
      their answers reach the other machine as they were written, in any pieces;
      an election is won with a majority of both configurations, and a committed
      log meets every later election.  A machine votes once per term and a term
      has at most one leader, unless a machine has a lapse: the steps that undo a
      vote are named ([Election.lapse]), and that a leader which gives up is one
      of them is a defect ([abdicated_leader_votes_again]).  In every run of the
      service no TLS session is leaked and incoming connections own the session
      they use; the program listens on the ports its arguments name, modulo 2^16.
    - SizeClass to ThreadCache: the structures of a thread agree in every
      reachable state; no event faults, and every event returns unless a client
      overruns its command buffer; what one client stores, in reads of any
      sizes, every client gets, byte for byte; a GET that hits is answered
      completely; locks are handed on to the connections that wait, one more at
      every tick of the clock; reserving memory ends and an allocation whose size
      does not overflow has room; a size is served by the smallest class that fits.
    - Service: the main thread faults only where a handshake ends without kernel
      TLS, which tls.c asserts; a client that sends its connect
      request in any pieces is handed to the thread it asks for; every socket is
      open, closed or handed over exactly once, and TLS sessions are released
      once.
    - Error behaviour: [abdicated_leader_votes_again],
      [responded_member_session_reused], [client_bytes_unchecked] and
      [stale_event_faults] are runs of the code that its authors cannot have
      meant.

    ** Not modelled

    GnuTLS, the kernel and the C library, whose answers are arguments; when the
    interval timer ticks (its interval is); the signal handlers of main.c, which
    end the process; debugging output (debug.h, the test code); the compiler
    barriers of rwonce.h, since the only variable two threads share is a flag
    whose value is an answer here. *)

From Stdlib Require Export ZArith Lia.
From stdpp Require Export base tactics numbers list gmap option sorting.

#[global] Open Scope Z_scope.

(** ** Machine integers

    A [w]-bit unsigned integer is the [Z] in [[0, 2^w)] it denotes; [wrap w]
    is the reduction C applies to the mathematical result of an operation. *)

Definition wrap (w x : Z) : Z := x mod 2 ^ w.

Declare Scope umem_scope.
Delimit Scope umem_scope with umem.
Notation "'u8' x" := (wrap 8 x) (at level 10, x at level 9) : umem_scope.
Notation "'u16' x" := (wrap 16 x) (at level 10, x at level 9) : umem_scope.
Notation "'u32' x" := (wrap 32 x) (at level 10, x at level 9) : umem_scope.
Notation "'u64' x" := (wrap 64 x) (at level 10, x at level 9) : umem_scope.
#[global] Open Scope umem_scope.

(** ** Faults and assertions

    Operations that dereference memory or check an [assert] run in stdpp's
    option monad: [None] is a fault (an unmapped address or a failed
    assertion), so a theorem that an operation returns [Some _] also says that
    neither is reached. *)

Create HintDb umem.

(** Decide the guards and bind the loads an operation starts with. *)
Ltac opt_step :=
  first
    [ rewrite option_guard_True by (first [done | lia | eauto with umem]); cbn
    | match goal with H : ?e = Some _ |- context [?e ≫= _] => rewrite H; cbn end ].
Ltac opt_steps := repeat opt_step.

(** A decidable closed proposition, by evaluation. *)
Ltac decide_now := apply (bool_decide_unpack _); vm_compute; exact I.

(** ** Bit arithmetic *)

Lemma wrap_small w x : 0 <= x < 2 ^ w -> wrap w x = x.
Proof. intros. by apply Z.mod_small. Qed.

Lemma wrap_range w x : 0 <= w -> 0 <= wrap w x < 2 ^ w.
Proof. intros. apply Z.mod_pos_bound. by apply Z.pow_pos_nonneg. Qed.

Lemma wrap_wrap w x : 0 <= w -> wrap w (wrap w x) = wrap w x.
Proof. intros. apply wrap_small. by apply wrap_range. Qed.

Lemma land_lnot_ones x k :
  0 <= k -> Z.land x (Z.lnot (2 ^ k - 1)) = x - x mod 2 ^ k.
Proof.
  intros Hk.
  replace (2 ^ k - 1) with (Z.ones k) by (rewrite Z.ones_equiv; lia).
  rewrite <-Z.ldiff_land, Z.ldiff_ones_r, Z.shiftl_mul_pow2, Z.shiftr_div_pow2
    by lia.
  pose proof (Z.div_mod x (2 ^ k)). lia.
Qed.

Lemma land_mask x k : 0 <= k -> Z.land x (2 ^ k - 1) = x mod 2 ^ k.
Proof.
  intros Hk.
  replace (2 ^ k - 1) with (Z.ones k) by (rewrite Z.ones_equiv; lia).
  by rewrite Z.land_ones.
Qed.

Lemma lor_disjoint_add x y k :
  0 <= k -> x mod 2 ^ k = 0 -> 0 <= y < 2 ^ k -> Z.lor x y = x + y.
Proof.
  intros Hk Hx Hy.
  enough (Z.land x y = 0) as Hl by (pose proof (Z.add_lor_land x y); lia).
  rewrite <-(Z.mod_small y (2 ^ k)) by lia.
  rewrite <-Z.land_ones by lia.
  rewrite (Z.land_comm y), Z.land_assoc, Z.land_ones, Hx by lia.
  apply Z.land_0_l.
Qed.

Lemma aligned_add x y k : 0 < k -> x mod k = 0 -> (x + y) mod k = y mod k.
Proof.
  intros. rewrite Z.add_mod by lia. rewrite H0, Z.add_0_l. apply Z.mod_mod. lia.
Qed.

(** ** Lists *)

Lemma NoDup_middle {A} (l1 l2 : list A) x :
  NoDup (l1 ++ x :: l2) <-> x ∉ l1 ++ l2 /\ NoDup (l1 ++ l2).
Proof. by rewrite <-Permutation_middle, NoDup_cons. Qed.

Lemma last_cons_default {A} (x : A) l : last (x :: l) = Some (default x (last l)).
Proof. rewrite last_cons. by destruct (last l). Qed.

Lemma NoDup_fmap_filter {A B} (f : A -> B) (P : A -> Prop) `{!forall x, Decision (P x)} l :
  NoDup (f <$> l) -> NoDup (f <$> filter P l).
Proof.
  induction l as [|x l IH]; [done|]. rewrite fmap_cons, NoDup_cons. intros [Hx Hnd].
  rewrite filter_cons. case_decide; [|by apply IH]. rewrite fmap_cons. constructor; [|by apply IH].
  contradict Hx. apply list_elem_of_fmap in Hx as (y & -> & [_ Hy]%list_elem_of_filter).
  by apply list_elem_of_fmap_2.
Qed.

Lemma list_filter_all {A} (P : A -> Prop) `{!forall x, Decision (P x)} (l : list A) :
  (forall x, x ∈ l -> P x) -> filter P l = l.
Proof.
  induction l as [|x l IH]; intros Hl; [done|]. rewrite filter_cons, decide_True by (apply Hl; left).
  f_equal. apply IH. intros y Hy. apply Hl. by right.
Qed.

Lemma list_filter_none {A} (P : A -> Prop) `{!forall x, Decision (P x)} (l : list A) :
  (forall x, x ∈ l -> ~ P x) -> filter P l = [].
Proof.
  induction l as [|x l IH]; intros Hl; [done|]. rewrite filter_cons, decide_False by (apply Hl; left).
  apply IH. intros y Hy. apply Hl. by right.
Qed.

Definition zrange (n : nat) : list Z := Z.of_nat <$> seq 0 n.

Lemma elem_of_zrange n i : i ∈ zrange n <-> 0 <= i < Z.of_nat n.
Proof.
  unfold zrange. rewrite list_elem_of_fmap. split.
  - intros (k & -> & Hk%elem_of_seq). lia.
  - intros Hi. exists (Z.to_nat i). rewrite elem_of_seq. lia.
Qed.

(** A property decided by a boolean on every index of a range. *)
Lemma forallb_zrange (P : Z -> Prop) (f : Z -> bool) (n : nat) :
  (forall i, f i = true -> P i) -> forallb f (zrange n) = true ->
  forall i, 0 <= i < Z.of_nat n -> P i.
Proof.
  intros Hf Hall i Hi. apply Hf. rewrite forallb_forall in Hall.
  apply Hall. apply list_elem_of_In. by apply elem_of_zrange.
Qed.
