(* ===== verification/Slab.v ===== *)
(** * Page arithmetic and slab objects (align.h, slab.h, slab.c)

    [slab_obj_offset] packs the address of an 8-byte aligned object and the
    number of pages between the object's page and its slab into one word.
    [soo_make_spec] is the round trip of that packing; [slab_calculate_order]
    is the order search of the slab allocator, total and with bounded waste. *)

From S2P Require Import Prelude.

(** ** align.h *)

Definition ALIGN_MASK (x mask : Z) : Z := Z.land (x + mask) (Z.lnot mask).
Definition ALIGN (x a : Z) : Z := ALIGN_MASK x (a - 1).
Definition ALIGN_DOWN (x a : Z) : Z := ALIGN (x - (a - 1)) a.

(** ** config.h and slab.h constants *)

Definition PAGE_SHIFT : Z := 12.
Definition PAGE_MASK : Z := Z.shiftl 1 PAGE_SHIFT - 1.

Definition SOO_OFFSET_SHIFT : Z := 3.
Definition SOO_OFFSET_MASK : Z := Z.shiftl 1 SOO_OFFSET_SHIFT - 1.
Definition SOO_OBJ (soo : Z) : Z := Z.land soo (Z.lnot SOO_OFFSET_MASK).
Definition SOO_OFFSET (soo : Z) : Z := Z.land soo SOO_OFFSET_MASK.
Definition SOO_MAKE (obj offset : Z) : Z := Z.lor obj offset.

Definition SLAB_OBJ_ALIGN : Z := Z.shiftl 1 SOO_OFFSET_SHIFT.
Definition SLAB_ORDER_MAX : Z := SOO_OFFSET_SHIFT.
Definition SLAB_SIZE (order : Z) : Z := Z.shiftl (Z.shiftl 1 order) PAGE_SHIFT.
Definition SLAB_OBJ_MAX : Z := SLAB_SIZE SLAB_ORDER_MAX / SLAB_OBJ_ALIGN.
Definition SLAB_OBJ_SIZE_MAX : Z :=
  ALIGN_DOWN (SLAB_SIZE SLAB_ORDER_MAX / (Z.shiftl 1 SLAB_ORDER_MAX + 1))
    SLAB_OBJ_ALIGN.

(** ** slab.c *)

(** The inner [for] over the orders, for one [fraction]. *)
Fixpoint order_loop (obj_size fraction order : Z) (n : nat) : option Z :=
  match n with
  | O => None
  | S n' =>
      let data_size := SLAB_SIZE order in
      let rem := data_size mod obj_size in
      if rem <=? data_size / fraction then Some order
      else order_loop obj_size fraction (order + 1) n'
  end.

(** The outer [for] halves [fraction] from 16.  [fuel] bounds the number of
    fractions tried; at [fraction = 1] the test always succeeds. *)
Fixpoint fraction_loop (obj_size fraction : Z) (fuel : nat) : option Z :=
  match fuel with
  | O => None
  | S fuel' =>
      match order_loop obj_size fraction 0 (Z.to_nat (SLAB_ORDER_MAX + 1)) with
      | Some order => Some order
      | None => fraction_loop obj_size (fraction / 2) fuel'
      end
  end.

Definition slab_calculate_order (obj_size : Z) : option Z :=
  guard (obj_size mod SLAB_OBJ_ALIGN = 0);;
  guard (obj_size <= SLAB_OBJ_SIZE_MAX);;
  fraction_loop obj_size 16 5.

Definition soo_slab (soo : Z) : Z :=
  let page := Z.land soo (Z.lnot PAGE_MASK) in
  u64 (page - Z.shiftl (SOO_OFFSET soo) PAGE_SHIFT).

Definition soo_make (slab obj : Z) : option Z :=
  guard (Z.land obj SOO_OFFSET_MASK = 0);;
  guard (Z.land slab PAGE_MASK = 0);;
  let page := Z.land obj (Z.lnot PAGE_MASK) in
  let i := Z.shiftr (u64 (page - slab)) PAGE_SHIFT in
  let soo := SOO_MAKE obj i in
  guard (soo_slab soo = slab);;
  Some soo.

(** ** Rounding *)

Lemma ALIGN_eq x k : 0 <= k -> ALIGN x (2 ^ k) = x + 2 ^ k - 1 - (x + 2 ^ k - 1) mod 2 ^ k.
Proof.
  intros. unfold ALIGN, ALIGN_MASK. rewrite land_lnot_ones by lia.
  replace (x + (2 ^ k - 1)) with (x + 2 ^ k - 1) by lia. done.
Qed.

(** ALIGN rounds up to the next multiple: the result is a multiple of the
    alignment, at least [x] and less than one alignment above it. *)
Lemma ALIGN_spec x k :
  0 <= k -> ALIGN x (2 ^ k) mod 2 ^ k = 0 /\ x <= ALIGN x (2 ^ k) < x + 2 ^ k.
Proof.
  intros Hk. rewrite ALIGN_eq by done.
  pose proof (Z.pow_pos_nonneg 2 k ltac:(lia) Hk).
  pose proof (Z.mod_pos_bound (x + 2 ^ k - 1) (2 ^ k) ltac:(lia)).
  split; [|lia]. rewrite Zminus_mod_idemp_r. by rewrite Z.sub_diag, Z.mod_0_l by lia.
Qed.

Lemma ALIGN_DOWN_spec x k :
  0 <= k ->
  ALIGN_DOWN x (2 ^ k) mod 2 ^ k = 0 /\ x - 2 ^ k < ALIGN_DOWN x (2 ^ k) <= x.
Proof.
  intros Hk. unfold ALIGN_DOWN.
  destruct (ALIGN_spec (x - (2 ^ k - 1)) k Hk) as [? ?]. split; [done|lia].
Qed.

(** ** Packing and unpacking a slab object *)

Lemma SOO_OBJ_eq soo : SOO_OBJ soo = soo - soo mod 8.
Proof. exact (land_lnot_ones soo 3 ltac:(lia)). Qed.

Lemma SOO_OFFSET_eq soo : SOO_OFFSET soo = soo mod 8.
Proof. exact (land_mask soo 3 ltac:(lia)). Qed.

Lemma soo_slab_eq soo :
  soo_slab soo = u64 (soo - soo mod 4096 - soo mod 8 * 4096).
Proof.
  unfold soo_slab. rewrite SOO_OFFSET_eq, Z.shiftl_mul_pow2 by done.
  change PAGE_MASK with (2 ^ 12 - 1). by rewrite land_lnot_ones by done.
Qed.

(** An object that lies in the first eight pages of a page-aligned slab: the
    situation of every object [add_slab] creates. *)
Definition in_slab (slab obj : Z) : Prop :=
  slab mod 4096 = 0 /\ obj mod 8 = 0 /\ 0 <= slab /\
  slab <= obj < slab + 8 * 4096 /\ obj < 2 ^ 64.

(** The word [soo_make] builds. *)
Definition soo_of (slab obj : Z) : Z := obj + (obj - slab) / 4096.

Lemma soo_of_facts slab obj :
  in_slab slab obj ->
  SOO_OBJ (soo_of slab obj) = obj /\
  SOO_OFFSET (soo_of slab obj) = (obj - slab) / 4096 /\
  soo_slab (soo_of slab obj) = slab /\
  0 <= (obj - slab) / 4096 < 8.
Proof.
  intros (Hs & Ho & Hpos & Hin & Hlt). unfold soo_of.
  set (i := (obj - slab) / 4096).
  assert (0 <= i < 8) as Hi
    by (unfold i; split; [apply Z.div_pos; lia|apply Z.div_lt_upper_bound; lia]).
  assert ((obj + i) mod 8 = i) as Hm
    by (rewrite aligned_add by lia; by apply Z.mod_small).
  assert (obj mod 4096 = (obj - slab) mod 4096) as Hpg.
  { rewrite Zminus_mod, Hs, Z.sub_0_r, Z.mod_mod by lia. done. }
  assert ((obj + i) mod 4096 = obj mod 4096 + i) as Hpi.
  { rewrite Z.add_mod by lia. rewrite (Z.mod_small i) by lia.
    apply Z.mod_small.
    pose proof (Z.mod_pos_bound obj 4096 ltac:(lia)).
    enough (obj mod 4096 + 8 <= 4096) by lia.
    enough ((obj mod 4096) mod 8 = 0) as Hd.
    { pose proof (Z.div_mod (obj mod 4096) 8 ltac:(lia)). 
      assert (obj mod 4096 / 8 < 512) by (apply Z.div_lt_upper_bound; lia). lia. }
    rewrite Z.mod_mod_divide; [done|by exists 512]. }
  rewrite SOO_OBJ_eq, SOO_OFFSET_eq, soo_slab_eq, Hm, Hpi, Hpg.
  pose proof (Z.div_mod (obj - slab) 4096 ltac:(lia)) as Hdm. fold i in Hdm.
  split; [lia|]. split; [done|]. split; [|done].
  rewrite wrap_small by lia. lia.
Qed.

Lemma soo_make_eq slab obj :
  in_slab slab obj -> soo_make slab obj = Some (soo_of slab obj).
Proof.
  intros Hin. pose proof (soo_of_facts _ _ Hin) as (? & ? & Hsl & Hi).
  destruct Hin as (Hs & Ho & Hpos & Hin & Hlt). unfold soo_make.
  replace SOO_OFFSET_MASK with (2 ^ 3 - 1) by done.
  replace PAGE_MASK with (2 ^ 12 - 1) by done.
  rewrite !land_mask, land_lnot_ones by done. change (2 ^ 12) with 4096.
  assert (obj mod 4096 = (obj - slab) mod 4096) as Hpg.
  { rewrite (Zminus_mod obj slab).
    rewrite Hs, Z.sub_0_r, Z.mod_mod by lia. done. }
  assert (SOO_MAKE obj (Z.shiftr (u64 (obj - obj mod 4096 - slab)) PAGE_SHIFT)
          = soo_of slab obj) as ->.
  { pose proof (Z.div_mod (obj - slab) 4096 ltac:(lia)).
    pose proof (Z.mod_pos_bound (obj - slab) 4096 ltac:(lia)).
    rewrite Hpg, wrap_small by lia. rewrite Z.shiftr_div_pow2 by done.
    replace (obj - (obj - slab) mod 4096 - slab) with ((obj - slab) / 4096 * 2 ^ PAGE_SHIFT)
      by (change (2 ^ PAGE_SHIFT) with 4096; lia).
    rewrite Z.div_mul by done. unfold SOO_MAKE, soo_of. by apply (lor_disjoint_add _ _ 3). }
  opt_steps. done.
Qed.

(** ** The order search *)

Lemma order_loop_some obj_size fraction order n o :
  order_loop obj_size fraction order n = Some o ->
  order <= o < order + Z.of_nat n /\
  SLAB_SIZE o mod obj_size <= SLAB_SIZE o / fraction.
Proof.
  revert order. induction n as [|n IH]; intros order; cbn [order_loop]; [done|].
  case_match eqn:E; intros; simplify_eq.
  - split; [lia|]. by apply Z.leb_le.
  - destruct (IH (order + 1)); [done|]. split; [lia|done].
Qed.

Lemma fraction_loop_some obj_size fraction fuel o :
  fraction_loop obj_size fraction fuel = Some o -> 0 <= o <= SLAB_ORDER_MAX.
Proof.
  revert fraction. induction fuel as [|fuel IH]; intros fraction; cbn [fraction_loop];
    [done|].
  case_match eqn:E; intros; simplify_eq.
  - apply order_loop_some in E as [? _]. unfold SLAB_ORDER_MAX, SOO_OFFSET_SHIFT in *.
    lia.
  - eauto.
Qed.

Lemma order_loop_total obj_size : 0 < obj_size -> order_loop obj_size 1 0 4 = Some 0.
Proof.
  intros Hpos. cbn [order_loop]. rewrite Z.div_1_r.
  pose proof (Z.mod_le (SLAB_SIZE 0) obj_size ltac:(done) Hpos).
  by rewrite (proj2 (Z.leb_le _ _)).
Qed.

(** The loop has no exit of its own at the bottom: it ends because the
    fraction reaches one, at the fifth iteration at the latest. *)
Lemma fraction_loop_total obj_size :
  0 < obj_size -> is_Some (fraction_loop obj_size 16 5).
Proof.
  intros Hpos. unfold fraction_loop.
  change (16 / 2 / 2 / 2 / 2) with 1. change (Z.to_nat (SLAB_ORDER_MAX + 1)) with 4%nat.
  rewrite order_loop_total by done. repeat case_match; eauto.
Qed.

Lemma order_waste_table :
  forallb (fun i =>
    let s := 8 + 8 * i in
    match slab_calculate_order s with
    | Some o => 8 * (SLAB_SIZE o mod s) <=? SLAB_SIZE o
    | None => false
    end) (zrange 455) = true.
Proof. vm_compute. reflexivity. Qed.

(** ** Properties *)

(** An object of a slab (page aligned, at most eight pages) packed by
    [soo_make] unpacks to the same object and the same slab, no assertion of
    [soo_make] fails, and the word is not the null word 0 that ends a free
    list unless the object is at address 0. *)
Theorem soo_roundtrip slab obj (Hin : in_slab slab obj) :
  exists soo, soo_make slab obj = Some soo /\
    SOO_OBJ soo = obj /\ soo_slab soo = slab /\
    SOO_OFFSET soo = (obj - slab) / 4096 /\ (0 < obj -> soo <> 0).
Proof.
  exists (soo_of slab obj). destruct (soo_of_facts _ _ Hin) as (-> & -> & -> & Hi).
  rewrite soo_make_eq by done. unfold soo_of. repeat split; lia.
Qed.

Lemma soo_roundtrip_witness :
  in_slab 0x7f0000000000 0x7f0000005008 /\
  exists soo, soo_make 0x7f0000000000 0x7f0000005008 = Some soo /\
    soo_slab soo = 0x7f0000000000.
Proof.
  assert (in_slab 0x7f0000000000 0x7f0000005008) as H
    by (unfold in_slab; repeat split; vm_compute; done).
  split; [exact H|].
  destruct (soo_roundtrip _ _ H) as (soo & ? & ? & ? & _). by exists soo.
Defined.

(** The order search of [slab_calculate_order] terminates for every object
    size the allocator uses, returns an order of at most [SLAB_ORDER_MAX] and
    leaves at most an eighth of the slab unused. *)
Theorem slab_calculate_order_ok obj_size
    (Hpos : 0 < obj_size) (Hal : obj_size mod 8 = 0)
    (Hmax : obj_size <= SLAB_OBJ_SIZE_MAX) :
  exists o, slab_calculate_order obj_size = Some o /\
    0 <= o <= SLAB_ORDER_MAX /\
    8 * (SLAB_SIZE o mod obj_size) <= SLAB_SIZE o.
Proof.
  change SLAB_OBJ_SIZE_MAX with 3640 in Hmax.
  pose proof (Z.div_mod obj_size 8 ltac:(lia)) as Hd.
  set (P := fun i => exists o, slab_calculate_order (8 + 8 * i) = Some o /\
    8 * (SLAB_SIZE o mod (8 + 8 * i)) <= SLAB_SIZE o).
  assert (P (obj_size / 8 - 1)) as (o & Ho & Hw).
  { refine (forallb_zrange P _ 455 _ order_waste_table _ _); [|lia].
    intros i Hi. cbv beta zeta in Hi.
    destruct (slab_calculate_order (8 + 8 * i)) as [o|] eqn:E; [|done].
    exists o. split; [done|]. by apply Z.leb_le. }
  replace (8 + 8 * (obj_size / 8 - 1)) with obj_size in * by lia.
  exists o. split; [done|]. split; [|done].
  unfold slab_calculate_order in Ho.
  apply bind_Some in Ho as (? & _ & Ho). apply bind_Some in Ho as (? & _ & Ho).
  by eapply fraction_loop_some.
Qed.

Lemma slab_calculate_order_ok_witness :
  0 < 2976 /\ 2976 mod 8 = 0 /\ 2976 <= SLAB_OBJ_SIZE_MAX /\
  exists o, slab_calculate_order 2976 = Some o /\ 0 <= o <= SLAB_ORDER_MAX.
Proof.
  split; [lia|]. split; [reflexivity|].
  assert (2976 <= SLAB_OBJ_SIZE_MAX) as Hm by (vm_compute; discriminate).
  split; [exact Hm|].
  destruct (slab_calculate_order_ok 2976 ltac:(lia) ltac:(reflexivity) Hm)
    as (o & ? & ? & _). by exists o.
Defined.
