(* ===== verification/Words.v ===== *)
(** * Word memory (embed_pointer.h)

    The memory the intrusive data structures live in: a finite map from the
    addresses of 8-byte words to their 64-bit contents.  Reading or writing an
    address that is not mapped is a fault. *)

From S2P Require Import Prelude.

Abbreviation mem := (gmap Z Z).

Definition load (m : mem) (a : Z) : option Z := m !! a.
Definition store (m : mem) (a v : Z) : option mem :=
  match m !! a with Some _ => Some (<[a:=v]> m) | None => None end.

(** ** embed_pointer.h *)

Definition embed_ulong (m : mem) (obj v : Z) : option mem :=
  guard (obj mod 8 = 0);; store m obj v.
Definition embed_pointer (m : mem) (obj fp : Z) : option mem :=
  guard (obj mod 8 = 0);; embed_ulong m obj fp.
Definition embed_ulong_get (m : mem) (obj : Z) : option Z := load m obj.
Definition embed_pointer_get (m : mem) (obj : Z) : option Z := embed_ulong_get m obj.

(** ** Frames *)

(** [m'] differs from [m] at most on the addresses of [X], and maps the same
    addresses. *)
Definition frame (X : list Z) (m m' : mem) : Prop :=
  (forall a, a ∉ X -> m' !! a = m !! a) /\
  (forall a, is_Some (m !! a) -> is_Some (m' !! a)).

Lemma store_eq m a v : is_Some (m !! a) -> store m a v = Some (<[a:=v]> m).
Proof. unfold store. by intros [? ->]. Qed.

Lemma frame_refl X m : frame X m m.
Proof. by split. Qed.

Lemma frame_trans X m1 m2 m3 : frame X m1 m2 -> frame X m2 m3 -> frame X m1 m3.
Proof. intros [H1 H2] [H3 H4]. split; [|eauto]. intros a Ha. by rewrite H3, H1. Qed.

Lemma frame_mono X Y m m' : X ⊆ Y -> frame X m m' -> frame Y m m'.
Proof. intros HXY [H1 H2]. split; [|done]. intros a Ha. apply H1. set_solver. Qed.

Lemma frame_insert X m a v : a ∈ X -> frame X m (<[a:=v]> m).
Proof.
  intros Ha. split.
  - intros b Hb. apply lookup_insert_ne. set_solver.
  - intros b Hb. rewrite lookup_insert. by case_decide.
Qed.

Lemma insert_is_Some (m : mem) a b v : is_Some (m !! b) -> is_Some (<[a:=v]> m !! b).
Proof. rewrite lookup_insert. by case_decide. Qed.

#[export] Hint Resolve frame_refl insert_is_Some : umem.

(** Lookups in a memory built by stores, with address inequalities by [lia]. *)
Ltac map_lia :=
  repeat first [rewrite lookup_insert_eq | rewrite lookup_insert_ne by lia]; try done.
