(* ===== verification/Lists.v ===== *)
(** * Intrusive lists (list.h)

    [struct list_head] is two words, [prev] at offset 0 and [next] at 8;
    [struct hlist_head] is one word and [struct hlist_node] is [prev_next] at
    offset 0 (the address of the word that points to the node) and [next] at 8.
    The operations are the stores of list.h on word memory.  [ring] and
    [hlist] say which sequence of nodes a memory represents; the theorems show
    each operation to be the corresponding edit of that sequence and to touch
    only the words of the list. *)

From S2P Require Import Prelude Words.

(** ** struct list_head *)

Definition list_head_init (m : mem) (head : Z) : option mem :=
  m ← store m head head;
  store m (head + 8) head.

Definition list_empty (m : mem) (head : Z) : option bool :=
  next ← load m (head + 8);
  Some (bool_decide (next = head)).

Definition __list_add (m : mem) (new prev next : Z) : option mem :=
  guard (new ≠ prev /\ new ≠ next);;
  m ← store m new prev;
  m ← store m (new + 8) next;
  m ← store m (prev + 8) new;
  store m next new.

Definition list_add (m : mem) (head new : Z) : option mem :=
  next ← load m (head + 8);
  __list_add m new head next.

Definition __list_del (m : mem) (prev next : Z) : option mem :=
  guard (prev ≠ 0);;
  m ← store m (prev + 8) next;
  store m next prev.

Definition list_del (m : mem) (node : Z) : option mem :=
  prev ← load m node;
  next ← load m (node + 8);
  __list_del m prev next.

Definition list_fix (m : mem) (head : Z) : option mem :=
  prev ← load m head;
  m ← store m (prev + 8) head;
  next ← load m (head + 8);
  store m next head.

Definition list_lru_add (m : mem) (head new : Z) : option mem := list_add m head new.
Definition list_lru_del (m : mem) (node : Z) : option mem := list_del m node.
Definition list_lru_next_active (m : mem) (node : Z) : option Z := load m node.
Definition list_lru_peek (m : mem) (head : Z) : option Z :=
  e ← list_empty m head;
  guard (e = false);;
  load m head.

(** ** struct hlist_head and struct hlist_node *)

Definition hlist_head_init (m : mem) (head : Z) : option mem := store m head 0.

Definition hlist_empty (m : mem) (head : Z) : option bool :=
  first ← load m head;
  Some (bool_decide (first = 0)).

Definition hlist_add (m : mem) (head new : Z) : option mem :=
  m ← store m new head;
  first ← load m head;
  m ← store m (new + 8) first;
  m ← (if bool_decide (first = 0) then Some m else store m first (new + 8));
  store m head new.

Definition hlist_del (m : mem) (node : Z) : option mem :=
  prev_next ← load m node;
  next ← load m (node + 8);
  m ← store m prev_next next;
  if bool_decide (next = 0) then Some m else store m next prev_next.

Definition hlist_node_fix (m : mem) (node : Z) : option mem :=
  prev_next ← load m node;
  m ← store m prev_next node;
  next ← load m (node + 8);
  if bool_decide (next = 0) then Some m else store m next (node + 8).

(** ** Representation *)

(** The two words of each node. *)
Definition cells (l : list Z) : list Z := l ++ (Z.add 8 <$> l).
Arguments cells : simpl never.

(** From [x] the [next] words go through [l] to [y] and the [prev] words go
    back. *)
Fixpoint dseg (m : mem) (x : Z) (l : list Z) (y : Z) : Prop :=
  match l with
  | [] => m !! (x + 8) = Some y /\ m !! y = Some x
  | z :: l' => m !! (x + 8) = Some z /\ m !! z = Some x /\ dseg m z l' y
  end.

(** The nodes [l] form one ring, in this order. *)
Definition ring (m : mem) (l : list Z) : Prop :=
  match l with
  | [] => False
  | x :: l' => NoDup (cells l) /\ 0 ∉ l /\ dseg m x l' x
  end.

(** The list headed by [head] holds [l], the most recently added node first. *)
Definition dlist (m : mem) (head : Z) (l : list Z) : Prop := ring m (head :: l).

(** The word [slot] leads through the nodes of [l] to [NULL], and each node
    knows the word that points to it. *)
Fixpoint hseg (m : mem) (slot : Z) (l : list Z) : Prop :=
  match l with
  | [] => m !! slot = Some 0
  | n :: l' => m !! slot = Some n /\ m !! n = Some slot /\ hseg m (n + 8) l'
  end.

Definition hlist (m : mem) (head : Z) (l : list Z) : Prop :=
  NoDup (head :: cells l) /\ 0 ∉ l /\ hseg m head l.

(** ** Lemmas *)

Lemma elem_of_cells a l : a ∈ cells l <-> a ∈ l \/ a - 8 ∈ l.
Proof.
  unfold cells. rewrite elem_of_app, list_elem_of_fmap. split.
  - intros [?|(b & -> & ?)]; [by left|]. right. by replace (8 + b - 8) with b by lia.
  - intros [?|?]; [by left|]. right. exists (a - 8). split; [lia|done].
Qed.

Lemma cells_app_comm l1 l2 : cells (l1 ++ l2) ≡ₚ cells l1 ++ cells l2.
Proof. unfold cells. rewrite fmap_app. solve_Permutation. Qed.

Lemma cells_cons x l : cells (x :: l) ≡ₚ x :: (x + 8) :: cells l.
Proof.
  change (x :: l) with ([x] ++ l). rewrite cells_app_comm. unfold cells at 1. cbn.
  by rewrite (Z.add_comm 8).
Qed.

Lemma cells_perm l1 l2 : l1 ≡ₚ l2 -> cells l1 ≡ₚ cells l2.
Proof. intros H. unfold cells. by rewrite H. Qed.

(** What separation of a list of nodes means, as arithmetic facts. *)
Lemma NoDup_cells_facts x l :
  NoDup (cells (x :: l)) <->
  (forall y, y ∈ l -> x <> y /\ x <> y + 8 /\ y <> x + 8) /\ NoDup (cells l).
Proof.
  rewrite cells_cons, !NoDup_cons, not_elem_of_cons. split.
  - intros ([Hn H1] & H2 & H3). split; [|done]. intros y Hy.
    rewrite elem_of_cells in H1, H2. split; [naive_solver|]. split; [|naive_solver].
    intros ->. apply H1. right. by replace (y + 8 - 8) with y by lia.
  - intros [H Hnd]. split; [|split; [|done]].
    + split; [lia|]. rewrite elem_of_cells. intros [Hy|Hy]; apply H in Hy; lia.
    + rewrite elem_of_cells. intros [Hy|Hy]; apply H in Hy; lia.
Qed.

Lemma dseg_app m x l1 z l2 y :
  dseg m x (l1 ++ z :: l2) y <-> dseg m x l1 z /\ dseg m z l2 y.
Proof. revert x. induction l1 as [|w l1 IH]; intros x; cbn; [|rewrite IH]; tauto. Qed.

Lemma dseg_frame m m' x l y :
  dseg m x l y ->
  (forall a, a ∈ x :: l -> m' !! (a + 8) = m !! (a + 8)) ->
  (forall a, a ∈ l ++ [y] -> m' !! a = m !! a) ->
  dseg m' x l y.
Proof.
  revert x. induction l as [|z l IH]; intros x; cbn [dseg]; intros H Hn Hp.
  - rewrite Hn, Hp by set_solver. done.
  - rewrite Hn, Hp by set_solver. destruct H as (? & ? & ?).
    split; [done|]. split; [done|]. apply IH; set_solver.
Qed.

Lemma dseg_mapped m x l y a :
  dseg m x l y -> a ∈ l -> is_Some (m !! a) /\ is_Some (m !! (a + 8)).
Proof.
  revert x. induction l as [|z l IH]; intros x; cbn [dseg]; [set_solver|].
  intros (? & ? & Hd) [->|Ha]%elem_of_cons; [|by eapply IH].
  split; [eauto|]. destruct l; destruct Hd; eauto.
Qed.

Lemma ring_rotate m l1 l2 : ring m (l1 ++ l2) -> ring m (l2 ++ l1).
Proof.
  destruct l1 as [|x l1]; [by rewrite app_nil_r|].
  destruct l2 as [|z l2]; [by rewrite app_nil_r|].
  cbn [app ring]. rewrite !dseg_app. intros (Hnd & H0 & ? & ?). split_and!; try done.
  - rewrite cells_perm; [exact Hnd|]. rewrite !app_comm_cons. apply Permutation_app_comm.
  - set_solver.
Qed.

Lemma ring_mapped m l a :
  ring m l -> a ∈ l -> is_Some (m !! a) /\ is_Some (m !! (a + 8)).
Proof.
  destruct l as [|x l]; [done|]. intros (_ & _ & Hd) Ha.
  apply elem_of_cons in Ha as [->|Ha]; [|by eapply dseg_mapped].
  induction l as [|z l _] using rev_ind.
  - destruct Hd; eauto.
  - apply dseg_app in Hd as [Hl Hr]. split.
    + destruct Hr; eauto.
    + destruct l; destruct Hl; eauto.
Qed.

Lemma ring_frame m m' l :
  ring m l -> (forall a, a ∈ cells l -> m' !! a = m !! a) -> ring m' l.
Proof.
  destruct l as [|x l]; [done|]. intros (? & ? & Hd) Hf. split_and!; [done..|].
  eapply dseg_frame; [done|..]; intros a Ha; apply Hf, elem_of_cells.
  - right. by replace (a + 8 - 8) with a by lia.
  - left. set_solver.
Qed.

(** Local edits: between two neighbours. *)

Lemma __list_add_seg m new p n :
  dseg m p [] n -> is_Some (m !! new) -> is_Some (m !! (new + 8)) ->
  new <> p -> new <> n -> new + 8 <> p -> new + 8 <> n -> new <> p + 8 -> n <> p + 8 ->
  exists m', __list_add m new p n = Some m' /\ dseg m' p [new] n /\
    frame [new; new + 8; p + 8; n] m m'.
Proof.
  intros [Hp Hn] H1 H2 ??????. unfold __list_add. opt_steps.
  rewrite store_eq by done. cbn. rewrite store_eq by auto with umem. cbn.
  rewrite store_eq by eauto 6 with umem. cbn. rewrite store_eq by eauto 8 with umem.
  eexists; split; [done|]. split; [cbn; split_and!; map_lia|].
  repeat (eapply frame_trans; [|apply frame_insert; set_solver]). auto with umem.
Qed.

Lemma __list_del_seg m x p n :
  dseg m p [x] n -> p <> 0 -> n <> p + 8 ->
  exists m', list_del m x = Some m' /\ dseg m' p [] n /\ frame [p + 8; n] m m'.
Proof.
  intros (Hp & Hx & Hx8 & Hn) ??. unfold list_del, load. rewrite Hx, Hx8. cbn.
  unfold __list_del. opt_steps.
  rewrite store_eq by eauto. cbn. rewrite store_eq by eauto with umem.
  eexists; split; [done|]. split; [cbn; split; map_lia|].
  repeat (eapply frame_trans; [|apply frame_insert; set_solver]). auto with umem.
Qed.

Lemma list_fix_seg m x y p n :
  dseg m p [x] n -> m !! y = m !! x -> m !! (y + 8) = m !! (x + 8) ->
  y <> p + 8 -> y <> n -> p <> y -> n <> y + 8 -> n <> p + 8 ->
  exists m', list_fix m y = Some m' /\ dseg m' p [y] n /\ frame [p + 8; n] m m'.
Proof.
  intros (Hp & Hx & Hx8 & Hn) Hy Hy8 ?????. rewrite Hx in Hy. rewrite Hx8 in Hy8.
  unfold list_fix, load. rewrite Hy. cbn. rewrite store_eq by eauto. cbn.
  rewrite lookup_insert_ne, Hy8 by lia. cbn. rewrite store_eq by eauto with umem.
  eexists; split; [done|]. split; [cbn; split_and!; map_lia|].
  repeat (eapply frame_trans; [|apply frame_insert; set_solver]). auto with umem.
Qed.

(** Every ring is its first node's successor segment; the three shapes the
    edits below distinguish. *)
Lemma sep_ne l1 l2 x y :
  NoDup (cells (l1 ++ l2)) -> x ∈ l1 -> y ∈ l2 -> x <> y /\ x <> y + 8 /\ y <> x + 8.
Proof.
  intros Hnd (k1 & k2 & ->)%list_elem_of_split Hy.
  rewrite (cells_perm _ (x :: k1 ++ k2 ++ l2)) in Hnd by solve_Permutation.
  apply NoDup_cells_facts in Hnd as [Hf _]. apply Hf. set_solver.
Qed.

Lemma ring_list_add m head l new :
  ring m (head :: l) -> NoDup (cells (new :: head :: l)) -> new <> 0 ->
  is_Some (m !! new) -> is_Some (m !! (new + 8)) ->
  exists m', list_add m head new = Some m' /\ ring m' (head :: new :: l) /\
    frame (cells (new :: head :: l)) m m'.
Proof.
  intros (Hnd & H0 & Hd) Hnew ???.
  pose proof Hnew as [Hs _]%NoDup_cells_facts.
  pose proof Hnd as [Hs' _]%NoDup_cells_facts.
  assert (exists n, dseg m head [] n /\ n ∈ head :: l /\
    (forall m', dseg m' head [new] n ->
       frame [new; new + 8; head + 8; n] m m' -> dseg m' head (new :: l) head))
    as (n & Hn & Hin & Hrest).
  { destruct l as [|z l].
    - exists head. split; [done|]. split; [set_solver|]. intros m' Hm' _. exact Hm'.
    - destruct Hd as (Hh & Hz & Hd). exists z. split; [by split|]. split; [set_solver|].
      intros m' (? & ? & ? & ?) [Hf _]. cbn. split_and!; try done.
      apply (dseg_frame m); [done|..]; intros a Ha; apply Hf;
        rewrite !not_elem_of_cons; split_and!; try apply not_elem_of_nil.
      all: assert (a ∈ head :: z :: l) as Ha' by set_solver; pose proof (Hs _ Ha').
      all: pose proof (Hs head ltac:(set_solver)); pose proof (Hs' z ltac:(set_solver)).
      all: try lia.
      + assert (a ∈ z :: l) as Hal by set_solver. pose proof (Hs' _ Hal). lia.
      + assert (a ∈ z :: l) as Hal by set_solver. apply elem_of_cons in Hal as [->|Hal]; [lia|].
        apply NoDup_cells_facts in Hnd as [_ [Hz' _]%NoDup_cells_facts].
        pose proof (Hz' _ Hal). lia.
      + apply elem_of_app in Ha as [Ha|Ha%list_elem_of_singleton]; [|lia].
        pose proof (Hs' a ltac:(set_solver)). lia.
      + apply elem_of_app in Ha as [Ha|Ha%list_elem_of_singleton]; [|lia].
        apply NoDup_cells_facts in Hnd as [_ [Hz' _]%NoDup_cells_facts].
        pose proof (Hz' _ Ha). lia. }
  pose proof (Hs head ltac:(set_solver)). pose proof (Hs n Hin).
  assert (n <> head + 8) by (apply elem_of_cons in Hin as [->|Hin]; [lia|]; pose proof (Hs' _ Hin); lia).
  destruct (__list_add_seg m new head n) as (m' & He & Hseg & Hf); try done; try lia.
  exists m'. split; [|split].
  - unfold list_add, load. destruct Hn as [-> _]. exact He.
  - split_and!; [|set_solver|by apply Hrest].
    rewrite (cells_perm _ (new :: head :: l)) by solve_Permutation. done.
  - eapply frame_mono; [|exact Hf]. intros a. rewrite elem_of_cells, !elem_of_cons.
    intros [->|[->|[->|[->|[]%elem_of_nil]]]]; [naive_solver| | |].
    + right. replace (new + 8 - 8) with new by lia. naive_solver.
    + right. replace (head + 8 - 8) with head by lia. naive_solver.
    + left. set_solver.
Qed.

(** A ring of at least two nodes, seen from a node [x]: its predecessor [p]
    and successor [n] (equal in a ring of two) and the path between them. *)
Lemma ring_around m x l :
  ring m (x :: l) -> l <> [] ->
  exists p n r, dseg m p [x] n /\ p ∈ l /\ n ∈ l /\ n <> p + 8 /\ p <> 0 /\
    (l = [n] /\ p = n \/ l = n :: r ++ [p] /\ dseg m n r p).
Proof.
  intros (Hnd & H0 & Hd) Hl. destruct l as [|n l]; [done|].
  apply NoDup_cells_facts in Hnd as [Hx Hnd].
  induction l as [|p r _] using rev_ind.
  - exists n, n, []. cbn in *. split_and!; try set_solver; try lia; naive_solver.
  - exists p, n, r. cbn [dseg] in Hd. destruct Hd as (? & ? & Hd).
    apply dseg_app in Hd as [Hd [? ?]].
    apply NoDup_cells_facts in Hnd as [Hn _].
    pose proof (Hn p ltac:(set_solver)).
    split_and!; try set_solver; try lia; cbn; naive_solver.
Qed.

(** The path between the neighbours survives an edit at the neighbours. *)
Lemma dseg_between_frame m m' n r p :
  NoDup (cells (n :: r ++ [p])) -> dseg m n r p -> frame [p + 8; n] m m' ->
  dseg m' n r p.
Proof.
  intros [Hn Hnd]%NoDup_cells_facts Hd [Hf _].
  pose proof (sep_ne r [p]) as Hp.
  apply (dseg_frame m); [done|..]; intros a Ha; apply Hf;
    rewrite !not_elem_of_cons; split_and!; try apply not_elem_of_nil.
  - apply elem_of_cons in Ha as [->|Ha].
    + pose proof (Hn p ltac:(set_solver)). lia.
    + pose proof (Hp a p Hnd Ha ltac:(set_solver)). lia.
  - apply elem_of_cons in Ha as [->|Ha]; [lia|]. pose proof (Hn a ltac:(set_solver)). lia.
  - apply elem_of_app in Ha as [Ha| ->%list_elem_of_singleton]; [|lia].
    pose proof (Hp a p Hnd Ha ltac:(set_solver)). lia.
  - pose proof (Hn a Ha). lia.
Qed.

Lemma ring_list_del m x l :
  ring m (x :: l) -> l <> [] ->
  exists m', list_del m x = Some m' /\ ring m' l /\ frame (cells l) m m'.
Proof.
  intros Hr Hl. destruct (ring_around _ _ _ Hr Hl) as (p & n & r & Hs & Hp & Hn & ? & ? & Hc).
  destruct Hr as (Hnd & Hnz & _). apply NoDup_cells_facts in Hnd as [_ Hnd].
  destruct (__list_del_seg m x p n) as (m' & He & Hs' & Hf); [done..|].
  exists m'. split; [done|]. split.
  - destruct Hc as [[-> ->]|[-> Hd]]; (split; [done|split; [set_solver|]]); [done|].
    apply dseg_app. split; [by eapply dseg_between_frame|done].
  - eapply frame_mono; [|done]. intros a. rewrite elem_of_cells, !elem_of_cons.
    intros [->|[->|[]%elem_of_nil]]; [right; by replace (p + 8 - 8) with p by lia|by left].
Qed.

(** Replacing a node by a copy of it at another address. *)
Lemma ring_list_fix m x y l :
  ring m (x :: l) -> l <> [] -> NoDup (cells (y :: l)) -> y <> 0 ->
  m !! y = m !! x -> m !! (y + 8) = m !! (x + 8) ->
  exists m', list_fix m y = Some m' /\ ring m' (y :: l) /\ frame (cells l) m m'.
Proof.
  intros Hr Hl Hnd' ? Hy Hy8.
  destruct (ring_around _ _ _ Hr Hl) as (p & n & r & Hs & Hp & Hn & ? & ? & Hc).
  destruct Hr as (_ & Hnz & _). pose proof Hnd' as [Hyl Hnd]%NoDup_cells_facts.
  pose proof (Hyl p Hp). pose proof (Hyl n Hn).
  destruct (list_fix_seg m x y p n) as (m' & He & Hs' & Hf); [done|done|done|lia..|].
  exists m'. split; [done|]. split.
  - apply (ring_rotate m' l [y]). 
    destruct Hc as [[-> ->]|[-> Hd]]; cbn [app ring].
    + split_and!; [|set_solver|done].
      rewrite (cells_perm _ [y; n]) by solve_Permutation. done.
    + split_and!; [|set_solver|].
      * rewrite (cells_perm _ (y :: n :: r ++ [p])) by solve_Permutation. done.
      * rewrite <-app_assoc. cbn. apply dseg_app.
        split; [by eapply dseg_between_frame|done].
  - eapply frame_mono; [|done]. intros a. rewrite elem_of_cells, !elem_of_cons.
    intros [->|[->|[]%elem_of_nil]]; [right; by replace (p + 8 - 8) with p by lia|by left].
Qed.

(** ** hlist *)

Lemma hseg_frame m m' slot l :
  hseg m slot l ->
  (forall a, a ∈ slot :: cells l -> m' !! a = m !! a) -> hseg m' slot l.
Proof.
  revert slot. induction l as [|n l IH]; intros slot; cbn [hseg].
  - intros ? Hf. by rewrite Hf by set_solver.
  - intros (? & ? & ?) Hf. rewrite !Hf; [|rewrite cells_cons; set_solver..].
    split_and!; [done..|]. apply IH; [done|]. intros a Ha. apply Hf.
    rewrite cells_cons. set_solver.
Qed.

(** The word that points to the head of the rest after a prefix: the slot
    itself or the [next] word of the last node. *)
Definition slot_after (slot : Z) (l : list Z) : Z :=
  match last l with Some n => n + 8 | None => slot end.

Lemma slot_after_cons slot n l : slot_after slot (n :: l) = slot_after (n + 8) l.
Proof. unfold slot_after. rewrite last_cons. by destruct (last l). Qed.

Lemma slot_after_elem slot l : slot_after slot l ∈ slot :: cells l.
Proof.
  unfold slot_after. destruct (last l) as [n|] eqn:E; [|set_solver].
  apply last_Some in E as [l' ->]. apply elem_of_cons; right. apply elem_of_cells.
  right. replace (n + 8 - 8) with n by lia. set_solver.
Qed.

(** The part of the chain up to and including the word [slot_after slot l]
    holds the value [v] there. *)
Fixpoint hpre (m : mem) (slot : Z) (l : list Z) (v : Z) : Prop :=
  match l with
  | [] => m !! slot = Some v
  | n :: l' => m !! slot = Some n /\ m !! n = Some slot /\ hpre m (n + 8) l' v
  end.

Lemma hseg_split m slot l1 n l2 :
  hseg m slot (l1 ++ n :: l2) <->
  hpre m slot l1 n /\ m !! n = Some (slot_after slot l1) /\ hseg m (n + 8) l2.
Proof.
  revert slot. induction l1 as [|x l1 IH]; intros slot; cbn [app hseg hpre]; [done|].
  rewrite IH, slot_after_cons. tauto.
Qed.

Lemma hseg_pre m slot l : hseg m slot l <-> hpre m slot l 0.
Proof.
  revert slot. induction l as [|x l IH]; intros slot; cbn [hseg hpre]; [done|].
  by rewrite IH.
Qed.

Lemma hseg_join m slot l1 l2 v :
  hpre m slot l1 v ->
  match l2 with
  | [] => v = 0
  | n :: l2' => v = n /\ m !! n = Some (slot_after slot l1) /\ hseg m (n + 8) l2'
  end -> hseg m slot (l1 ++ l2).
Proof.
  intros Hp Hv. destruct l2 as [|n l2].
  - subst. rewrite app_nil_r. by apply hseg_pre.
  - destruct Hv as (-> & ? & ?). by apply hseg_split.
Qed.

(** Overwriting the pointer at the end of a prefix. *)
Lemma hpre_update m m' slot l v w :
  hpre m slot l v -> NoDup (slot :: cells l) ->
  m' !! slot_after slot l = Some w ->
  (forall a, a ∈ slot :: cells l -> a <> slot_after slot l -> m' !! a = m !! a) ->
  hpre m' slot l w.
Proof.
  revert slot. induction l as [|n l IH]; intros slot; cbn [hpre]; [done|].
  intros (Hs & Hn & Hp) Hnd Hw Hf. rewrite slot_after_cons in *.
  rewrite cells_cons in Hnd. setoid_rewrite cells_cons in Hf.
  apply NoDup_cons in Hnd as [Hslot Hnd]. apply NoDup_cons in Hnd as [Hnn Hnd].
  pose proof (slot_after_elem (n + 8) l) as Hin.
  split_and!.
  - rewrite Hf; [done|set_solver|]. intros Heq. apply Hslot. rewrite Heq. set_solver.
  - rewrite Hf; [done|set_solver|]. intros Heq. apply Hnn. by rewrite Heq at 1.
  - apply IH; try done. intros a Ha. apply Hf. set_solver.
Qed.

Lemma hpre_slot_mapped m slot l v : hpre m slot l v -> is_Some (m !! slot_after slot l).
Proof.
  revert slot. induction l as [|x l IH]; intros slot; cbn [hpre]; [cbn; eauto|].
  rewrite slot_after_cons. intros (_ & _ & ?). by apply IH.
Qed.

Lemma hseg_mapped m slot l a :
  hseg m slot l -> a ∈ slot :: cells l -> is_Some (m !! a).
Proof.
  revert slot. induction l as [|n l IH]; intros slot; cbn [hseg].
  - intros ? Ha. assert (a = slot) as -> by (unfold cells in Ha; set_solver). eauto.
  - intros (? & ? & ?). rewrite cells_cons, !elem_of_cons.
    intros [->|[->|Ha]]; [eauto..|]. apply (IH (n + 8)); [done|]. by apply elem_of_cons.
Qed.

Lemma hlist_add_ok m head l new :
  hlist m head l -> NoDup (head :: cells (new :: l)) -> new <> 0 ->
  is_Some (m !! new) -> is_Some (m !! (new + 8)) ->
  exists m', hlist_add m head new = Some m' /\ hlist m' head (new :: l) /\
    frame (head :: cells (new :: l)) m m'.
Proof.
  intros (Hnd & Hnz & Hs) Hnd' ? H1 H2. pose proof Hnd' as Hnd''.
  rewrite cells_cons in Hnd''.
  apply NoDup_cons in Hnd'' as [Hh [Hn [Hn8 _]%NoDup_cons]%NoDup_cons].
  assert (head <> new /\ head <> new + 8) as [? ?] by set_solver.
  assert (is_Some (m !! head)) by (destruct l; naive_solver).
  unfold hlist_add. rewrite store_eq by done. cbn. unfold load.
  rewrite lookup_insert_ne by done.
  destruct l as [|f l]; cbn [hseg] in Hs.
  - rewrite Hs. cbn. rewrite store_eq by auto with umem. cbn.
    rewrite bool_decide_eq_true_2 by done. cbn.
    rewrite store_eq by eauto with umem.
    eexists; split; [done|]. split.
    + split_and!; [done|set_solver|]. cbn. split_and!; map_lia.
    + repeat (eapply frame_trans; [|apply frame_insert; rewrite cells_cons; set_solver]).
      auto with umem.
  - destruct Hs as (Hhf & Hf & Hs). rewrite Hhf. cbn.
    assert (new <> f /\ new + 8 <> f /\ head <> f /\ new <> f + 8) as (? & ? & ? & ?).
    { rewrite cells_cons in Hn, Hn8, Hh. set_solver. }
    rewrite store_eq by auto with umem. cbn. rewrite bool_decide_eq_false_2 by set_solver.
    rewrite store_eq by eauto with umem. cbn. rewrite store_eq by eauto 6 with umem.
    eexists; split; [done|]. split.
    + split_and!; [done|set_solver|]. cbn. split_and!; map_lia.
      apply (hseg_frame m); [done|]. intros a Ha.
      apply NoDup_cons in Hnd as [Hh' Hnd]. rewrite cells_cons in *.
      apply NoDup_cons in Hnd as [Hf' Hnd].
      rewrite !lookup_insert_ne; set_solver.
    + repeat (eapply frame_trans;
        [|apply frame_insert; rewrite !cells_cons; set_solver]).
      auto with umem.
Qed.

(** The cells of a list split at a node. *)
Lemma cells_middle l1 n l2 :
  cells (l1 ++ n :: l2) ≡ₚ cells l1 ++ n :: (n + 8) :: cells l2.
Proof. by rewrite cells_app_comm, cells_cons. Qed.

Lemma hlist_del_ok m head l1 n l2 :
  hlist m head (l1 ++ n :: l2) ->
  exists m', hlist_del m n = Some m' /\ hlist m' head (l1 ++ l2) /\
    frame (head :: cells (l1 ++ l2)) m m'.
Proof.
  intros (Hnd & Hnz & Hs). rewrite cells_middle in Hnd.
  apply hseg_split in Hs as (Hp & Hn & Hs).
  pose proof (slot_after_elem head l1) as Hin. set (s := slot_after head l1) in *.
  assert (NoDup (head :: cells (l1 ++ l2))) as Hnd'.
  { rewrite cells_app_comm.
    assert (head :: cells l1 ++ n :: n + 8 :: cells l2
      ≡ₚ n :: n + 8 :: head :: cells l1 ++ cells l2) as Hperm by solve_Permutation.
    rewrite Hperm in Hnd. by apply NoDup_cons in Hnd as [_ [_ ?]%NoDup_cons]. }
  assert (NoDup (head :: cells l1)) as Hnd1.
  { rewrite app_comm_cons in Hnd. by apply NoDup_app in Hnd as [? _]. }
  assert (forall a, a ∈ head :: cells l1 -> a ∉ n :: n + 8 :: cells l2) as Hdis.
  { rewrite app_comm_cons in Hnd. by apply NoDup_app in Hnd as (_ & ? & _). }
  pose proof (hpre_slot_mapped _ _ _ _ Hp) as Hss. fold s in Hss.
  unfold hlist_del, load. rewrite Hn. cbn.
  destruct l2 as [|f l2]; cbn [hseg] in Hs.
  - rewrite Hs. cbn. rewrite store_eq by done. cbn.
    rewrite bool_decide_eq_true_2 by done.
    eexists; split; [done|]. split.
    + split_and!; [done|set_solver|]. rewrite app_nil_r. apply hseg_pre.
      eapply hpre_update; [done|done|by rewrite lookup_insert_eq|].
      intros a _ Ha. by rewrite lookup_insert_ne.
    + apply frame_insert. by rewrite app_nil_r.
  - destruct Hs as (Hn8 & Hf & Hs). rewrite Hn8. cbn. rewrite store_eq by done. cbn.
    rewrite bool_decide_eq_false_2 by set_solver.
    rewrite store_eq by eauto with umem.
    setoid_rewrite cells_cons in Hdis. pose proof (Hdis _ Hin) as Hsn.
    eexists; split; [done|]. split.
    + split_and!; [done|set_solver|]. eapply hseg_join.
      * eapply hpre_update; [done|done| |].
        -- rewrite lookup_insert_ne by set_solver. by rewrite lookup_insert_eq.
        -- intros a Ha ?. apply Hdis in Ha. rewrite !lookup_insert_ne; set_solver.
      * cbn. split; [done|]. split; [by rewrite lookup_insert_eq|].
        apply (hseg_frame m); [done|]. intros a Ha.
        rewrite app_comm_cons in Hnd. apply NoDup_app in Hnd as (_ & _ & Hnd).
        rewrite cells_cons in Hnd. rewrite !NoDup_cons in Hnd.
        rewrite !lookup_insert_ne; set_solver.
    + eapply frame_trans; apply frame_insert; rewrite cells_middle; [|set_solver].
      apply elem_of_cons in Hin as [->|?]; set_solver.
Qed.

(** Replacing a node of a hash chain by a copy of it at another address. *)
Lemma hlist_node_fix_ok m head l1 x y l2 :
  hlist m head (l1 ++ x :: l2) ->
  NoDup (head :: cells (l1 ++ y :: l2)) -> y <> 0 ->
  m !! y = m !! x -> m !! (y + 8) = m !! (x + 8) ->
  exists m', hlist_node_fix m y = Some m' /\ hlist m' head (l1 ++ y :: l2) /\
    frame (head :: cells (l1 ++ l2)) m m'.
Proof.
  intros (_ & Hnz & Hs) Hnd ? Hy Hy8. pose proof Hnd as Hnd'.
  rewrite cells_middle, app_comm_cons in Hnd'.
  apply hseg_split in Hs as (Hp & Hx & Hs). rewrite Hx in Hy.
  apply NoDup_app in Hnd' as (Hnd1 & Hdis & Hnd2).
  pose proof (slot_after_elem head l1) as Hin. pose proof (hpre_slot_mapped _ _ _ _ Hp) as Hss.
  set (s := slot_after head l1) in *. pose proof (Hdis _ Hin) as Hsn.
  apply NoDup_cons in Hnd2 as [Hyn Hnd2].
  unfold hlist_node_fix, load. rewrite Hy. cbn. rewrite store_eq by done. cbn.
  rewrite lookup_insert_ne, Hy8 by set_solver.
  destruct l2 as [|f l2]; cbn [hseg] in Hs.
  - rewrite Hs in *. cbn. rewrite bool_decide_eq_true_2 by done.
    eexists; split; [done|]. split.
    + split_and!; [done|set_solver|]. eapply hseg_join.
      * eapply hpre_update; [done|done|by rewrite lookup_insert_eq|].
        intros a _ Ha. by rewrite lookup_insert_ne.
      * cbn. split_and!; [done|..]; rewrite lookup_insert_ne by set_solver; done.
    + apply frame_insert. by rewrite app_nil_r.
  - destruct Hs as (Hx8 & Hf & Hs). rewrite Hx8 in *. cbn.
    rewrite bool_decide_eq_false_2 by set_solver. rewrite store_eq by eauto with umem.
    rewrite cells_cons in Hsn, Hyn, Hnd2. setoid_rewrite cells_cons in Hdis.
    rewrite !NoDup_cons in Hnd2. destruct Hnd2 as (Hy8n & Hfn & Hf8n & Hnd2).
    eexists; split; [done|]. split.
    + split_and!; [done|set_solver|]. eapply hseg_join.
      * eapply hpre_update; [done|done| |].
        -- rewrite lookup_insert_ne by set_solver. by rewrite lookup_insert_eq.
        -- intros a Ha ?. apply Hdis in Ha. rewrite !lookup_insert_ne; set_solver.
      * cbn. split; [done|]. split; [by rewrite !lookup_insert_ne by set_solver|].
        split; [by rewrite !lookup_insert_ne by set_solver|].
        split; [by rewrite lookup_insert_eq|].
        apply (hseg_frame m); [done|]. intros a Ha. rewrite !lookup_insert_ne; set_solver.
    + eapply frame_trans; apply frame_insert; rewrite cells_middle; [|set_solver].
      apply elem_of_cons in Hin as [->|?]; set_solver.
Qed.

Lemma dlist_list_del m head l1 x l2 :
  dlist m head (l1 ++ x :: l2) ->
  exists m', list_del m x = Some m' /\ dlist m' head (l1 ++ l2) /\
    frame (cells (head :: l1 ++ l2)) m m'.
Proof.
  unfold dlist. intros Hr. rewrite app_comm_cons in Hr. apply ring_rotate in Hr.
  destruct (ring_list_del m x (l2 ++ head :: l1)) as (m' & He & Hr' & Hf);
    [done|by destruct l2|].
  exists m'. split; [done|]. split.
  - rewrite app_comm_cons. by apply ring_rotate.
  - eapply frame_mono; [|exact Hf].
    intros a. by rewrite (cells_perm (l2 ++ head :: l1) (head :: l1 ++ l2)) by solve_Permutation.
Qed.

Lemma dlist_list_fix m head l1 x y l2 :
  dlist m head (l1 ++ x :: l2) -> NoDup (cells (head :: l1 ++ y :: l2)) -> y <> 0 ->
  m !! y = m !! x -> m !! (y + 8) = m !! (x + 8) ->
  exists m', list_fix m y = Some m' /\ dlist m' head (l1 ++ y :: l2) /\
    frame (cells (head :: l1 ++ l2)) m m'.
Proof.
  unfold dlist. intros Hr Hnd ???. rewrite app_comm_cons in Hr. apply ring_rotate in Hr.
  destruct (ring_list_fix m x y (l2 ++ head :: l1)) as (m' & He & Hr' & Hf);
    [done|by destruct l2| |done..|].
  { rewrite (cells_perm _ (head :: l1 ++ y :: l2)) by solve_Permutation. done. }
  exists m'. split; [done|]. split.
  - rewrite app_comm_cons. by apply (ring_rotate m' (y :: l2) (head :: l1)).
  - eapply frame_mono; [|exact Hf].
    intros a. by rewrite (cells_perm (l2 ++ head :: l1) (head :: l1 ++ l2)) by solve_Permutation.
Qed.

Lemma dlist_peek m head l x : dlist m head (l ++ [x]) -> list_lru_peek m head = Some x.
Proof.
  intros (Hnd & _ & Hd). unfold list_lru_peek, list_empty, load.
  apply NoDup_cells_facts in Hnd as [Hs _].
  assert (exists n, m !! (head + 8) = Some n /\ n <> head) as (n & Hn & ?).
  { destruct l as [|z l]; cbn in Hd; destruct Hd as [? _]; eexists; (split; [done|]);
      intros ->; [pose proof (Hs head) | pose proof (Hs head)]; set_solver. }
  rewrite Hn. cbn. rewrite bool_decide_eq_false_2 by done. cbn.
  apply dseg_app in Hd as [_ [_ ->]]. done.
Qed.

(** ** Decidability, for evaluation on concrete memories *)

#[export] Instance dseg_dec m x l y : Decision (dseg m x l y).
Proof. revert x. induction l; intros x; cbn; apply _. Defined.
#[export] Instance ring_dec m l : Decision (ring m l).
Proof. destruct l; cbn; apply _. Defined.
#[export] Instance dlist_dec m head l : Decision (dlist m head l).
Proof. unfold dlist. apply _. Defined.
#[export] Instance hseg_dec m slot l : Decision (hseg m slot l).
Proof. revert slot. induction l; intros slot; cbn; apply _. Defined.
#[export] Instance hlist_dec m head l : Decision (hlist m head l).
Proof. unfold hlist. apply _. Defined.

(** Memory built by initialising a list at 16 and adding the nodes 32, 48, 64. *)
Definition mem_zero (words : list Z) : mem := list_to_map ((fun a => (a, 0)) <$> words).

Definition sample_dlist : mem := default ∅ (
  let m := mem_zero ((fun i => 16 + 8 * i) <$> zrange 10) in
  m ← list_head_init m 16;
  m ← list_lru_add m 16 64;
  m ← list_lru_add m 16 48;
  list_lru_add m 16 32).

Definition sample_hlist : mem := default ∅ (
  let m := mem_zero ((fun i => 16 + 8 * i) <$> zrange 10) in
  m ← hlist_head_init m 16;
  m ← hlist_add m 16 64;
  m ← hlist_add m 16 48;
  hlist_add m 16 32).

(** ** Properties *)

(** On the words of the list alone, [list_lru_add] puts a node at the
    recent end of an lru list, [list_lru_del] takes any node out, and
    [list_lru_peek] of the result is the oldest node; no store faults and no
    assertion fails. *)
Theorem list_lru_queue m head l1 x l2 new
    (Hl : dlist m head (l1 ++ x :: l2))
    (Hsep : NoDup (cells (new :: head :: l1 ++ x :: l2))) (Hnew : new <> 0)
    (Hm : is_Some (m !! new)) (Hm8 : is_Some (m !! (new + 8))) :
  exists m1 m2, list_lru_add m head new = Some m1 /\
    dlist m1 head (new :: l1 ++ x :: l2) /\
    frame (cells (new :: head :: l1 ++ x :: l2)) m m1 /\
    list_lru_peek m1 head = last (x :: l2) /\
    list_lru_del m1 x = Some m2 /\ dlist m2 head (new :: l1 ++ l2) /\
    frame (cells (head :: new :: l1 ++ l2)) m1 m2 /\
    list_lru_peek m2 head = last (new :: l1 ++ l2).
Proof.
  destruct (ring_list_add m head (l1 ++ x :: l2) new) as (m1 & Ha & Hr1 & Hf1); [done..|].
  destruct (dlist_list_del m1 head (new :: l1) x l2) as (m2 & Hd & Hr2 & Hf2); [done|].
  assert (forall m' l y, dlist m' head l -> last l = Some y -> list_lru_peek m' head = Some y)
    as Hpk.
  { intros m' l y Hd' (l' & ->)%last_Some. by apply (dlist_peek m' head l'). }
  exists m1, m2. split_and!; try done.
  - rewrite last_cons_default. eapply Hpk; [exact Hr1|].
    by rewrite app_comm_cons, last_app_cons, last_cons_default.
  - rewrite last_cons_default. eapply Hpk; [exact Hr2|]. apply last_cons_default.
Qed.

Lemma list_lru_queue_witness :
  dlist sample_dlist 16 [32; 48; 64] /\
  exists m1 m2, list_lru_add sample_dlist 16 80 = Some m1 /\
    list_lru_del m1 48 = Some m2 /\
    dlist m2 16 [80; 32; 64] /\ list_lru_peek m2 16 = Some 64.
Proof.
  split; [decide_now|].
  destruct (list_lru_queue sample_dlist 16 [32] 48 [64] 80)
    as (m1 & m2 & ? & ? & ? & ? & ? & ? & ? & ?);
    [decide_now|decide_now|done|by eexists|by eexists|].
  by exists m1, m2.
Defined.

(** Deleting the head of a non-empty list leaves its first node as the head
    of a list of the remaining nodes in the same order: how the first waiter
    of a failed key lock takes over the queue of waiters. *)
Theorem list_del_promotes_first m head first l
    (Hl : dlist m head (first :: l)) :
  exists m', list_del m head = Some m' /\ dlist m' first l /\
    frame (cells (first :: l)) m m'.
Proof. by apply ring_list_del. Qed.

Lemma list_del_promotes_first_witness :
  exists m', list_del sample_dlist 16 = Some m' /\ dlist m' 32 [48; 64].
Proof.
  destruct (list_del_promotes_first sample_dlist 16 32 [48; 64]) as (m' & ? & ? & _);
    [decide_now|].
  by exists m'.
Defined.

(** [hlist_add] puts a node in front of a chain and [hlist_del] takes a node
    out of any position of a chain, each node keeping the address of the word
    that points to it; no other word of memory changes. *)
Theorem hlist_chain_edit m head l1 x l2 new
    (Hl : hlist m head (l1 ++ x :: l2))
    (Hsep : NoDup (head :: cells (new :: l1 ++ x :: l2))) (Hnew : new <> 0)
    (Hm : is_Some (m !! new)) (Hm8 : is_Some (m !! (new + 8))) :
  exists m1 m2, hlist_add m head new = Some m1 /\
    hlist m1 head (new :: l1 ++ x :: l2) /\
    frame (head :: cells (new :: l1 ++ x :: l2)) m m1 /\
    hlist_del m1 x = Some m2 /\ hlist m2 head (new :: l1 ++ l2) /\
    frame (head :: cells (new :: l1 ++ l2)) m1 m2.
Proof.
  destruct (hlist_add_ok m head (l1 ++ x :: l2) new) as (m1 & ? & Hl1 & ?); [done..|].
  destruct (hlist_del_ok m1 head (new :: l1) x l2) as (m2 & ? & ? & ?); [done|].
  by exists m1, m2.
Qed.

Lemma hlist_chain_edit_witness :
  exists m1 m2, hlist_add sample_hlist 16 80 = Some m1 /\
    hlist_del m1 64 = Some m2 /\ hlist m2 16 [80; 32; 48].
Proof.
  destruct (hlist_chain_edit sample_hlist 16 [32; 48] 64 [] 80)
    as (m1 & m2 & ? & ? & ? & ? & ? & ?);
    [decide_now|decide_now|done|by eexists|by eexists|].
  by exists m1, m2.
Defined.

(** After the bytes of an object have been copied to a new address,
    [list_fix] puts the copy in the place of the original in its lru list, and
    [hlist_node_fix] does so in its hash chain: the step that lets the slab
    allocator move a live object. *)
Theorem relocate_node m head l1 x y l2 hhead k1 h h' k2
    (Hl : dlist m head (l1 ++ x :: l2)) (Hh : hlist m hhead (k1 ++ h :: k2))
    (Hsep : NoDup (cells (head :: l1 ++ y :: l2)))
    (Hsep' : NoDup (hhead :: cells (k1 ++ h' :: k2)))
    (Hdis : forall a, a ∈ cells (head :: l1 ++ l2) ->
              a ∉ hhead :: cells (h' :: k1 ++ h :: k2))
    (Hnz : y <> 0 /\ h' <> 0)
    (Hy : m !! y = m !! x) (Hy8 : m !! (y + 8) = m !! (x + 8))
    (Hh' : m !! h' = m !! h) (Hh8 : m !! (h' + 8) = m !! (h + 8)) :
  exists m1 m2, list_fix m y = Some m1 /\ hlist_node_fix m1 h' = Some m2 /\
    dlist m1 head (l1 ++ y :: l2) /\ hlist m2 hhead (k1 ++ h' :: k2).
Proof.
  destruct (dlist_list_fix m head l1 x y l2) as (m1 & ? & ? & Hf); [naive_solver..|].
  assert (forall a, a ∈ hhead :: cells (h' :: k1 ++ h :: k2) -> m1 !! a = m !! a) as Heq.
  { intros a Ha. apply Hf. intros Hc. by apply (Hdis a). }
  assert (forall a, a ∈ cells (k1 ++ h :: k2) -> a ∈ cells (h' :: k1 ++ h :: k2)) as Hsub
    by (intros a Ha; rewrite cells_cons; set_solver).
  destruct Hh as (Hnd & Hk & Hs).
  destruct (hlist_node_fix_ok m1 hhead k1 h h' k2) as (m2 & ? & ? & _).
  - split_and!; [done..|]. apply (hseg_frame m); [done|]. set_solver.
  - done.
  - naive_solver.
  - rewrite !Heq; [done|..]; rewrite cells_cons, ?cells_middle; set_solver.
  - rewrite !Heq; [done|..]; rewrite cells_cons, ?cells_middle; set_solver.
  - by exists m1, m2.
Qed.

(** Two nodes of a list at 8 and a hash chain at 24 in one object at 64 copied
    to 128. *)
Definition sample_reloc : mem := default ∅ (
  let m := mem_zero ((fun i => 8 + 8 * i) <$> zrange 24) in
  m ← list_head_init m 8;
  m ← hlist_head_init m 24;
  m ← list_lru_add m 8 64;
  m ← hlist_add m 24 80;
  foldl (fun om i => m ← om; v ← load m (64 + 8 * i); store m (128 + 8 * i) v)
    (Some m) (zrange 4)).

Lemma relocate_node_witness :
  exists m1 m2, list_fix sample_reloc 128 = Some m1 /\
    hlist_node_fix m1 144 = Some m2 /\ dlist m1 8 [128] /\ hlist m2 24 [144].
Proof.
  destruct (relocate_node sample_reloc 8 [] 64 128 [] 24 [] 80 144 [])
    as (m1 & m2 & ? & ? & ? & ?);
    [decide_now|decide_now|decide_now|decide_now| |done|reflexivity..|].
  - intros a. unfold cells. cbn. set_solver by lia.
  - by exists m1, m2.
Defined.
