(* ===== verification/FixedMemCache.v ===== *)
(** * The fixed object pool (fixed_mem_cache.h, fixed_mem_cache.c)

    A LIFO free list threaded through the first word of the free objects; the
    pool of connections of a thread.  [pool_step] runs it together with its
    clients, which own the memory of the objects they hold. *)

From S2P Require Import Prelude Words.

Record fixed_mem_cache := { next_free : Z }.

(** The [for] loop of [fixed_mem_cache_init], [n] iterations left. *)
Fixpoint init_loop (m : mem) (next ptr size : Z) (n : nat) : option (mem * Z) :=
  match n with
  | O => Some (m, next)
  | S n' =>
      m ← embed_pointer m ptr next;
      init_loop m ptr (ptr + size) size n'
  end.

Definition fixed_mem_cache_init (m : mem) (ptr size n : Z)
    : option (mem * fixed_mem_cache) :=
  guard (size mod 8 = 0);;
  '(m, next) ← init_loop m 0 ptr size (Z.to_nat n);
  Some (m, {| next_free := next |}).

(** The allocated object, 0 for [NULL]. *)
Definition fixed_mem_cache_malloc (m : mem) (cache : fixed_mem_cache)
    : option (Z * fixed_mem_cache) :=
  if bool_decide (next_free cache = 0) then Some (0, cache)
  else
    let obj := next_free cache in
    next ← embed_pointer_get m obj;
    Some (obj, {| next_free := next |}).

Definition fixed_mem_cache_free (m : mem) (cache : fixed_mem_cache) (obj : Z)
    : option (mem * fixed_mem_cache) :=
  m ← embed_pointer m obj (next_free cache);
  Some (m, {| next_free := obj |}).

(** ** Representation *)

Definition is_obj (m : mem) (a : Z) : Prop :=
  a <> 0 /\ a mod 8 = 0 /\ is_Some (m !! a).

#[export] Instance is_obj_dec m a : Decision (is_obj m a).
Proof. unfold is_obj. apply _. Defined.

(** The free list that starts at [p] is [l]. *)
Fixpoint chain (m : mem) (p : Z) (l : list Z) : Prop :=
  match l with
  | [] => p = 0
  | a :: l' => p = a /\ is_obj m a /\ exists q, m !! a = Some q /\ chain m q l'
  end.

Lemma chain_frame m m' p l :
  chain m p l -> (forall a, a ∈ l -> m' !! a = m !! a) -> chain m' p l.
Proof.
  revert p. induction l as [|a l IH]; intros p; cbn [chain]; [done|].
  intros (-> & (? & ? & ?) & q & Hq & Hc) Hf. split; [done|].
  unfold is_obj. rewrite Hf by set_solver. split_and!; try done.
  exists q. split; [done|]. apply IH; [done|]. intros b ?. apply Hf. set_solver.
Qed.

Lemma chain_push m a p l :
  chain m p l -> is_obj m a -> a ∉ l -> chain (<[a:=p]> m) a (a :: l).
Proof.
  intros Hc (? & ? & ?) Ha. cbn. split; [done|]. split.
  - unfold is_obj. rewrite lookup_insert_eq. eauto.
  - exists p. rewrite lookup_insert_eq. split; [done|].
    eapply chain_frame; [done|]. intros b Hb. apply lookup_insert_ne. set_solver.
Qed.

(** The addresses of an array of [n] objects. *)
Definition objects (ptr size : Z) (n : nat) : list Z :=
  (fun i => ptr + size * i) <$> zrange n.

Lemma objects_S ptr size n :
  objects ptr size (S n) = ptr :: objects (ptr + size) size n.
Proof.
  unfold objects, zrange. cbn [seq fmap list_fmap]. f_equal; [lia|].
  rewrite <-fmap_S_seq, <-!list_fmap_compose. apply list_fmap_ext.
  intros ? x _. cbn. lia.
Qed.

Lemma elem_of_objects a ptr size n :
  a ∈ objects ptr size n -> exists i, a = ptr + size * i /\ 0 <= i < Z.of_nat n.
Proof. intros (i & -> & Hi%elem_of_zrange)%list_elem_of_fmap. eauto. Qed.

Lemma NoDup_objects ptr size n : size <> 0 -> NoDup (objects ptr size n).
Proof.
  intros. apply NoDup_fmap_2_strong; [intros; nia|].
  apply NoDup_fmap_2, NoDup_seq. apply _.
Qed.

Lemma init_loop_ok m next l ptr size n :
  chain m next l -> size mod 8 = 0 -> size <> 0 ->
  Forall (is_obj m) (objects ptr size n) ->
  (forall a, a ∈ objects ptr size n -> a ∉ l) ->
  exists m' next', init_loop m next ptr size n = Some (m', next') /\
    chain m' next' (reverse (objects ptr size n) ++ l) /\
    frame (objects ptr size n) m m'.
Proof.
  revert m next l ptr. induction n as [|n IH]; intros m next l ptr Hc Hs8 Hs0 Hobj Hdis.
  - exists m, next. cbn. auto with umem.
  - pose proof (NoDup_objects ptr size (S n) Hs0) as Hnd.
    rewrite objects_S in *. rewrite reverse_cons, <-app_assoc.
    apply NoDup_cons in Hnd as [Hp Hnd].
    apply Forall_cons in Hobj as [Hpo Hobj]. pose proof Hpo as (? & ? & ?).
    cbn [init_loop]. unfold embed_pointer, embed_ulong. opt_steps.
    rewrite store_eq by done. cbn.
    destruct (IH (<[ptr:=next]> m) ptr (ptr :: l) (ptr + size)) as (m' & p' & He & Hch & Hf).
    + apply chain_push; [done|done|]. apply Hdis. set_solver.
    + done.
    + done.
    + eapply Forall_impl; [done|]. intros a (? & ? & ?).
      unfold is_obj. eauto with umem.
    + intros a Ha. rewrite not_elem_of_cons. split; [by intros ->|].
      apply Hdis. by apply elem_of_cons; right.
    + exists m', p'. split; [done|]. split; [done|].
      eapply frame_trans; [apply frame_insert; by left|].
      eapply frame_mono; [|done]. by intros a Ha; right.
Qed.

(** ** The pool and its clients *)

Record pool := { pmem : mem; pcache : fixed_mem_cache; live : list Z }.

(** A client may allocate, return an object it holds, or write to the objects
    it holds. *)
Inductive pool_step : pool -> pool -> Prop :=
| step_malloc p obj c :
    fixed_mem_cache_malloc (pmem p) (pcache p) = Some (obj, c) -> obj <> 0 ->
    pool_step p {| pmem := pmem p; pcache := c; live := obj :: live p |}
| step_null p c :
    fixed_mem_cache_malloc (pmem p) (pcache p) = Some (0, c) ->
    pool_step p {| pmem := pmem p; pcache := c; live := live p |}
| step_free p obj l m c :
    live p ≡ₚ obj :: l ->
    fixed_mem_cache_free (pmem p) (pcache p) obj = Some (m, c) ->
    pool_step p {| pmem := m; pcache := c; live := l |}
| step_write p a v :
    a ∈ live p ->
    pool_step p {| pmem := <[a:=v]> (pmem p); pcache := pcache p; live := live p |}.

(** The free list and the objects held by clients partition the array. *)
Definition pool_inv (objs : list Z) (p : pool) : Prop :=
  exists free, chain (pmem p) (next_free (pcache p)) free /\
    free ++ live p ≡ₚ objs /\ NoDup objs /\ Forall (is_obj (pmem p)) objs.

Lemma pool_step_inv objs p p' : pool_inv objs p -> pool_step p p' -> pool_inv objs p'.
Proof.
  intros (free & Hc & Hp & Hnd & Hobj) Hstep.
  assert (forall a v, Forall (is_obj (<[a:=v]> (pmem p))) objs) as Hobj'.
  { intros a v. eapply Forall_impl; [done|]. intros b (? & ? & ?).
    unfold is_obj. eauto with umem. }
  assert (NoDup (free ++ live p)) as Hnd' by by rewrite Hp.
  destruct Hstep as [p obj c He|p c He|p obj l m c Hl He|p a v Ha].
  - unfold fixed_mem_cache_malloc in He. case_bool_decide as E; [by simplify_eq|].
    destruct free as [|a free]; cbn in Hc; [done|]. destruct Hc as (Ha & _ & q & Hq & Hc).
    unfold embed_pointer_get, embed_ulong_get, load in He. rewrite Ha, Hq in He.
    cbn in He. simplify_eq.
    exists free. split_and!; try done. cbn. rewrite <-Hp. solve_Permutation.
  - exists free. split_and!; try done. unfold fixed_mem_cache_malloc in He.
    case_bool_decide as E; [by simplify_eq|].
    destruct free as [|a free]; cbn in Hc; [done|]. destruct Hc as (Ha & (? & _) & q & Hq & Hc).
    unfold embed_pointer_get, embed_ulong_get, load in He. rewrite Ha, Hq in He.
    cbn in He. by simplify_eq.
  - assert (obj ∈ objs) as Hin by (rewrite <-Hp, Hl; set_solver).
    pose proof (proj1 (Forall_forall _ _) Hobj _ Hin) as Ho. pose proof Ho as (? & ? & ?).
    rewrite Hl in Hnd'. apply NoDup_middle in Hnd' as [Hnin _].
    unfold fixed_mem_cache_free, embed_pointer, embed_ulong in He.
    rewrite !option_guard_True in He by done. cbn in He.
    rewrite store_eq in He by done. cbn in He. simplify_eq.
    exists (obj :: free). split_and!; cbn; try done.
    + apply chain_push; [done|done|set_solver].
    + rewrite <-Hp, Hl. solve_Permutation.
  - exists free. split_and!; cbn; try done. eapply chain_frame; [done|].
    intros b Hb. apply lookup_insert_ne. intros ->.
    apply NoDup_app in Hnd' as (_ & Hd & _). by apply (Hd b).
Qed.

(** ** Properties *)

(** C33: from [fixed_mem_cache_init] on, whatever sequence of allocations, frees
    of held objects and writes to held objects the clients perform, an object
    is never handed out twice: the held objects are distinct objects of the
    array, and an allocation fails exactly when all of them are held. *)
Theorem fixed_mem_cache_no_double_alloc m ptr size n m0 c0 p
    (Hn : 0 <= n) (Hsize : 0 < size) (Hsize8 : size mod 8 = 0)
    (Hobj : Forall (is_obj m) (objects ptr size (Z.to_nat n)))
    (Hinit : fixed_mem_cache_init m ptr size n = Some (m0, c0))
    (Hrun : rtc pool_step {| pmem := m0; pcache := c0; live := [] |} p) :
  NoDup (live p) /\ (forall a, a ∈ live p -> a ∈ objects ptr size (Z.to_nat n)) /\
  exists obj c, fixed_mem_cache_malloc (pmem p) (pcache p) = Some (obj, c) /\
    (obj = 0 <-> length (live p) = Z.to_nat n) /\
    (obj <> 0 -> obj ∉ live p /\ obj ∈ objects ptr size (Z.to_nat n)).
Proof.
  assert (pool_inv (objects ptr size (Z.to_nat n)) p) as (free & Hc & Hp & Hnd & Ho).
  { eapply (rtc_ind_r (fun q => pool_inv _ q)); [| |exact Hrun].
    - unfold fixed_mem_cache_init in Hinit. rewrite option_guard_True in Hinit by done.
      destruct (init_loop_ok m 0 [] ptr size (Z.to_nat n)) as (m' & p' & He & Hch & Hf);
        [done|done|lia|done|set_solver|].
      cbn in Hinit. rewrite He in Hinit. cbn in Hinit. simplify_eq.
      exists (reverse (objects ptr size (Z.to_nat n))). cbn.
      rewrite app_nil_r in Hch. split_and!; [done| |apply NoDup_objects; lia|].
      + by rewrite app_nil_r, reverse_Permutation.
      + eapply Forall_impl; [exact Hobj|]. intros a (? & ? & ?).
        destruct Hf as [_ Hf]. unfold is_obj. eauto.
    - intros q q' _ Hs Hi. by eapply pool_step_inv. }
  assert (NoDup (free ++ live p)) as Hnd' by by rewrite Hp.
  apply NoDup_app in Hnd' as (_ & Hdis & Hl). split; [done|]. split.
  { intros a Ha. rewrite <-Hp. set_solver. }
  assert (length free + length (live p) = Z.to_nat n)%nat as Hlen.
  { rewrite <-length_app, Hp. unfold objects, zrange. by rewrite !length_fmap, length_seq. }
  unfold fixed_mem_cache_malloc. destruct free as [|a free]; cbn in Hc.
  - rewrite bool_decide_eq_true_2 by done. exists 0, (pcache p).
    split; [done|]. cbn in Hlen. split; [|done]. split; lia.
  - destruct Hc as (-> & (? & _) & q & Hq & Hc).
    rewrite bool_decide_eq_false_2 by done.
    unfold embed_pointer_get, embed_ulong_get, load. rewrite Hq. cbn.
    exists a, {| next_free := q |}. split; [done|]. cbn in Hlen. split; [split; [done|lia]|].
    intros _. split; [set_solver|]. rewrite <-Hp. set_solver.
Qed.

(** Four objects of 16 bytes at 64. *)
Definition sample_pool : mem := list_to_map ((fun i => (64 + 16 * i, 7)) <$> zrange 4).

Lemma fixed_mem_cache_no_double_alloc_witness :
  exists m0 c0 p, fixed_mem_cache_init sample_pool 64 16 4 = Some (m0, c0) /\
    rtc pool_step {| pmem := m0; pcache := c0; live := [] |} p /\
    live p = [112] /\ NoDup (live p).
Proof.
  destruct (fixed_mem_cache_init sample_pool 64 16 4) as [[m0 c0]|] eqn:E;
    [|by vm_compute in E].
  assert (rtc pool_step {| pmem := m0; pcache := c0; live := [] |}
    {| pmem := m0; pcache := {| next_free := 96 |}; live := [112] |}) as Hr.
  { apply rtc_once. refine (step_malloc _ 112 _ _ _); [|done].
    vm_compute in E. injection E as <- <-. reflexivity. }
  exists m0, c0, {| pmem := m0; pcache := {| next_free := 96 |}; live := [112] |}.
  split; [reflexivity|]. split; [exact Hr|]. split; [reflexivity|].
  apply (fixed_mem_cache_no_double_alloc sample_pool 64 16 4 m0 c0 _ ltac:(lia) ltac:(lia)
    ltac:(reflexivity)); [|exact E|exact Hr].
  decide_now.
Defined.
