(* ===== verification/Memory.v ===== *)
(** * The page budget of a thread (memory.h, memory.c)

    [memory] counts the pages a thread may still map.  [mmap] and [munmap] are
    system calls: an operation takes the outcome of the call it makes as an
    argument. *)

From S2P Require Import Prelude Slab.

Record memory := { free_pages : Z }.

Definition memory_init (page : Z) : memory := {| free_pages := page |}.

(** The length [sys_malloc] and [sys_free] pass to the system. *)
Definition sys_len (page : Z) : Z := u64 (Z.shiftl page PAGE_SHIFT).

(** [mmap len] is the address the system call returns, [None] for
    [MAP_FAILED]. *)
Definition sys_malloc (mmap : Z -> option Z) (page : Z) : option Z :=
  mmap (sys_len page).

(** [munmap ptr len = true] when the system call returns 0, which the code
    asserts. *)
Definition sys_free (munmap : Z -> Z -> bool) (ptr page : Z) : option unit :=
  guard (munmap ptr (sys_len page) = true);; Some tt.

Definition memory_malloc (mmap : Z -> option Z) (m : memory) (page : Z)
    : option Z * memory :=
  if bool_decide (free_pages m < page) then (None, m)
  else
    match sys_malloc mmap page with
    | Some ptr => (Some ptr, {| free_pages := u64 (free_pages m - page) |})
    | None => (None, m)
    end.

Definition memory_free (munmap : Z -> Z -> bool) (m : memory) (ptr page : Z)
    : option memory :=
  sys_free munmap ptr page;;
  Some {| free_pages := u64 (free_pages m + page) |}.

(** ** Lemmas *)

Lemma memory_malloc_some mmap m page ptr m' :
  0 <= page -> 0 <= free_pages m < 2 ^ 64 ->
  memory_malloc mmap m page = (Some ptr, m') ->
  page <= free_pages m /\ free_pages m' = free_pages m - page /\
  mmap (sys_len page) = Some ptr.
Proof.
  intros ? ?. unfold memory_malloc, sys_malloc. case_bool_decide; [done|].
  destruct (mmap (sys_len page)) eqn:E; intros; simplify_eq. cbn.
  rewrite wrap_small by lia. split_and!; [lia|lia|done].
Qed.

Lemma memory_malloc_none mmap m page m' :
  memory_malloc mmap m page = (None, m') -> m' = m.
Proof. unfold memory_malloc. repeat case_match; intros; by simplify_eq. Qed.

(** ** The accounting of a run *)

(** A budget and the blocks it has handed out, as (address, pages). *)
Record heap_state := { budget : memory; blocks : list (Z * Z) }.

Inductive heap_step : heap_state -> heap_state -> Prop :=
| heap_malloc s mmap page ptr m :
    0 <= page -> memory_malloc mmap (budget s) page = (Some ptr, m) ->
    heap_step s {| budget := m; blocks := (ptr, page) :: blocks s |}
| heap_malloc_fail s mmap page m :
    memory_malloc mmap (budget s) page = (None, m) ->
    heap_step s {| budget := m; blocks := blocks s |}
| heap_free s munmap ptr page bs m :
    blocks s ≡ₚ (ptr, page) :: bs ->
    memory_free munmap (budget s) ptr page = Some m ->
    heap_step s {| budget := m; blocks := bs |}.

Definition sum_pages (bs : list (Z * Z)) : Z := foldr (fun b acc => snd b + acc) 0 bs.

Lemma sum_pages_perm bs bs' : bs ≡ₚ bs' -> sum_pages bs = sum_pages bs'.
Proof. unfold sum_pages. induction 1; cbn; lia. Qed.

Lemma sum_pages_cons ptr page bs : sum_pages ((ptr, page) :: bs) = page + sum_pages bs.
Proof. done. Qed.

Definition heap_inv (total : Z) (s : heap_state) : Prop :=
  0 <= free_pages (budget s) /\ Forall (fun b => 0 <= snd b) (blocks s) /\
  free_pages (budget s) + sum_pages (blocks s) = total.

Lemma sum_pages_nonneg bs : Forall (fun b => 0 <= snd b) bs -> 0 <= sum_pages bs.
Proof. unfold sum_pages. induction 1; cbn; lia. Qed.

Lemma heap_step_inv total s s' :
  total < 2 ^ 64 -> heap_inv total s -> heap_step s s' -> heap_inv total s'.
Proof.
  intros Ht (Hpos & Hf & Hsum) Hstep. pose proof (sum_pages_nonneg _ Hf).
  destruct Hstep as [s mmap page ptr m ? He|s mmap page m He|s munmap ptr page bs m Hp He].
  - apply memory_malloc_some in He as (? & Hm & _); [|lia..].
    unfold heap_inv. cbn [budget blocks]. rewrite sum_pages_cons, Hm.
    split_and!; [lia|by constructor|lia].
  - apply memory_malloc_none in He as ->. done.
  - rewrite (sum_pages_perm _ _ Hp), sum_pages_cons in Hsum. rewrite Hp in Hf.
    apply Forall_cons in Hf as [Hpg Hf]. cbn in Hpg. pose proof (sum_pages_nonneg _ Hf).
    unfold memory_free in He. apply bind_Some in He as (_ & _ & He).
    injection He as <-. unfold heap_inv. cbn [budget blocks free_pages].
    rewrite wrap_small by lia. split_and!; [lia|done|lia].
Qed.

(** ** Properties *)

(** Whatever the system answers, the pages a thread holds and the pages left
    in its budget add up to the budget it was given, so a thread never maps
    more than its share of the memory limit. *)
Theorem memory_budget_conserved total s
    (Htotal : 0 <= total < 2 ^ 64)
    (Hrun : rtc heap_step {| budget := memory_init total; blocks := [] |} s) :
  0 <= free_pages (budget s) /\
  free_pages (budget s) + sum_pages (blocks s) = total /\
  sum_pages (blocks s) <= total.
Proof.
  assert (heap_inv total s) as (? & ? & ?).
  { eapply (rtc_ind_r (fun q => heap_inv total q)); [| |exact Hrun].
    - split_and!; cbn; [lia|constructor|lia].
    - intros q q' _ Hs Hi. eapply heap_step_inv; [lia|exact Hi|exact Hs]. }
  split_and!; lia.
Qed.

Lemma memory_budget_conserved_witness :
  exists s, rtc heap_step {| budget := memory_init 10; blocks := [] |} s /\
    blocks s = [(0x10000, 9)] /\ free_pages (budget s) + 9 = 10.
Proof.
  set (s := {| budget := {| free_pages := 1 |}; blocks := [(0x10000, 9)] |}).
  assert (rtc heap_step {| budget := memory_init 10; blocks := [] |} s) as Hr.
  { apply rtc_once. refine (heap_malloc _ (fun _ => Some 0x10000) 9 0x10000 _ _ _);
      [lia|reflexivity]. }
  exists s. split; [exact Hr|]. split; [reflexivity|].
  exact (proj1 (proj2 (memory_budget_conserved 10 s ltac:(lia) Hr))).
Defined.
