(* ===== verification/Murmur.v ===== *)
(** * The key hash (murmur_hash3.h, murmur_hash3.c)

    MurmurHash3_x64_128 on a list of bytes.  The results are 64-bit words, the
    fall-through [switch] over the tail assembles the little-endian numbers of
    the remaining bytes, the whole hash equals a reference that reads the key
    from front to back, and the finaliser is injective. *)

From S2P Require Import Prelude.

Definition rotl64 (x r : Z) : Z := Z.lor (u64 (Z.shiftl x r)) (Z.shiftr x (64 - r)).

(** The little-endian number of a list of bytes. *)
Definition le_combine (bs : list Z) : Z := foldr (fun b acc => b + 256 * acc) 0 bs.

(** [p[i]] for a [uint64_t] array of a little-endian machine. *)
Definition getblock64 (data : list Z) (i : nat) : Z :=
  le_combine (take 8 (drop (8 * i) data)).

Definition fmix64 (k : Z) : Z :=
  let k := Z.lxor k (Z.shiftr k 33) in
  let k := u64 (k * 0xff51afd7ed558ccd) in
  let k := Z.lxor k (Z.shiftr k 33) in
  let k := u64 (k * 0xc4ceb9fe1a85ec53) in
  Z.lxor k (Z.shiftr k 33).

Definition c1 : Z := 0x87c37b91114253d5.
Definition c2 : Z := 0x4cf5ad432745937f.

Definition mix_k1 (k1 : Z) : Z := u64 (rotl64 (u64 (k1 * c1)) 31 * c2).
Definition mix_k2 (k2 : Z) : Z := u64 (rotl64 (u64 (k2 * c2)) 33 * c1).

(** The body of the loop over the 16-byte blocks. *)
Definition body_step (data : list Z) (h : Z * Z) (i : nat) : Z * Z :=
  let '(h1, h2) := h in
  let k1 := getblock64 data (i * 2 + 0) in
  let k2 := getblock64 data (i * 2 + 1) in
  let h1 := Z.lxor h1 (mix_k1 k1) in
  let h1 := u64 (u64 (rotl64 h1 27 + h2) * 5 + 0x52dce729) in
  let h2 := Z.lxor h2 (mix_k2 k2) in
  let h2 := u64 (u64 (rotl64 h2 31 + h1) * 5 + 0x38495ab5) in
  (h1, h2).

(** The [switch] over [rem = len & 15]: every case falls through to the next, so
    [case n] runs exactly if [n <= rem]. *)
Definition tail_step (tail : list Z) (rem : nat) (h : Z * Z) : Z * Z :=
  let '(h1, h2) := h in
  let k1 := 0 in
  let k2 := 0 in
  let k2 := if (15 <=? rem)%nat then Z.lxor k2 (u64 (Z.shiftl (tail !!! 14%nat) 48)) else k2 in
  let k2 := if (14 <=? rem)%nat then Z.lxor k2 (u64 (Z.shiftl (tail !!! 13%nat) 40)) else k2 in
  let k2 := if (13 <=? rem)%nat then Z.lxor k2 (u64 (Z.shiftl (tail !!! 12%nat) 32)) else k2 in
  let k2 := if (12 <=? rem)%nat then Z.lxor k2 (u64 (Z.shiftl (tail !!! 11%nat) 24)) else k2 in
  let k2 := if (11 <=? rem)%nat then Z.lxor k2 (u64 (Z.shiftl (tail !!! 10%nat) 16)) else k2 in
  let k2 := if (10 <=? rem)%nat then Z.lxor k2 (u64 (Z.shiftl (tail !!! 9%nat) 8)) else k2 in
  let h2 := if (9 <=? rem)%nat then
              let k2 := Z.lxor k2 (u64 (Z.shiftl (tail !!! 8%nat) 0)) in
              let k2 := u64 (k2 * c2) in let k2 := rotl64 k2 33 in let k2 := u64 (k2 * c1) in
              Z.lxor h2 k2
            else h2 in
  let k1 := if (8 <=? rem)%nat then Z.lxor k1 (u64 (Z.shiftl (tail !!! 7%nat) 56)) else k1 in
  let k1 := if (7 <=? rem)%nat then Z.lxor k1 (u64 (Z.shiftl (tail !!! 6%nat) 48)) else k1 in
  let k1 := if (6 <=? rem)%nat then Z.lxor k1 (u64 (Z.shiftl (tail !!! 5%nat) 40)) else k1 in
  let k1 := if (5 <=? rem)%nat then Z.lxor k1 (u64 (Z.shiftl (tail !!! 4%nat) 32)) else k1 in
  let k1 := if (4 <=? rem)%nat then Z.lxor k1 (u64 (Z.shiftl (tail !!! 3%nat) 24)) else k1 in
  let k1 := if (3 <=? rem)%nat then Z.lxor k1 (u64 (Z.shiftl (tail !!! 2%nat) 16)) else k1 in
  let k1 := if (2 <=? rem)%nat then Z.lxor k1 (u64 (Z.shiftl (tail !!! 1%nat) 8)) else k1 in
  let h1 := if (1 <=? rem)%nat then
              let k1 := Z.lxor k1 (u64 (Z.shiftl (tail !!! 0%nat) 0)) in
              let k1 := u64 (k1 * c1) in let k1 := rotl64 k1 31 in let k1 := u64 (k1 * c2) in
              Z.lxor h1 k1
            else h1 in
  (h1, h2).

Definition finalize (len : Z) (h : Z * Z) : Z * Z :=
  let '(h1, h2) := h in
  let h1 := Z.lxor h1 len in
  let h2 := Z.lxor h2 len in
  let h1 := u64 (h1 + h2) in
  let h2 := u64 (h2 + h1) in
  let h1 := fmix64 h1 in
  let h2 := fmix64 h2 in
  let h1 := u64 (h1 + h2) in
  let h2 := u64 (h2 + h1) in
  (h1, h2).

(** [key] is the [len] bytes at the pointer; the result is [out[0], out[1]]. *)
Definition MurmurHash3_x64_128 (key : list Z) (seed : Z) : Z * Z :=
  let len := length key in
  let nblocks := (len / 16)%nat in
  let h := foldl (body_step key) (seed, seed) (seq 0 nblocks) in
  let tail := drop (nblocks * 16) key in
  let h := tail_step tail (len mod 16)%nat h in
  finalize (Z.of_nat len) h.

(** The published x64 128-bit test value of the pangram (seed 0). *)
Example murmur_pangram :
  MurmurHash3_x64_128
    [84;104;101;32;113;117;105;99;107;32;98;114;111;119;110;32;102;111;120;32;106;117;
     109;112;115;32;111;118;101;114;32;116;104;101;32;108;97;122;121;32;100;111;103] 0
  = (0xe34bbc7bbc071b6c, 0x7a433ca9c49a9347).
Proof. reflexivity. Qed.

(** ** Lemmas *)

Lemma mod_pow2_bits_range w x :
  0 <= w -> (0 <= x < 2 ^ w <-> x mod 2 ^ w = x).
Proof.
  intros Hw. split; [apply Z.mod_small|]. intros <-. by apply wrap_range.
Qed.

(** A word operation that acts bit by bit stays a word. *)
Lemma lxor_range w x y :
  0 <= w -> 0 <= x < 2 ^ w -> 0 <= y < 2 ^ w -> 0 <= Z.lxor x y < 2 ^ w.
Proof.
  intros Hw. rewrite !mod_pow2_bits_range by done. rewrite <-!Z.land_ones by done.
  intros Hx Hy. rewrite <-Hx, <-Hy. apply Z.bits_inj'. intros i _.
  rewrite !Z.land_spec, !Z.lxor_spec, !Z.land_spec. by destruct (Z.testbit (Z.ones w) i),
    (Z.testbit x i), (Z.testbit y i).
Qed.

Lemma shiftr_range w x r : 0 <= x < 2 ^ w -> 0 <= r -> 0 <= Z.shiftr x r < 2 ^ w.
Proof.
  intros Hx Hr. rewrite Z.shiftr_div_pow2 by done.
  pose proof (Z.pow_pos_nonneg 2 r ltac:(lia) Hr).
  split; [apply Z.div_pos; lia|]. apply Z.div_lt_upper_bound; nia.
Qed.

Lemma xorshift_invol x r :
  0 <= x < 2 ^ 64 -> 32 <= r ->
  let y := Z.lxor x (Z.shiftr x r) in Z.lxor y (Z.shiftr y r) = x.
Proof.
  intros Hx Hr. cbn. rewrite Z.shiftr_lxor, Z.shiftr_shiftr by lia.
  replace (Z.shiftr x (r + r)) with 0.
  - by rewrite Z.lxor_0_r, Z.lxor_assoc, Z.lxor_nilpotent, Z.lxor_0_r.
  - rewrite Z.shiftr_div_pow2 by lia. symmetry. apply Z.div_small. split; [lia|].
    apply Z.lt_le_trans with (2 ^ 64); [lia|]. apply Z.pow_le_mono_r; lia.
Qed.

Lemma mul_inv_u64 k a b :
  0 <= k < 2 ^ 64 -> (a * b) mod 2 ^ 64 = 1 -> u64 (u64 (k * a) * b) = k.
Proof.
  intros Hk Hab. unfold wrap. rewrite Zmult_mod_idemp_l, <-Z.mul_assoc.
  rewrite Zmult_mod, Hab, Z.mul_1_r, Z.mod_mod by lia. by apply Z.mod_small.
Qed.

(** The inverse of the finaliser: undo the five steps in reverse order. *)
Definition fmix64_inv (k : Z) : Z :=
  let k := Z.lxor k (Z.shiftr k 33) in
  let k := u64 (k * 0x9cb4b2f8129337db) in
  let k := Z.lxor k (Z.shiftr k 33) in
  let k := u64 (k * 0x4f74430c22a54005) in
  Z.lxor k (Z.shiftr k 33).

Lemma xorshift_range x r : 0 <= x < 2 ^ 64 -> 0 <= r ->
  0 <= Z.lxor x (Z.shiftr x r) < 2 ^ 64.
Proof. intros. apply lxor_range; [lia|done|]. by apply shiftr_range. Qed.

Lemma fmix64_range k : 0 <= k < 2 ^ 64 -> 0 <= fmix64 k < 2 ^ 64.
Proof. intros. unfold fmix64. apply xorshift_range; [|lia]. apply wrap_range. lia. Qed.

Lemma le_combine_range bs :
  Forall (fun b => 0 <= b < 256) bs -> 0 <= le_combine bs < 2 ^ (8 * Z.of_nat (length bs)).
Proof.
  induction 1 as [|b bs Hb _ IH]; [done|]. cbn [le_combine foldr length].
  fold (le_combine bs). rewrite Nat2Z.inj_succ.
  replace (8 * Z.succ (Z.of_nat (length bs))) with (8 + 8 * Z.of_nat (length bs)) by lia.
  rewrite Z.pow_add_r by lia. lia.
Qed.

Lemma lxor_disjoint_add x y k :
  0 <= k -> x mod 2 ^ k = 0 -> 0 <= y < 2 ^ k -> Z.lxor x y = x + y.
Proof.
  intros Hk Hx Hy. rewrite <-(lor_disjoint_add x y k) by done.
  rewrite Z.lxor_lor; [done|].
  rewrite <-(Z.mod_small y (2 ^ k)) by lia. rewrite <-Z.land_ones by lia.
  rewrite (Z.land_comm y), Z.land_assoc, Z.land_ones, Hx by lia. apply Z.land_0_l.
Qed.

(** The cases [base + n], ..., [base + 1] of the [switch] as a loop. *)
Fixpoint fall_through (tail : list Z) (base n : nat) (k : Z) : Z :=
  match n with
  | O => k
  | S j => fall_through tail base j
             (Z.lxor k (u64 (Z.shiftl (tail !!! (base + j)%nat) (8 * Z.of_nat j))))
  end.

Lemma fall_through_eq tail base n k :
  (n <= 8)%nat -> (base + n <= length tail)%nat ->
  Forall (fun b => 0 <= b < 256) tail -> k mod 2 ^ (8 * Z.of_nat n) = 0 ->
  fall_through tail base n k = k + le_combine (take n (drop base tail)).
Proof.
  intros Hn Hlen Hb. revert k. induction n as [|n IH]; intros k Hk; cbn [fall_through].
  { rewrite take_0. cbn. lia. }
  destruct (lookup_lt_is_Some_2 tail (base + n)) as [b Eb]; [lia|].
  pose proof (Forall_lookup_1 _ _ _ _ Hb Eb) as Hbr. cbn in Hbr.
  rewrite (list_lookup_total_correct _ _ _ Eb).
  set (s := 8 * Z.of_nat n). assert (0 <= s <= 56) as Hs by lia.
  replace (8 * Z.of_nat (S n)) with (8 + s) in Hk by lia.
  pose proof (Z.pow_pos_nonneg 2 s ltac:(lia) ltac:(lia)) as Hpos.
  assert (2 ^ (8 + s) = 256 * 2 ^ s) as E8 by (rewrite Z.pow_add_r by lia; done).
  assert (2 ^ (8 + s) <= 2 ^ 64) by (apply Z.pow_le_mono_r; lia).
  assert (0 <= b * 2 ^ s < 2 ^ (8 + s)) as Hbs by (rewrite E8; nia).
  rewrite Z.shiftl_mul_pow2, wrap_small by lia.
  rewrite (lxor_disjoint_add _ _ (8 + s)) by (done || lia).
  rewrite IH; [|lia|lia|].
  - assert (drop base tail !! n = Some b) as Ed by (by rewrite lookup_drop).
    rewrite (take_S_r _ _ _ Ed). rewrite <-Z.add_assoc. f_equal.
    assert (forall l, le_combine (l ++ [b]) = le_combine l + b * 2 ^ (8 * Z.of_nat (length l)))
      as Hsnoc.
    { clear. induction l as [|x l IHl]; cbn [app le_combine foldr length]; [cbn; lia|].
      fold (le_combine (l ++ [b])) (le_combine l). rewrite IHl, Nat2Z.inj_succ.
      replace (8 * Z.succ (Z.of_nat (length l))) with (8 + 8 * Z.of_nat (length l)) by lia.
      rewrite Z.pow_add_r by lia. lia. }
    rewrite Hsnoc, length_take, length_drop, Nat.min_l by lia. fold s. lia.
  - fold s. rewrite E8 in Hk. rewrite Z.mod_add by lia.
    rewrite <-(Z.mod_mod_divide k (256 * 2 ^ s)) by (by exists 256). rewrite Hk.
    by apply Z.mod_0_l; lia.
Qed.

(** ** Properties *)

(** For a key of bytes and a 32-bit seed both halves of the hash are 64-bit
    words. *)
Theorem murmur_range key seed (Hseed : 0 <= seed < 2 ^ 32) :
  0 <= fst (MurmurHash3_x64_128 key seed) < 2 ^ 64 /\
  0 <= snd (MurmurHash3_x64_128 key seed) < 2 ^ 64.
Proof.
  unfold MurmurHash3_x64_128, finalize.
  destruct (tail_step _ _ _) as [h1 h2]. cbn [fst snd].
  split; apply wrap_range; lia.
Qed.

Lemma murmur_range_witness :
  0 <= 47 < 2 ^ 32 /\ 0 <= fst (MurmurHash3_x64_128 [3; 1; 2; 3] 47) < 2 ^ 64.
Proof.
  assert (0 <= 47 < 2 ^ 32) as H by (vm_compute; split; congruence).
  split; [exact H|]. exact (proj1 (murmur_range [3; 1; 2; 3] 47 H)).
Defined.

(** The fifteen cases are that loop. *)
Lemma tail_step_loop tail rem h1 h2 :
  (rem < 16)%nat ->
  tail_step tail rem (h1, h2) =
    (if (1 <=? rem)%nat then Z.lxor h1 (mix_k1 (fall_through tail 0 (min rem 8) 0)) else h1,
     if (9 <=? rem)%nat then Z.lxor h2 (mix_k2 (fall_through tail 8 (rem - 8) 0)) else h2).
Proof.
  intros Hrem. unfold tail_step, mix_k1, mix_k2.
  do 16 (destruct rem as [|rem];
    [cbn [Nat.leb Nat.min Nat.sub Nat.add fall_through]; cbv beta zeta;
     repeat match goal with |- context [8 * Z.of_nat ?j] =>
       let x := eval vm_compute in (8 * Z.of_nat j) in change (8 * Z.of_nat j) with x end;
     reflexivity|]). lia.
Qed.

Lemma tail_step_words tail h1 h2 :
  (length tail < 16)%nat -> Forall (fun b => 0 <= b < 256) tail ->
  tail_step tail (length tail) (h1, h2) =
    (Z.lxor h1 (mix_k1 (le_combine (take 8 tail))), Z.lxor h2 (mix_k2 (le_combine (drop 8 tail)))).
Proof.
  intros Hrem Hb. rewrite tail_step_loop by done. f_equal.
  - destruct (Nat.leb_spec 1 (length tail)).
    2: { rewrite (nil_length_inv tail) by lia. change (mix_k1 (le_combine (take 8 []))) with 0.
         by rewrite Z.lxor_0_r. }
    rewrite fall_through_eq; [|lia|lia|done|by apply Z.mod_0_l; lia].
    rewrite drop_0, Z.add_0_l. do 3 f_equal. destruct (decide (length tail <= 8)%nat).
    + by rewrite Nat.min_l, !take_ge by lia.
    + by rewrite Nat.min_r by lia.
  - destruct (Nat.leb_spec 9 (length tail)).
    + rewrite fall_through_eq; [|lia|lia|done|by apply Z.mod_0_l; lia].
      rewrite Z.add_0_l, take_ge; [done|]. rewrite length_drop. lia.
    + rewrite drop_ge by lia. change (mix_k2 (le_combine [])) with 0. by rewrite Z.lxor_0_r.
Qed.

(** ** The hash as a stream *)

(** Two words are mixed into the state. *)
Definition absorb_words (k1 k2 : Z) (h : Z * Z) : Z * Z :=
  let h1 := u64 (u64 (rotl64 (Z.lxor (fst h) (mix_k1 k1)) 27 + snd h) * 5 + 0x52dce729) in
  (h1, u64 (u64 (rotl64 (Z.lxor (snd h) (mix_k2 k2)) 31 + h1) * 5 + 0x38495ab5)).

(** A reference that takes [n] blocks of sixteen bytes off the front of the key
    and reads what is left as one shorter block, two little-endian numbers that
    are only added to the state. *)
Fixpoint absorb (n : nat) (key : list Z) (h : Z * Z) : Z * Z :=
  match n with
  | O => (Z.lxor (fst h) (mix_k1 (le_combine (take 8 key))),
          Z.lxor (snd h) (mix_k2 (le_combine (drop 8 key))))
  | S n => absorb n (drop 16 key)
             (absorb_words (le_combine (take 8 key)) (le_combine (take 8 (drop 8 key))) h)
  end.

Lemma body_step_absorb key h i :
  body_step key h i =
    absorb_words (le_combine (take 8 (drop (16 * i) key))) (le_combine (take 8 (drop 8 (drop (16 * i) key)))) h.
Proof.
  destruct h as [h1 h2]. unfold body_step, absorb_words, getblock64. cbn [fst snd].
  rewrite drop_drop. replace (8 * (i * 2 + 0))%nat with (16 * i)%nat by lia.
  by replace (8 * (i * 2 + 1))%nat with (16 * i + 8)%nat by lia.
Qed.

(** The blocks from [i] on, then the tail. *)
Lemma blocks_absorb key n i h :
  length key = (16 * (i + n) + length (drop (16 * (i + n)) key))%nat ->
  (length (drop (16 * (i + n)) key) < 16)%nat -> Forall (fun b => 0 <= b < 256) key ->
  tail_step (drop (16 * (i + n)) key) (length (drop (16 * (i + n)) key))
    (foldl (body_step key) h (seq i n)) = absorb n (drop (16 * i) key) h.
Proof.
  revert i h. induction n as [|n IH]; intros i h Hl Hlt Hb.
  - rewrite Nat.add_0_r in *. cbn [seq foldl absorb]. destruct h as [h1 h2].
    apply tail_step_words; [done|by apply Forall_drop].
  - cbn [seq foldl absorb]. replace (i + S n)%nat with (S i + n)%nat in * by lia.
    rewrite IH, body_step_absorb by done. f_equal. rewrite drop_drop. f_equal. lia.
Qed.

(** C36: the hash, with its indexed blocks and the fifteen unrolled cases of its
    tail, equals the reference that reads the key from front to back: a wrong
    block index, or a wrong index, shift or accumulator in any of the cases,
    would give another value. *)
Theorem murmur_streams key seed (Hbytes : Forall (fun b => 0 <= b < 256) key) :
  MurmurHash3_x64_128 key seed =
    finalize (Z.of_nat (length key)) (absorb (length key / 16) key (seed, seed)).
Proof.
  unfold MurmurHash3_x64_128. f_equal.
  pose proof (Nat.div_mod_eq (length key) 16). pose proof (Nat.mod_upper_bound (length key) 16 ltac:(lia)).
  set (n := (length key / 16)%nat) in *.
  assert (length (drop (16 * (0 + n)) key) = (length key mod 16)%nat) as Hd by (rewrite length_drop; lia).
  rewrite <-(drop_0 key) at 3. rewrite <-(blocks_absorb key n 0); rewrite ?Hd; [|lia..|done].
  f_equal. f_equal. lia.
Qed.

(** A key of one block and a tail of fifteen bytes. *)
Definition stream_key : list Z := Z.of_nat <$> seq 1 31.

Lemma murmur_streams_witness :
  Forall (fun b => 0 <= b < 256) stream_key /\
  MurmurHash3_x64_128 stream_key 47 = finalize 31 (absorb 1 stream_key (47, 47)).
Proof.
  assert (Forall (fun b => 0 <= b < 256) stream_key) as H by decide_now.
  split; [exact H|]. exact (murmur_streams stream_key 47 H).
Defined.

(** The finaliser [fmix64] is a bijection of the 64-bit words, with
    [fmix64_inv] as its inverse: two different intermediate hashes never
    collide in it. *)
Theorem fmix64_bijective k (Hk : 0 <= k < 2 ^ 64) :
  0 <= fmix64 k < 2 ^ 64 /\ fmix64_inv (fmix64 k) = k.
Proof.
  split; [by apply fmix64_range|]. unfold fmix64_inv, fmix64. cbv zeta.
  pose proof (xorshift_range k 33 Hk ltac:(lia)) as H1.
  set (a := Z.lxor k (Z.shiftr k 33)) in *.
  pose proof (wrap_range 64 (a * 0xff51afd7ed558ccd) ltac:(lia)) as H2.
  set (b := u64 (a * 0xff51afd7ed558ccd)) in *.
  pose proof (xorshift_range b 33 H2 ltac:(lia)) as H3.
  set (c := Z.lxor b (Z.shiftr b 33)) in *.
  pose proof (wrap_range 64 (c * 0xc4ceb9fe1a85ec53) ltac:(lia)) as H4.
  set (d := u64 (c * 0xc4ceb9fe1a85ec53)) in *.
  rewrite (xorshift_invol d 33 H4 ltac:(lia)).
  unfold d. rewrite mul_inv_u64; [|done|reflexivity].
  unfold c. rewrite (xorshift_invol b 33 H2 ltac:(lia)).
  unfold b. rewrite mul_inv_u64; [|done|reflexivity].
  apply (xorshift_invol k 33 Hk ltac:(lia)).
Qed.

Lemma fmix64_bijective_witness :
  0 <= 0x123456789abcdef0 < 2 ^ 64 /\
  fmix64_inv (fmix64 0x123456789abcdef0) = 0x123456789abcdef0.
Proof.
  assert (0 <= 0x123456789abcdef0 < 2 ^ 64) as H by (vm_compute; split; congruence).
  split; [exact H|]. exact (proj2 (fmix64_bijective _ H)).
Defined.
