(* ===== verification/HashTable.v ===== *)
(** * The key index (hash_table.h, hash_table.c)

    An incrementally resized chained hash table.  A node of a chain is named by
    its address and carries the key that follows it in memory (a locked key of
    a connection or the key of a kv); a chain is the list of its nodes, first
    node first, as [Lists.hlist] represents it in memory: [hlist_add] conses,
    [hlist_del] removes a node from the chain it is in.  [contents] is the
    abstract state: the (key, node) pairs of the table. *)

From S2P Require Import Prelude Slab Memory Murmur.

(** ** Keys *)

(** A key in memory: a length byte and that many bytes. *)
Abbreviation key := (list Z).

Definition key_size (k : key) : Z := 1 + hd 0 k.
Definition wf_key (k : key) : Prop :=
  Forall (fun b => 0 <= b < 256) k /\ k <> [] /\ Z.of_nat (length k) = key_size k.

Record entry := { e_node : Z; e_key : key }.

(** [MurmurHash3_x64_128(key, (int)key[0] + 1, 47, &out)] *)
Definition hash (k : key) : Z * Z :=
  let out := MurmurHash3_x64_128 k 47 in
  (snd out, u32 (fst out)).
Definition key_hash (k : key) : Z := fst (hash k).
Definition fingerprint (k : key) : Z := snd (hash k).

(** [memcmp(a, b, (a[0] & b[0]) + 1) == 0] *)
Definition key_equal (a b : key) : bool :=
  let len := Z.to_nat (Z.land (hd 0 a) (hd 0 b) + 1) in
  bool_decide (take len a = take len b).

(** ** Table *)

Definition BUCKET_GHOST_SHIFT : Z := 4.
Definition BUCKET_GHOST : Z := Z.shiftl 1 BUCKET_GHOST_SHIFT.
Definition BUCKET_GHOST_MASK : Z := BUCKET_GHOST - 1.

Definition MIN_PAGE : Z := 1 + BUCKET_GHOST / 2.
Definition PAGE_TO_MASK (page : Z) : Z :=
  u64 (Z.shiftl (page / MIN_PAGE) (PAGE_SHIFT - 3) - 1).
Definition MASK_TO_PAGE (mask : Z) : Z :=
  Z.shiftr (u64 (u64 (mask + 1) * MIN_PAGE)) (PAGE_SHIFT - 3).
Definition GHOST_OFFSET (page : Z) : Z := u64 (Z.shiftl (page / MIN_PAGE) PAGE_SHIFT).
Definition MIN_MASK : Z := PAGE_TO_MASK MIN_PAGE.

(** A bucket array: the address of the pages and the chains. *)
Record barray := { a_ptr : Z; a_heads : list (list entry) }.

Record hash_table := {
  n : Z;
  mask : Z;
  buckets : barray;
  ghost : list (list Z);
  old_buckets : option barray;
  old_mask : Z;
  migrated : Z;
}.

Definition set_n (v : Z) (t : hash_table) : hash_table :=
  {| n := v; mask := mask t; buckets := buckets t; ghost := ghost t;
     old_buckets := old_buckets t; old_mask := old_mask t; migrated := migrated t |}.
Definition set_buckets (v : barray) (t : hash_table) : hash_table :=
  {| n := n t; mask := mask t; buckets := v; ghost := ghost t;
     old_buckets := old_buckets t; old_mask := old_mask t; migrated := migrated t |}.
Definition set_ghost (v : list (list Z)) (t : hash_table) : hash_table :=
  {| n := n t; mask := mask t; buckets := buckets t; ghost := v;
     old_buckets := old_buckets t; old_mask := old_mask t; migrated := migrated t |}.
Definition set_old (v : option barray) (mig : Z) (t : hash_table) : hash_table :=
  {| n := n t; mask := mask t; buckets := buckets t; ghost := ghost t;
     old_buckets := v; old_mask := old_mask t; migrated := mig |}.

(** Anonymous pages are zero-filled: every chain head is [NULL] after the
    initialisation loop and every ghost slot is 0. *)
Definition fresh_heads (mask : Z) : list (list entry) := replicate (Z.to_nat (mask + 1)) [].
Definition fresh_ghost (mask : Z) : list (list Z) :=
  replicate (Z.to_nat (mask + 1)) (replicate (Z.to_nat BUCKET_GHOST) 0).

Definition hash_table_init (mmap : Z -> option Z) (m : memory)
    : option hash_table * memory :=
  match memory_malloc mmap m MIN_PAGE with
  | (Some buckets, m) =>
      (Some {| n := 0; mask := MIN_MASK;
               buckets := {| a_ptr := buckets; a_heads := fresh_heads MIN_MASK |};
               ghost := fresh_ghost MIN_MASK;
               old_buckets := None; old_mask := 0; migrated := 0 |}, m)
  | (None, m) => (None, m)
  end.

Definition under_migrating (ht : hash_table) : bool :=
  match old_buckets ht with Some _ => true | None => false end.

Definition evacuated (bucket : list entry) : bool :=
  match bucket with [] => true | _ => false end.

Definition idx (k : key) (mask : Z) : nat := Z.to_nat (Z.land (key_hash k) mask).

(** The chain [key] resides in. *)
Definition hash_bucket (ht : hash_table) (k : key) : option (list entry) :=
  match old_buckets ht with
  | Some old =>
      old_bucket ← a_heads old !! idx k (old_mask ht);
      if evacuated old_bucket then a_heads (buckets ht) !! idx k (mask ht)
      else Some old_bucket
  | None => a_heads (buckets ht) !! idx k (mask ht)
  end.

Definition bucket_evacuated (old : barray) (i : Z) : option bool :=
  b ← a_heads old !! Z.to_nat i; Some (evacuated b).

(** [hlist_add(&buckets[i], node)] *)
Definition add_to (heads : list (list entry)) (i : nat) (e : entry)
    : option (list (list entry)) :=
  b ← heads !! i; Some (<[i := e :: b]> heads).

(** The loop of [evacuate] over the chain, node by node. *)
Fixpoint move_chain (mask : Z) (chain : list entry) (heads : list (list entry))
    : option (list (list entry)) :=
  match chain with
  | [] => Some heads
  | curr :: rest =>
      heads ← add_to heads (idx (e_key curr) mask) curr;
      move_chain mask rest heads
  end.

(** [while (migrated < max && bucket_evacuated(ht, migrated)) migrated++], with
    [fuel = max - migrated]. *)
Fixpoint scan (old : barray) (migrated : Z) (fuel : nat) : option Z :=
  match fuel with
  | O => Some migrated
  | S fuel' =>
      e ← bucket_evacuated old migrated;
      if (e : bool) then scan old (u64 (migrated + 1)) fuel' else Some migrated
  end.

(** The first half of [evacuate]: move the nodes of the [i]'th old chain. *)
Definition evacuate_chain (ht : hash_table) (old : barray) (i : Z) : option hash_table :=
  bucket ← a_heads old !! Z.to_nat i;
  if negb (evacuated bucket) then
    heads ← move_chain (mask ht) bucket (a_heads (buckets ht));
    let old := {| a_ptr := a_ptr old; a_heads := <[Z.to_nat i := []]> (a_heads old) |} in
    Some (set_old (Some old) (migrated ht)
            (set_buckets {| a_ptr := a_ptr (buckets ht); a_heads := heads |} ht))
  else Some ht.

(** The second half: advance [migrated] over at most 1025 empty chains, and
    release the old array when all of it has been migrated. *)
Definition evacuate_advance (munmap : Z -> Z -> bool) (ht : hash_table) (old : barray)
    (m : memory) : option (hash_table * memory) :=
  let mig := u64 (migrated ht + 1) in
  let max := u64 (mig + 1024) in
  let max := if bool_decide (old_mask ht < max) then u64 (old_mask ht + 1) else max in
  mig ← scan old mig (Z.to_nat (max - mig));
  if bool_decide (old_mask ht < mig) then
    m ← memory_free munmap m (a_ptr old) (MASK_TO_PAGE (old_mask ht));
    Some (set_old None mig ht, m)
  else Some (set_old (Some old) mig ht, m).

Definition evacuate (munmap : Z -> Z -> bool) (ht : hash_table) (i : Z) (m : memory)
    : option (hash_table * memory) :=
  old ← old_buckets ht;
  ht ← evacuate_chain ht old i;
  if bool_decide (i = migrated ht) then
    old ← old_buckets ht;
    evacuate_advance munmap ht old m
  else Some (ht, m).

(** [hlist_for_each(node, bucket) if (key_equal(...)) return node] *)
Definition chain_find (k : key) (b : list entry) : option Z :=
  e_node <$> find (fun e => key_equal (e_key e) k) b.

Definition hash_get (munmap : Z -> Z -> bool) (ht : hash_table) (k : key) (m : memory)
    : option (option Z * hash_table * memory) :=
  '(ht, m) ← (if under_migrating ht then evacuate munmap ht (migrated ht) m
              else Some (ht, m));
  b ← hash_bucket ht k;
  Some (chain_find k b, ht, m).

Definition should_grow (ht : hash_table) : bool :=
  bool_decide (u64 (Z.shiftl (mask ht) 3) < n ht).

Definition grow_required_page (ht : hash_table) : Z :=
  u64 (Z.shiftl (MASK_TO_PAGE (mask ht)) 1).

Definition hash_add (munmap : Z -> Z -> bool) (ht : hash_table) (e : entry) (m : memory)
    : option (hash_table * memory) :=
  let ht := set_n (u64 (n ht + 1)) ht in
  '(ht, m) ← (if under_migrating ht
              then evacuate munmap ht (Z.land (key_hash (e_key e)) (old_mask ht)) m
              else Some (ht, m));
  heads ← add_to (a_heads (buckets ht)) (idx (e_key e) (mask ht)) e;
  Some (set_buckets {| a_ptr := a_ptr (buckets ht); a_heads := heads |} ht, m).

Definition should_shrink (ht : hash_table) : bool :=
  bool_decide (MIN_MASK < mask ht) && bool_decide (n ht < u64 (Z.shiftl (mask ht) 1)).

Definition shrink_required_page (ht : hash_table) : Z :=
  Z.shiftr (MASK_TO_PAGE (mask ht)) 1.

Definition hash_resize_page (ht : hash_table) : Z :=
  if negb (under_migrating ht) then
    if should_grow ht then grow_required_page ht
    else if should_shrink ht then shrink_required_page ht
    else 0
  else 0.

Definition hash_resize (ht : hash_table) (page new : Z) : hash_table :=
  {| n := n ht; mask := PAGE_TO_MASK page;
     buckets := {| a_ptr := new; a_heads := fresh_heads (PAGE_TO_MASK page) |};
     ghost := fresh_ghost (PAGE_TO_MASK page);
     old_buckets := Some (buckets ht); old_mask := mask ht; migrated := 0 |}.

(** ** The ghost queue of a bucket *)

Definition ghost_hit (g : list Z) (fp : Z) : bool :=
  existsb (fun x => x =? fp) (drop 1 g) ||
  (Z.shiftr (hd 0 g) BUCKET_GHOST_SHIFT =? Z.shiftr fp BUCKET_GHOST_SHIFT).

Definition ghost_add (g : list Z) (fp : Z) : list Z :=
  let i := Z.land (hd 0 g) BUCKET_GHOST_MASK in
  let g := <[Z.to_nat i := fp]> g in
  <[0%nat := Z.lor (Z.land (hd 0 g) (u32 (Z.lnot BUCKET_GHOST_MASK)))
               (Z.land (i + 1) BUCKET_GHOST_MASK)]> g.

Definition hash_ghost (ht : hash_table) (k : key) : option bool :=
  g ← ghost ht !! idx k (mask ht); Some (ghost_hit g (fingerprint k)).

Definition hash_add_ghost (ht : hash_table) (k : key) : option hash_table :=
  g ← ghost ht !! idx k (mask ht);
  Some (set_ghost (<[idx k (mask ht) := ghost_add g (fingerprint k)]> (ghost ht)) ht).

(** [hlist_del]: the node leaves the chain it is in. *)
Definition unlink (node : Z) (a : barray) : barray :=
  {| a_ptr := a_ptr a;
     a_heads := filter (fun e => e_node e ≠ node) <$> a_heads a |}.

Definition hash_del (ht : hash_table) (e : entry) : option hash_table :=
  let ht := set_n (u64 (n ht - 1)) ht in
  let ht := set_old (unlink (e_node e) <$> old_buckets ht) (migrated ht)
              (set_buckets (unlink (e_node e) (buckets ht)) ht) in
  hash_add_ghost ht (e_key e).

(** ** Abstract state and invariant *)

Definition old_entries (ht : hash_table) : list entry :=
  match old_buckets ht with Some o => concat (a_heads o) | None => [] end.
Definition contents (ht : hash_table) : list entry :=
  concat (a_heads (buckets ht)) ++ old_entries ht.

Definition wf_mask (mk : Z) : Prop := exists j, 0 <= j <= 40 /\ mk + 1 = 512 * 2 ^ j.

(** Every node is in the chain its hash selects. *)
Definition placed (mk : Z) (heads : list (list entry)) : Prop :=
  forall i b e, heads !! i = Some b -> e ∈ b -> idx (e_key e) mk = i.

Definition wf_heads (mk : Z) (heads : list (list entry)) : Prop :=
  wf_mask mk /\ length heads = Z.to_nat (mk + 1) /\ placed mk heads.

(** While migrating: the first [migrated] old chains are empty, and a key whose
    old chain still has nodes has not been moved to the new array. *)
Definition wf_old (ht : hash_table) (o : barray) : Prop :=
  wf_heads (old_mask ht) (a_heads o) /\
  0 <= migrated ht <= old_mask ht /\
  (forall i, 0 <= i < migrated ht -> a_heads o !! Z.to_nat i = Some []) /\
  (forall e, e ∈ concat (a_heads (buckets ht)) ->
     a_heads o !! idx (e_key e) (old_mask ht) = Some []).

Definition wf_ghost_row (g : list Z) : Prop :=
  length g = 16%nat /\ Forall (fun x => 0 <= x < 2 ^ 32) g.

Record ht_core (ht : hash_table) : Prop := {
  inv_heads : wf_heads (mask ht) (a_heads (buckets ht));
  inv_old : match old_buckets ht with Some o => wf_old ht o | None => True end;
  inv_ghost : length (ghost ht) = Z.to_nat (mask ht + 1) /\
              Forall wf_ghost_row (ghost ht);
  inv_keys : NoDup (e_key <$> contents ht);
  inv_nodes : NoDup (e_node <$> contents ht);
  inv_wf : Forall (fun e => wf_key (e_key e)) (contents ht);
}.

Definition ht_inv (ht : hash_table) : Prop :=
  ht_core ht /\ n ht = Z.of_nat (length (contents ht)).

(** ** Lemmas on chains and arrays *)

Lemma key_hash_range k : 0 <= key_hash k < 2 ^ 64.
Proof.
  unfold key_hash, hash, MurmurHash3_x64_128, finalize. cbn [fst].
  destruct (tail_step _ _ _) as [h1 h2]. cbn [snd]. apply wrap_range. lia.
Qed.

Lemma fingerprint_range k : 0 <= fingerprint k < 2 ^ 32.
Proof. apply wrap_range. lia. Qed.

Lemma wf_mask_pos mk : wf_mask mk -> 511 <= mk < 2 ^ 50.
Proof.
  intros (j & Hj & E).
  pose proof (Z.pow_pos_nonneg 2 j ltac:(lia) ltac:(lia)).
  pose proof (Z.pow_le_mono_r 2 j 40 ltac:(lia) ltac:(lia)). lia.
Qed.

Lemma land_mask_range h mk : wf_mask mk -> 0 <= Z.land h mk <= mk.
Proof.
  intros (j & Hj & E).
  replace mk with (2 ^ (9 + j) - 1) by (rewrite Z.pow_add_r by lia; lia).
  rewrite land_mask by lia.
  pose proof (Z.mod_pos_bound h (2 ^ (9 + j)) ltac:(apply Z.pow_pos_nonneg; lia)). lia.
Qed.

Lemma idx_range k mk : wf_mask mk -> (idx k mk < Z.to_nat (mk + 1))%nat.
Proof. intros H. pose proof (land_mask_range (key_hash k) mk H). unfold idx. lia. Qed.

Lemma wf_heads_lookup mk heads k :
  wf_heads mk heads -> exists b, heads !! idx k mk = Some b.
Proof.
  intros (Hm & Hl & _). apply lookup_lt_is_Some. rewrite Hl. by apply idx_range.
Qed.

Lemma bucket_split {A} (heads : list (list A)) i b :
  heads !! i = Some b ->
  exists l1 l2, concat heads ≡ₚ b ++ concat (l1 ++ l2) /\
    forall b', concat (<[i:=b']> heads) ≡ₚ b' ++ concat (l1 ++ l2).
Proof.
  intros Hb. pose proof (lookup_lt_Some _ _ _ Hb) as Hlt.
  apply list_elem_of_split_length in Hb as (l1 & l2 & -> & ->).
  exists l1, l2. split.
  - rewrite !concat_app. cbn. solve_Permutation.
  - intros b'. rewrite insert_app_r_alt, Nat.sub_diag by lia. cbn.
    rewrite !concat_app. cbn. solve_Permutation.
Qed.

Lemma elem_of_concat {A} (heads : list (list A)) e :
  e ∈ concat heads <-> exists i b, heads !! i = Some b /\ e ∈ b.
Proof.
  rewrite list_elem_of_In, in_concat. setoid_rewrite <-list_elem_of_In. split.
  - intros (b & (i & Hi)%list_elem_of_lookup & He). eauto.
  - intros (i & b & Hi & He). exists b. split; [|done].
    apply list_elem_of_lookup. eauto.
Qed.

Lemma placed_insert mk heads i b :
  placed mk heads -> (forall e, e ∈ b -> idx (e_key e) mk = i) ->
  placed mk (<[i:=b]> heads).
Proof.
  intros Hp Hb j b' e Hj He. apply list_lookup_insert_Some in Hj as [(-> & -> & _)|[_ Hj]];
    [by apply Hb|by eapply Hp].
Qed.

Lemma add_to_ok mk heads e :
  wf_heads mk heads ->
  exists heads', add_to heads (idx (e_key e) mk) e = Some heads' /\
    wf_heads mk heads' /\ concat heads' ≡ₚ e :: concat heads.
Proof.
  intros Hw. destruct (wf_heads_lookup mk heads (e_key e) Hw) as [b Hb].
  destruct Hw as (Hm & Hl & Hp). unfold add_to. rewrite Hb. cbn.
  eexists; split; [done|]. split.
  - split_and!; [done|by rewrite length_insert|]. apply placed_insert; [done|].
    intros e' [->|He']%elem_of_cons; [done|by eapply Hp].
  - destruct (bucket_split _ _ _ Hb) as (l1 & l2 & Hc & Hi).
    rewrite Hi, Hc. solve_Permutation.
Qed.

Lemma move_chain_ok mk chain heads :
  wf_heads mk heads ->
  exists heads', move_chain mk chain heads = Some heads' /\
    wf_heads mk heads' /\ concat heads' ≡ₚ chain ++ concat heads.
Proof.
  revert heads. induction chain as [|e chain IH]; intros heads Hw; cbn [move_chain].
  - by exists heads.
  - destruct (add_to_ok mk heads e Hw) as (h1 & -> & Hw1 & Hc1). cbn.
    destruct (IH h1 Hw1) as (h2 & ? & ? & Hc2). exists h2. split_and!; [done..|].
    rewrite Hc2, Hc1. solve_Permutation.
Qed.

Lemma scan_ok o mig fuel :
  0 <= mig -> mig + Z.of_nat fuel <= Z.of_nat (length (a_heads o)) ->
  Z.of_nat (length (a_heads o)) < 2 ^ 64 ->
  exists r, scan o mig fuel = Some r /\ mig <= r <= mig + Z.of_nat fuel /\
    (forall i, mig <= i < r -> a_heads o !! Z.to_nat i = Some []).
Proof.
  revert mig. induction fuel as [|fuel IH]; intros mig H0 Hlen Hw; cbn [scan].
  - exists mig. split_and!; [done|lia|lia|]. intros; lia.
  - destruct (lookup_lt_is_Some_2 (a_heads o) (Z.to_nat mig)) as [b Hb]; [lia|].
    unfold bucket_evacuated. rewrite Hb. cbn.
    destruct b as [|e b]; cbn.
    + rewrite wrap_small by lia.
      destruct (IH (mig + 1)) as (r & -> & Hr & Hall); [lia..|].
      exists r. split_and!; [done|lia|lia|]. intros i Hi.
      destruct (decide (i = mig)) as [->|]; [done|]. apply Hall. lia.
    + exists mig. split_and!; [done|lia|lia|]. intros; lia.
Qed.

(** ** Evacuation *)

Lemma wf_old_length ht o :
  wf_old ht o -> Z.of_nat (length (a_heads o)) = old_mask ht + 1 /\ old_mask ht < 2 ^ 50.
Proof.
  intros ((Hm & -> & _) & _). pose proof (wf_mask_pos _ Hm). split; lia.
Qed.

Lemma ht_core_perm ht ht' :
  contents ht' ≡ₚ contents ht -> ht_core ht ->
  NoDup (e_key <$> contents ht') /\ NoDup (e_node <$> contents ht') /\
  Forall (fun e => wf_key (e_key e)) (contents ht').
Proof. intros Hp [????]. by rewrite !Hp. Qed.

Lemma evacuate_chain_ok ht o i :
  ht_core ht -> old_buckets ht = Some o -> 0 <= i <= old_mask ht ->
  exists ht' o', evacuate_chain ht o i = Some ht' /\ ht_core ht' /\
    old_buckets ht' = Some o' /\ a_ptr o' = a_ptr o /\
    contents ht' ≡ₚ contents ht /\
    n ht' = n ht /\ mask ht' = mask ht /\ ghost ht' = ghost ht /\
    old_mask ht' = old_mask ht /\ migrated ht' = migrated ht /\
    a_heads o' !! Z.to_nat i = Some [].
Proof.
  intros Hc Ho Hi. pose proof (inv_old _ Hc) as Hwo. rewrite Ho in Hwo.
  pose proof (wf_old_length _ _ Hwo) as [Hlen _].
  pose proof Hwo as ((Hm & Hl & Hp) & Hmig & Hpre & Hsep).
  destruct (lookup_lt_is_Some_2 (a_heads o) (Z.to_nat i)) as [b Hb]; [lia|].
  unfold evacuate_chain. rewrite Hb. cbn.
  destruct b as [|e0 b0]; cbn [evacuated negb].
  { exists ht, o. split_and!; done. }
  set (b := e0 :: b0) in *.
  destruct (move_chain_ok (mask ht) b _ (inv_heads _ Hc)) as (h & -> & Hwh & Hch). cbn.
  set (o' := {| a_ptr := a_ptr o; a_heads := <[Z.to_nat i:=[]]> (a_heads o) |}).
  set (ht' := set_old _ _ _).
  assert (a_heads o' !! Z.to_nat i = Some []) as Hoi
    by (apply list_lookup_insert_eq; eapply lookup_lt_Some, Hb).
  assert (forall j, a_heads o !! j = Some [] -> a_heads o' !! j = Some []) as Hmono.
  { intros j Hj. destruct (decide (j = Z.to_nat i)) as [->|]; [done|].
    unfold o'. cbn. by rewrite list_lookup_insert_ne. }
  assert (contents ht' ≡ₚ contents ht) as Hperm.
  { unfold contents, old_entries, ht', o'. cbn. rewrite Ho. rewrite Hch.
    destruct (bucket_split _ _ _ Hb) as (l1 & l2 & Hc1 & Hc2).
    rewrite Hc2, Hc1. cbn. solve_Permutation. }
  exists ht', o'. split_and!; try done.
  destruct (ht_core_perm ht ht' Hperm Hc) as (? & ? & ?).
  split; [exact Hwh| |exact (inv_ghost _ Hc)|done..].
  cbn. split_and!; try done; try (cbn; lia).
  - split_and!; [done|cbn; by rewrite length_insert|].
    apply placed_insert; [done|set_solver].
  - intros j Hj. apply Hmono. by apply Hpre.
  - cbn. intros e. rewrite Hch, elem_of_app. intros [He|He].
    + rewrite (Hp _ _ _ Hb He). exact Hoi.
    + apply Hmono. by apply Hsep.
Qed.

Section munmap_ok.
  Context (munmap : Z -> Z -> bool).
  (** Unmapping a mapped block succeeds. *)
  Hypothesis Hun : forall p len, munmap p len = true.

Lemma evacuate_advance_ok ht o m :
    ht_core ht -> old_buckets ht = Some o ->
    a_heads o !! Z.to_nat (migrated ht) = Some [] ->
    exists ht' m', evacuate_advance munmap ht o m = Some (ht', m') /\ ht_core ht' /\
      contents ht' ≡ₚ contents ht /\
      n ht' = n ht /\ mask ht' = mask ht /\ ghost ht' = ghost ht /\
      old_mask ht' = old_mask ht /\ migrated ht < migrated ht' /\
      (old_buckets ht' = Some o /\ m' = m \/
       old_buckets ht' = None /\
       free_pages m' = u64 (free_pages m + MASK_TO_PAGE (old_mask ht))).
  Proof.
    intros Hc Ho Hhere. pose proof (inv_old _ Hc) as Hwo. rewrite Ho in Hwo.
    pose proof (wf_old_length _ _ Hwo) as [Hlen Hbig].
    pose proof Hwo as ((Hm & Hl & Hp) & Hmig & Hpre & Hsep).
    unfold evacuate_advance. rewrite (wrap_small 64 (migrated ht + 1)) by lia.
    rewrite (wrap_small 64 (migrated ht + 1 + 1024)) by lia.
    rewrite (wrap_small 64 (old_mask ht + 1)) by lia.
    set (max := if bool_decide _ then _ else _).
    assert (migrated ht + 1 <= max <= old_mask ht + 1) as Hmax
      by (unfold max; case_bool_decide; lia).
    destruct (scan_ok o (migrated ht + 1) (Z.to_nat (max - (migrated ht + 1))))
      as (r & -> & Hr & Hall); [lia..|]. cbn.
    assert (forall j, 0 <= j < r -> a_heads o !! Z.to_nat j = Some []) as Hempty.
    { intros j Hj. destruct (Z.lt_trichotomy j (migrated ht)) as [?|[->|?]].
      - apply Hpre. lia.
      - done.
      - apply Hall. lia. }
    case_bool_decide as Hfin.
    - unfold memory_free, sys_free. rewrite Hun. rewrite option_guard_True by done. cbn.
      assert (concat (a_heads o) = []) as Hnil.
      { apply concat_nil_Forall, list.Forall_forall. intros b (j & Hj)%list_elem_of_lookup.
        pose proof (lookup_lt_Some _ _ _ Hj).
        specialize (Hempty (Z.of_nat j) ltac:(lia)). rewrite Nat2Z.id in Hempty.
        congruence. }
      eexists _, _. split; [done|].
      assert (contents (set_old None r ht) ≡ₚ contents ht) as Hperm
        by (unfold contents, old_entries; cbn; by rewrite Ho, Hnil).
      destruct (ht_core_perm _ _ Hperm Hc) as (? & ? & ?).
      split_and!; try done; [|cbn; lia|by right].
      split; [exact (inv_heads _ Hc)|done|exact (inv_ghost _ Hc)|done..].
    - eexists _, _. split; [done|].
      assert (contents (set_old (Some o) r ht) ≡ₚ contents ht) as Hperm
        by (unfold contents, old_entries; cbn; by rewrite Ho).
      destruct (ht_core_perm _ _ Hperm Hc) as (? & ? & ?).
      split_and!; try done; [|cbn; lia|by left].
      split; [exact (inv_heads _ Hc)| |exact (inv_ghost _ Hc)|done..].
      cbn. split_and!; try done; cbn; lia.
  Qed.

Lemma evacuate_ok ht o i m :
    ht_core ht -> old_buckets ht = Some o -> 0 <= i <= old_mask ht ->
    exists ht' m', evacuate munmap ht i m = Some (ht', m') /\ ht_core ht' /\
      contents ht' ≡ₚ contents ht /\
      n ht' = n ht /\ mask ht' = mask ht /\ ghost ht' = ghost ht /\
      old_mask ht' = old_mask ht /\
      (i = migrated ht -> migrated ht < migrated ht') /\
      match old_buckets ht' with
      | Some o' => a_heads o' !! Z.to_nat i = Some [] /\ m' = m
      | None => free_pages m' = u64 (free_pages m + MASK_TO_PAGE (old_mask ht))
      end.
  Proof.
    intros Hc Ho Hi.
    destruct (evacuate_chain_ok ht o i Hc Ho Hi)
      as (h1 & o1 & He & Hc1 & Ho1 & _ & Hp1 & Hn1 & Hm1 & Hg1 & Hom1 & Hmig1 & Hi1).
    unfold evacuate. rewrite Ho. cbn. rewrite He. cbn.
    case_bool_decide as Hcase.
    - rewrite Ho1. cbn. destruct (evacuate_advance_ok h1 o1 m Hc1 Ho1)
        as (h2 & m2 & -> & Hc2 & Hp2 & Hn2 & Hm2 & Hg2 & Hom2 & Hmig2 & Hold);
        [by rewrite <-Hcase|].
      exists h2, m2. split_and!; try done; try congruence; [by rewrite Hp2|].
      destruct Hold as [[-> ->]|[-> ->]]; [done|]. by rewrite Hom1.
    - exists h1, m. split_and!; try done; [lia|]. by rewrite Ho1.
  Qed.
End munmap_ok.

(** ** Key comparison *)

Lemma key_equal_spec a b : wf_key a -> wf_key b -> key_equal a b = true <-> a = b.
Proof.
  intros (_ & Hna & Hla) (_ & Hnb & Hlb). unfold key_equal. rewrite bool_decide_eq_true.
  destruct a as [|la a]; [done|]. destruct b as [|lb b]; [done|].
  unfold key_size in *. cbn [hd length] in *.
  split; [|by intros ->]. intros Heq.
  assert (0 <= Z.land la lb) by (apply Z.land_nonneg; lia).
  rewrite Z2Nat.inj_add, Nat.add_comm in Heq by lia. cbn in Heq.
  injection Heq as -> Heq. rewrite Z.land_diag in Heq.
  rewrite !take_ge in Heq by lia. by f_equal.
Qed.

Lemma chain_find_spec k b :
  Forall (fun e => wf_key (e_key e)) b -> wf_key k -> NoDup (e_key <$> b) ->
  forall v, chain_find k b = Some v <-> exists e, e ∈ b /\ e_key e = k /\ e_node e = v.
Proof.
  intros Hwf Hk. unfold chain_find. induction Hwf as [|e b He Hwf IH]; intros Hnd v.
  - cbn. split; [done|]. intros (? & []%elem_of_nil & _).
  - cbn [fmap list_fmap] in Hnd. apply NoDup_cons in Hnd as [Hnin Hnd].
    cbn [find]. destruct (key_equal (e_key e) k) eqn:E.
    + apply key_equal_spec in E; [|done..]. cbn. split.
      * intros. simplify_eq. exists e. set_solver.
      * intros (e' & [->|Hin]%elem_of_cons & Hk' & <-); [done|].
        destruct Hnin. rewrite E, <-Hk'. by apply list_elem_of_fmap_2.
    + rewrite IH by done. split.
      * intros (e' & ? & ?). exists e'. set_solver.
      * intros (e' & [->|Hin]%elem_of_cons & Hk' & Hv); [|by exists e'].
        exfalso. apply not_true_iff_false in E. apply E, key_equal_spec; done.
Qed.

(** The chain [hash_bucket] selects holds every entry of the key. *)
Lemma hash_bucket_spec ht k :
  ht_core ht ->
  exists b, hash_bucket ht k = Some b /\ (forall e, e ∈ b -> e ∈ contents ht) /\
    NoDup (e_key <$> b) /\
    (forall e, e ∈ contents ht -> e_key e = k -> e ∈ b).
Proof.
  intros Hc. destruct (wf_heads_lookup _ _ k (inv_heads _ Hc)) as [b Hb].
  pose proof (inv_keys _ Hc) as Hnd. pose proof (inv_old _ Hc) as Hwo.
  pose proof (inv_heads _ Hc) as (_ & _ & Hp).
  unfold hash_bucket, contents, old_entries in *.
  assert (NoDup (e_key <$> b)) as Hndb.
  { destruct (bucket_split _ _ _ Hb) as (l1 & l2 & Hc1 & _).
    rewrite fmap_app in Hnd. apply NoDup_app in Hnd as (Hnd & _ & _).
    rewrite Hc1, fmap_app in Hnd. by apply NoDup_app in Hnd as (? & _ & _). }
  assert (forall e, e ∈ b -> e ∈ concat (a_heads (buckets ht))) as Hsub
    by (intros e He; apply elem_of_concat; eauto).
  assert (forall e, e ∈ concat (a_heads (buckets ht)) -> e_key e = k -> e ∈ b) as Hin.
  { intros e (i & b' & Hb' & He)%elem_of_concat <-.
    rewrite (Hp _ _ _ Hb' He) in Hb. congruence. }
  destruct (old_buckets ht) as [o|].
  - destruct Hwo as (Hwh & _ & _ & Hsep).
    destruct (wf_heads_lookup _ _ k Hwh) as [ob Hob]. rewrite Hob. cbn.
    destruct Hwh as (_ & _ & Hpo). destruct ob as [|e0 ob]; cbn [evacuated].
    + exists b. split_and!; try done; [intros e He; apply elem_of_app; eauto|].
      intros e [He|He]%elem_of_app Hk; [by apply Hin|].
      apply elem_of_concat in He as (i & b' & Hb' & He). pose proof (Hpo _ _ _ Hb' He) as <-.
      rewrite Hk, Hob in Hb'. simplify_eq. by apply elem_of_nil in He.
    + exists (e0 :: ob). split_and!; try done.
      * intros e He. apply elem_of_app. right. apply elem_of_concat. eauto.
      * destruct (bucket_split _ _ _ Hob) as (l1 & l2 & Hc1 & _).
        rewrite fmap_app in Hnd. apply NoDup_app in Hnd as (_ & _ & Hnd).
        rewrite Hc1, fmap_app in Hnd. by apply NoDup_app in Hnd as (? & _ & _).
      * intros e [He|He]%elem_of_app Hk.
        -- apply Hsep in He. rewrite Hk, Hob in He. done.
        -- apply elem_of_concat in He as (i & b' & Hb' & He).
           pose proof (Hpo _ _ _ Hb' He) as <-. rewrite Hk, Hob in Hb'. by simplify_eq.
  - rewrite app_nil_r. exists b. by split_and!.
Qed.

(** The (key, node) map a table stands for. *)
Definition ht_map (ht : hash_table) : gmap key Z :=
  list_to_map ((fun e => (e_key e, e_node e)) <$> contents ht).

Lemma pairs_keys (l : list entry) :
  ((fun e => (e_key e, e_node e)) <$> l).*1 = e_key <$> l.
Proof. rewrite <-list_fmap_compose. done. Qed.

Lemma ht_map_lookup ht k v :
  NoDup (e_key <$> contents ht) ->
  ht_map ht !! k = Some v <-> exists e, e ∈ contents ht /\ e_key e = k /\ e_node e = v.
Proof.
  intros Hnd. unfold ht_map. rewrite <-elem_of_list_to_map by by rewrite pairs_keys.
  rewrite list_elem_of_fmap. split.
  - intros (e & Heq & He). simplify_eq. eauto.
  - intros (e & He & <- & <-). eauto.
Qed.

Lemma ht_map_perm ht ht' :
  contents ht' ≡ₚ contents ht -> NoDup (e_key <$> contents ht) -> ht_map ht' = ht_map ht.
Proof.
  intros Hp Hnd. apply list_to_map_proper; [|by rewrite Hp].
  by rewrite pairs_keys, Hp.
Qed.

(** ** The ghost queue *)

Lemma ghost_cursor_range g : 0 <= Z.land (hd 0 g) BUCKET_GHOST_MASK < 16.
Proof.
  change BUCKET_GHOST_MASK with (2 ^ 4 - 1). rewrite land_mask by lia.
  apply Z.mod_pos_bound. lia.
Qed.

Lemma hd_lookup (g : list Z) : g <> [] -> g !! 0%nat = Some (hd 0 g).
Proof. by destruct g. Qed.

(** What an insertion does to the cursor and to the slots. *)
Lemma ghost_add_spec g fp :
  wf_ghost_row g -> 0 <= fp < 2 ^ 32 ->
  let c := Z.land (hd 0 g) 15 in
  wf_ghost_row (ghost_add g fp) /\
  Z.land (hd 0 (ghost_add g fp)) 15 = (c + 1) mod 16 /\
  (forall i, (0 < i)%nat -> ghost_add g fp !! i = if decide (i = Z.to_nat c) then
     (if decide (i < 16)%nat then Some fp else None) else g !! i) /\
  Z.shiftr (hd 0 (ghost_add g fp)) 4 = if decide (c = 0) then Z.shiftr fp 4
                                      else Z.shiftr (hd 0 g) 4.
Proof.
  intros [Hlen Hf] Hfp c. pose proof (ghost_cursor_range g) as Hc. fold c in Hc.
  change (Z.land (hd 0 g) BUCKET_GHOST_MASK) with c in Hc.
  unfold ghost_add. change (Z.land (hd 0 g) BUCKET_GHOST_MASK) with c.
  set (g1 := <[Z.to_nat c:=fp]> g).
  assert (length g1 = 16%nat) as Hl1 by by unfold g1; rewrite length_insert.
  assert (Forall (fun x => 0 <= x < 2 ^ 32) g1) as Hf1 by by apply Forall_insert.
  assert (hd 0 g1 = if decide (c = 0) then fp else hd 0 g) as Hhd.
  { enough (Some (hd 0 g1) = Some (if decide (c = 0) then fp else hd 0 g)) by congruence.
    rewrite <-hd_lookup by by intros ->. unfold g1. case_decide as Hd.
    - rewrite Hd. apply list_lookup_insert_eq. lia.
    - rewrite list_lookup_insert_ne by lia. apply hd_lookup. by intros ->. }
  set (h := hd 0 g1) in *.
  assert (0 <= h < 2 ^ 32) as Hh.
  { rewrite Forall_lookup in Hf1. apply (Hf1 0%nat). apply hd_lookup. by intros ->. }
  set (w := Z.lor _ _).
  assert (w = h - h mod 16 + (c + 1) mod 16) as Hw.
  { unfold w. change (u32 (Z.lnot BUCKET_GHOST_MASK)) with (2 ^ 32 - 1 - 15).
    change BUCKET_GHOST_MASK with (2 ^ 4 - 1). rewrite (land_mask (c + 1)) by lia.
    assert (Z.land h (2 ^ 32 - 1 - 15) = h - h mod 16) as ->.
    { replace (2 ^ 32 - 1 - 15) with (Z.land (2 ^ 32 - 1) (Z.lnot (2 ^ 4 - 1))) by done.
      rewrite Z.land_assoc, land_mask, land_lnot_ones by lia.
      by rewrite (Z.mod_small h) by lia. }
    apply (lor_disjoint_add _ _ 4); [lia| |by apply Z.mod_pos_bound].
    change (2 ^ 4) with 16. rewrite Zminus_mod_idemp_r, Z.sub_diag. done. }
  pose proof (Z.mod_pos_bound (c + 1) 16 ltac:(lia)).
  pose proof (Z.mod_pos_bound h 16 ltac:(lia)).
  pose proof (Z.div_mod h 16 ltac:(lia)) as Hdm.
  assert (h - h mod 16 = h / 16 * 16) as Hhi by lia.
  assert (h / 16 < 2 ^ 28) by (apply Z.div_lt_upper_bound; lia).
  assert (hd 0 (<[0%nat:=w]> g1) = w) as -> by by destruct g1.
  change 15 with (2 ^ 4 - 1). rewrite land_mask, !Z.shiftr_div_pow2 by lia.
  change (2 ^ 4) with 16. rewrite Hw, Hhi.
  split_and!.
  - split; [by rewrite length_insert|]. apply Forall_insert; [done|]. lia.
  - rewrite Z.add_comm, Z.mod_add by lia. by apply Z.mod_small.
  - intros i Hi. rewrite list_lookup_insert_ne by lia. unfold g1.
    destruct (decide (i = Z.to_nat c)) as [->|Hd].
    + rewrite decide_True by lia. apply list_lookup_insert_eq. lia.
    + by apply list_lookup_insert_ne.
  - rewrite Z.add_comm, Z.div_add by lia. rewrite Z.div_small by lia.
    rewrite Z.add_0_l, Hhd. by case_decide.
Qed.

(** [fp] sits in slot [c] (only its upper 28 bits when [c] is 0). *)
Definition ghost_slot (g : list Z) (c : Z) (fp : Z) : Prop :=
  if decide (c = 0) then Z.shiftr (hd 0 g) 4 = Z.shiftr fp 4
  else g !! Z.to_nat c = Some fp.

Lemma ghost_slot_hit g c fp : ghost_slot g c fp -> 0 <= c -> ghost_hit g fp = true.
Proof.
  unfold ghost_slot, ghost_hit. case_decide as Hc; intros Hs H0; apply orb_true_iff.
  - right. by apply Z.eqb_eq.
  - left. apply existsb_exists. exists fp. split; [|by apply Z.eqb_eq].
    apply list_elem_of_In, list_elem_of_lookup. exists (Z.to_nat c - 1)%nat.
    rewrite lookup_drop, <-Hs. f_equal. lia.
Qed.

Lemma ghost_add_slot g fp :
  wf_ghost_row g -> 0 <= fp < 2 ^ 32 -> ghost_slot (ghost_add g fp) (Z.land (hd 0 g) 15) fp.
Proof.
  intros Hg Hfp. destruct (ghost_add_spec g fp Hg Hfp) as (_ & _ & Hs & Hh).
  pose proof (ghost_cursor_range g) as Hc. change BUCKET_GHOST_MASK with 15 in Hc.
  unfold ghost_slot. destruct (decide (Z.land (hd 0 g) 15 = 0)) as [Hd|Hd];
    [by rewrite Hh|].
  rewrite Hs, decide_True, decide_True by lia. done.
Qed.

(** An insertion at another slot keeps it. *)
Lemma ghost_add_other g c fp fp' :
  wf_ghost_row g -> 0 <= fp' < 2 ^ 32 -> 0 <= c < 16 -> c <> Z.land (hd 0 g) 15 ->
  ghost_slot g c fp -> ghost_slot (ghost_add g fp') c fp.
Proof.
  intros Hg Hfp Hc Hne. destruct (ghost_add_spec g fp' Hg Hfp) as (_ & _ & Hs & Hh).
  pose proof (ghost_cursor_range g) as Hcu. change BUCKET_GHOST_MASK with 15 in Hcu.
  unfold ghost_slot. destruct (decide (c = 0)) as [Hd|Hd].
  - rewrite Hh, decide_False by lia. done.
  - rewrite Hs, decide_False by lia. done.
Qed.

Lemma ghost_window g c fp fps k :
  wf_ghost_row g -> Forall (fun x => 0 <= x < 2 ^ 32) fps -> 0 <= c < 16 ->
  0 <= k -> k + Z.of_nat (length fps) <= 15 ->
  Z.land (hd 0 g) 15 = (c + 1 + k) mod 16 -> ghost_slot g c fp ->
  ghost_slot (foldl ghost_add g fps) c fp.
Proof.
  intros Hg Hf Hc. revert g k Hg. induction Hf as [|x fps Hx Hf IH]; intros g k Hg Hk Hlen Hcu Hs;
    cbn [foldl length] in *; [done|].
  destruct (ghost_add_spec g x Hg Hx) as (Hg' & Hcu' & _).
  apply (IH _ (k + 1)); [done|lia|lia| |].
  - rewrite Hcu', Hcu, Zplus_mod_idemp_l. f_equal. lia.
  - apply ghost_add_other; try done. rewrite Hcu.
    pose proof (Z.mod_pos_bound (c + 1 + k) 16 ltac:(lia)).
    intros Heq. assert ((c + 1 + k) mod 16 = c mod 16) as Hm
      by (rewrite (Z.mod_small c) by lia; done).
    pose proof (Z.div_mod (c + 1 + k) 16 ltac:(lia)).
    assert (16 * ((c + 1 + k) / 16) = 1 + k) by lia. lia.
Qed.

(** ** Removal and resizing *)

Lemma concat_filter {A} (P : A -> Prop) `{!forall x, Decision (P x)} (hs : list (list A)) :
  concat (filter P <$> hs) = filter P (concat hs).
Proof. induction hs as [|h hs IH]; cbn; [done|]. by rewrite filter_app, IH. Qed.

Lemma filter_all_true {A} (P : A -> Prop) `{!forall x, Decision (P x)} l :
  Forall P l -> filter P l = l.
Proof. induction 1 as [|x l Hx _ IH]; [done|]. by rewrite filter_cons_True, IH. Qed.

Lemma remove_entry (l : list entry) e :
  NoDup (e_node <$> l) -> e ∈ l ->
  l ≡ₚ e :: filter (fun x => e_node x ≠ e_node e) l.
Proof.
  intros Hnd (l1 & l2 & ->)%list_elem_of_split.
  rewrite fmap_app, fmap_cons in Hnd. apply NoDup_middle in Hnd as [Hn _].
  rewrite filter_app, filter_cons_False by naive_solver.
  rewrite !filter_all_true; [solve_Permutation|..];
    apply list.Forall_forall; intros x Hx Heq; apply Hn; rewrite <-Heq, <-fmap_app;
    apply list_elem_of_fmap_2; set_solver.
Qed.

Lemma hash_del_contents ht ht' e :
  hash_del ht e = Some ht' ->
  contents ht' = filter (fun x => e_node x ≠ e_node e) (contents ht).
Proof.
  unfold hash_del, hash_add_ghost. cbn. intros (g & _ & He)%bind_Some. simplify_eq.
  unfold contents, old_entries, unlink. cbn. destruct (old_buckets ht); cbn.
  - by rewrite !concat_filter, filter_app.
  - by rewrite concat_filter, !app_nil_r.
Qed.

Lemma wf_heads_unlink mk node a : wf_heads mk (a_heads a) -> wf_heads mk (a_heads (unlink node a)).
Proof.
  intros (? & Hl & Hp). split_and!; [done|by cbn; rewrite length_fmap|].
  intros i b e Hb He. cbn in Hb. rewrite list_lookup_fmap in Hb.
  apply fmap_Some in Hb as (b' & Hb' & ->). apply list_elem_of_filter in He as [_ He].
  by eapply Hp.
Qed.

Lemma unlink_nil node a i : a_heads a !! i = Some [] -> a_heads (unlink node a) !! i = Some [].
Proof. intros Hi. cbn. by rewrite list_lookup_fmap, Hi. Qed.

Lemma ghost_row_lookup ht k :
  ht_core ht -> exists g, ghost ht !! idx k (mask ht) = Some g /\ wf_ghost_row g.
Proof.
  intros Hc. destruct (inv_ghost _ Hc) as [Hl Hg]. destruct (inv_heads _ Hc) as (Hm & _).
  destruct (lookup_lt_is_Some_2 (ghost ht) (idx k (mask ht))) as [g Eg].
  { rewrite Hl. by apply idx_range. }
  exists g. split; [done|]. by eapply Forall_lookup_1.
Qed.

Lemma hash_add_ghost_core ht k :
  ht_core ht ->
  exists ht', hash_add_ghost ht k = Some ht' /\ ht_core ht' /\
    contents ht' = contents ht /\ n ht' = n ht /\ hash_ghost ht' k = Some true.
Proof.
  intros Hc. destruct (ghost_row_lookup ht k Hc) as (g & Eg & Hg).
  unfold hash_add_ghost. rewrite Eg. cbn. eexists; split; [done|].
  pose proof (fingerprint_range k) as Hfp. pose proof (lookup_lt_Some _ _ _ Eg).
  split_and!; try done.
  - destruct (inv_ghost _ Hc) as [Hl HF]. destruct Hc. split; try done.
    cbn. split; [by rewrite length_insert|]. apply Forall_insert; [done|].
    by apply ghost_add_spec.
  - unfold hash_ghost. cbn. rewrite list_lookup_insert_eq by done. cbn. f_equal.
    eapply ghost_slot_hit; [by apply ghost_add_slot|].
    pose proof (ghost_cursor_range g). change BUCKET_GHOST_MASK with 15 in *. lia.
Qed.

Lemma unlink_core ht node :
  ht_core ht ->
  ht_core (set_old (unlink node <$> old_buckets ht) (migrated ht)
             (set_buckets (unlink node (buckets ht)) ht)).
Proof.
  intros Hc. set (ht' := set_old _ _ _).
  assert (contents ht' = filter (fun x => e_node x ≠ node) (contents ht)) as Hcon.
  { unfold contents, old_entries, ht', unlink. cbn. destruct (old_buckets ht); cbn.
    - by rewrite !concat_filter, filter_app.
    - by rewrite concat_filter, !app_nil_r. }
  destruct Hc as [Hh Ho Hg Hk Hn Hw]. split; [by apply wf_heads_unlink| |done|..].
  - cbn. destruct (old_buckets ht) as [o|]; cbn; [|done].
    destruct Ho as (Hwo & Hmig & Hpre & Hsep). split_and!; try (cbn; lia).
    + by apply wf_heads_unlink.
    + intros i Hi. by apply unlink_nil, Hpre.
    + intros e He. apply unlink_nil, Hsep. cbn in He. rewrite concat_filter in He.
      by apply list_elem_of_filter in He as [_ ?].
  - rewrite Hcon. by apply NoDup_fmap_filter.
  - rewrite Hcon. by apply NoDup_fmap_filter.
  - rewrite Hcon. apply list.Forall_forall. intros x [_ Hx]%list_elem_of_filter. by eapply list.Forall_forall in Hw.
Qed.

Lemma fresh_heads_concat mk : concat (fresh_heads mk) = [].
Proof. unfold fresh_heads. induction (Z.to_nat (mk + 1)); by cbn. Qed.

Lemma fresh_heads_wf mk : wf_mask mk -> wf_heads mk (fresh_heads mk).
Proof.
  intros Hm. split_and!; [done|apply length_replicate|].
  intros i b e (-> & _)%lookup_replicate He. by apply elem_of_nil in He.
Qed.

Lemma fresh_ghost_row : wf_ghost_row (replicate (Z.to_nat BUCKET_GHOST) 0).
Proof. split; [done|decide_now]. Qed.

(** ** Page arithmetic of the two arrays *)

Lemma MASK_TO_PAGE_eq mk j :
  0 <= j <= 40 -> mk + 1 = 512 * 2 ^ j -> MASK_TO_PAGE mk = 9 * 2 ^ j.
Proof.
  intros Hj E. pose proof (Z.pow_pos_nonneg 2 j ltac:(lia) ltac:(lia)).
  pose proof (Z.pow_le_mono_r 2 j 40 ltac:(lia) ltac:(lia)) as Hb.
  unfold MASK_TO_PAGE. rewrite E. change MIN_PAGE with 9.
  rewrite (wrap_small 64 (512 * 2 ^ j)), wrap_small by lia.
  change (PAGE_SHIFT - 3) with 9.
  rewrite Z.shiftr_div_pow2 by lia. change (2 ^ 9) with 512.
  replace (512 * 2 ^ j * 9) with (9 * 2 ^ j * 512) by lia. apply Z.div_mul. lia.
Qed.

Lemma PAGE_TO_MASK_eq j : 0 <= j <= 40 -> PAGE_TO_MASK (9 * 2 ^ j) + 1 = 512 * 2 ^ j.
Proof.
  intros Hj. pose proof (Z.pow_pos_nonneg 2 j ltac:(lia) ltac:(lia)).
  pose proof (Z.pow_le_mono_r 2 j 40 ltac:(lia) ltac:(lia)) as Hb.
  unfold PAGE_TO_MASK. change MIN_PAGE with 9. rewrite (Z.mul_comm 9), Z.div_mul by lia.
  change (PAGE_SHIFT - 3) with 9. rewrite Z.shiftl_mul_pow2 by lia.
  change (2 ^ 9) with 512. rewrite wrap_small by lia. lia.
Qed.

Lemma hash_resize_page_cases ht :
  wf_mask (mask ht) -> hash_resize_page ht <> 0 ->
  exists j j', 0 <= j <= 40 /\ 0 <= j' <= 41 /\ mask ht + 1 = 512 * 2 ^ j /\
    (j' = j + 1 \/ j' = j - 1) /\ hash_resize_page ht = 9 * 2 ^ j'.
Proof.
  intros (j & Hj & E) Hp. exists j.
  pose proof (Z.pow_pos_nonneg 2 j ltac:(lia) ltac:(lia)).
  pose proof (Z.pow_le_mono_r 2 j 40 ltac:(lia) ltac:(lia)) as Hb.
  unfold hash_resize_page, grow_required_page, shrink_required_page in *.
  rewrite (MASK_TO_PAGE_eq _ j) in * by done.
  destruct (negb (under_migrating ht)); [|done].
  destruct (should_grow ht).
  - exists (j + 1). rewrite Z.shiftl_mul_pow2, wrap_small by lia.
    rewrite Z.pow_add_r by lia. split_and!; try done; lia.
  - destruct (should_shrink ht) eqn:Es; [|done]. unfold should_shrink in Es.
    apply andb_true_iff in Es as [Es%bool_decide_eq_true _].
    change MIN_MASK with 511 in Es.
    assert (0 < j) by (destruct (decide (j = 0)) as [->|]; [cbn in E; lia|lia]).
    exists (j - 1).
    assert (2 ^ j = 2 ^ (j - 1) * 2) as Hhalf.
    { replace j with (Z.succ (j - 1)) at 1 by lia. rewrite Z.pow_succ_r by lia. lia. }
    rewrite Z.shiftr_div_pow2 by lia. change (2 ^ 1) with 2.
    replace (9 * 2 ^ j) with (9 * 2 ^ (j - 1) * 2) by lia. rewrite Z.div_mul by lia.
    split_and!; try done; lia.
Qed.

Lemma hash_add_ok munmap ht e m
    (Hun : forall p len, munmap p len = true) (Hinv : ht_inv ht)
    (Hk : wf_key (e_key e)) (Habs : ht_map ht !! e_key e = None)
    (Hnode : e_node e ∉ e_node <$> contents ht) (Hroom : n ht + 1 < 2 ^ 64) :
  exists ht' m', hash_add munmap ht e m = Some (ht', m') /\ ht_inv ht' /\
    ht_map ht' = <[e_key e := e_node e]> (ht_map ht) /\ n ht' = n ht + 1 /\
    mask ht' = mask ht.
Proof.
  destruct Hinv as [Hc Hn]. unfold hash_add. rewrite (wrap_small 64 (n ht + 1)) by lia.
  set (h0 := set_n (n ht + 1) ht).
  assert (ht_core h0) as Hc0 by (destruct Hc; by split).
  change (under_migrating h0) with (under_migrating ht).
  assert (exists h1 m1,
    (if under_migrating ht
     then evacuate munmap h0 (Z.land (key_hash (e_key e)) (old_mask h0)) m
     else Some (h0, m)) = Some (h1, m1) /\ ht_core h1 /\ contents h1 ≡ₚ contents ht /\
    n h1 = n ht + 1 /\ mask h1 = mask ht /\
    match old_buckets h1 with
    | Some o => a_heads o !! idx (e_key e) (old_mask h1) = Some []
    | None => True
    end) as (h1 & m1 & -> & Hc1 & Hp1 & Hn1 & Hmk & Hold1).
  { unfold under_migrating. destruct (old_buckets ht) as [o|] eqn:Eo.
    - pose proof (inv_old _ Hc) as Ho. rewrite Eo in Ho. destruct Ho as ((Hm & _) & _).
      destruct (evacuate_ok munmap Hun h0 o (Z.land (key_hash (e_key e)) (old_mask h0)) m)
        as (h & m' & ? & ? & ? & ? & ? & ? & Hom & _ & Hres); [done|done| |].
      { apply land_mask_range. exact Hm. }
      exists h, m'. split_and!; try done. destruct (old_buckets h); [|done].
      destruct Hres as [Hres _]. unfold idx. by rewrite Hom.
    - exists h0, m. split_and!; try done. cbn. by rewrite Eo. }
  cbn. destruct (add_to_ok _ _ e (inv_heads _ Hc1)) as (heads & -> & Hwh & Hperm). cbn.
  set (h2 := set_buckets _ _).
  assert (contents h2 ≡ₚ e :: contents ht) as Hcon.
  { rewrite <-Hp1. unfold contents, h2, old_entries. cbn. rewrite Hperm. done. }
  assert (e_key e ∉ e_key <$> contents ht) as Hfresh.
  { intros (e' & Hke & He')%list_elem_of_fmap.
    assert (ht_map ht !! e_key e = Some (e_node e')) as Hs
      by (apply ht_map_lookup; [exact (inv_keys _ Hc)|eauto]).
    congruence. }
  assert (ht_core h2) as Hc2.
  { split; [exact Hwh| |exact (inv_ghost _ Hc1)|..].
    - cbn. pose proof (inv_old _ Hc1) as Ho. destruct (old_buckets h1); [|done].
      destruct Ho as (? & ? & ? & Hsep). split_and!; try done; try (cbn; lia).
      cbn. intros e'. rewrite Hperm, elem_of_cons. intros [->|He']; [done|by apply Hsep].
    - rewrite Hcon. cbn. apply NoDup_cons. split; [done|exact (inv_keys _ Hc)].
    - rewrite Hcon. cbn. apply NoDup_cons. split; [done|exact (inv_nodes _ Hc)].
    - rewrite Hcon. constructor; [done|exact (inv_wf _ Hc)]. }
  exists h2, m1. split; [done|]. split; [split; [done|]|split; [|split; done]].
  - change (n h2) with (n h1). rewrite Hn1, Hcon. cbn. lia.
  - unfold ht_map. rewrite (list_to_map_proper _
      ((fun e => (e_key e, e_node e)) <$> e :: contents ht)); [done| |by rewrite Hcon].
    rewrite pairs_keys. exact (inv_keys _ Hc2).
Qed.

(** A resize to any admissible number of pages. *)
Lemma hash_resize_any ht j new :
  ht_inv ht -> old_buckets ht = None -> 0 <= j <= 40 ->
  let ht' := hash_resize ht (9 * 2 ^ j) new in
  ht_inv ht' /\ ht_map ht' = ht_map ht /\ mask ht' + 1 = 512 * 2 ^ j.
Proof.
  intros [Hc Hn] Hno Hj ht'. pose proof (inv_heads _ Hc) as (Hm & _).
  pose proof (PAGE_TO_MASK_eq j Hj) as Hmk. change (PAGE_TO_MASK _) with (mask ht') in Hmk.
  pose proof (wf_mask_pos _ Hm).
  assert (contents ht' = contents ht) as Hcon.
  { unfold contents, old_entries, ht'. cbn. rewrite fresh_heads_concat, Hno.
    by rewrite app_nil_r. }
  assert (wf_mask (mask ht')) as Hm' by (by exists j).
  split_and!; [|by apply ht_map_perm; [rewrite Hcon|exact (inv_keys _ Hc)]|done].
  split; [|by rewrite Hcon].
  split; [by apply fresh_heads_wf| | |rewrite Hcon; apply Hc..].
  - cbn. split_and!; try apply (inv_heads _ Hc); cbn; try lia.
    intros e. by rewrite fresh_heads_concat, elem_of_nil.
  - cbn. split; [apply length_replicate|]. apply Forall_replicate, fresh_ghost_row.
Qed.

Lemma hash_resize_ok ht new
    (Hinv : ht_inv ht) (Hpage : hash_resize_page ht <> 0)
    (Hsmall : mask ht + 1 < 512 * 2 ^ 40) :
  let page := hash_resize_page ht in
  let ht' := hash_resize ht page new in
  ht_inv ht' /\ ht_map ht' = ht_map ht /\
  (mask ht' + 1 = 2 * (mask ht + 1) \/ 2 * (mask ht' + 1) = mask ht + 1) /\
  GHOST_OFFSET page = 8 * (mask ht' + 1) /\
  GHOST_OFFSET page + 64 * (mask ht' + 1) = page * 4096.
Proof.
  destruct Hinv as [Hc Hn]. pose proof (inv_heads _ Hc) as (Hm & _).
  destruct (hash_resize_page_cases ht Hm Hpage) as (j & j' & Hj & Hj' & E & Hcase & Hp).
  intros page ht'.
  assert (2 ^ j < 2 ^ 40) as Hlt by lia. apply Z.pow_lt_mono_r_iff in Hlt; [|lia..].
  assert (0 <= j' <= 40) as Hj40 by lia.
  assert (old_buckets ht = None) as Hno.
  { unfold hash_resize_page, under_migrating in Hpage. by destruct (old_buckets ht). }
  pose proof (Z.pow_pos_nonneg 2 j' ltac:(lia) ltac:(lia)).
  pose proof (Z.pow_le_mono_r 2 j' 40 ltac:(lia) ltac:(lia)).
  destruct (hash_resize_any ht j' new (conj Hc Hn) Hno Hj40) as (Hinv' & Hmap & Hmk).
  rewrite <-Hp in Hinv', Hmap, Hmk.
  change (hash_resize ht (hash_resize_page ht) new) with ht' in Hinv', Hmap, Hmk.
  split_and!; [exact Hinv'|exact Hmap|..].
  - rewrite Hmk, E. destruct Hcase as [-> | ->].
    + left. rewrite Z.pow_add_r by lia. lia.
    + right. replace j with (Z.succ (j - 1)) at 2 by lia. rewrite Z.pow_succ_r; lia.
  - unfold GHOST_OFFSET, page. rewrite Hp. change MIN_PAGE with 9.
    rewrite (Z.mul_comm 9), Z.div_mul by lia. rewrite Z.shiftl_mul_pow2 by done.
    change (2 ^ PAGE_SHIFT) with 4096. rewrite wrap_small by lia. lia.
  - unfold GHOST_OFFSET, page. rewrite Hp. change MIN_PAGE with 9.
    rewrite (Z.mul_comm 9), Z.div_mul by lia. rewrite Z.shiftl_mul_pow2 by done.
    change (2 ^ PAGE_SHIFT) with 4096. rewrite wrap_small by lia. lia.
Qed.

Lemma hash_get_ok munmap ht k m
    (Hun : forall p len, munmap p len = true) (Hinv : ht_inv ht) (Hk : wf_key k) :
  exists ht' m', hash_get munmap ht k m = Some (ht_map ht !! k, ht', m') /\
    ht_inv ht' /\ ht_map ht' = ht_map ht /\ mask ht' = mask ht.
Proof.
  destruct Hinv as [Hc Hn].
  assert (exists ht' m',
    (if under_migrating ht then evacuate munmap ht (migrated ht) m else Some (ht, m))
      = Some (ht', m') /\ ht_core ht' /\ contents ht' ≡ₚ contents ht /\ n ht' = n ht /\
      mask ht' = mask ht)
    as (ht' & m' & He & Hc' & Hp & Hn' & Hmk).
  { unfold under_migrating. destruct (old_buckets ht) as [o|] eqn:Eo.
    - pose proof (inv_old _ Hc) as Ho. rewrite Eo in Ho. destruct Ho as (_ & Hmig & _).
      destruct (evacuate_ok munmap Hun ht o (migrated ht) m Hc Eo Hmig)
        as (h & m' & ? & ? & ? & ? & ? & _). by exists h, m'.
    - by exists ht, m. }
  exists ht', m'. unfold hash_get. rewrite He. cbn.
  destruct (hash_bucket_spec ht' k Hc') as (b & -> & Hsub & Hnd & Hin). cbn.
  assert (ht_map ht' = ht_map ht) as Hmap by (apply ht_map_perm; [done|exact (inv_keys _ Hc)]).
  split; [|split; [|split; done]].
  - do 3 f_equal. rewrite <-Hmap. apply option_eq. intros v.
    rewrite ht_map_lookup by exact (inv_keys _ Hc'). rewrite chain_find_spec; try done.
    + split; intros (e & ? & ? & ?); exists e; eauto.
    + apply list.Forall_forall. intros e He'. pose proof (inv_wf _ Hc') as Hw.
      rewrite list.Forall_forall in Hw. by apply Hw, Hsub.
  - split; [done|]. by rewrite Hn', Hn, Hp.
Qed.

Lemma hash_del_ok ht e
    (Hinv : ht_inv ht) (Hin : e ∈ contents ht) (Hroom : n ht < 2 ^ 64) :
  exists ht', hash_del ht e = Some ht' /\ ht_inv ht' /\
    ht_map ht' = delete (e_key e) (ht_map ht) /\
    hash_ghost ht' (e_key e) = Some true /\
    mask ht' = mask ht /\ under_migrating ht' = under_migrating ht.
Proof.
  destruct Hinv as [Hc Hn].
  pose proof (remove_entry _ _ (inv_nodes _ Hc) Hin) as Hrem.
  assert (1 <= n ht) as Hpos by (rewrite Hn, Hrem; cbn; lia).
  assert (ht_core (set_n (u64 (n ht - 1)) ht)) as Hc0 by (destruct Hc; by split).
  pose proof (unlink_core _ (e_node e) Hc0) as Hc1.
  destruct (hash_add_ghost_core _ (e_key e) Hc1) as (ht' & He & Hc' & Hcon & Hn' & Hg).
  exists ht'. split; [exact He|].
  assert (contents ht' = filter (fun x => e_node x ≠ e_node e) (contents ht)) as Hcon'
    by (by apply hash_del_contents).
  assert (mask ht' = mask ht /\ under_migrating ht' = under_migrating ht) as Hsame.
  { unfold hash_add_ghost in He. apply bind_Some in He as (g & _ & He). simplify_eq.
    split; [done|]. unfold under_migrating. cbn. by destruct (old_buckets ht). }
  split; [split; [done|]|split; [|split; done]].
  - rewrite Hn'. cbn. rewrite wrap_small by lia. rewrite Hn, Hcon'.
    rewrite Hrem at 1. cbn. lia.
  - assert (e_key e ∉ e_key <$> contents ht') as Hfresh.
    { pose proof (inv_keys _ Hc) as Hk. rewrite Hrem, <-Hcon', fmap_cons in Hk.
      by apply NoDup_cons in Hk as [? _]. }
    rewrite <-Hcon' in Hrem. unfold ht_map.
    rewrite (list_to_map_proper ((fun e => (e_key e, e_node e)) <$> contents ht)
      ((fun e => (e_key e, e_node e)) <$> e :: contents ht')).
    + cbn. rewrite delete_insert_id; [done|]. apply not_elem_of_list_to_map_1.
      by rewrite pairs_keys.
    + rewrite pairs_keys. exact (inv_keys _ Hc).
    + by rewrite <-Hrem.
Qed.

(** The nodes of the table are the values of the map, each under one key. *)
Lemma ht_map_node ht x :
  ht_inv ht -> x ∈ e_node <$> contents ht <-> exists k, ht_map ht !! k = Some x.
Proof.
  intros [Hc _]. rewrite list_elem_of_fmap. split.
  - intros (e & -> & He). exists (e_key e). apply ht_map_lookup; [exact (inv_keys _ Hc)|eauto].
  - intros (k & Hk). apply ht_map_lookup in Hk as (e & He & _ & <-); [eauto|].
    exact (inv_keys _ Hc).
Qed.

Lemma NoDup_fmap_inj {A B} (f : A -> B) l x y :
  NoDup (f <$> l) -> x ∈ l -> y ∈ l -> f x = f y -> x = y.
Proof.
  intros Hnd [i Hi]%list_elem_of_lookup [j Hj]%list_elem_of_lookup E.
  assert (i = j) as ->; [|congruence].
  eapply NoDup_lookup; [exact Hnd|..]; rewrite list_lookup_fmap.
  - by rewrite Hi.
  - by rewrite Hj, E.
Qed.

Lemma ht_map_inj ht k k' x :
  ht_inv ht -> ht_map ht !! k = Some x -> ht_map ht !! k' = Some x -> k = k'.
Proof.
  intros [Hc _]. rewrite !ht_map_lookup by exact (inv_keys _ Hc).
  intros (e & He & <- & <-) (e' & He' & <- & E). f_equal.
  by eapply NoDup_fmap_inj; [exact (inv_nodes _ Hc)|..].
Qed.

Lemma ht_map_entry ht e :
  ht_inv ht -> ht_map ht !! e_key e = Some (e_node e) -> e ∈ contents ht.
Proof.
  intros [Hc _] H. apply ht_map_lookup in H as (e' & He & ? & ?); [|exact (inv_keys _ Hc)].
  destruct e, e'. cbn in *. by simplify_eq.
Qed.

Lemma hash_ghost_total ht k : ht_inv ht -> exists b, hash_ghost ht k = Some b.
Proof.
  intros [Hc _]. destruct (ghost_row_lookup ht k Hc) as (g & E & _).
  unfold hash_ghost. rewrite E. cbn. eauto.
Qed.

Lemma ht_map_wf_key ht k x : ht_inv ht -> ht_map ht !! k = Some x -> wf_key k.
Proof.
  intros [Hc _] H. apply ht_map_lookup in H as (e & He & <- & _); [|exact (inv_keys _ Hc)].
  pose proof (inv_wf _ Hc) as Hw. rewrite list.Forall_forall in Hw. by apply Hw.
Qed.

(** ** Properties *)

(** [key_equal], which compares only [(a[0] & b[0]) + 1] bytes, is equality
    of keys. *)
Theorem key_equal_correct a b (Ha : wf_key a) (Hb : wf_key b) :
  key_equal a b = true <-> a = b.
Proof. by apply key_equal_spec. Qed.

Lemma key_equal_correct_witness :
  wf_key [2; 7; 8] /\ wf_key [6; 7; 8; 1; 1; 1; 1] /\
  (key_equal [2; 7; 8] [6; 7; 8; 1; 1; 1; 1] = true <-> [2; 7; 8] = [6; 7; 8; 1; 1; 1; 1]).
Proof.
  assert (wf_key [2; 7; 8]) as Ha by (split_and!; [decide_now|done|done]).
  assert (wf_key [6; 7; 8; 1; 1; 1; 1]) as Hb by (split_and!; [decide_now|done|done]).
  split_and!; [exact Ha|exact Hb|exact (key_equal_correct _ _ Ha Hb)].
Defined.

(** C13: [hash_get] never faults, returns the node the table maps the key to (or
    [NULL] exactly when the key is absent), whether or not the table is being
    migrated, and the migration work it performs changes neither the mapping
    nor the invariant. *)
Theorem hash_get_refines munmap ht k m
    (Hun : forall p len, munmap p len = true) (Hinv : ht_inv ht) (Hk : wf_key k) :
  exists ht' m', hash_get munmap ht k m = Some (ht_map ht !! k, ht', m') /\
    ht_inv ht' /\ ht_map ht' = ht_map ht.
Proof.
  destruct (hash_get_ok munmap ht k m Hun Hinv Hk) as (ht' & m' & ? & ? & ? & _).
  by exists ht', m'.
Qed.

(** C14: [hash_add] of a new node with an absent key extends the mapping by that
    key and nothing else, also in the middle of a migration. *)
Theorem hash_add_refines munmap ht e m
    (Hun : forall p len, munmap p len = true) (Hinv : ht_inv ht)
    (Hk : wf_key (e_key e)) (Habs : ht_map ht !! e_key e = None)
    (Hnode : e_node e ∉ e_node <$> contents ht) (Hroom : n ht + 1 < 2 ^ 64) :
  exists ht' m', hash_add munmap ht e m = Some (ht', m') /\ ht_inv ht' /\
    ht_map ht' = <[e_key e := e_node e]> (ht_map ht) /\ n ht' = n ht + 1.
Proof.
  destruct (hash_add_ok munmap ht e m Hun Hinv Hk Habs Hnode Hroom)
    as (ht' & m' & ? & ? & ? & ? & _). by exists ht', m'.
Qed.

(** C15: [hash_del] of a node of the table removes its key from the mapping and
    nothing else, and the key is found in the ghost queue afterwards. *)
Theorem hash_del_refines ht e
    (Hinv : ht_inv ht) (Hin : e ∈ contents ht) (Hroom : n ht < 2 ^ 64) :
  exists ht', hash_del ht e = Some ht' /\ ht_inv ht' /\
    ht_map ht' = delete (e_key e) (ht_map ht) /\
    hash_ghost ht' (e_key e) = Some true.
Proof.
  destruct (hash_del_ok ht e Hinv Hin Hroom) as (ht' & ? & ? & ? & ? & _). by exists ht'.
Qed.

(** A resize chosen by [hash_resize_page] doubles or halves the number of
    buckets, keeps the mapping and the invariant, and the bucket array and the
    ghost queues fill the new pages exactly, the ghosts directly after the
    buckets. *)
Theorem hash_resize_refines ht new
    (Hinv : ht_inv ht) (Hpage : hash_resize_page ht <> 0)
    (Hsmall : mask ht + 1 < 512 * 2 ^ 40) :
  let page := hash_resize_page ht in
  let ht' := hash_resize ht page new in
  ht_inv ht' /\ ht_map ht' = ht_map ht /\
  (mask ht' + 1 = 2 * (mask ht + 1) \/ 2 * (mask ht' + 1) = mask ht + 1) /\
  GHOST_OFFSET page = 8 * (mask ht' + 1) /\
  GHOST_OFFSET page + 64 * (mask ht' + 1) = page * 4096.
Proof. by apply hash_resize_ok. Qed.

(** Looking up a sequence of keys. *)
Fixpoint run_gets (munmap : Z -> Z -> bool) (ks : list key) (ht : hash_table) (m : memory)
    : option (hash_table * memory) :=
  match ks with
  | [] => Some (ht, m)
  | k :: ks => '(_, ht, m) ← hash_get munmap ht k m; run_gets munmap ks ht m
  end.

Lemma hash_get_progress munmap ht k m :
  (forall p len, munmap p len = true) -> ht_core ht ->
  exists r ht' m', hash_get munmap ht k m = Some (r, ht', m') /\ ht_core ht' /\
    (under_migrating ht' = false \/
     under_migrating ht = true /\ old_mask ht' = old_mask ht /\ migrated ht < migrated ht').
Proof.
  intros Hun Hc. unfold hash_get, under_migrating.
  destruct (old_buckets ht) as [o|] eqn:Eo.
  - pose proof (inv_old _ Hc) as Ho. rewrite Eo in Ho. destruct Ho as (_ & Hmig & _).
    destruct (evacuate_ok munmap Hun ht o (migrated ht) m Hc Eo Hmig)
      as (h & m' & -> & Hc' & _ & _ & _ & _ & Hom & Hpr & _). cbn.
    destruct (hash_bucket_spec h k Hc') as (b & -> & _). cbn.
    eexists _, h, m'. split_and!; [done..|]. destruct (old_buckets h); eauto.
  - cbn. destruct (hash_bucket_spec ht k Hc) as (b & -> & _). cbn.
    eexists _, ht, m. split_and!; [done..|]. rewrite Eo. eauto.
Qed.

(** C32: a migration ends: once as many lookups have run as there are old chains
    left to migrate, whatever the keys, the old array has been released. *)
Theorem migration_terminates munmap ht ks m
    (Hun : forall p len, munmap p len = true) (Hinv : ht_inv ht)
    (Hlen : old_mask ht + 1 - migrated ht <= Z.of_nat (length ks))
    (Hne : ks <> []) :
  exists ht' m', run_gets munmap ks ht m = Some (ht', m') /\ under_migrating ht' = false.
Proof.
  destruct Hinv as [Hc _].
  assert (forall ks ht m, ht_core ht ->
    under_migrating ht = false \/ old_mask ht + 1 - migrated ht <= Z.of_nat (length ks) ->
    exists ht' m', run_gets munmap ks ht m = Some (ht', m') /\ under_migrating ht' = false)
    as Hgen.
  { clear -Hun. induction ks as [|k ks IH]; intros ht m Hc Hcase; cbn [run_gets].
    - exists ht, m. split; [done|]. destruct Hcase as [?|Hl]; [done|].
      pose proof (inv_old _ Hc) as Ho. unfold under_migrating.
      destruct (old_buckets ht); [|done]. destruct Ho as (_ & Hmig & _). cbn in Hl. lia.
    - destruct (hash_get_progress munmap ht k m Hun Hc) as (r & h & m' & -> & Hc' & Hpr).
      cbn. apply IH; [done|]. destruct Hpr as [?|(Hum & -> & Hpr)]; [by left|].
      right. destruct Hcase as [Hf|Hl]; [congruence|]. cbn in Hl. lia. }
  apply Hgen; auto.
Qed.

(** The ghost queue of a bucket remembers a fingerprint for at least the 15
    evictions after it. *)
Theorem ghost_remembers g fp fps
    (Hg : wf_ghost_row g) (Hfp : 0 <= fp < 2 ^ 32)
    (Hfps : Forall (fun x => 0 <= x < 2 ^ 32) fps) (Hlen : (length fps <= 15)%nat) :
  ghost_hit (foldl ghost_add (ghost_add g fp) fps) fp = true.
Proof.
  destruct (ghost_add_spec g fp Hg Hfp) as (Hg' & Hcu & _).
  pose proof (ghost_cursor_range g) as Hc. change BUCKET_GHOST_MASK with 15 in Hc.
  apply (ghost_slot_hit _ (Z.land (hd 0 g) 15)); [|lia].
  apply (ghost_window _ _ _ _ 0); try done; try lia.
  - by rewrite Z.add_0_r.
  - by apply ghost_add_slot.
Qed.

(** ** Initial table and witnesses *)

Lemma hash_table_init_inv mmap m t m' :
  hash_table_init mmap m = (Some t, m') -> ht_inv t /\ ht_map t = ∅.
Proof.
  unfold hash_table_init. destruct (memory_malloc mmap m MIN_PAGE) as [[p|] m1];
    intros; simplify_eq.
  assert (wf_mask MIN_MASK) as Hm by (exists 0; vm_compute; intuition congruence).
  set (t := {| n := 0 |}).
  assert (contents t = []) as Hcon
    by (unfold contents; cbn; by rewrite fresh_heads_concat).
  split; [|unfold ht_map; by rewrite Hcon].
  split; [|by rewrite Hcon].
  split; rewrite ?Hcon; try constructor; try by apply fresh_heads_wf.
  - apply length_replicate.
  - apply Forall_replicate, fresh_ghost_row.
Qed.

Definition sample_init : option hash_table * memory :=
  hash_table_init (fun _ => Some 0x10000) (memory_init 100).
Definition sample_table : hash_table :=
  default {| n := 0; mask := 0; buckets := {| a_ptr := 0; a_heads := [] |};
    ghost := []; old_buckets := None; old_mask := 0; migrated := 0 |} (fst sample_init).
Definition sample_munmap : Z -> Z -> bool := fun _ _ => true.

Lemma sample_table_inv : ht_inv sample_table /\ ht_map sample_table = ∅.
Proof.
  apply (hash_table_init_inv (fun _ => Some 0x10000) (memory_init 100) _ (snd sample_init)).
  reflexivity.
Qed.

Lemma hash_add_refines_witness :
  ht_inv sample_table /\ wf_key [1; 65] /\
  exists ht' m', hash_add sample_munmap sample_table {| e_node := 64; e_key := [1; 65] |}
      (memory_init 91) = Some (ht', m') /\ ht_map ht' = <[[1; 65] := 64]> ∅.
Proof.
  destruct sample_table_inv as [Hinv Hmap].
  assert (wf_key [1; 65]) as Hk by (split_and!; [decide_now|done|done]).
  split; [exact Hinv|]. split; [exact Hk|].
  destruct (hash_add_refines sample_munmap sample_table
    {| e_node := 64; e_key := [1; 65] |} (memory_init 91)) as (ht' & m' & He & _ & Hm & _);
    [reflexivity|exact Hinv|exact Hk|by rewrite Hmap| |reflexivity|].
  - replace (contents sample_table) with (@nil entry) by (vm_compute; reflexivity).
    apply not_elem_of_nil.
  - exists ht', m'. split; [exact He|]. by rewrite Hm, Hmap.
Defined.

(** The table with one entry, from [hash_add]. *)
Definition sample_entry : entry := {| e_node := 64; e_key := [1; 65] |}.
Definition sample_one : hash_table :=
  match hash_add sample_munmap sample_table sample_entry (memory_init 91) with
  | Some (t, _) => t
  | None => sample_table
  end.

Lemma sample_entry_add :
  exists ht' m', hash_add sample_munmap sample_table sample_entry (memory_init 91)
    = Some (ht', m') /\ ht_inv ht' /\ ht_map ht' = <[[1; 65] := 64]> ∅.
Proof.
  destruct sample_table_inv as [Hinv Hmap].
  destruct (hash_add_ok sample_munmap sample_table sample_entry (memory_init 91))
    as (ht' & m' & He & Hi & Hm & _).
  - done.
  - exact Hinv.
  - split_and!; [decide_now|done|done].
  - by rewrite Hmap.
  - replace (contents sample_table) with (@nil entry) by (vm_compute; reflexivity).
    apply not_elem_of_nil.
  - reflexivity.
  - exists ht', m'. split_and!; [exact He|exact Hi|]. by rewrite Hm, Hmap.
Qed.

Lemma sample_one_inv : ht_inv sample_one /\ contents sample_one = [sample_entry].
Proof.
  split; [|vm_compute; reflexivity].
  destruct sample_entry_add as (ht' & m' & He & Hi & _).
  unfold sample_one. rewrite He. exact Hi.
Qed.

Lemma hash_get_refines_witness :
  ht_inv sample_one /\ wf_key [1; 65] /\
  exists ht' m', hash_get sample_munmap sample_one [1; 65] (memory_init 91)
    = Some (Some 64, ht', m').
Proof.
  destruct sample_one_inv as [Hinv Hcon].
  assert (wf_key [1; 65]) as Hk by (split_and!; [decide_now|done|done]).
  split; [exact Hinv|]. split; [exact Hk|].
  destruct (hash_get_refines sample_munmap sample_one [1; 65] (memory_init 91))
    as (ht' & m' & He & _); [reflexivity|exact Hinv|exact Hk|].
  exists ht', m'. rewrite He. unfold ht_map. rewrite Hcon. reflexivity.
Defined.

Lemma hash_del_refines_witness :
  ht_inv sample_one /\
  exists ht', hash_del sample_one sample_entry = Some ht' /\
    ht_map ht' = ∅ /\ hash_ghost ht' [1; 65] = Some true.
Proof.
  destruct sample_one_inv as [Hinv Hcon]. split; [exact Hinv|].
  destruct (hash_del_refines sample_one sample_entry) as (ht' & He & _ & Hm & Hg);
    [exact Hinv|rewrite Hcon; by apply list_elem_of_singleton|vm_compute; reflexivity|].
  exists ht'. split_and!; [exact He| |exact Hg]. rewrite Hm. unfold ht_map. rewrite Hcon.
  reflexivity.
Defined.

(** A table of 512 buckets with more than 8 * 511 keys would grow; here the count
    is set by hand to ask for the page number, and a table of 1024 buckets with
    one key shrinks. *)
Definition sample_big : hash_table :=
  {| n := 0; mask := 1023;
     buckets := {| a_ptr := 0x20000; a_heads := fresh_heads 1023 |};
     ghost := fresh_ghost 1023; old_buckets := None; old_mask := 0; migrated := 0 |}.

Lemma sample_big_inv : ht_inv sample_big.
Proof.
  assert (wf_mask 1023) as Hm by (exists 1; vm_compute; intuition congruence).
  assert (contents sample_big = []) as Hcon
    by (unfold contents; cbn [sample_big buckets a_heads old_entries old_buckets];
        by rewrite fresh_heads_concat).
  split; [|by rewrite Hcon].
  split; rewrite ?Hcon; try constructor; try by apply fresh_heads_wf.
  - apply length_replicate.
  - apply Forall_replicate, fresh_ghost_row.
Qed.

Lemma hash_resize_refines_witness :
  hash_resize_page sample_big = 9 /\
  mask (hash_resize sample_big 9 0x40000) + 1 = 512 /\
  ht_inv (hash_resize sample_big 9 0x40000).
Proof.
  assert (hash_resize_page sample_big = 9) as E by (vm_compute; reflexivity).
  split; [exact E|]. split; [vm_compute; reflexivity|].
  refine (eq_ind _ (fun p => ht_inv (hash_resize sample_big p 0x40000)) _ _ E).
  refine (proj1 (hash_resize_refines sample_big 0x40000 sample_big_inv _ _)).
  - rewrite E. discriminate.
  - vm_compute. reflexivity.
Defined.

Definition sample_migrating : hash_table := hash_resize sample_big 9 0x40000.

Lemma sample_migrating_inv : ht_inv sample_migrating.
Proof.
  assert (hash_resize_page sample_big = 9) as E by (vm_compute; reflexivity).
  unfold sample_migrating. rewrite <-E.
  refine (proj1 (hash_resize_ok sample_big 0x40000 sample_big_inv _ _)).
  - rewrite E. discriminate.
  - vm_compute. reflexivity.
Qed.

Lemma migration_terminates_witness :
  under_migrating sample_migrating = true /\
  exists ht' m', run_gets sample_munmap (replicate 1024 [1; 65]) sample_migrating
      (memory_init 91) = Some (ht', m') /\ under_migrating ht' = false.
Proof.
  split; [vm_compute; reflexivity|].
  apply (migration_terminates sample_munmap sample_migrating (replicate 1024 [1; 65])).
  - reflexivity.
  - exact sample_migrating_inv.
  - rewrite length_replicate. vm_compute. discriminate.
  - discriminate.
Defined.

Lemma ghost_remembers_witness :
  wf_ghost_row (replicate 16 0) /\
  ghost_hit (foldl ghost_add (ghost_add (replicate 16 0) 77) [1; 2; 3]) 77 = true.
Proof.
  assert (wf_ghost_row (replicate 16 0)) as Hg by (split; [done|decide_now]).
  split; [exact Hg|].
  apply (ghost_remembers _ 77 [1; 2; 3] Hg); [lia|decide_now|cbn; lia].
Defined.
