(* ===== verification/Kv.v ===== *)
(** * Key-value objects (kv.h, kv.c)

    A [struct kv] is 56 bytes of header, the key, and the value, or the head of
    the value when the kv is concatenated: then the last [size & PAGE_MASK]
    bytes of the value live in a [struct concat_val] of their own, which the
    [soo] word points to.  The header words live in word memory, the key and
    value bytes in byte memory. *)

From S2P Require Import Prelude Slab Words Lists HashTable.

(** ** Layout *)

(** Byte offsets of the members of [struct kv], [struct concat_val] and
    [struct kv_borrower]. *)
Definition off_borrower_list : Z := 8.
Definition off_lru : Z := 16.
Definition off_enabled : Z := 16.
Definition off_val_size : Z := 32.
Definition off_hash_node : Z := 40.
Definition sizeof_kv : Z := 56.
Definition off_concat_data : Z := 8.
Definition off_borrower_kv : Z := 16.

Definition KEY_SIZE (k : key) : Z := 1 + hd 0 k.

(** What the iovec functions read of a kv: its address, the [soo] word, the key
    and the 63-bit value size. *)
Record kv := { kv_addr : Z; kv_soo : Z; kv_key : key; val_size : Z }.

Definition KV_KEY_SIZE (v : kv) : Z := KEY_SIZE (kv_key v).
Definition KV_VAL (v : kv) : Z := kv_addr v + sizeof_kv + KV_KEY_SIZE v.
Definition KV_SIZE (v : kv) : Z := u64 (sizeof_kv + KV_KEY_SIZE v + val_size v).

(** ** kv.c *)

(** [memcpy(dst, src, length src)] *)
Fixpoint memcpy (b : gmap Z Z) (dst : Z) (src : list Z) : gmap Z Z :=
  match src with
  | [] => b
  | x :: src' => memcpy (<[dst := x]> b) (dst + 1) src'
  end.

(** [kv->val_size = v] keeps the [on_s_lru] bit of the word. *)
Definition set_val_size (w v : Z) : Z :=
  Z.lor (Z.land w 1) (Z.shiftl (wrap 63 v) 1).

Definition kv_init (m : mem) (b : gmap Z Z) (kv : Z) (k : key) (val_size : Z)
    : option (mem * gmap Z Z) :=
  m ← hlist_head_init m (kv + off_borrower_list);
  m ← store m (kv + off_enabled) 0;
  w ← load m (kv + off_val_size);
  m ← store m (kv + off_val_size) (set_val_size w val_size);
  Some (m, memcpy b (kv + sizeof_kv) (take (Z.to_nat (KEY_SIZE k)) k)).

Definition kv_borrow (m : mem) (kv borrower : Z) : option mem :=
  m ← hlist_add m (kv + off_borrower_list) borrower;
  store m (borrower + off_borrower_kv) kv.

Definition kv_return (m : mem) (borrower : Z) : option mem :=
  m ← hlist_del m borrower;
  store m (borrower + off_borrower_kv) 0.

Definition kv_is_concat (v : kv) : bool := negb (bool_decide (SOO_OBJ (kv_soo v) = kv_addr v)).

Definition kv_no_borrower (m : mem) (kv : Z) : option bool :=
  hlist_empty m (kv + off_borrower_list).

Definition kv_borrower_init (m : mem) (borrower : Z) : option mem :=
  store m (borrower + off_borrower_kv) 0.

Record iovec := { iov_base : Z; iov_len : Z }.

Definition kv_val_to_iovec (v : kv) (i : Z) : list iovec :=
  if negb (kv_is_concat v) then
    [{| iov_base := KV_VAL v + i; iov_len := u64 (val_size v - i) |}]
  else
    let concat_data := SOO_OBJ (kv_soo v) + off_concat_data in
    let concat_val_size := Z.land (KV_SIZE v) PAGE_MASK in
    let iov0_len := u64 (val_size v - concat_val_size) in
    if bool_decide (i < iov0_len) then
      [{| iov_base := KV_VAL v + i; iov_len := u64 (iov0_len - i) |};
       {| iov_base := concat_data; iov_len := concat_val_size |}]
    else
      [{| iov_base := concat_data + i - iov0_len; iov_len := u64 (val_size v - i) |}].



(** ** Where a value lives *)

(** The number of value bytes in front of the [concat_val]. *)
Definition head_len (v : kv) : Z :=
  if kv_is_concat v then val_size v - KV_SIZE v mod 4096 else val_size v.

(** The address of byte [j] of the value. *)
Definition val_addr (v : kv) (j : Z) : Z :=
  if bool_decide (j < head_len v) then KV_VAL v + j
  else SOO_OBJ (kv_soo v) + off_concat_data + (j - head_len v).

(** The addresses an iovec list covers, in transfer order. *)
Definition iov_addrs (iov : list iovec) : list Z :=
  iov ≫= fun io => (Z.add (iov_base io)) <$> zrange (Z.to_nat (iov_len io)).

(** A kv as [kv_malloc] lays it out: the size does not wrap, and a concatenated
    kv has at least one full page. *)
Definition kv_wf (v : kv) : Prop :=
  0 <= hd 0 (kv_key v) < 256 /\ 0 <= val_size v /\
  sizeof_kv + KV_KEY_SIZE v + val_size v < 2 ^ 63 /\
  (kv_is_concat v = true -> 4096 <= sizeof_kv + KV_KEY_SIZE v + val_size v).

(** ** Lemmas *)

Lemma KV_SIZE_eq v : kv_wf v -> KV_SIZE v = sizeof_kv + KV_KEY_SIZE v + val_size v.
Proof.
  intros (? & ? & ? & _). unfold KV_SIZE, KV_KEY_SIZE, KEY_SIZE, sizeof_kv in *.
  apply wrap_small. lia.
Qed.

Lemma head_len_range v :
  kv_wf v -> 0 <= head_len v <= val_size v /\
  (kv_is_concat v = true -> 0 < head_len v /\ val_size v - head_len v = KV_SIZE v mod 4096).
Proof.
  intros Hw. pose proof (KV_SIZE_eq v Hw) as E. destruct Hw as (Hk & H0 & Hlt & Hc).
  unfold head_len. destruct (kv_is_concat v); [|split; [lia|done]].
  specialize (Hc eq_refl). rewrite <-E in Hc.
  pose proof (Z.mod_pos_bound (KV_SIZE v) 4096 ltac:(lia)).
  pose proof (Z.div_mod (KV_SIZE v) 4096 ltac:(lia)).
  assert (1 <= KV_SIZE v / 4096) by (apply Z.div_le_lower_bound; lia).
  unfold KV_KEY_SIZE, KEY_SIZE, sizeof_kv in E. split; [lia|]. intros _. lia.
Qed.

Lemma zrange_app a b : zrange (a + b) = zrange a ++ ((Z.add (Z.of_nat a)) <$> zrange b).
Proof.
  unfold zrange. rewrite seq_app, fmap_app. f_equal.
  replace (seq (0 + a) b) with (Nat.add a <$> seq 0 b) by (by rewrite fmap_add_seq, Nat.add_0_r).
  rewrite <-!list_fmap_compose. apply list_fmap_ext. intros; cbn; lia.
Qed.

Lemma iov_addrs_cons io iov :
  iov_addrs (io :: iov) =
  ((Z.add (iov_base io)) <$> zrange (Z.to_nat (iov_len io))) ++ iov_addrs iov.
Proof. done. Qed.

Lemma kv_val_to_iovec_addrs v i :
  kv_wf v -> 0 <= i <= val_size v ->
  iov_addrs (kv_val_to_iovec v i) =
  (fun j => val_addr v (i + j)) <$> zrange (Z.to_nat (val_size v - i)).
Proof.
  intros Hw Hi. pose proof (head_len_range v Hw) as [Hh Hcon].
  pose proof (KV_SIZE_eq v Hw) as E. destruct Hw as (Hk & H0 & Hlt & Hc).
  unfold KV_KEY_SIZE, KEY_SIZE, sizeof_kv in Hlt.
  unfold kv_val_to_iovec. change PAGE_MASK with (2 ^ 12 - 1). rewrite land_mask by lia.
  change (2 ^ 12) with 4096. unfold val_addr.
  destruct (kv_is_concat v) eqn:Ec; cbn [negb].
  - destruct Hcon as [Hpos Hm]; [done|]. 
    assert (u64 (val_size v - KV_SIZE v mod 4096) = head_len v) as ->
      by (rewrite wrap_small by lia; lia).
    case_bool_decide as Hlt'.
    + rewrite !iov_addrs_cons. cbn [iov_base iov_len iov_addrs mbind list_bind].
      rewrite app_nil_r, wrap_small by lia.
      replace (Z.to_nat (val_size v - i)) with
        (Z.to_nat (head_len v - i) + Z.to_nat (KV_SIZE v mod 4096))%nat by lia.
      rewrite zrange_app, fmap_app, <-list_fmap_compose. f_equal; apply list_fmap_ext;
        intros k x Hx%list_elem_of_lookup_2%elem_of_zrange; cbn;
        case_bool_decide; lia.
    + rewrite iov_addrs_cons. cbn [iov_base iov_len iov_addrs mbind list_bind].
      rewrite app_nil_r, wrap_small by lia. apply list_fmap_ext.
      intros k x Hx%list_elem_of_lookup_2%elem_of_zrange; cbn. case_bool_decide; lia.
  - assert (head_len v = val_size v) as -> by (unfold head_len; by rewrite Ec).
    rewrite iov_addrs_cons. cbn [iov_base iov_len iov_addrs mbind list_bind].
    rewrite app_nil_r, wrap_small by lia. apply list_fmap_ext.
    intros k x Hx%list_elem_of_lookup_2%elem_of_zrange; cbn. case_bool_decide; lia.
Qed.






(** ** Properties *)

(** The iovec of a value from byte [i] on covers exactly the bytes
    [i .. val_size) of the value, in order, for plain and for concatenated
    kvs. *)
Theorem kv_iovec_covers_value v i
    (Hwf : kv_wf v) (Hi : 0 <= i <= val_size v) :
  iov_addrs (kv_val_to_iovec v i) =
  (fun j => val_addr v (i + j)) <$> zrange (Z.to_nat (val_size v - i)).
Proof. by apply kv_val_to_iovec_addrs. Qed.

(** A concatenated kv of 5000 bytes: one page at 0x10000 and 904 bytes in the
    object at 0x20000. *)
Definition sample_kv : kv :=
  {| kv_addr := 0x10000; kv_soo := 0x20000; kv_key := [3; 1; 2; 3]; val_size := 4940 |}.

Lemma sample_kv_wf : kv_wf sample_kv.
Proof.
  unfold kv_wf. split_and!; [..|intros _]; vm_compute; congruence.
Qed.

Lemma kv_iovec_covers_value_witness :
  kv_is_concat sample_kv = true /\ kv_wf sample_kv /\
  iov_addrs (kv_val_to_iovec sample_kv 4938) = [0x20008 + 902; 0x20008 + 903].
Proof.
  pose proof sample_kv_wf as Hw.
  split; [reflexivity|]. split; [exact Hw|].
  rewrite (kv_iovec_covers_value sample_kv 4938 Hw); [reflexivity|].
  vm_compute. split; congruence.
Defined.

(** No byte of a value lies outside the space [kv_malloc] reserved: a plain
    value ends at the end of the object, the head of a concatenated value ends
    exactly at its last page and the rest fits behind the first word of a
    [concat_val] object of [(size & PAGE_MASK) + 8] bytes. *)
Theorem kv_value_in_bounds v j
    (Hwf : kv_wf v) (Hj : 0 <= j < val_size v) :
  let a := val_addr v j in
  if kv_is_concat v then
    kv_addr v + sizeof_kv <= a < kv_addr v + KV_SIZE v / 4096 * 4096 \/
    SOO_OBJ (kv_soo v) + 8 <= a < SOO_OBJ (kv_soo v) + (KV_SIZE v mod 4096 + 8)
  else kv_addr v + sizeof_kv <= a < kv_addr v + KV_SIZE v.
Proof.
  pose proof (head_len_range v Hwf) as [Hh Hcon]. pose proof (KV_SIZE_eq v Hwf) as E.
  destruct Hwf as (Hk & H0 & Hlt & Hc). cbv zeta. unfold val_addr, KV_VAL.
  unfold KV_KEY_SIZE, KEY_SIZE, sizeof_kv, off_concat_data in *.
  pose proof (Z.div_mod (KV_SIZE v) 4096 ltac:(lia)).
  destruct (kv_is_concat v) eqn:Ec.
  - destruct (Hcon eq_refl) as [? ?]. case_bool_decide; [left|right]; lia.
  - assert (head_len v = val_size v) by (unfold head_len; by rewrite Ec).
    case_bool_decide; lia.
Qed.

Lemma kv_value_in_bounds_witness :
  kv_wf sample_kv /\
  (0x10000 + 56 <= val_addr sample_kv 4035 < 0x10000 + 4096 \/
   0x20000 + 8 <= val_addr sample_kv 4035 < 0x20000 + 912).
Proof.
  pose proof sample_kv_wf as Hw.
  split; [exact Hw|].
  exact (kv_value_in_bounds sample_kv 4035 Hw ltac:(vm_compute; split; congruence)).
Defined.


