(* ===== verification/KvCache.v ===== *)
(** * The slab allocator of kvs (kv_cache.h, kv_cache.c)

    A [kv_cache] carves slabs of a few pages into objects of one size and keeps
    the free objects in a singly linked list threaded through the objects.
    When two slabs' worth of objects are free it gives one slab back: it moves
    the live objects of that slab into free objects elsewhere ([migrate]),
    repairs every pointer to them, and drops the slab's entries from the free
    list.

    All the bytes of an object are words of the word memory here.  Mapping
    pages adds zeroed words, unmapping removes them, so that a use after
    unmapping is a fault. *)

From S2P Require Import Prelude Slab Words Lists Memory HashTable Kv.

Record kv_cache := {
  slab_page : Z; obj_size : Z; slab_objects : Z; free_objects : Z; next_free_soo : Z
}.

Definition KV_CACHE_OBJ_SIZE_MIN : Z := 8 + 8.
Definition KV_CACHE_OBJ_SIZE_MAX : Z := SLAB_OBJ_SIZE_MAX.

Definition set_free (c : kv_cache) (n soo : Z) : kv_cache :=
  {| slab_page := slab_page c; obj_size := obj_size c; slab_objects := slab_objects c;
     free_objects := n; next_free_soo := soo |}.

(** ** Mapped pages *)

(** The word addresses of [n] words from [a] on. *)
Definition words_at (a : Z) (n : nat) : list Z := (fun k => a + 8 * k) <$> zrange n.

Definition page_words (page : Z) : nat := Z.to_nat (512 * page).

Definition map_pages (m : mem) (a page : Z) : mem :=
  list_to_map ((fun w => (w, 0)) <$> words_at a (page_words page)) ∪ m.

Definition unmap_pages (m : mem) (a page : Z) : mem :=
  foldr delete m (words_at a (page_words page)).

(** ** Free objects *)

Definition off_next_free : Z := 8.

Definition free_obj_init (m : mem) (obj next : Z) : option mem :=
  m ← store m obj 0;
  store m (obj + off_next_free) next.

Definition is_free_obj (m : mem) (obj : Z) : option bool :=
  w ← load m obj;
  Some (bool_decide (w = 0)).

(** A division by zero is a fault. *)
Definition kv_cache_init (size : Z) : option kv_cache :=
  let obj_size := u16 (ALIGN size SLAB_OBJ_ALIGN) in
  guard (obj_size <= SLAB_OBJ_SIZE_MAX);;
  guard (obj_size <> 0);;
  order ← slab_calculate_order obj_size;
  let slab_page := u16 (Z.shiftl 1 order) in
  let slab_size := u16 (Z.shiftl slab_page PAGE_SHIFT) in
  let slab_objects := u16 (slab_size / obj_size) in
  Some {| slab_page := slab_page;
          obj_size := u16 (ALIGN_DOWN (slab_size / slab_objects) 8);
          slab_objects := slab_objects; free_objects := 0; next_free_soo := 0 |}.

(** The body of [add_slab]'s [slab_obj_for_each], for the [n] objects from
    [curr] on. *)
Fixpoint add_slab_loop (m : mem) (c : kv_cache) (slab curr : Z) (n : nat)
    : option (mem * kv_cache) :=
  match n with
  | O => Some (m, c)
  | S n' =>
      m ← free_obj_init m curr (next_free_soo c);
      soo ← soo_make slab curr;
      add_slab_loop m (set_free c (free_objects c) soo) slab (curr + obj_size c) n'
  end.

Definition add_slab (mmap : Z -> option Z) (m : mem) (c : kv_cache) (mm : memory)
    : option (bool * mem * kv_cache * memory) :=
  guard (free_objects c = 0);;
  match memory_malloc mmap mm (slab_page c) with
  | (Some slab, mm) =>
      '(m, c) ← add_slab_loop (map_pages m slab (slab_page c)) c slab slab
                  (Z.to_nat (slab_objects c));
      Some (true, m, set_free c (slab_objects c) (next_free_soo c), mm)
  | (None, mm) => Some (false, m, c, mm)
  end.

Definition __pop_free_soo (m : mem) (c : kv_cache) : option (Z * kv_cache) :=
  guard (next_free_soo c <> 0);;
  let soo := next_free_soo c in
  next ← load m (SOO_OBJ soo + off_next_free);
  Some (soo, set_free c (free_objects c) next).

(** The soo 0 stands for a failure. *)
Definition kv_cache_malloc (mmap : Z -> option Z) (m : mem) (c : kv_cache) (mm : memory)
    : option (Z * mem * kv_cache * memory) :=
  '(ok, m, c, mm) ← (if bool_decide (free_objects c = 0) then add_slab mmap m c mm
                     else Some (true, m, c, mm));
  if ok : bool then
    let c := set_free c (u16 (free_objects c - 1)) (next_free_soo c) in
    '(soo, c) ← __pop_free_soo m c;
    Some (soo, m, c, mm)
  else Some (0, m, c, mm).

(** ** Migration *)

(** [memcpy] of [n] words. *)
Fixpoint copy_words (m : mem) (dst src : Z) (n : nat) : option mem :=
  match n with
  | O => Some m
  | S n' =>
      w ← load m src;
      m ← store m dst w;
      copy_words m (dst + 8) (src + 8) n'
  end.

(** [hlist_for_each] over the borrowers, pointing each at [kv].  [fuel] bounds
    the number of borrowers. *)
Fixpoint repoint_borrowers (m : mem) (kv curr : Z) (fuel : nat) : option mem :=
  if bool_decide (curr = 0) then Some m
  else
    match fuel with
    | O => None
    | S fuel' =>
        m ← store m (curr + off_borrower_kv) kv;
        next ← load m (curr + 8);
        repoint_borrowers m kv next fuel'
    end.

Definition migrate (m : mem) (obj_from soo_to obj_size : Z) : option mem :=
  let obj_to := SOO_OBJ soo_to in
  m ← copy_words m obj_to obj_from (Z.to_nat (obj_size / 8));
  first_word ← load m obj_from;
  if negb (bool_decide (Z.land first_word (Z.lnot 7) = obj_from)) then
    soo_ptr ← load m obj_to;
    soo ← load m soo_ptr;
    guard (SOO_OBJ soo = obj_from);;
    store m soo_ptr soo_to
  else
    m ← store m obj_to soo_to;
    enabled ← load m (obj_to + off_enabled);
    m ← (if bool_decide (enabled = 0) then Some m
         else
           m ← list_fix m (obj_to + off_lru);
           hlist_node_fix m (obj_to + off_hash_node));
    empty ← hlist_empty m (obj_to + off_borrower_list);
    if empty : bool then Some m
    else
      first ← load m (obj_to + off_borrower_list);
      m ← store m first (obj_to + off_borrower_list);
      curr ← load m (obj_to + off_borrower_list);
      repoint_borrowers m obj_to curr (size m).

(** ** Giving a slab back *)

(** Pop free objects until one lies outside [slab].  Every pop shortens the
    free list, which never holds more than [free_objects] objects: that is the
    fuel. *)
Fixpoint pop_outside (m : mem) (c : kv_cache) (slab : Z) (fuel : nat)
    : option (Z * kv_cache) :=
  match fuel with
  | O => None
  | S fuel' =>
      '(soo, c) ← __pop_free_soo m c;
      if bool_decide (soo_slab soo = slab) then pop_outside m c slab fuel'
      else Some (soo, c)
  end.

Definition free_fuel (c : kv_cache) : nat := S (Z.to_nat (free_objects c)).

(** The objects of [slab] from [curr] on, [n] of them. *)
Fixpoint clear_slab_loop (m : mem) (c : kv_cache) (slab curr : Z) (n : nat)
    : option (mem * kv_cache) :=
  match n with
  | O => Some (m, c)
  | S n' =>
      is_free ← is_free_obj m curr;
      '(m, c) ← (if is_free : bool then Some (m, c)
                 else
                   '(soo, c) ← pop_outside m c slab (free_fuel c);
                   m ← migrate m curr soo (obj_size c);
                   Some (m, c));
      clear_slab_loop m c slab (curr + obj_size c) n'
  end.

Definition __clear_slab (m : mem) (c : kv_cache) (slab : Z) : option (mem * kv_cache) :=
  clear_slab_loop m c slab slab (Z.to_nat (slab_objects c)).

Definition free_soo_next (m : mem) (soo : Z) : option Z :=
  is_free ← is_free_obj m (SOO_OBJ soo);
  guard (is_free = true);;
  load m (SOO_OBJ soo + off_next_free).

Definition free_soo_set_next (m : mem) (soo next : Z) : option mem :=
  is_free ← is_free_obj m (SOO_OBJ soo);
  guard (is_free = true);;
  store m (SOO_OBJ soo + off_next_free) next.

(** The leading entries of the free list that lie in [rm_slab]. *)
Fixpoint drop_leading (m : mem) (c : kv_cache) (rm_slab : Z) (fuel : nat)
    : option kv_cache :=
  if bool_decide (soo_slab (next_free_soo c) = rm_slab) then
    match fuel with
    | O => None
    | S fuel' => '(_, c) ← __pop_free_soo m c; drop_leading m c rm_slab fuel'
    end
  else Some c.

(** The next entry outside [rm_slab], or 0. *)
Fixpoint skip_removed (m : mem) (next rm_slab : Z) (fuel : nat) : option Z :=
  if bool_decide (next <> 0 /\ soo_slab next = rm_slab) then
    match fuel with
    | O => None
    | S fuel' => next ← free_soo_next m next; skip_removed m next rm_slab fuel'
    end
  else Some next.

Fixpoint unlink_loop (m : mem) (soo rm_slab : Z) (inner fuel : nat) : option mem :=
  if bool_decide (soo <> 0) then
    match fuel with
    | O => None
    | S fuel' =>
        next ← free_soo_next m soo;
        next ← skip_removed m next rm_slab inner;
        m ← free_soo_set_next m soo next;
        unlink_loop m next rm_slab inner fuel'
    end
  else Some m.

Definition __clean_free_list (m : mem) (c : kv_cache) (rm_slab : Z)
    : option (mem * kv_cache) :=
  c ← drop_leading m c rm_slab (free_fuel c);
  m ← unlink_loop m (next_free_soo c) rm_slab (free_fuel c) (free_fuel c);
  Some (m, c).

Definition reclaim_slab (munmap : Z -> Z -> bool) (m : mem) (c : kv_cache) (mm : memory)
    : option (mem * kv_cache * memory) :=
  '(soo, c) ← __pop_free_soo m c;
  let rm_slab := soo_slab soo in
  '(m, c) ← __clear_slab m c rm_slab;
  '(m, c) ← __clean_free_list m c rm_slab;
  mm ← memory_free munmap mm rm_slab (slab_page c);
  let m := unmap_pages m rm_slab (slab_page c) in
  guard (free_objects c = Z.shiftl (slab_objects c) 1);;
  Some (m, set_free c (slab_objects c) (next_free_soo c), mm).

(** ** The interface *)

(** The address 0 stands for [NULL]. *)
Definition kv_cache_malloc_kv (mmap : Z -> option Z) (m : mem) (c : kv_cache) (mm : memory)
    : option (Z * mem * kv_cache * memory) :=
  '(soo, m, c, mm) ← kv_cache_malloc mmap m c mm;
  if bool_decide (soo = 0) then Some (0, m, c, mm)
  else
    let kv := SOO_OBJ soo in
    m ← store m kv soo;
    Some (kv, m, c, mm).

Definition kv_cache_malloc_concat_val (mmap : Z -> option Z) (m : mem) (c : kv_cache)
    (mm : memory) (soo_ptr : Z) : option (bool * mem * kv_cache * memory) :=
  '(soo, m, c, mm) ← kv_cache_malloc mmap m c mm;
  if bool_decide (soo = 0) then Some (false, m, c, mm)
  else
    m ← store m (SOO_OBJ soo) soo_ptr;
    m ← store m soo_ptr soo;
    Some (true, m, c, mm).

Definition kv_cache_free (munmap : Z -> Z -> bool) (m : mem) (c : kv_cache) (soo : Z)
    (mm : memory) : option (mem * kv_cache * memory) :=
  m ← free_obj_init m (SOO_OBJ soo) (next_free_soo c);
  let c := set_free c (u16 (free_objects c + 1)) soo in
  if bool_decide (Z.shiftl (slab_objects c) 1 <= free_objects c) then
    reclaim_slab munmap m c mm
  else Some (m, c, mm).

(** ** The invariant of a cache *)

(** What [kv_cache_init] guarantees of the sizes. *)
Definition geom (c : kv_cache) : Prop :=
  16 <= obj_size c /\ obj_size c mod 8 = 0 /\ 0 < slab_objects c /\
  slab_objects c * obj_size c <= slab_page c * 4096 /\ 0 < slab_page c <= 8 /\
  2 * slab_objects c < 2 ^ 16.

Definition slab_ok (c : kv_cache) (s : Z) : Prop :=
  s mod 4096 = 0 /\ 0 < s /\ s + slab_page c * 4096 <= 2 ^ 64.

Definition apart (c : kv_cache) (s s' : Z) : Prop :=
  s + slab_page c * 4096 <= s' \/ s' + slab_page c * 4096 <= s.

(** The objects of a slab, and the soos of all objects of the slabs. *)
Definition slab_objs (c : kv_cache) (s : Z) : list Z :=
  (fun k => s + k * obj_size c) <$> zrange (Z.to_nat (slab_objects c)).
Definition soos (c : kv_cache) (slabs : list Z) : list Z :=
  slabs ≫= fun s => soo_of s <$> slab_objs c s.

(** From [soo] the [next_free] words lead through the soos [l] to 0, and the
    objects are marked free. *)
Fixpoint fchain (m : mem) (soo : Z) (l : list Z) : Prop :=
  match l with
  | [] => soo = 0
  | x :: l' =>
      soo = x /\ x <> 0 /\ m !! SOO_OBJ x = Some 0 /\
      exists next, m !! (SOO_OBJ x + 8) = Some next /\ fchain m next l'
  end.

(** The slabs of a cache: page aligned, disjoint, mapped. *)
Record slabs_inv (c : kv_cache) (m : mem) (slabs : list Z) : Prop := {
  si_geom : geom c;
  si_ok : Forall (slab_ok c) slabs;
  si_nodup : NoDup slabs;
  si_apart : forall s s', s ∈ slabs -> s' ∈ slabs -> s <> s' -> apart c s s';
  si_mapped : forall s k, s ∈ slabs -> 0 <= k < 512 * slab_page c ->
                is_Some (m !! (s + 8 * k))
}.

(** The objects are the free list [fl] and the live objects, which are marked
    as not free. *)
Record cache_inv (c : kv_cache) (m : mem) (slabs fl live : list Z) : Prop := {
  ci_slabs : slabs_inv c m slabs;
  ci_perm : fl ++ live ≡ₚ soos c slabs;
  ci_chain : fchain m (next_free_soo c) fl;
  ci_count : free_objects c = Z.of_nat (length fl);
  ci_bound : Z.of_nat (length fl) < 2 * slab_objects c;
  ci_live : forall x, x ∈ live -> exists w, m !! SOO_OBJ x = Some w /\ w <> 0
}.

(** ** Geometry *)

Definition geomb (c : kv_cache) : bool :=
  (16 <=? obj_size c) && (obj_size c mod 8 =? 0) && (0 <? slab_objects c) &&
  (slab_objects c * obj_size c <=? slab_page c * 4096) && (0 <? slab_page c) &&
  (slab_page c <=? 8) && (2 * slab_objects c <? 2 ^ 16).

Lemma geomb_ok c : geomb c = true -> geom c.
Proof. unfold geomb, geom. rewrite !andb_true_iff, !Z.leb_le, !Z.ltb_lt, Z.eqb_eq. tauto. Qed.

Definition init_okb (size : Z) : bool :=
  match kv_cache_init size with
  | Some c => geomb c && (size <=? obj_size c) && (obj_size c <=? SLAB_OBJ_SIZE_MAX)
  | None => false
  end.

Lemma kv_cache_init_table size :
  9 <= size <= SLAB_OBJ_SIZE_MAX ->
  exists c, kv_cache_init size = Some c /\ geom c /\ size <= obj_size c <= SLAB_OBJ_SIZE_MAX.
Proof.
  intros Hs. change SLAB_OBJ_SIZE_MAX with 3640 in Hs.
  assert (forall i, 0 <= i < Z.of_nat 3632 -> init_okb (9 + i) = true) as Ht.
  { apply (forallb_zrange _ (fun i => init_okb (9 + i))); [done|]. vm_compute. reflexivity. }
  specialize (Ht (size - 9) ltac:(lia)). replace (9 + (size - 9)) with size in Ht by lia.
  unfold init_okb in Ht. destruct (kv_cache_init size) as [c|]; [|done].
  rewrite !andb_true_iff, !Z.leb_le in Ht. destruct Ht as [[Hg ?] ?].
  exists c. split; [done|]. split; [by apply geomb_ok|done].
Qed.

Lemma elem_of_soos c slabs x :
  x ∈ soos c slabs <->
  exists s k, s ∈ slabs /\ 0 <= k < slab_objects c /\ x = soo_of s (s + k * obj_size c).
Proof.
  unfold soos, slab_objs. rewrite list_elem_of_bind. split.
  - intros (s & Hx & Hs). apply list_elem_of_fmap in Hx as (o & -> & Ho).
    apply list_elem_of_fmap in Ho as (k & -> & Hk%elem_of_zrange). exists s, k.
    split; [done|]. split; [lia|done].
  - intros (s & k & Hs & Hk & ->). exists s. split; [|done].
    apply list_elem_of_fmap_2. apply (list_elem_of_fmap_2 (fun k => s + k * obj_size c)).
    apply elem_of_zrange. lia.
Qed.

Lemma geom_obj c k : geom c -> 0 <= k < slab_objects c ->
  0 <= k * obj_size c /\ k * obj_size c + obj_size c <= slab_page c * 4096 /\
  (k * obj_size c) mod 8 = 0.
Proof.
  intros (? & H8 & ? & ? & ?) Hk. split; [nia|]. split; [nia|].
  by rewrite <-Zmult_mod_idemp_r, H8, Z.mul_0_r.
Qed.

Lemma slab_in_slab c s k :
  geom c -> slab_ok c s -> 0 <= k < slab_objects c -> in_slab s (s + k * obj_size c).
Proof.
  intros Hg (H1 & H2 & H3) Hk. pose proof (geom_obj c k Hg Hk) as (? & ? & Hm).
  destruct Hg as (? & ? & ? & ? & ? & ?). split; [done|]. split.
  { rewrite aligned_add; [done|lia|]. rewrite (Z.div_mod s 4096) by lia. rewrite H1.
    rewrite Z.add_0_r. replace (4096 * (s / 4096)) with (s / 4096 * 512 * 8) by lia.
    apply Z.mod_mul. lia. }
  lia.
Qed.

(** Where the object of a soo lies. *)
Lemma soo_facts c m slabs x :
  slabs_inv c m slabs -> x ∈ soos c slabs ->
  x <> 0 /\ soo_slab x ∈ slabs /\ SOO_OBJ x mod 8 = 0 /\
  exists k, 0 <= k < slab_objects c /\ SOO_OBJ x = soo_slab x + k * obj_size c /\
            x = soo_of (soo_slab x) (SOO_OBJ x).
Proof.
  intros Hsi (s & k & Hs & Hk & ->)%elem_of_soos.
  pose proof (si_ok _ _ _ Hsi) as Hok. rewrite Forall_forall in Hok. specialize (Hok s Hs).
  pose proof (slab_in_slab c s k (si_geom _ _ _ Hsi) Hok Hk) as Hin.
  destruct (soo_of_facts _ _ Hin) as (-> & _ & -> & ?).
  destruct Hin as (_ & H8 & _ & ? & _), Hok as (_ & ? & _). split.
  { unfold soo_of. lia. }
  split_and!; [done..|]. by exists k.
Qed.

Lemma soo_in_slab c m slabs x :
  slabs_inv c m slabs -> x ∈ soos c slabs ->
  soo_slab x ∈ slabs /\ soo_slab x <= SOO_OBJ x /\
  SOO_OBJ x + obj_size c <= soo_slab x + slab_page c * 4096 /\ 16 <= obj_size c.
Proof.
  intros Hsi Hx. pose proof (si_geom _ _ _ Hsi) as Hg.
  destruct (soo_facts _ _ _ _ Hsi Hx) as (_ & Hs & _ & k & Hk & -> & _).
  pose proof (geom_obj c k Hg Hk). destruct Hg as (? & _). split; [done|]. lia.
Qed.

Lemma soos_sep c m slabs x y :
  slabs_inv c m slabs -> x ∈ soos c slabs -> y ∈ soos c slabs -> x <> y ->
  SOO_OBJ x + obj_size c <= SOO_OBJ y \/ SOO_OBJ y + obj_size c <= SOO_OBJ x.
Proof.
  intros Hsi Hx Hy Hne. pose proof (si_geom _ _ _ Hsi) as Hg.
  destruct (soo_facts _ _ _ _ Hsi Hx) as (_ & Hsx & _ & k & Hk & Ex & Fx).
  destruct (soo_facts _ _ _ _ Hsi Hy) as (_ & Hsy & _ & j & Hj & Ey & Fy).
  pose proof (geom_obj c k Hg Hk). pose proof (geom_obj c j Hg Hj).
  destruct (decide (soo_slab x = soo_slab y)) as [E|E].
  - rewrite E in Ex, Fx.
    assert (k <> j) by (intros ->; apply Hne; rewrite Fx, Ex, <-Ey; done).
    destruct Hg as (? & _). nia.
  - pose proof (si_apart _ _ _ Hsi _ _ Hsx Hsy E) as [?|?]; lia.
Qed.

(** The words of an object are mapped. *)
Lemma soo_mapped c m slabs x i :
  slabs_inv c m slabs -> x ∈ soos c slabs -> 0 <= i < obj_size c -> i mod 8 = 0 ->
  is_Some (m !! (SOO_OBJ x + i)).
Proof.
  intros Hsi Hx Hi H8. pose proof (si_geom _ _ _ Hsi) as Hg.
  destruct (soo_facts _ _ _ _ Hsi Hx) as (_ & Hs & _ & k & Hk & -> & _).
  pose proof (geom_obj c k Hg Hk) as (? & ? & Hm).
  replace (soo_slab x + k * obj_size c + i) with (soo_slab x + 8 * ((k * obj_size c + i) / 8)).
  - apply (si_mapped _ _ _ Hsi); [done|]. split; [apply Z.div_pos; lia|].
    apply Z.div_lt_upper_bound; lia.
  - assert ((k * obj_size c + i) mod 8 = 0) as E by (rewrite aligned_add; [done|lia|done]).
    pose proof (Z.div_mod (k * obj_size c + i) 8). lia.
Qed.

Lemma soos_nodup c m slabs : slabs_inv c m slabs -> NoDup (soos c slabs).
Proof.
  intros Hsi. pose proof (si_geom _ _ _ Hsi) as Hg.
  pose proof (si_ok _ _ _ Hsi) as Hok. rewrite Forall_forall in Hok.
  assert (forall s x, s ∈ slabs -> x ∈ soo_of s <$> slab_objs c s -> soo_slab x = s) as Hsl.
  { intros s x Hs (o & -> & Ho)%list_elem_of_fmap.
    apply list_elem_of_fmap in Ho as (k & -> & Hk%elem_of_zrange).
    apply soo_of_facts, slab_in_slab; [done|by apply Hok|lia]. }
  apply NoDup_bind; [..|by apply (si_nodup c m)].
  - intros s s' x Hs Hs' Hx Hx'. rewrite <-(Hsl s x), <-(Hsl s' x); done.
  - intros s Hs. apply NoDup_fmap_2_strong.
    + intros o o' Ho Ho' E.
      apply list_elem_of_fmap in Ho as (k & -> & Hk%elem_of_zrange).
      apply list_elem_of_fmap in Ho' as (k' & -> & Hk'%elem_of_zrange).
      destruct (soo_of_facts s (s + k * obj_size c)) as (<- & _);
        [apply slab_in_slab; [done|by apply Hok|lia]|].
      destruct (soo_of_facts s (s + k' * obj_size c)) as (<- & _);
        [apply slab_in_slab; [done|by apply Hok|lia]|]. by rewrite E.
    + apply NoDup_fmap_2_strong.
      * intros k k' _ _. destruct Hg as (? & _). nia.
      * apply NoDup_fmap_2, NoDup_seq. apply _.
Qed.

(** ** The free list *)

Lemma fchain_frame m m' soo l :
  fchain m soo l ->
  (forall x, x ∈ l -> m' !! SOO_OBJ x = m !! SOO_OBJ x /\
                      m' !! (SOO_OBJ x + 8) = m !! (SOO_OBJ x + 8)) ->
  fchain m' soo l.
Proof.
  revert soo. induction l as [|x l IH]; intros soo; cbn [fchain]; [done|].
  intros (-> & ? & H0 & next & Hn & Hc) Heq.
  destruct (Heq x ltac:(left)) as [E1 E2]. split_and!; [done..|by rewrite E1|].
  exists next. rewrite E2. split; [done|]. apply IH; [done|]. intros y Hy. apply Heq. by right.
Qed.

Lemma fchain_head m soo l : fchain m soo l -> soo = default 0 (head l).
Proof. destruct l; cbn; [done|by intros (-> & _)]. Qed.

Lemma pop_cons m c x l :
  fchain m (next_free_soo c) (x :: l) ->
  exists next, __pop_free_soo m c = Some (x, set_free c (free_objects c) next) /\
    fchain m next l.
Proof.
  intros (E & Hx & _ & next & Hn & Hc). exists next. unfold __pop_free_soo.
  rewrite option_guard_True by (by rewrite E). rewrite E. unfold off_next_free, load. cbn.
  by rewrite Hn.
Qed.

(** The objects of a slab as the loops visit them. *)
Fixpoint objs_from (sz curr : Z) (n : nat) : list Z :=
  match n with O => [] | S n' => curr :: objs_from sz (curr + sz) n' end.

Lemma objs_from_eq sz a n : objs_from sz a n = (fun k => a + k * sz) <$> zrange n.
Proof.
  revert a. induction n as [|n IH]; intros a; [done|]. cbn [objs_from]. rewrite IH.
  change (S n) with (1 + n)%nat. rewrite zrange_app, fmap_app, <-list_fmap_compose.
  cbn. f_equal; [lia|]. apply list_fmap_ext. intros; cbn; lia.
Qed.

Lemma free_obj_init_ok m obj next :
  is_Some (m !! obj) -> is_Some (m !! (obj + 8)) ->
  free_obj_init m obj next = Some (<[obj + 8 := next]> (<[obj := 0]> m)).
Proof.
  intros H1 H2. unfold free_obj_init. rewrite store_eq by done. cbn.
  unfold off_next_free. rewrite store_eq; [done|]. by apply insert_is_Some.
Qed.

(** [add_slab]'s loop from object [j] of a mapped slab on: the objects it
    visits are pushed on the free list, and only the slab is written. *)
Lemma add_slab_loop_ok c m slab fl j n :
  geom c -> slab_ok c slab ->
  (forall k, 0 <= k < 512 * slab_page c -> is_Some (m !! (slab + 8 * k))) ->
  0 <= j -> j + Z.of_nat n <= slab_objects c ->
  fchain m (next_free_soo c) fl ->
  (forall x, x ∈ fl -> SOO_OBJ x + 16 <= slab + j * obj_size c \/
                       slab + slab_page c * 4096 <= SOO_OBJ x) ->
  exists m' soo' fl',
    add_slab_loop m c slab (slab + j * obj_size c) n =
      Some (m', set_free c (free_objects c) soo') /\
    fchain m' soo' fl' /\
    fl' ≡ₚ (soo_of slab <$> objs_from (obj_size c) (slab + j * obj_size c) n) ++ fl /\
    (forall a, a < slab \/ slab + slab_page c * 4096 <= a -> m' !! a = m !! a) /\
    (forall a, is_Some (m !! a) -> is_Some (m' !! a)).
Proof.
  intros Hg Hok. revert m c fl j Hg Hok.
  induction n as [|n IH]; intros m c fl j Hg Hok Hmap Hj Hn Hc Hfl.
  { exists m, (next_free_soo c), fl. by destruct c. }
  pose proof (geom_obj c j Hg ltac:(lia)) as (? & ? & Hm8).
  pose proof Hg as (Hsz & Hsz8 & ? & ? & ? & ?).
  set (o := slab + j * obj_size c). 
  assert (forall i, i = 0 \/ i = 8 -> is_Some (m !! (o + i))) as Hoi.
  { intros i Hi. unfold o.
    replace (slab + j * obj_size c + i) with (slab + 8 * ((j * obj_size c + i) / 8)).
    - apply Hmap. split; [apply Z.div_pos; lia|apply Z.div_lt_upper_bound; lia].
    - assert ((j * obj_size c + i) mod 8 = 0)
        by (rewrite aligned_add; [destruct Hi as [-> | ->]; done|lia|done]).
      pose proof (Z.div_mod (j * obj_size c + i) 8). lia. }
  pose proof (slab_in_slab c slab j Hg Hok ltac:(lia)) as Hin. fold o in Hin.
  destruct (soo_of_facts _ _ Hin) as (Eo & _ & Es & Hoff).
  cbn [add_slab_loop objs_from].
  pose proof (Hoi 0 ltac:(by left)) as Ho0. rewrite Z.add_0_r in Ho0.
  rewrite free_obj_init_ok by auto. cbn.
  rewrite soo_make_eq by done. cbn.
  set (m1 := <[o + 8 := _]> _). set (c1 := set_free c (free_objects c) (soo_of slab o)).
  replace (o + obj_size c) with (slab + (j + 1) * obj_size c1)
    by (unfold o; cbn; lia).
  destruct (IH m1 c1 (soo_of slab o :: fl) (j + 1)) as (m' & soo' & fl' & E & Hc' & Hp & Hf & Hmp).
  - done.
  - done.
  - intros k Hk. unfold m1. apply insert_is_Some, insert_is_Some, Hmap. done.
  - lia.
  - cbn. lia.
  - cbn [fchain next_free_soo c1 set_free]. unfold m1. rewrite Eo. split_and!.
    + done.
    + destruct Hok as (_ & ? & _). assert (slab <= o) by (unfold o; lia).
      unfold soo_of. lia.
    + map_lia.
    + exists (next_free_soo c). rewrite lookup_insert_eq. split; [done|].
      apply (fchain_frame m); [done|]. intros x Hx. fold o in Hfl.
      specialize (Hfl x Hx). unfold o in *. split; map_lia.
  - intros x [->|Hx]%elem_of_cons.
    + rewrite Eo. left. cbn. unfold o. nia.
    + specialize (Hfl x Hx). cbn. nia.
  - exists m', soo', fl'. split; [exact E|]. split; [done|]. split.
    { rewrite Hp. cbn. replace (o + obj_size c) with (slab + (j + 1) * obj_size c)
        by (unfold o; lia). solve_Permutation. }
    split; [|intros a Ha; apply Hmp; unfold m1; auto with umem].
    intros a Ha. rewrite Hf by done. unfold m1, o. cbn in *. map_lia.
Qed.

(** ** Mapping a slab *)

(** [mmap] without [MAP_FIXED] returns page-aligned pages that were not mapped. *)
Definition mmap_fresh (mmap : Z -> option Z) (m : mem) (c : kv_cache) : Prop :=
  forall s, mmap (sys_len (slab_page c)) = Some s ->
    slab_ok c s /\ forall a, s <= a < s + slab_page c * 4096 -> m !! a = None.

Lemma elem_of_words_at a n w :
  w ∈ words_at a n <-> exists k, 0 <= k < Z.of_nat n /\ w = a + 8 * k.
Proof.
  unfold words_at. rewrite list_elem_of_fmap. split.
  - intros (k & -> & Hk%elem_of_zrange). eauto.
  - intros (k & Hk & ->). exists k. by rewrite elem_of_zrange.
Qed.

Lemma words_at_nodup a n : NoDup (words_at a n).
Proof.
  apply NoDup_fmap_2_strong; [intros; lia|]. apply NoDup_fmap_2, NoDup_seq. apply _.
Qed.

Lemma map_pages_in m a page k :
  0 <= k < 512 * page -> map_pages m a page !! (a + 8 * k) = Some 0.
Proof.
  intros Hk. unfold map_pages. apply lookup_union_Some_l.
  apply elem_of_list_to_map_1.
  - rewrite <-list_fmap_compose. cbn. rewrite list_fmap_id. apply words_at_nodup.
  - apply list_elem_of_fmap. exists (a + 8 * k). split; [done|].
    apply elem_of_words_at. exists k. unfold page_words. split; [lia|done].
Qed.

Lemma map_pages_out m a page b :
  b < a \/ a + page * 4096 <= b -> map_pages m a page !! b = m !! b.
Proof.
  intros Hb. unfold map_pages. apply lookup_union_r, not_elem_of_list_to_map_1.
  rewrite <-list_fmap_compose. cbn. rewrite list_fmap_id, elem_of_words_at.
  unfold page_words. intros (k & ? & ?). lia.
Qed.

Lemma page_aligned_diff s s' : s mod 4096 = 0 -> s' mod 4096 = 0 -> s = s' + 8 * ((s - s') / 8).
Proof.
  intros H H'. assert ((s - s') mod 8 = 0).
  { rewrite (Z.div_mod s 4096), (Z.div_mod s' 4096), H, H' by lia.
    replace (4096 * (s / 4096) + 0 - (4096 * (s' / 4096) + 0))
      with ((512 * (s / 4096) - 512 * (s' / 4096)) * 8) by lia.
    apply Z.mod_mul. lia. }
  pose proof (Z.div_mod (s - s') 8). lia.
Qed.

Lemma fresh_apart c m slabs s s' :
  slabs_inv c m slabs -> slab_ok c s ->
  (forall a, s <= a < s + slab_page c * 4096 -> m !! a = None) ->
  s' ∈ slabs -> apart c s s'.
Proof.
  intros Hsi Hs Hnone Hs'. unfold apart.
  pose proof (si_ok _ _ _ Hsi) as Hok. rewrite Forall_forall in Hok.
  destruct (Hok s' Hs') as (H1 & _), Hs as (H2 & _).
  destruct (decide (s + slab_page c * 4096 <= s')); [by left|].
  destruct (decide (s' + slab_page c * 4096 <= s)); [by right|]. exfalso.
  destruct (decide (s <= s')) as [Hle|Hle].
  - destruct (si_mapped _ _ _ Hsi s' 0 Hs') as [w Hw]; [lia|].
    rewrite Hnone in Hw by lia. done.
  - destruct (si_mapped _ _ _ Hsi s' ((s - s') / 8) Hs') as [w Hw].
    { split; [apply Z.div_pos; lia|apply Z.div_lt_upper_bound; lia]. }
    rewrite <-page_aligned_diff in Hw by done. rewrite Hnone in Hw by lia. done.
Qed.

Lemma slabs_inv_cons c m m' slabs s :
  slabs_inv c m slabs -> slab_ok c s ->
  (forall a, s <= a < s + slab_page c * 4096 -> m !! a = None) ->
  (forall k, 0 <= k < 512 * slab_page c -> is_Some (m' !! (s + 8 * k))) ->
  (forall a, is_Some (m !! a) -> is_Some (m' !! a)) ->
  slabs_inv c m' (s :: slabs).
Proof.
  intros Hsi Hs Hnone Hin Hmap.
  pose proof (fun s' => fresh_apart c m slabs s s' Hsi Hs Hnone) as Hap.
  pose proof (si_geom _ _ _ Hsi) as Hg. destruct Hsi as [_ Hok Hnd Hsep Hmapped]. split.
  - done.
  - by constructor.
  - constructor; [|done]. intros Hc. destruct (Hap s Hc); destruct Hg as (?&?&?&?&?&?); lia.
  - intros x y [->|Hx]%elem_of_cons [->|Hy]%elem_of_cons Hne; [done|by apply Hap| |by apply Hsep].
    destruct (Hap x Hx); [by right|by left].
  - intros x k [->|Hx]%elem_of_cons Hk; [by apply Hin|by apply Hmap, Hmapped].
Qed.

(** The state between taking an object [soo] off the free list and marking it
    live. *)
Record taken (c : kv_cache) (m : mem) (slabs fl live : list Z) (soo : Z) : Prop := {
  tk_slabs : slabs_inv c m slabs;
  tk_perm : fl ++ soo :: live ≡ₚ soos c slabs;
  tk_chain : fchain m (next_free_soo c) fl;
  tk_count : free_objects c = Z.of_nat (length fl);
  tk_bound : Z.of_nat (length fl) < 2 * slab_objects c;
  tk_live : forall x, x ∈ live -> exists w, m !! SOO_OBJ x = Some w /\ w <> 0;
}.

Lemma slabs_inv_set_free c m slabs n soo :
  slabs_inv c m slabs -> slabs_inv (set_free c n soo) m slabs.
Proof. intros []; by split. Qed.

Lemma take_first c m slabs x fl live mm mmap :
  cache_inv c m slabs (x :: fl) live ->
  exists c', kv_cache_malloc mmap m c mm = Some (x, m, c', mm) /\
    c' = set_free c (free_objects c') (next_free_soo c') /\ taken c' m slabs fl live x.
Proof.
  intros [Hsi Hp Hc Hn Hb Hl]. pose proof (si_geom _ _ _ Hsi) as (?&?&?&?&?&?).
  cbn [length] in *. unfold kv_cache_malloc. rewrite bool_decide_false by lia. cbn.
  set (c1 := set_free c _ _).
  destruct (pop_cons m c1 x fl Hc) as (next & E & Hc'). rewrite E. cbn.
  exists (set_free c1 (free_objects c1) next). split; [done|]. split; [done|]. split.
  - by apply slabs_inv_set_free, slabs_inv_set_free.
  - etrans; [|exact Hp]. solve_Permutation.
  - done.
  - cbn. rewrite wrap_small; lia.
  - cbn. lia.
  - done.
Qed.

(** With an empty free list [kv_cache_malloc] first maps a slab. *)
Lemma grow_slab c m slabs live mm mmap slab mm' :
  cache_inv c m slabs [] live -> mmap_fresh mmap m c -> 0 <= free_pages mm < 2 ^ 64 ->
  memory_malloc mmap mm (slab_page c) = (Some slab, mm') ->
  exists m' c' fl,
    kv_cache_malloc mmap m c mm = kv_cache_malloc mmap m' c' mm' /\
    c' = set_free c (free_objects c') (next_free_soo c') /\
    (forall a, is_Some (m !! a) -> m' !! a = m !! a) /\
    cache_inv c' m' (slab :: slabs) fl live /\ fl <> [].
Proof.
  intros [Hsi Hp Hc Hn Hb Hl] Hfresh Hmm E.
  pose proof (si_geom _ _ _ Hsi) as Hg. pose proof Hg as (?&?&?&?&?&?).
  destruct (memory_malloc_some mmap mm (slab_page c) slab mm' ltac:(lia) Hmm E) as (_ & _ & Emm).
  destruct (Hfresh _ Emm) as [Hok Hnone].
  destruct (add_slab_loop_ok c (map_pages m slab (slab_page c)) slab [] 0
              (Z.to_nat (slab_objects c)))
    as (m' & soo' & fl' & El & Hc' & Hp' & Hf & Hmp); [done..| |lia|lia|done|set_solver|].
  { intros k Hk. rewrite map_pages_in; eauto. }
  rewrite Z.mul_0_l, Z.add_0_r, objs_from_eq, app_nil_r in *.
  assert (length fl' = Z.to_nat (slab_objects c)) as Hlen.
  { rewrite Hp', !length_fmap. unfold zrange. by rewrite length_fmap, length_seq. }
  assert (forall a, is_Some (m !! a) -> m' !! a = m !! a) as Hkeep.
  { intros a [w Hw]. destruct (decide (slab <= a < slab + slab_page c * 4096)).
    - rewrite Hnone in Hw by lia. done.
    - rewrite Hf, map_pages_out by lia. done. }
  exists m', (set_free c (slab_objects c) soo'), fl'. split_and!.
  - cbn in Hn. unfold kv_cache_malloc. cbn.
    rewrite (bool_decide_false (slab_objects c = 0)), bool_decide_true by lia.
    unfold add_slab. rewrite option_guard_True by done.
    rewrite E. cbn. by rewrite El.
  - done.
  - done.
  - split.
    + apply slabs_inv_set_free, (slabs_inv_cons c m); [done..| |].
      * intros k Hk. apply Hmp. rewrite map_pages_in; eauto.
      * intros a Ha. by rewrite Hkeep.
    + etrans; [apply Permutation_app; [exact Hp'|exact Hp]|]. done.
    + done.
    + cbn. lia.
    + cbn. lia.
    + intros x Hx. destruct (Hl x Hx) as (w & Hw & ?). exists w. rewrite Hkeep; eauto.
  - intros ->. cbn in Hlen. lia.
Qed.

(** What [kv_cache_malloc] does in every case. *)
Lemma kv_cache_malloc_spec c m slabs fl live mm mmap :
  cache_inv c m slabs fl live -> mmap_fresh mmap m c -> 0 <= free_pages mm < 2 ^ 64 ->
  (fl = [] /\ fst (memory_malloc mmap mm (slab_page c)) = None /\
   kv_cache_malloc mmap m c mm = Some (0, m, c, mm)) \/
  exists soo m' c' mm' slabs' fl',
    kv_cache_malloc mmap m c mm = Some (soo, m', c', mm') /\ soo <> 0 /\
    c' = set_free c (free_objects c') (next_free_soo c') /\
    (slabs' = slabs \/ exists s, slabs' = s :: slabs /\
       forall a, s <= a < s + slab_page c * 4096 -> m !! a = None) /\
    (forall a, is_Some (m !! a) -> m' !! a = m !! a) /\
    taken c' m' slabs' fl' live soo.
Proof.
  intros Hci Hfresh Hmm. destruct fl as [|x fl].
  - destruct (memory_malloc mmap mm (slab_page c)) as [[slab|] mm'] eqn:E.
    + right. destruct (grow_slab _ _ _ _ _ _ _ _ Hci Hfresh Hmm E)
        as (m' & c' & [|x fl] & -> & Hc' & Hkeep & Hci' & Hne); [done|].
      destruct (take_first _ _ _ _ _ _ mm' mmap Hci') as (c'' & -> & Hc'' & Htk).
      exists x, m', c'', mm', (slab :: slabs), fl. split_and!; try done.
      * by destruct (ci_chain _ _ _ _ _ Hci') as (_ & ? & _).
      * rewrite Hc'', Hc'. done.
      * right. exists slab. split; [done|]. apply Hfresh.
        unfold memory_malloc in E. case_bool_decide; [done|]. unfold sys_malloc in E.
        destruct (mmap (sys_len (slab_page c))); [|done]. by simplify_eq.
    + left. split; [done|]. split; [done|]. pose proof (memory_malloc_none _ _ _ _ E) as ->.
      unfold kv_cache_malloc, add_slab. rewrite (ci_count _ _ _ _ _ Hci).
      cbn. by rewrite E.
  - right. destruct (take_first _ _ _ _ _ _ mm mmap Hci) as (c' & -> & Hc' & Htk).
    exists x, m, c', mm, slabs, fl. split_and!; try done.
    + by destruct (ci_chain _ _ _ _ _ Hci) as (_ & ? & _).
    + by left.
Qed.

Lemma slabs_inv_mono c m m' slabs :
  slabs_inv c m slabs -> (forall a, is_Some (m !! a) -> is_Some (m' !! a)) ->
  slabs_inv c m' slabs.
Proof. intros [] Hmap. split; try done. intros. by apply Hmap, si_mapped0. Qed.

Lemma taken_live c m slabs fl live soo w :
  taken c m slabs fl live soo -> w <> 0 ->
  is_Some (m !! SOO_OBJ soo) /\
  cache_inv c (<[SOO_OBJ soo := w]> m) slabs fl (soo :: live).
Proof.
  intros [Hsi Hp Hc Hn Hb Hl] Hw.
  assert (forall x, x ∈ fl ++ soo :: live -> x ∈ soos c slabs) as Hin by (by intros x; rewrite Hp).
  pose proof (soos_nodup _ _ _ Hsi) as Hnd. rewrite <-Hp in Hnd.
  apply NoDup_middle in Hnd as [Hnin _]. pose proof (si_geom _ _ _ Hsi) as (?&_).
  assert (forall x, x ∈ fl ++ live -> SOO_OBJ x <> SOO_OBJ soo /\ SOO_OBJ x + 8 <> SOO_OBJ soo)
    as Hne.
  { intros x Hx. destruct (soos_sep c m slabs x soo) as [?|?]; try done; try lia;
      [apply Hin; set_solver..|intros ->; set_solver]. }
  split.
  { destruct (soo_mapped c m slabs soo 0) as [v Hv]; [done|apply Hin; set_solver|lia|done|].
    rewrite Z.add_0_r in Hv. eauto. }
  split; try done.
  - apply (slabs_inv_mono c m); [done|]. auto with umem.
  - apply (fchain_frame m); [done|]. intros x Hx.
    destruct (Hne x) as [? ?]; [set_solver|]. split; by apply lookup_insert_ne.
  - intros x [->|Hx]%elem_of_cons; [exists w; by rewrite lookup_insert_eq|].
    destruct (Hl x Hx) as (v & ? & ?). exists v.
    destruct (Hne x) as [? _]; [set_solver|]. by rewrite lookup_insert_ne.
Qed.

(** ** Properties *)

(** For every object size the size classes ask for, [kv_cache_init] succeeds
    (no assertion fails and nothing is truncated to 16 bits): the objects are at
    least as big as asked, 8-byte aligned with room for the two words of a free
    object, a slab of at most 8 pages holds them all, and twice their number
    fits the 16-bit counter. *)
Theorem kv_cache_init_geometry size
    (Hsize : KV_CACHE_OBJ_SIZE_MIN - 7 <= size <= KV_CACHE_OBJ_SIZE_MAX) :
  exists c, kv_cache_init size = Some c /\ geom c /\
    size <= obj_size c <= KV_CACHE_OBJ_SIZE_MAX /\ free_objects c = 0 /\
    next_free_soo c = 0.
Proof.
  destruct (kv_cache_init_table size) as (c & E & Hg & Hs); [exact Hsize|].
  exists c. split_and!; try done; try apply Hs.
  all: unfold kv_cache_init in E; repeat case_guard; try done; cbn in E;
    destruct (slab_calculate_order _); simplify_eq/=; done.
Qed.

Lemma kv_cache_init_geometry_witness :
  exists c, kv_cache_init 3640 = Some c /\ geom c /\ slab_objects c = 9.
Proof.
  destruct (kv_cache_init_geometry 3640) as (c & E & Hg & _).
  { vm_compute. split; congruence. }
  exists c. split; [exact E|]. split; [exact Hg|].
  vm_compute in E. injection E as <-. reflexivity.
Defined.

(** C27: allocating a kv either fails, exactly when no object is free and no slab
    can be mapped, and then changes nothing; or it returns an object that was
    not live, marked with its own soo, and keeps the cache's invariant and
    every word that was mapped except the first of the object. *)
Theorem kv_cache_malloc_kv_fresh c m slabs fl live mm mmap
    (Hinv : cache_inv c m slabs fl live) (Hmmap : mmap_fresh mmap m c)
    (Hmm : 0 <= free_pages mm < 2 ^ 64) :
  exists kv m' c' mm', kv_cache_malloc_kv mmap m c mm = Some (kv, m', c', mm') /\
    ((kv = 0 /\ fl = [] /\ fst (memory_malloc mmap mm (slab_page c)) = None /\
      (m', c', mm') = (m, c, mm)) \/
     exists soo slabs' fl',
       soo ∉ live /\ kv = SOO_OBJ soo /\ kv mod 8 = 0 /\ m' !! kv = Some soo /\
       cache_inv c' m' slabs' fl' (soo :: live) /\
       forall a, a <> kv -> is_Some (m !! a) -> m' !! a = m !! a).
Proof.
  unfold kv_cache_malloc_kv.
  destruct (kv_cache_malloc_spec c m slabs fl live mm mmap Hinv Hmmap Hmm)
    as [(-> & ? & ->)|(soo & m' & c' & mm' & slabs' & fl' & -> & Hnz & _ & _ & Hkeep & Htk)].
  { exists 0, m, c, mm. split; [done|]. by left. }
  cbn. rewrite bool_decide_false by done.
  destruct (taken_live _ _ _ _ _ _ soo Htk Hnz) as [Hs Hinv'].
  rewrite store_eq by done. cbn. eexists _, _, _, _. split; [done|]. right.
  exists soo, slabs', fl'.
  pose proof (ci_perm _ _ _ _ _ Hinv') as Hp.
  pose proof (soos_nodup _ _ _ (ci_slabs _ _ _ _ _ Hinv')) as Hnd.
  rewrite <-Hp in Hnd. apply NoDup_middle in Hnd as [Hnin _].
  destruct (soo_facts _ _ _ soo (tk_slabs _ _ _ _ _ _ Htk)) as (_ & _ & ? & _).
  { rewrite <-(tk_perm _ _ _ _ _ _ Htk). set_solver. }
  split_and!; try done; [set_solver|by rewrite lookup_insert_eq|].
  intros a Ha Hma. rewrite lookup_insert_ne by done. by apply Hkeep.
Qed.

(** An empty cache of the largest class, and a system that maps one slab. *)
Definition cache0 : kv_cache :=
  {| slab_page := 8; obj_size := 3640; slab_objects := 9; free_objects := 0;
     next_free_soo := 0 |}.
Definition mmap0 : Z -> option Z := fun _ => Some 0x10000.

Lemma cache0_inv m : cache_inv cache0 m [] [] [].
Proof.
  split; [split; [by apply geomb_ok|..]|..]; try done; try constructor; set_solver.
Qed.

Lemma mmap0_fresh (m : mem) :
  map_Forall (fun a _ => a < 0x10000) m -> mmap_fresh mmap0 m cache0.
Proof.
  intros Hm s [= <-]. split; [decide_now|]. intros a Ha.
  destruct (m !! a) eqn:E; [|done]. apply Hm in E. lia.
Qed.

Lemma kv_cache_malloc_kv_fresh_witness :
  kv_cache_init 3640 = Some cache0 /\
  exists kv m' c' mm',
    kv_cache_malloc_kv mmap0 ∅ cache0 (memory_init 8) = Some (kv, m', c', mm') /\
    kv mod 8 = 0 /\ kv <> 0.
Proof.
  split; [reflexivity|].
  destruct (kv_cache_malloc_kv_fresh cache0 ∅ [] [] [] (memory_init 8) mmap0)
    as (kv & m' & c' & mm' & E & [(-> & _ & Hf & _)|(soo & slabs' & fl' & _ & Hkv & H8 & Hm & Hi & _)]).
  - apply cache0_inv.
  - apply mmap0_fresh. done.
  - vm_compute. split; congruence.
  - vm_compute in Hf. congruence.
  - exists kv, m', c', mm'. split; [exact E|]. split; [exact H8|]. intros ->.
    destruct (ci_live _ _ _ _ _ Hi soo ltac:(left)) as (w & Hw & Hnz).
    rewrite <-Hkv, Hm in Hw. injection Hw as ->.
    destruct (soo_facts _ _ _ w (ci_slabs _ _ _ _ _ Hi)) as (_ & Hs & _ & k & Hk & Eo & _).
    { rewrite <-(ci_perm _ _ _ _ _ Hi). apply elem_of_app; right; left. }
    pose proof (si_ok _ _ _ (ci_slabs _ _ _ _ _ Hi)) as Hok. rewrite Forall_forall in Hok.
    destruct (Hok _ Hs) as (_ & ? & _).
    pose proof (geom_obj c' k (si_geom _ _ _ (ci_slabs _ _ _ _ _ Hi)) Hk). lia.
Defined.

(** Allocating the tail of a concatenated kv whose [soo] word is at
    [soo_ptr] either fails and changes nothing, or links the two: the word at
    [soo_ptr] leads to an object that was not live and the object's first word
    leads back, which is what [migrate] relies on to move the object. *)
Theorem kv_cache_malloc_concat_val_links c m slabs fl live mm mmap soo_ptr
    (Hinv : cache_inv c m slabs fl live) (Hmmap : mmap_fresh mmap m c)
    (Hmm : 0 <= free_pages mm < 2 ^ 64)
    (Hptr : soo_ptr <> 0 /\ is_Some (m !! soo_ptr) /\
       forall s, s ∈ slabs -> soo_ptr < s \/ s + slab_page c * 4096 <= soo_ptr) :
  exists ok m' c' mm',
    kv_cache_malloc_concat_val mmap m c mm soo_ptr = Some (ok, m', c', mm') /\
    ((ok = false /\ fl = [] /\ (m', c', mm') = (m, c, mm)) \/
     exists soo slabs' fl',
       ok = true /\ soo ∉ live /\ m' !! soo_ptr = Some soo /\
       m' !! SOO_OBJ soo = Some soo_ptr /\ cache_inv c' m' slabs' fl' (soo :: live) /\
       forall a, a <> soo_ptr -> a <> SOO_OBJ soo -> is_Some (m !! a) -> m' !! a = m !! a).
Proof.
  unfold kv_cache_malloc_concat_val. destruct Hptr as (Hp0 & Hpm & Hout).
  destruct (kv_cache_malloc_spec c m slabs fl live mm mmap Hinv Hmmap Hmm)
    as [(-> & ? & ->)|(soo & m1 & c' & mm' & slabs' & fl' & -> & Hnz & Hc' & Hsl & Hkeep & Htk)].
  { exists false, m, c, mm. split; [done|]. by left. }
  cbn. rewrite bool_decide_false by done.
  destruct (taken_live _ _ _ _ _ _ soo_ptr Htk Hp0) as [Hs [Hsi Hp Hch Hn Hb Hl]].
  rewrite store_eq by done. cbn. rewrite store_eq by (apply insert_is_Some; by rewrite Hkeep).
  cbn. eexists _, _, _, _. split; [done|]. right. exists soo, slabs', fl'.
  pose proof (soos_nodup _ _ _ Hsi) as Hnd. rewrite <-Hp in Hnd.
  apply NoDup_middle in Hnd as [Hnin _].
  assert (forall x i, x ∈ soos c' slabs' -> 0 <= i <= 8 -> SOO_OBJ x + i <> soo_ptr) as Hne.
  { intros x i Hx Hi. pose proof (soo_in_slab _ _ _ _ Hsi Hx) as (Hs' & Hr).
    destruct Hsl as [->|(s & -> & Hnone)]; [|apply elem_of_cons in Hs' as [E|Hs']].
    - specialize (Hout _ Hs'). rewrite Hc' in Hr. cbn in Hr. lia.
    - intros <-. destruct Hpm as [w Hw]. rewrite Hnone in Hw; [done|]. rewrite <-E.
      rewrite Hc' in Hr. cbn in Hr. lia.
    - specialize (Hout _ Hs'). rewrite Hc' in Hr. cbn in Hr. lia. }
  assert (forall x, x ∈ fl' ++ soo :: live ->
    SOO_OBJ x <> soo_ptr /\ SOO_OBJ x + 8 <> soo_ptr) as Hne'.
  { intros x Hx. rewrite Hp in Hx. pose proof (Hne x 0 Hx). pose proof (Hne x 8 Hx). lia. }
  split_and!; try done.
  - set_solver.
  - by rewrite lookup_insert_eq.
  - destruct (Hne' soo) as [? _]; [set_solver|].
    rewrite lookup_insert_ne, lookup_insert_eq by done. done.
  - split; try done.
    + eapply slabs_inv_mono; [exact Hsi|]. auto with umem.
    + eapply fchain_frame; [exact Hch|]. intros x Hx. destruct (Hne' x) as [? ?]; [set_solver|].
      split; apply lookup_insert_ne; congruence.
    + intros x Hx. destruct (Hl x Hx) as (w & ? & ?). exists w.
      destruct (Hne' x) as [? _]; [set_solver|]. by rewrite lookup_insert_ne by congruence.
  - intros a H1 H2 Ha. rewrite !lookup_insert_ne by congruence. by apply Hkeep.
Qed.

Lemma kv_cache_malloc_concat_val_links_witness :
  exists soo m' c' mm',
    kv_cache_malloc_concat_val mmap0 {[0x8000 := 5]} cache0 (memory_init 8) 0x8000
      = Some (true, m', c', mm') /\
    m' !! 0x8000 = Some soo /\ m' !! SOO_OBJ soo = Some 0x8000.
Proof.
  destruct (kv_cache_malloc_concat_val_links cache0 {[0x8000 := 5]} [] [] []
              (memory_init 8) mmap0 0x8000)
    as (ok & m' & c' & mm' & E & [(-> & _ & _)|(soo & slabs' & fl' & -> & _ & H1 & H2 & _)]).
  - apply cache0_inv.
  - apply mmap0_fresh. intros a v Ha. apply lookup_singleton_Some in Ha as [<- _]. reflexivity.
  - vm_compute. split; congruence.
  - split; [done|]. split; [by rewrite lookup_singleton_eq|set_solver].
  - exfalso.
    assert ((fun r => r.1.1.1) <$> kv_cache_malloc_concat_val mmap0 {[0x8000 := 5]} cache0
              (memory_init 8) 0x8000 = Some true) as E' by (vm_compute; reflexivity).
    rewrite E in E'. discriminate E'.
  - exists soo, m', c', mm'. split; [exact E|]. split; [exact H1|exact H2].
Defined.
