(* ===== verification/Migrate.v ===== *)
(** * Moving live objects (kv_cache.c)

    The allocator gives a slab back by moving its live objects elsewhere.  What
    must not change is what the objects mean: a heap whose words point to each
    other by name, an object [i] and an offset in it, or a fixed address outside
    the slabs of the cache.  [represents] relates the word memory of KvCache.v to
    such a heap under a placement of the objects.  [migrate] changes the
    placement of one object; the heap stays the same.  The heap says of a moved
    object no more than [linked]: which words point to it, as the intrusive
    lists, the borrowers and the owner of a [concat_val] do. *)

From S2P Require Import Prelude Slab Words Lists Memory HashTable Kv KvCache.

(** ** Heaps that name their objects *)

Inductive loc := Fix (a : Z) | In (i o : Z).
Inductive word := Ptr (l : loc) | Soo (i : Z) | Raw (w : Z).

#[global] Instance loc_eq_dec : EqDecision loc.
Proof. solve_decision. Defined.
#[global] Instance word_eq_dec : EqDecision word.
Proof. solve_decision. Defined.
#[global] Instance loc_countable : Countable loc.
Proof.
  refine (inj_countable'
    (fun l => match l with Fix a => inl a | In i o => inr (i, o) end)
    (fun s => match s with inl a => Fix a | inr (i, o) => In i o end) _).
  by intros [].
Defined.

Abbreviation heap := (gmap loc word).
Abbreviation places := (gmap Z Z).

Definition shift (l : loc) (k : Z) : loc :=
  match l with Fix a => Fix (a + k) | In i o => In i (o + k) end.

(** The soo of an object, the address of a location, the bits of a word. *)
Definition soo_at (p : places) (i : Z) : Z := default 0 (p !! i).
Definition address (p : places) (l : loc) : Z :=
  match l with Fix a => a | In i o => SOO_OBJ (soo_at p i) + o end.
Definition bits (p : places) (v : word) : Z :=
  match v with Ptr l => address p l | Soo i => soo_at p i | Raw w => w end.

Definition represents (m : mem) (p : places) (H : heap) : Prop :=
  forall l v, H !! l = Some v -> m !! address p l = Some (bits p v).

Definition outside (c : kv_cache) (slabs : list Z) (a : Z) : Prop :=
  forall s, s ∈ slabs -> a < s \/ s + slab_page c * 4096 <= a.

(** The heap describes the objects of [p], all of their words, and words
    outside the slabs. *)
Record fits (c : kv_cache) (slabs : list Z) (p : places) (H : heap) : Prop := {
  f_soo : forall i x, p !! i = Some x -> x ∈ soos c slabs;
  f_inj : forall i j x, p !! i = Some x -> p !! j = Some x -> i = j;
  f_fix : forall a, is_Some (H !! Fix a) -> 0 < a /\ a mod 8 = 0 /\ outside c slabs a;
  f_in : forall i o, is_Some (H !! In i o) <->
    is_Some (p !! i) /\ 0 <= o < obj_size c /\ o mod 8 = 0
}.

(** ** Who points to an object *)

Definition mentions (i : Z) (v : word) : Prop :=
  match v with Ptr (In j _) => j = i | Soo j => j = i | _ => False end.
#[global] Instance mentions_dec i v : Decision (mentions i v).
Proof. destruct v as [[|]| |]; unfold mentions; apply _. Defined.

Definition elsewhere (i : Z) (l : loc) : Prop :=
  match l with Fix _ => True | In j _ => j <> i end.

Lemma elsewhere_ptr i l : elsewhere i l -> ~ mentions i (Ptr l).
Proof. destruct l; cbn; [by intros _ []|done]. Qed.

(** The borrowers [l] hang from [slot], and each knows the kv. *)
Fixpoint borrows (H : heap) (i : Z) (slot : loc) (l : list Z) : Prop :=
  match l with
  | [] => H !! slot = Some (Raw 0)
  | b :: l => H !! slot = Some (Ptr (Fix b)) /\ is_Some (H !! Fix b) /\
      H !! Fix (b + off_borrower_kv) = Some (Ptr (In i 0)) /\
      borrows H i (Fix (b + 8)) l
  end.

(** An enabled kv is on an lru list, between [prev] and [next], and on a hash
    chain, behind the word [slot] and before [nx]. *)
Record place_in_lists := { pl_prev : loc; pl_next : loc; pl_slot : loc; pl_nx : option loc }.

Record enabled_at (H : heap) (i : Z) (e : place_in_lists) : Prop := {
  e_away : elsewhere i (pl_prev e) /\ elsewhere i (pl_next e) /\ elsewhere i (pl_slot e);
  e_lru_prev : H !! In i off_lru = Some (Ptr (pl_prev e)) /\ is_Some (H !! pl_prev e);
  e_lru_next : H !! In i (off_lru + 8) = Some (Ptr (pl_next e));
  e_prev : H !! shift (pl_prev e) 8 = Some (Ptr (In i off_lru));
  e_next : H !! pl_next e = Some (Ptr (In i off_lru));
  e_hash_slot : H !! In i off_hash_node = Some (Ptr (pl_slot e));
  e_slot : H !! pl_slot e = Some (Ptr (In i off_hash_node));
  e_hash_next : H !! In i (off_hash_node + 8) =
    Some (match pl_nx e with Some nx => Ptr nx | None => Raw 0 end);
  e_nx : match pl_nx e with
    | Some nx => elsewhere i nx /\ H !! nx = Some (Ptr (In i (off_hash_node + 8)))
    | None => True
    end
}.

(** The words that point to the kv. *)
Definition lists_slots (e : option place_in_lists) : list loc :=
  match e with
  | Some e => [shift (pl_prev e) 8; pl_next e; pl_slot e] ++ option_list (pl_nx e)
  | None => []
  end.
Definition borrow_slots (l : list Z) : list loc :=
  match l with [] => [] | b :: _ => Fix b :: ((fun b => Fix (b + off_borrower_kv)) <$> l) end.

Definition only (H : heap) (i : Z) (D : list loc) : Prop :=
  forall l v, H !! l = Some v -> mentions i v -> l ∈ D.

Definition kv_linked (H : heap) (i : Z) (bl : list Z) (e : option place_in_lists) : Prop :=
  H !! In i 0 = Some (Soo i) /\ NoDup bl /\
  borrows H i (In i off_borrower_list) bl /\
  match bl with b :: _ => H !! Fix b = Some (Ptr (In i off_borrower_list)) | [] => True end /\
  match e with
  | Some e => enabled_at H i e
  | None => H !! In i off_enabled = Some (Raw 0)
  end /\
  only H i (In i 0 :: lists_slots e ++ borrow_slots bl).

(** The tail of a concatenated kv: the [soo] word of the kv points to it. *)
Definition concat_linked (H : heap) (i a : Z) : Prop :=
  H !! In i 0 = Some (Ptr (Fix a)) /\ H !! Fix a = Some (Soo i) /\ only H i [Fix a].

Definition linked (H : heap) (i : Z) : Prop :=
  (exists bl e, kv_linked H i bl e) \/ (exists a, concat_linked H i a).

(** ** Copying *)

Lemma copy_words_ok n : forall m dst src,
  dst + 8 * Z.of_nat n <= src \/ src + 8 * Z.of_nat n <= dst ->
  (forall k, 0 <= k < Z.of_nat n -> is_Some (m !! (src + 8 * k)) /\ is_Some (m !! (dst + 8 * k))) ->
  exists m', copy_words m dst src n = Some m' /\
    (forall k, 0 <= k < Z.of_nat n -> m' !! (dst + 8 * k) = m !! (src + 8 * k)) /\
    (forall a, (forall k, 0 <= k < Z.of_nat n -> a <> dst + 8 * k) -> m' !! a = m !! a) /\
    (forall a, is_Some (m !! a) -> is_Some (m' !! a)).
Proof.
  induction n as [|n IH]; intros m dst src Hd Hm.
  { exists m. split_and!; try done. intros. lia. }
  cbn [copy_words]. destruct (Hm 0 ltac:(lia)) as [[w Hw] Hd0].
  rewrite Z.mul_0_r, Z.add_0_r in Hw, Hd0.
  unfold load. rewrite Hw. cbn [mbind option_bind]. rewrite store_eq by done. cbn [mbind option_bind].
  destruct (IH (<[dst := w]> m) (dst + 8) (src + 8)) as (m' & -> & Hc & Hf & Hk); [lia| |].
  { intros k Hk. replace (src + 8 + 8 * k) with (src + 8 * (k + 1)) by lia.
    replace (dst + 8 + 8 * k) with (dst + 8 * (k + 1)) by lia.
    destruct (Hm (k + 1) ltac:(lia)). split; by apply insert_is_Some. }
  exists m'. split; [done|]. split; [|split].
  - intros k Hk'. destruct (decide (k = 0)) as [->|].
    + rewrite Z.mul_0_r, !Z.add_0_r, Hf, lookup_insert_eq by lia. done.
    + replace (dst + 8 * k) with (dst + 8 + 8 * (k - 1)) by lia. rewrite Hc by lia.
      replace (src + 8 + 8 * (k - 1)) with (src + 8 * k) by lia. by rewrite lookup_insert_ne by lia.
  - intros a Ha. rewrite Hf, lookup_insert_ne; [done| |].
    + intros ->. apply (Ha 0); lia.
    + intros k Hk' ->. apply (Ha (k + 1)); lia.
  - intros a Ha. apply Hk. by apply insert_is_Some.
Qed.

(** ** Addresses *)

Section move.
Context (c : kv_cache) (slabs : list Z) (m0 : mem) (Hsi : slabs_inv c m0 slabs).

Lemma obj_bounds x : x ∈ soos c slabs ->
  exists s, s ∈ slabs /\ s <= SOO_OBJ x /\ SOO_OBJ x + obj_size c <= s + slab_page c * 4096 /\
    0 < SOO_OBJ x /\ SOO_OBJ x mod 8 = 0.
Proof.
  intros Hx. destruct (soo_in_slab _ _ _ _ Hsi Hx) as (Hs & ? & ? & ?).
  destruct (soo_facts _ _ _ _ Hsi Hx) as (_ & _ & ? & _).
  pose proof (si_ok _ _ _ Hsi) as Hok. rewrite Forall_forall in Hok.
  destruct (Hok _ Hs) as (_ & ? & _). exists (soo_slab x). split_and!; try done; lia.
Qed.

Lemma outside_obj a x o :
  outside c slabs a -> x ∈ soos c slabs -> 0 <= o < obj_size c -> a <> SOO_OBJ x + o.
Proof.
  intros Ha Hx Ho. destruct (obj_bounds x Hx) as (s & Hs & ? & ? & _). specialize (Ha s Hs). lia.
Qed.

Lemma objs_apart x y o o' :
  x ∈ soos c slabs -> y ∈ soos c slabs -> 0 <= o < obj_size c -> 0 <= o' < obj_size c ->
  SOO_OBJ x + o = SOO_OBJ y + o' -> x = y /\ o = o'.
Proof.
  intros Hx Hy Ho Ho' E. destruct (decide (x = y)) as [->|Hne]; [split; [done|lia]|].
  destruct (soos_sep _ _ _ _ _ Hsi Hx Hy Hne); lia.
Qed.

Lemma addr_inj p H l l' :
  fits c slabs p H -> is_Some (H !! l) -> is_Some (H !! l') -> address p l = address p l' -> l = l'.
Proof.
  intros Hf Hl Hl' E. destruct l as [a|i o], l' as [a'|i' o']; cbn in E.
  - by subst.
  - apply (f_fix _ _ _ _ Hf) in Hl as (_ & _ & Ha).
    apply (f_in _ _ _ _ Hf) in Hl' as ([x Hx] & ? & _). unfold soo_at in E. rewrite Hx in E.
    by destruct (outside_obj a x o' Ha (f_soo _ _ _ _ Hf _ _ Hx)).
  - apply (f_fix _ _ _ _ Hf) in Hl' as (_ & _ & Ha).
    apply (f_in _ _ _ _ Hf) in Hl as ([x Hx] & ? & _). unfold soo_at in E. rewrite Hx in E.
    by destruct (outside_obj a' x o Ha (f_soo _ _ _ _ Hf _ _ Hx)).
  - apply (f_in _ _ _ _ Hf) in Hl as ([x Hx] & ? & _).
    apply (f_in _ _ _ _ Hf) in Hl' as ([x' Hx'] & ? & _). unfold soo_at in E.
    rewrite Hx, Hx' in E.
    destruct (objs_apart x x' o o') as [-> ->]; try done; try by eapply f_soo.
    f_equal. by eapply f_inj.
Qed.

Lemma addr_nonzero p H l : fits c slabs p H -> is_Some (H !! l) -> address p l <> 0.
Proof.
  intros Hf Hl. destruct l as [a|j o].
  - apply (f_fix _ _ _ _ Hf) in Hl as (? & _). cbn. lia.
  - apply (f_in _ _ _ _ Hf) in Hl as ([z Hz] & ? & _).
    pose proof (f_soo _ _ _ _ Hf _ _ Hz) as Hzs. cbn. unfold soo_at. rewrite Hz. cbn.
    destruct (obj_bounds z Hzs) as (_ & _ & _ & _ & ? & _). lia.
Qed.

Lemma addr_shift p l k : address p (shift l k) = address p l + k.
Proof. destruct l; cbn; lia. Qed.

(** ** One object moves *)

Context (H : heap) (p : places) (i x y : Z).
Context (Hfit : fits c slabs p H) (Hx : p !! i = Some x) (Hy : y ∈ soos c slabs)
  (Hfree : forall j, p !! j <> Some y).

Abbreviation p' := (<[i := y]> p).

Lemma fits_moved : fits c slabs p' H.
Proof.
  split.
  - intros j z [[<- <-]|[_ Hj]]%lookup_insert_Some; [done|by eapply f_soo].
  - intros j k z [[<- <-]|[? Hj]]%lookup_insert_Some [[<- E]|[? Hk]]%lookup_insert_Some;
      [done|by destruct (Hfree k)|subst; by destruct (Hfree j)|by eapply f_inj].
  - apply Hfit.
  - intros j o. rewrite (f_in _ _ _ _ Hfit), lookup_insert_is_Some'. split; [tauto|].
    intros ([->|?] & ?); [split; [by rewrite Hx|tauto]|tauto].
Qed.

Lemma addr_same l : elsewhere i l -> address p' l = address p l.
Proof.
  destruct l as [|j o]; [done|]. cbn. intros Hj. unfold soo_at. by rewrite lookup_insert_ne.
Qed.

Lemma bits_same v : ~ mentions i v -> bits p' v = bits p v.
Proof.
  destruct v as [l|j|]; cbn; [|intros Hj; unfold soo_at; by rewrite lookup_insert_ne|done].
  intros Hl. apply addr_same. by destruct l.
Qed.

Lemma addr_moved o : address p' (In i o) = SOO_OBJ y + o.
Proof. cbn. unfold soo_at. by rewrite lookup_insert_eq. Qed.

(** The copy is in place, and of the words that point to the object those in
    [D] are repaired. *)
Definition mixed (D : list loc) (m : mem) : Prop :=
  forall l v, H !! l = Some v ->
    m !! address p' l = Some (bits (if decide (l ∈ D) then p' else p) v).

(** Nothing is written but words of the heap. *)
Definition aside (m m' : mem) : Prop :=
  (forall a, (forall l, is_Some (H !! l) -> a <> address p' l) -> m' !! a = m !! a) /\
  (forall a, is_Some (m !! a) -> is_Some (m' !! a)).

Lemma aside_refl m : aside m m.
Proof. done. Qed.
Lemma aside_trans m1 m2 m3 : aside m1 m2 -> aside m2 m3 -> aside m1 m3.
Proof. intros [H1 H2] [H3 H4]. split; [|eauto]. intros a Ha. by rewrite H3, H1. Qed.

Lemma mixed_load D m l v :
  mixed D m -> H !! l = Some v -> ~ mentions i v -> load m (address p' l) = Some (bits p' v).
Proof.
  intros Hm Hl Hv. unfold load. rewrite (Hm _ _ Hl). case_decide; [done|]. by rewrite bits_same.
Qed.

Lemma mixed_store D m l v :
  mixed D m -> H !! l = Some v ->
  exists m', store m (address p' l) (bits p' v) = Some m' /\ mixed (l :: D) m' /\ aside m m'.
Proof.
  intros Hm Hl. exists (<[address p' l := bits p' v]> m). split.
  { apply store_eq. by rewrite (Hm _ _ Hl). }
  split.
  - intros l' v' Hl'. destruct (decide (l' = l)) as [->|Hne].
    + rewrite lookup_insert_eq, decide_True by set_solver. by simplify_eq.
    + rewrite lookup_insert_ne.
      2: { intros E. apply Hne. apply (addr_inj p' H); [apply fits_moved|by eauto|by eauto|done]. }
      rewrite (Hm _ _ Hl'). by rewrite (decide_ext (l' ∈ D) (l' ∈ l :: D)) by set_solver.
  - split; [|intros a; apply insert_is_Some]. intros a Ha. rewrite lookup_insert_ne; [done|].
    intros E. apply (Ha l); [by rewrite Hl|done].
Qed.

Lemma mixed_done D m : mixed D m -> only H i D -> represents m p' H.
Proof.
  intros Hm Ho l v Hl. rewrite (Hm _ _ Hl). destruct (decide (mentions i v)) as [Hv|Hv].
  - by rewrite decide_True by (by eapply Ho).
  - case_decide; [done|]. by rewrite bits_same.
Qed.

(** The copy. *)
Lemma copy_mixed m :
  represents m p H -> (forall a, is_Some (m0 !! a) -> is_Some (m !! a)) ->
  exists m', copy_words m (SOO_OBJ y) (SOO_OBJ x) (Z.to_nat (obj_size c / 8)) = Some m' /\
    mixed [] m' /\ aside m m' /\ m' !! SOO_OBJ x = m !! SOO_OBJ x.
Proof.
  intros Hr Hmap. pose proof (si_geom _ _ _ Hsi) as (? & Hs8 & _).
  pose proof (f_soo _ _ _ _ Hfit _ _ Hx) as Hxs.
  assert (x <> y) as Hxy by (intros ->; by destruct (Hfree i)).
  assert (obj_size c = 8 * (obj_size c / 8)) as Hsz by (pose proof (Z.div_mod (obj_size c) 8); lia).
  pose proof (soos_sep _ _ _ _ _ Hsi Hxs Hy Hxy) as Hsep.
  assert (forall z k, z ∈ soos c slabs -> 0 <= k < obj_size c / 8 -> is_Some (m !! (SOO_OBJ z + 8 * k))) as Hmp.
  { intros z k Hz Hk. apply Hmap. apply (soo_mapped c m0 slabs z); [done|done|lia|].
    by rewrite Z.mul_comm, Z.mod_mul. }
  destruct (copy_words_ok (Z.to_nat (obj_size c / 8)) m (SOO_OBJ y) (SOO_OBJ x))
    as (m' & E & Hc & Hf & Hk); [lia|intros k Hk; split; apply Hmp; (done || lia)|].
  assert (forall a, (forall o, 0 <= o < obj_size c -> a <> SOO_OBJ y + o) -> m' !! a = m !! a) as Hf'.
  { intros a Ha. apply Hf. intros k Hk'. apply Ha. lia. }
  exists m'. split_and!; [done| | |].
  - intros l v Hl. rewrite decide_False by set_solver. rewrite <-(Hr _ _ Hl).
    destruct l as [a|j o].
    + cbn. apply Hf'. intros o Ho. apply outside_obj; [|done|done]. by eapply f_fix; eauto.
    + destruct (proj1 (f_in _ _ _ _ Hfit j o)) as ([z Hz] & Ho & Ho8); [by rewrite Hl|].
      destruct (decide (j = i)) as [->|Hj].
      * rewrite addr_moved. cbn. unfold soo_at. rewrite Hx. cbn.
        assert (o = 8 * (o / 8)) as -> by (pose proof (Z.div_mod o 8); lia).
        apply Hc. split; [apply Z.div_pos; lia|]. rewrite Z2Nat.id by lia.
        apply Z.div_lt_upper_bound; lia.
      * rewrite addr_same by done. cbn. unfold soo_at. rewrite Hz. cbn. apply Hf'.
        intros o' Ho' E'. destruct (objs_apart z y o o') as [-> _]; try done; [by eapply f_soo|].
        by destruct (Hfree j).
  - split; [|done]. intros a Ha. apply Hf. intros k Hk' ->. apply (Ha (In i (8 * k))).
    + apply (f_in _ _ _ _ Hfit). split; [by rewrite Hx|]. split; [lia|]. by rewrite Z.mul_comm, Z.mod_mul.
    + by rewrite addr_moved.
  - apply Hf'. intros o Ho E'. destruct (objs_apart x y 0 o) as [? _]; try done; lia.
Qed.

(** ** The repair of the pointers *)

Lemma load_word {D m} (Hm : mixed D m) l v a :
  H !! l = Some v -> ~ mentions i v -> a = address p' l -> load m a = Some (bits p' v).
Proof. intros ? ? ->. by eapply mixed_load. Qed.

Lemma store_word {D m} (Hm : mixed D m) l v a w :
  H !! l = Some v -> a = address p' l -> w = bits p' v ->
  exists m', store m a w = Some m' /\ mixed (l :: D) m' /\ aside m m'.
Proof. intros ? -> ->. by apply mixed_store. Qed.

Lemma list_fix_moved D m e :
  mixed D m -> enabled_at H i e ->
  exists m', list_fix m (SOO_OBJ y + off_lru) = Some m' /\
    mixed (pl_next e :: shift (pl_prev e) 8 :: D) m' /\ aside m m'.
Proof.
  intros Hm He. destruct (e_away _ _ _ He) as (Ha1 & Ha2 & _).
  destruct (e_lru_prev _ _ _ He) as [Hp _].
  unfold list_fix.
  rewrite (load_word Hm (In i off_lru) (Ptr (pl_prev e))); [|done|by apply elsewhere_ptr|by rewrite addr_moved].
  cbn [mbind option_bind bits].
  destruct (store_word Hm (shift (pl_prev e) 8) (Ptr (In i off_lru)) (address p' (pl_prev e) + 8)
    (SOO_OBJ y + off_lru)) as (m1 & -> & Hm1 & Hs1);
    [apply He|by rewrite addr_shift|cbn [bits]; by rewrite addr_moved|].
  cbn [mbind option_bind].
  rewrite (load_word Hm1 (In i (off_lru + 8)) (Ptr (pl_next e)));
    [|apply He|by apply elsewhere_ptr|rewrite addr_moved; lia].
  cbn [mbind option_bind bits].
  destruct (store_word Hm1 (pl_next e) (Ptr (In i off_lru)) (address p' (pl_next e))
    (SOO_OBJ y + off_lru)) as (m2 & -> & Hm2 & Hs2);
    [apply He|done|cbn [bits]; by rewrite addr_moved|].
  exists m2. split_and!; [done|done|by eapply aside_trans].
Qed.

Lemma addr_pos l : is_Some (H !! l) -> address p' l <> 0.
Proof. apply addr_nonzero, fits_moved. Qed.

Lemma hlist_node_fix_moved D m e :
  mixed D m -> enabled_at H i e ->
  exists m', hlist_node_fix m (SOO_OBJ y + off_hash_node) = Some m' /\
    mixed (option_list (pl_nx e) ++ pl_slot e :: D) m' /\ aside m m'.
Proof.
  intros Hm He. destruct (e_away _ _ _ He) as (_ & _ & Ha).
  unfold hlist_node_fix.
  rewrite (load_word Hm (In i off_hash_node) (Ptr (pl_slot e)));
    [|apply He|by apply elsewhere_ptr|by rewrite addr_moved].
  cbn [mbind option_bind bits].
  destruct (store_word Hm (pl_slot e) (Ptr (In i off_hash_node)) (address p' (pl_slot e))
    (SOO_OBJ y + off_hash_node)) as (m1 & -> & Hm1 & Hs1);
    [apply He|done|cbn [bits]; by rewrite addr_moved|].
  cbn [mbind option_bind]. pose proof (e_hash_next _ _ _ He) as Hn. pose proof (e_nx _ _ _ He) as Hx'.
  destruct (pl_nx e) as [nx|].
  - destruct Hx' as [Hnx Hnx'].
    rewrite (load_word Hm1 (In i (off_hash_node + 8)) (Ptr nx));
      [|done|by apply elsewhere_ptr|rewrite addr_moved; lia].
    cbn [mbind option_bind bits]. rewrite bool_decide_false by (apply addr_pos; eauto).
    destruct (store_word Hm1 nx (Ptr (In i (off_hash_node + 8))) (address p' nx)
      (SOO_OBJ y + off_hash_node + 8)) as (m2 & -> & Hm2 & Hs2);
      [done|done|cbn [bits]; rewrite addr_moved; lia|].
    exists m2. split_and!; [done|done|by eapply aside_trans].
  - rewrite (load_word Hm1 (In i (off_hash_node + 8)) (Raw 0));
      [|done|by intros []|rewrite addr_moved; lia].
    cbn [mbind option_bind bits]. rewrite bool_decide_true by done.
    exists m1. split_and!; [done|done|done].
Qed.

Lemma repoint_moved bl : forall D m slot fuel,
  mixed D m -> borrows H i slot bl -> (length bl <= fuel)%nat ->
  exists m', repoint_borrowers m (SOO_OBJ y) (default 0 (head bl)) fuel = Some m' /\
    (exists D', D' ≡ₚ ((fun b => Fix (b + off_borrower_kv)) <$> bl) ++ D /\ mixed D' m') /\ aside m m'.
Proof.
  induction bl as [|b bl IH]; intros D m slot fuel Hm Hb Hl; cbn [head default].
  { exists m. split; [by destruct fuel|]. split; [by exists D|done]. }
  destruct Hb as (Hslot & Hbm & Hkv & Hb). destruct fuel as [|fuel]; cbn [length] in Hl; [lia|].
  destruct (f_fix _ _ _ _ Hfit _ Hbm) as (Hpos & _ & _).
  cbn [repoint_borrowers option_bind]. rewrite bool_decide_false by (cbn; lia). cbn [id].
  destruct (store_word Hm (Fix (b + off_borrower_kv)) (Ptr (In i 0)) (b + off_borrower_kv) (SOO_OBJ y))
    as (m1 & -> & Hm1 & Hs1); [done|done|cbn [bits]; rewrite addr_moved; lia|].
  cbn [mbind option_bind].
  assert (load m1 (b + 8) = Some (default 0 (head bl))) as ->.
  { destruct bl as [|b' bl']; cbn [head default].
    - by apply (load_word Hm1 (Fix (b + 8)) (Raw 0)); [done|intros []|].
    - destruct Hb as (Hb & _). by apply (load_word Hm1 (Fix (b + 8)) (Ptr (Fix b'))); [done|intros []|]. }
  cbn [mbind option_bind].
  destruct (IH _ m1 (Fix (b + 8)) fuel Hm1 Hb ltac:(lia)) as (m2 & -> & (D' & HD & Hm2) & Hs2).
  exists m2. split; [done|]. split; [|by eapply aside_trans]. exists D'. split; [|done].
  rewrite HD. cbn. by rewrite Permutation_middle.
Qed.

Lemma borrows_mapped D m slot bl :
  mixed D m -> borrows H i slot bl -> NoDup bl -> (length bl <= size m)%nat.
Proof.
  intros Hm Hb Hnd. rewrite <-(size_list_to_set (C := gset Z) bl Hnd), <-size_dom.
  apply subseteq_size. intros b Hbl%elem_of_list_to_set. apply elem_of_dom.
  assert (is_Some (H !! Fix b)) as [v Hv].
  { clear Hm Hnd. revert slot Hb. induction bl as [|b' bl IH]; intros slot Hb; [set_solver|].
    destruct Hb as (_ & Hb' & _ & Hb). apply elem_of_cons in Hbl as [->|Hbl]; [done|by eapply IH]. }
  exists (bits (if decide (Fix b ∈ D) then p' else p) v). apply (Hm _ _ Hv).
Qed.

Lemma repair_lists D m e :
  mixed D m -> match e with Some e => enabled_at H i e | None => H !! In i off_enabled = Some (Raw 0) end ->
  exists m', (enabled ← load m (SOO_OBJ y + off_enabled);
      if bool_decide (enabled = 0) then Some m
      else m ← list_fix m (SOO_OBJ y + off_lru); hlist_node_fix m (SOO_OBJ y + off_hash_node)) = Some m' /\
    (exists D', D' ≡ₚ lists_slots e ++ D /\ mixed D' m') /\ aside m m'.
Proof.
  intros Hm He. destruct e as [e|].
  - destruct (e_away _ _ _ He) as (Ha & _). destruct (e_lru_prev _ _ _ He) as [Hp Hp'].
    rewrite (load_word Hm (In i off_lru) (Ptr (pl_prev e)));
      [|done|by apply elsewhere_ptr|by rewrite addr_moved].
    cbn [mbind option_bind bits]. rewrite bool_decide_false by (by apply addr_pos).
    destruct (list_fix_moved D m e Hm He) as (m1 & -> & Hm1 & Hs1). cbn [mbind option_bind].
    destruct (hlist_node_fix_moved _ m1 e Hm1 He) as (m2 & -> & Hm2 & Hs2).
    exists m2. split; [done|]. split; [|by eapply aside_trans]. eexists. split; [|exact Hm2].
    cbn [lists_slots]. solve_Permutation.
  - rewrite (load_word Hm (In i off_enabled) (Raw 0)); [|done|by intros []|by rewrite addr_moved].
    cbn [mbind option_bind bits]. rewrite bool_decide_true by done. exists m. split; [done|].
    split; [by exists D|done].
Qed.

Lemma repair_borrowers D m bl :
  mixed D m -> borrows H i (In i off_borrower_list) bl -> NoDup bl ->
  match bl with b :: _ => H !! Fix b = Some (Ptr (In i off_borrower_list)) | [] => True end ->
  exists m', (empty ← hlist_empty m (SOO_OBJ y + off_borrower_list);
      if empty : bool then Some m
      else
        first ← load m (SOO_OBJ y + off_borrower_list);
        m ← store m first (SOO_OBJ y + off_borrower_list);
        curr ← load m (SOO_OBJ y + off_borrower_list);
        repoint_borrowers m (SOO_OBJ y) curr (size m)) = Some m' /\
    (exists D', D' ≡ₚ borrow_slots bl ++ D /\ mixed D' m') /\ aside m m'.
Proof.
  intros Hm Hb Hnd Hfirst. unfold hlist_empty. destruct bl as [|b bl].
  - rewrite (load_word Hm (In i off_borrower_list) (Raw 0)); [|done|by intros []|by rewrite addr_moved].
    cbn [mbind option_bind bits]. rewrite bool_decide_true by done. exists m. split; [done|].
    split; [by exists D|done].
  - pose proof Hb as (Hslot & Hbm & _ & _). destruct (f_fix _ _ _ _ Hfit _ Hbm) as (Hpos & _).
    rewrite (load_word Hm (In i off_borrower_list) (Ptr (Fix b)));
      [|done|by intros []|by rewrite addr_moved].
    cbn [mbind option_bind bits address]. rewrite bool_decide_false by lia.
    destruct (store_word Hm (Fix b) (Ptr (In i off_borrower_list)) b (SOO_OBJ y + off_borrower_list))
      as (m1 & -> & Hm1 & Hs1); [done|done|cbn [bits]; by rewrite addr_moved|].
    cbn [mbind option_bind].
    rewrite (load_word Hm1 (In i off_borrower_list) (Ptr (Fix b)));
      [|done|by intros []|by rewrite addr_moved].
    cbn [mbind option_bind bits address].
    destruct (repoint_moved (b :: bl) _ m1 _ (size m1) Hm1 Hb) as (m2 & E & (D' & HD & Hm2) & Hs2).
    { by eapply borrows_mapped. }
    cbn [head default id] in E. rewrite E. exists m2. split; [done|].
    split; [|by eapply aside_trans]. exists D'. split; [|done]. rewrite HD. cbn [borrow_slots].
    cbn. solve_Permutation.
Qed.

Lemma mixed_perm D D' m : D ≡ₚ D' -> mixed D m -> mixed D' m.
Proof.
  intros HD Hm l v Hl. rewrite (Hm _ _ Hl). by rewrite (decide_ext (l ∈ D) (l ∈ D')) by (by rewrite HD).
Qed.

Lemma SOO_OBJ_aligned a : a mod 8 = 0 -> Z.land a (Z.lnot 7) = a.
Proof. intros Ha. change 7 with (2 ^ 3 - 1). rewrite land_lnot_ones by lia. change (2 ^ 3) with 8. lia. Qed.

(** [migrate] is a change of placement. *)
Lemma migrate_moved m :
  represents m p H -> (forall a, is_Some (m0 !! a) -> is_Some (m !! a)) -> linked H i ->
  exists m', migrate m (SOO_OBJ x) y (obj_size c) = Some m' /\ represents m' p' H /\ aside m m'.
Proof.
  intros Hr Hmap Hl. pose proof (f_soo _ _ _ _ Hfit _ _ Hx) as Hxs. unfold migrate.
  destruct (copy_mixed m Hr Hmap) as (m1 & -> & Hm1 & Hs1 & Hfirst). cbn [mbind option_bind].
  assert (forall v, H !! In i 0 = Some v -> load m1 (SOO_OBJ x) = Some (bits p v)) as Hld.
  { intros v Hv. unfold load. rewrite Hfirst, <-(Hr _ _ Hv). cbn. unfold soo_at. rewrite Hx.
    cbn. by rewrite Z.add_0_r. }
  destruct Hl as [(bl & e & H0 & Hnd & Hb & Hbf & He & Ho)|(a & H0 & Ha & Ho)].
  - rewrite (Hld _ H0). cbn [mbind option_bind bits].
    rewrite bool_decide_true by (unfold soo_at; by rewrite Hx). cbn [negb].
    destruct (store_word Hm1 (In i 0) (Soo i) (SOO_OBJ y) y) as (m2 & -> & Hm2 & Hs2);
      [done|rewrite addr_moved; lia|cbn; unfold soo_at; by rewrite lookup_insert_eq|].
    cbn [mbind option_bind].
    destruct (repair_lists _ m2 e Hm2 He) as (m3 & E3 & (D3 & HD3 & Hm3) & Hs3).
    destruct (repair_borrowers _ m3 bl Hm3 Hb Hnd Hbf) as (m4 & E4 & (D4 & HD4 & Hm4) & Hs4).
    destruct (load m2 (SOO_OBJ y + off_enabled)) as [en|]; [|done]. cbn [mbind option_bind] in E3 |- *.
    rewrite E3. cbn [mbind option_bind]. exists m4. split; [exact E4|]. split.
    + eapply mixed_done; [|exact Ho]. eapply mixed_perm; [|exact Hm4]. rewrite HD4, HD3.
      solve_Permutation.
    + eapply aside_trans; [|exact Hs4]. eapply aside_trans; [|exact Hs3]. by eapply aside_trans.
  - rewrite (Hld _ H0). cbn [mbind option_bind bits address].
    destruct (f_fix _ _ _ _ Hfit a ltac:(by rewrite Ha)) as (_ & Ha8 & Hout).
    rewrite SOO_OBJ_aligned by done. rewrite bool_decide_false.
    2: { pose proof (outside_obj a x 0 Hout Hxs). pose proof (si_geom _ _ _ Hsi) as (? & _). lia. }
    cbn [negb]. rewrite (load_word Hm1 (In i 0) (Ptr (Fix a)));
      [|done|by intros []|rewrite addr_moved; lia].
    cbn [mbind option_bind bits address]. unfold load. pose proof (Hm1 _ _ Ha) as Hma.
    rewrite decide_False in Hma by set_solver. cbn in Hma. unfold soo_at in Hma. rewrite Hx in Hma.
    cbn in Hma. rewrite Hma. cbn [mbind option_bind]. rewrite option_guard_True by done.
    cbn [mbind option_bind].
    destruct (store_word Hm1 (Fix a) (Soo i) a y) as (m2 & -> & Hm2 & Hs2);
      [done|done|cbn; unfold soo_at; by rewrite lookup_insert_eq|].
    exists m2. split; [done|]. split; [by eapply mixed_done|by eapply aside_trans].
Qed.

End move.

(** ** The objects in use *)

Definition vals (p : places) : list Z := snd <$> map_to_list p.

Lemma vals_insert p i x : p !! i = None -> vals (<[i := x]> p) ≡ₚ x :: vals p.
Proof. intros Hi. unfold vals. by rewrite map_to_list_insert. Qed.

Lemma vals_move p i x y :
  p !! i = Some x -> exists l, vals p ≡ₚ x :: l /\ vals (<[i := y]> p) ≡ₚ y :: l.
Proof.
  intros Hi. exists (vals (delete i p)). split.
  - rewrite <-(insert_delete_id p i x Hi) at 1. apply vals_insert, lookup_delete_eq.
  - rewrite <-insert_delete_eq. apply vals_insert, lookup_delete_eq.
Qed.

Lemma elem_of_vals p x : x ∈ vals p <-> exists i, p !! i = Some x.
Proof.
  unfold vals. rewrite list_elem_of_fmap. split.
  - intros ([i z] & -> & Hi%elem_of_map_to_list). by exists i.
  - intros (i & Hi). exists (i, x). by rewrite elem_of_map_to_list.
Qed.

(** ** Taking free objects *)

Section reclaim.
Context (c : kv_cache) (rm : Z).

Abbreviation rest l := (filter (fun x => soo_slab x <> rm) l).
Abbreviation gone l := (filter (fun x => soo_slab x = rm) l).

Lemma pop_outside_ok m n : forall fl soo fuel,
  fchain m soo fl -> rest fl <> [] -> (length fl <= fuel)%nat ->
  exists pre y fl' soo', fl = pre ++ y :: fl' /\ rest pre = [] /\ soo_slab y <> rm /\
    pop_outside m (set_free c n soo) rm fuel = Some (y, set_free c n soo') /\ fchain m soo' fl'.
Proof.
  induction fl as [|x fl IH]; intros soo fuel Hc Hr Hl; [done|].
  destruct fuel as [|fuel]; [cbn in Hl; lia|]. cbn [pop_outside].
  destruct (pop_cons m (set_free c n soo) x fl Hc) as (next & -> & Hc'). cbn [mbind option_bind].
  rewrite filter_cons in Hr. destruct (decide (soo_slab x = rm)) as [E|E].
  - rewrite bool_decide_true by done. rewrite decide_False in Hr by (intros ?; done).
    destruct (IH next fuel Hc' Hr) as (pre & y & fl' & soo' & -> & Hp & Hy & E' & Hc''); [cbn in Hl; lia|].
    exists (x :: pre), y, fl', soo'. split_and!; try done.
    rewrite filter_cons, decide_False by (intros ?; done). done.
  - rewrite bool_decide_false by done. exists [], x, fl, next. by split_and!.
Qed.

(** ** Cleaning the free list *)

Lemma drop_leading_ok m n : forall fl soo fuel,
  rm <> soo_slab 0 -> fchain m soo fl -> (length fl <= fuel)%nat ->
  exists soo' fl', drop_leading m (set_free c n soo) rm fuel = Some (set_free c n soo') /\
    fchain m soo' fl' /\ rest fl' = rest fl /\ (length fl' <= length fl)%nat /\ fl' ⊆ fl /\
    (NoDup fl -> NoDup fl') /\
    match fl' with [] => True | x :: _ => soo_slab x <> rm end.
Proof.
  intros fl soo fuel H0. revert soo fuel.
  induction fl as [|x fl IH]; intros soo fuel Hc Hl.
  { cbn in Hc. subst soo. exists 0, []. split_and!; try done.
    destruct fuel; cbn [drop_leading next_free_soo set_free]; by rewrite bool_decide_false. }
  pose proof Hc as (-> & _). destruct (decide (soo_slab x = rm)) as [E|E].
  - destruct fuel as [|fuel]; [cbn in Hl; lia|]. cbn [drop_leading next_free_soo set_free].
    rewrite bool_decide_true by done.
    destruct (pop_cons m (set_free c n x) x fl Hc) as (next & -> & Hc'). cbn [mbind option_bind].
    destruct (IH next fuel Hc') as (soo' & fl' & E' & Hc'' & Hr & Hl' & Hs & Hn & Hh); [cbn in Hl; lia|].
    exists soo', fl'. split_and!; try done.
    + rewrite filter_cons, decide_False by (intros ?; done). done.
    + cbn. lia.
    + set_solver.
    + intros [_ ?]%NoDup_cons. by apply Hn.
  - exists x, (x :: fl). split_and!; try done.
    destruct fuel; cbn [drop_leading next_free_soo set_free]; by rewrite bool_decide_false.
Qed.

Lemma free_soo_next_ok m x fl :
  fchain m x (x :: fl) -> exists next, free_soo_next m x = Some next /\ fchain m next fl.
Proof.
  intros (_ & _ & Hm & next & Hn & Hc). exists next. unfold free_soo_next, is_free_obj, load, off_next_free.
  rewrite Hm. cbn [mbind option_bind]. rewrite bool_decide_true by done.
  rewrite option_guard_True by done. cbn [mbind option_bind]. by rewrite Hn.
Qed.

Lemma skip_removed_ok m : forall fl soo fuel,
  fchain m soo fl -> (length fl <= fuel)%nat ->
  exists soo' fl', skip_removed m soo rm fuel = Some soo' /\ fchain m soo' fl' /\
    rest fl' = rest fl /\ (length fl' <= length fl)%nat /\ fl' ⊆ fl /\ (NoDup fl -> NoDup fl') /\
    match fl' with [] => True | x :: _ => soo_slab x <> rm end.
Proof.
  induction fl as [|x fl IH]; intros soo fuel Hc Hl.
  { cbn in Hc. subst soo. exists 0, []. split_and!; try done.
    destruct fuel; cbn [skip_removed]; by rewrite bool_decide_false by naive_solver. }
  pose proof Hc as (-> & Hx0 & _). destruct (decide (soo_slab x = rm)) as [E|E].
  - destruct fuel as [|fuel]; [cbn in Hl; lia|]. cbn [skip_removed].
    rewrite bool_decide_true by done.
    destruct (free_soo_next_ok m x fl Hc) as (next & -> & Hc'). cbn [mbind option_bind].
    destruct (IH next fuel Hc') as (soo' & fl' & E' & Hc'' & Hr & Hl' & Hs & Hn & Hh); [cbn in Hl; lia|].
    exists soo', fl'. split_and!; try done.
    + rewrite filter_cons, decide_False by (intros ?; done). done.
    + cbn. lia.
    + set_solver.
    + intros [_ ?]%NoDup_cons. by apply Hn.
  - exists x, (x :: fl). split_and!; try done.
    destruct fuel; cbn [skip_removed]; by rewrite bool_decide_false by naive_solver.
Qed.

(** Only [next_free] words of free objects outside [rm] are written. *)
Lemma unlink_loop_ok inner : forall fuel m fl soo,
  (forall x y, x ∈ fl -> y ∈ fl -> x <> y ->
     SOO_OBJ x + 16 <= SOO_OBJ y \/ SOO_OBJ y + 16 <= SOO_OBJ x) ->
  fchain m soo fl -> NoDup fl -> (length fl <= fuel)%nat -> (length fl <= inner)%nat ->
  match fl with [] => True | x :: _ => soo_slab x <> rm end ->
  exists m', unlink_loop m soo rm inner fuel = Some m' /\ fchain m' soo (rest fl) /\
    (forall a, (forall x, x ∈ fl -> a <> SOO_OBJ x + 8) -> m' !! a = m !! a) /\
    (forall a, is_Some (m !! a) -> is_Some (m' !! a)).
Proof.
  induction fuel as [|fuel IH]; intros m fl soo Hsep Hc Hnd Hl Hi Hh.
  { destruct fl; cbn in Hl; [|lia]. cbn in Hc. subst soo. exists m. split_and!; done. }
  destruct fl as [|x fl]; [cbn in Hc; subst soo; exists m; split_and!; done|].
  pose proof Hc as (-> & Hx0 & Hm0 & _). cbn [unlink_loop]. rewrite bool_decide_true by done.
  destruct (free_soo_next_ok m x fl Hc) as (next & -> & Hc1). cbn [mbind option_bind].
  apply NoDup_cons in Hnd as [Hnin Hnd].
  destruct (skip_removed_ok m fl next inner Hc1) as (soo' & fl' & -> & Hc2 & Hr & Hl2 & Hs & Hn & Hh2);
    [cbn in Hi; lia|].
  cbn [mbind option_bind]. unfold free_soo_set_next, is_free_obj, load. rewrite Hm0.
  cbn [mbind option_bind]. rewrite bool_decide_true by done.
  rewrite option_guard_True by done. cbn [mbind option_bind].
  destruct Hc as (_ & _ & _ & nx & Hnx & _). unfold off_next_free. rewrite store_eq by eauto.
  cbn [mbind option_bind]. set (m1 := <[SOO_OBJ x + 8 := soo']> m).
  assert (forall z, z ∈ fl -> SOO_OBJ x + 16 <= SOO_OBJ z \/ SOO_OBJ z + 16 <= SOO_OBJ x) as Hsx.
  { intros z Hz. apply Hsep; [set_solver..|]. intros ->. done. }
  destruct (IH m1 fl' soo') as (m' & -> & Hc' & Hf & Hk).
  - intros y z Hy Hz. apply Hsep; set_solver.
  - apply (fchain_frame m); [done|]. intros z Hz. specialize (Hsx z ltac:(set_solver)).
    subst m1. split; apply lookup_insert_ne; lia.
  - by apply Hn.
  - cbn in Hl. lia.
  - cbn in Hi. lia.
  - done.
  - exists m'. split; [done|]. split_and!.
    + rewrite filter_cons, decide_True by done. rewrite <-Hr. cbn [fchain]. split_and!; try done.
      * rewrite Hf; [subst m1; by rewrite lookup_insert_ne by lia|].
        intros z Hz. specialize (Hsx z ltac:(set_solver)). lia.
      * exists soo'. split; [|done]. rewrite Hf; [subst m1; apply lookup_insert_eq|].
        intros z Hz. specialize (Hsx z ltac:(set_solver)). lia.
    + intros a Ha. rewrite Hf; [subst m1; rewrite lookup_insert_ne; [done|]|].
      * intros <-. apply (Ha x); [set_solver|done].
      * intros z Hz. apply Ha. set_solver.
    + intros a Ha. apply Hk. by apply insert_is_Some.
Qed.

(** ** Emptying a slab *)

Context (slabs slabs' : list Z) (m0 : mem) (H : heap).
Context (Hsi : slabs_inv c m0 slabs) (Hslabs : slabs ≡ₚ rm :: slabs')
  (Hlinked : forall i, is_Some (H !! In i 0) -> linked H i).

(** The [k]-th object of the slab that is given back. *)
Definition obj (k : Z) : Z := soo_of rm (rm + k * obj_size c).

Lemma obj_facts k : 0 <= k < slab_objects c ->
  obj k ∈ soos c slabs /\ SOO_OBJ (obj k) = rm + k * obj_size c /\ soo_slab (obj k) = rm.
Proof.
  intros Hk. assert (rm ∈ slabs) as Hrm by (rewrite Hslabs; left).
  pose proof (si_ok _ _ _ Hsi) as Hok. rewrite Forall_forall in Hok.
  destruct (soo_of_facts rm (rm + k * obj_size c)) as (E1 & _ & E2 & _).
  { apply slab_in_slab; [apply Hsi|by apply Hok|done]. }
  split; [|done]. apply elem_of_soos. eauto.
Qed.

Lemma obj_of x : x ∈ soos c slabs -> soo_slab x = rm ->
  exists k, 0 <= k < slab_objects c /\ x = obj k.
Proof.
  intros Hx Hs. destruct (soo_facts _ _ _ _ Hsi Hx) as (_ & _ & _ & k & Hk & E & Ex).
  exists k. split; [done|]. by rewrite Ex, E, Hs.
Qed.

Lemma soos_rest : rest (soos c slabs) ≡ₚ soos c slabs'.
Proof.
  assert (forall s x, s ∈ slabs -> x ∈ soo_of s <$> slab_objs c s -> soo_slab x = s) as Hsl.
  { intros s x Hs (o & -> & Ho)%list_elem_of_fmap.
    apply list_elem_of_fmap in Ho as (k & -> & Hk%elem_of_zrange).
    pose proof (si_ok _ _ _ Hsi) as Hok. rewrite Forall_forall in Hok.
    apply soo_of_facts, slab_in_slab; [apply Hsi|by apply Hok|lia]. }
  assert (soos c slabs ≡ₚ (soo_of rm <$> slab_objs c rm) ++ soos c slabs') as ->.
  { unfold soos. by rewrite Hslabs. }
  pose proof (si_nodup _ _ _ Hsi) as Hnd. rewrite Hslabs in Hnd. apply NoDup_cons in Hnd as [Hnin _].
  rewrite filter_app. rewrite (list_filter_all (fun x => soo_slab x <> rm) (soos c slabs')).
  2: { intros x (s & Hx & Hs)%list_elem_of_bind. rewrite (Hsl s x); [|rewrite Hslabs; by right|done].
       intros ->. done. }
  assert (rest (soo_of rm <$> slab_objs c rm) = []) as ->; [|done].
  apply list_filter_none. intros x Hx Hne. apply Hne. apply Hsl; [rewrite Hslabs; left|done].
Qed.

Record clearing (j : Z) (m : mem) (soo : Z) (fl : list Z) (p : places) : Prop := {
  cl_rep : represents m p H;
  cl_fits : fits c slabs p H;
  cl_map : forall a, is_Some (m0 !! a) -> is_Some (m !! a);
  cl_chain : fchain m soo fl;
  cl_nodup : NoDup fl;
  cl_free : forall x, x ∈ fl -> x ∈ soos c slabs /\ x ∉ vals p;
  cl_ahead : forall k, j <= k < slab_objects c ->
    obj k ∈ vals p \/ m !! SOO_OBJ (obj k) = Some 0;
  cl_behind : forall x, x ∈ vals p -> soo_slab x = rm ->
    exists k, j <= k < slab_objects c /\ x = obj k;
  cl_perm : rest fl ++ rest (vals p) ≡ₚ soos c slabs';
  cl_count : Z.of_nat (length (rest fl)) = slab_objects c + Z.of_nat (length (gone (vals p)))
}.

(** Words of objects that are not in use stay. *)
Lemma aside_unused p i y m m' z o :
  fits c slabs (<[i := y]> p) H -> aside H p i y m m' -> z ∈ soos c slabs ->
  z ∉ vals (<[i := y]> p) -> 0 <= o < obj_size c ->
  m' !! (SOO_OBJ z + o) = m !! (SOO_OBJ z + o).
Proof.
  intros Hf [Ha _] Hz Hv Ho. apply Ha. intros l Hl E. destruct l as [a|j o'].
  - destruct (f_fix _ _ _ _ Hf a Hl) as (_ & _ & Hout).
    by apply (outside_obj c slabs m0 Hsi a z o Hout Hz Ho).
  - apply (f_in _ _ _ _ Hf) in Hl as ([w Hw] & Ho' & _). cbn in E. unfold soo_at in E.
    rewrite Hw in E. cbn in E.
    destruct (objs_apart c slabs m0 Hsi z w o o') as [-> _]; try done; [by eapply f_soo|].
    apply Hv, elem_of_vals. eauto.
Qed.

Lemma first_word p m i x :
  represents m p H -> fits c slabs p H -> p !! i = Some x ->
  exists w, m !! SOO_OBJ x = Some w /\ w <> 0.
Proof.
  intros Hr Hf Hi. pose proof (si_geom _ _ _ Hsi) as (Hsz & _).
  assert (is_Some (H !! In i 0)) as Hs.
  { apply (f_in _ _ _ _ Hf). split; [by rewrite Hi|]. split; [lia|done]. }
  pose proof (soo_facts _ _ _ x Hsi (f_soo _ _ _ _ Hf _ _ Hi)) as (Hx0 & _).
  assert (forall v, H !! In i 0 = Some v -> m !! SOO_OBJ x = Some (bits p v)) as Hw.
  { intros v Hv. rewrite <-(Hr _ _ Hv). cbn. unfold soo_at. rewrite Hi. cbn. by rewrite Z.add_0_r. }
  destruct (Hlinked i Hs) as [(bl & e & H0 & _)|(a & H0 & Ha & _)].
  - exists x. split; [|done]. rewrite (Hw _ H0). cbn. unfold soo_at. by rewrite Hi.
  - exists a. split; [by rewrite (Hw _ H0)|].
    destruct (f_fix _ _ _ _ Hf a ltac:(by rewrite Ha)). lia.
Qed.

Lemma vals_nodup p : fits c slabs p H -> NoDup (vals p).
Proof.
  intros Hf. apply NoDup_fmap_2_strong; [|apply NoDup_map_to_list].
  intros [a z] [b z'] Ha%elem_of_map_to_list Hb%elem_of_map_to_list. cbn. intros <-.
  by rewrite (f_inj _ _ _ _ Hf a b z).
Qed.

Lemma obj_inj k j : 0 <= k < slab_objects c -> 0 <= j < slab_objects c -> obj k = obj j -> k = j.
Proof.
  intros Hk Hj E. destruct (obj_facts k Hk) as (_ & E1 & _), (obj_facts j Hj) as (_ & E2 & _).
  rewrite E, E2 in E1. pose proof (si_geom _ _ _ Hsi) as (? & _). nia.
Qed.

(** The object at [obj j] has moved to the free object [y] of another slab. *)
Lemma clearing_moved j m soo pre y fl' p i m' soo' :
  clearing j m soo (pre ++ y :: fl') p -> 0 <= j < slab_objects c -> p !! i = Some (obj j) ->
  rest pre = [] -> soo_slab y <> rm -> fchain m soo' fl' ->
  represents m' (<[i := y]> p) H -> fits c slabs (<[i := y]> p) H -> aside H p i y m m' ->
  clearing (j + 1) m' soo' fl' (<[i := y]> p).
Proof.
  intros [Hr Hf Hm Hc Hnd Hfr Hah Hbe Hp Hct] Hj Hi Hpre Hy Hc' Hr' Hf' Ha.
  destruct (obj_facts j Hj) as (_ & _ & Hjr). pose proof (si_geom _ _ _ Hsi) as (Hsz & _).
  destruct (vals_move p i (obj j) y Hi) as (l & Hv & Hv').
  apply NoDup_app in Hnd as (_ & _ & [Hynin Hnd]%NoDup_cons).
  assert (forall z, z ∈ vals (<[i:=y]> p) <-> z = y \/ z ∈ l) as Hev by (intros z; rewrite Hv'; set_solver).
  assert (forall z, z ∈ l -> z ∈ vals p) as Hlp by (intros z; rewrite Hv; set_solver).
  assert (obj j ∉ l) as Hjl by (pose proof (vals_nodup p Hf) as Hvn; rewrite Hv in Hvn;
    by apply NoDup_cons in Hvn as [? _]).
  assert (forall z, z ∈ soos c slabs -> z ∉ vals (<[i:=y]> p) -> m' !! SOO_OBJ z = m !! SOO_OBJ z) as Hkeep.
  { intros z Hz Hzv. pose proof (aside_unused p i y m m' z 0 Hf' Ha Hz Hzv ltac:(lia)) as E0.
    by rewrite Z.add_0_r in E0. }
  assert (forall z, z ∈ fl' -> z ∈ soos c slabs /\ z ∉ vals (<[i:=y]> p)) as Hfr'.
  { intros z Hz. destruct (Hfr z ltac:(set_solver)) as [Hzs Hzv]. split; [done|].
    rewrite Hev. intros [->|?]; [done|auto]. }
  split; try done.
  - intros a Ha'. apply Ha. by apply Hm.
  - apply (fchain_frame m); [done|]. intros z Hz. destruct (Hfr' z Hz) as [Hzs Hzv].
    split; [by apply Hkeep|]. apply (aside_unused p i y); try done. lia.
  - intros k Hk. destruct (obj_facts k ltac:(lia)) as (Hks & _ & Hkr).
    destruct (Hah k ltac:(lia)) as [Hin|Hz].
    + left. apply Hev. right. rewrite Hv in Hin. apply elem_of_cons in Hin as [E|?]; [|done].
      apply obj_inj in E; lia.
    + destruct (decide (obj k ∈ vals (<[i:=y]> p))); [by left|right]. by rewrite Hkeep.
  - intros z Hz Hzr. rewrite Hev in Hz. destruct Hz as [->|Hz]; [done|].
    destruct (Hbe z (Hlp z Hz) Hzr) as (k & Hk & ->). exists k. split; [|done].
    assert (k <> j) by (intros ->; done). lia.
  - rewrite filter_app, Hpre, filter_cons, decide_True in Hp by done. rewrite Hv, filter_cons in Hp.
    rewrite decide_False in Hp by (intros ?; done).
    rewrite Hv', filter_cons, decide_True by done. rewrite <-Hp. cbn. by rewrite Permutation_middle.
  - rewrite filter_app, Hpre, filter_cons, decide_True in Hct by done. rewrite Hv, filter_cons in Hct.
    rewrite decide_True in Hct by done. rewrite Hv', filter_cons, decide_False by done.
    cbn in Hct. lia.
Qed.

Lemma clear_move j m soo fl p i n :
  clearing j m soo fl p -> 0 <= j < slab_objects c -> p !! i = Some (obj j) ->
  (length fl <= n)%nat ->
  exists m' soo' fl' y,
    ('(s, c') ← pop_outside m (set_free c (Z.of_nat n) soo) rm (free_fuel (set_free c (Z.of_nat n) soo));
     m' ← migrate m (SOO_OBJ (obj j)) s (obj_size c'); Some (m', c')) =
      Some (m', set_free c (Z.of_nat n) soo') /\
    clearing (j + 1) m' soo' fl' (<[i := y]> p) /\ (length fl' <= length fl)%nat.
Proof.
  intros Hcl Hj Hi Hn. pose proof Hcl as [Hr Hf Hm Hc Hnd Hfr _ _ _ Hct].
  assert (rest fl <> []) as Hne by (intros E; rewrite E in Hct; cbn in Hct; lia).
  destruct (pop_outside_ok m (Z.of_nat n) fl soo (free_fuel (set_free c (Z.of_nat n) soo)) Hc Hne)
    as (pre & y & fl' & soo' & -> & Hpre & Hy & -> & Hc'); [cbn; unfold free_fuel; cbn; lia|].
  cbn [mbind option_bind]. destruct (Hfr y ltac:(set_solver)) as [Hys Hyv].
  assert (forall k, p !! k <> Some y) as Hfree.
  { intros k Hk. apply Hyv, elem_of_vals. eauto. }
  destruct (migrate_moved c slabs m0 Hsi H p i (obj j) y Hf Hi Hys Hfree m Hr Hm) as (m' & E & Hr' & Ha).
  { apply Hlinked. apply (f_in _ _ _ _ Hf). split; [by rewrite Hi|].
    pose proof (si_geom _ _ _ Hsi) as (? & _). split; [lia|done]. }
  cbn [obj_size set_free]. rewrite E. cbn [mbind option_bind].
  pose proof (fits_moved c slabs H p i (obj j) y Hf Hi Hys Hfree) as Hf'.
  exists m', soo', fl', y. split; [done|]. split; [|rewrite length_app; cbn; lia].
  by eapply clearing_moved.
Qed.

Lemma clear_skip j m soo fl p :
  clearing j m soo fl p -> obj j ∉ vals p -> clearing (j + 1) m soo fl p.
Proof.
  intros [Hr Hf Hm Hc Hnd Hfr Hah Hbe Hp Hct] Hj. split; try done.
  - intros k Hk. apply Hah. lia.
  - intros x Hx Hxr. destruct (Hbe x Hx Hxr) as (k & Hk & ->). exists k. split; [|done].
    assert (k <> j) by (intros ->; done). lia.
Qed.

Lemma clear_loop_ok n k : forall j m soo fl p,
  clearing j m soo fl p -> 0 <= j -> j + Z.of_nat k = slab_objects c -> (length fl <= n)%nat ->
  exists m' soo' fl' p',
    clear_slab_loop m (set_free c (Z.of_nat n) soo) rm (rm + j * obj_size c) k =
      Some (m', set_free c (Z.of_nat n) soo') /\
    clearing (slab_objects c) m' soo' fl' p' /\ dom p' = dom p /\ (length fl' <= n)%nat.
Proof.
  induction k as [|k IH]; intros j m soo fl p Hcl Hj Hk Hn.
  { replace (slab_objects c) with j by lia. by exists m, soo, fl, p. }
  cbn [clear_slab_loop]. assert (0 <= j < slab_objects c) as Hj' by lia.
  destruct (obj_facts j Hj') as (_ & Ho & _). rewrite <-Ho. unfold is_free_obj, load.
  assert (SOO_OBJ (obj j) + obj_size c = rm + (j + 1) * obj_size c) as Hnext by lia.
  destruct (decide (obj j ∈ vals p)) as [Hv|Hv].
  - pose proof Hv as (i & Hi)%elem_of_vals.
    destruct (first_word p m i (obj j) (cl_rep _ _ _ _ _ Hcl) (cl_fits _ _ _ _ _ Hcl) Hi) as (w & -> & Hw).
    cbn [mbind option_bind]. rewrite bool_decide_false by done.
    destruct (clear_move j m soo fl p i n Hcl Hj' Hi Hn) as (m1 & soo1 & fl1 & y & E & Hcl1 & Hl1).
    cbn [mbind option_bind obj_size set_free] in E |- *. rewrite E.
    cbn [mbind option_bind obj_size set_free]. rewrite Hnext.
    destruct (IH (j + 1) m1 soo1 fl1 (<[i := y]> p) Hcl1) as (m2 & soo2 & fl2 & p2 & -> & Hcl2 & Hd & Hl2);
      [lia..|].
    exists m2, soo2, fl2, p2. split_and!; try done. rewrite Hd. apply dom_insert_lookup_L. eauto.
  - destruct (cl_ahead _ _ _ _ _ Hcl j ltac:(lia)) as [?| ->]; [done|].
    cbn [mbind option_bind]. rewrite bool_decide_true by done.
    cbn [mbind option_bind obj_size set_free]. rewrite Hnext.
    apply (IH (j + 1) m soo fl p); [by apply clear_skip|lia|lia|done].
Qed.

(** What is left once the slab is empty. *)
Lemma cleared m soo fl p :
  clearing (slab_objects c) m soo fl p ->
  rest (vals p) = vals p /\ Z.of_nat (length (rest fl)) = slab_objects c.
Proof.
  intros Hcl. assert (forall x, x ∈ vals p -> soo_slab x <> rm) as Hv.
  { intros x Hx Hxr. destruct (cl_behind _ _ _ _ _ Hcl x Hx Hxr) as (k & ? & _). lia. }
  split; [by apply list_filter_all|]. rewrite (cl_count _ _ _ _ _ Hcl).
  rewrite (list_filter_none (fun x => soo_slab x = rm)) by done. cbn. lia.
Qed.

Lemma clean_ok n m soo fl p :
  clearing (slab_objects c) m soo fl p -> (length fl <= n)%nat ->
  exists m' soo', __clean_free_list m (set_free c (Z.of_nat n) soo) rm =
      Some (m', set_free c (Z.of_nat n) soo') /\
    fchain m' soo' (rest fl) /\ represents m' p H /\ (forall a, is_Some (m !! a) -> is_Some (m' !! a)).
Proof.
  intros Hcl Hn. pose proof Hcl as [Hr Hf Hm Hc Hnd Hfr _ _ _ _].
  assert (rm <> soo_slab 0) as Hrm0.
  { assert (rm ∈ slabs) as Hrm by (rewrite Hslabs; left).
    pose proof (si_ok _ _ _ Hsi) as Hok. rewrite Forall_forall in Hok.
    destruct (Hok _ Hrm) as (_ & ? & _). change (soo_slab 0) with 0. lia. }
  unfold __clean_free_list.
  destruct (drop_leading_ok m (Z.of_nat n) fl soo (free_fuel (set_free c (Z.of_nat n) soo)) Hrm0 Hc)
    as (soo' & fl' & -> & Hc' & Hrest & Hl & Hsub & Hnd' & Hh); [unfold free_fuel; cbn; lia|].
  cbn [mbind option_bind next_free_soo set_free].
  pose proof (si_geom _ _ _ Hsi) as (Hsz & _).
  destruct (unlink_loop_ok (free_fuel (set_free c (Z.of_nat n) soo')) (free_fuel (set_free c (Z.of_nat n) soo')) m fl' soo')
    as (m' & E & Hc'' & Hfr' & Hk); [|done|by apply Hnd'|unfold free_fuel; cbn; lia..|done|].
  { intros x y Hx Hy Hxy. destruct (Hfr x (Hsub _ Hx)), (Hfr y (Hsub _ Hy)).
    destruct (soos_sep _ _ _ x y Hsi); try done; lia. }
  rewrite E. cbn [mbind option_bind]. exists m', soo'. split; [done|]. split; [by rewrite <-Hrest|].
  split; [|done]. intros l v Hl'. rewrite Hfr'; [by apply Hr|]. intros z Hz E'.
  destruct (Hfr z (Hsub _ Hz)) as [Hzs Hzv]. destruct l as [a|j o].
  - destruct (f_fix _ _ _ _ Hf a ltac:(by rewrite Hl')) as (_ & _ & Hout).
    by apply (outside_obj c slabs m0 Hsi a z 8 Hout Hzs ltac:(lia)).
  - destruct (proj1 (f_in _ _ _ _ Hf j o)) as ([w Hw] & Ho & _); [by rewrite Hl'|].
    cbn in E'. unfold soo_at in E'. rewrite Hw in E'. cbn in E'.
    destruct (objs_apart c slabs m0 Hsi w z o 8) as [-> _]; try done; [by eapply f_soo|lia|].
    apply Hzv, elem_of_vals. eauto.
Qed.

Lemma unmap_out m a page b :
  b < a \/ a + page * 4096 <= b -> unmap_pages m a page !! b = m !! b.
Proof.
  intros Hb. unfold unmap_pages.
  assert (b ∉ words_at a (page_words page)) as Hn.
  { rewrite elem_of_words_at. unfold page_words. intros (k & ? & ?). lia. }
  induction (words_at a (page_words page)) as [|w l IH]; [done|]. cbn.
  rewrite lookup_delete_ne by set_solver. apply IH. set_solver.
Qed.

Lemma other_slab s a :
  s ∈ slabs' -> s <= a < s + slab_page c * 4096 -> a < rm \/ rm + slab_page c * 4096 <= a.
Proof.
  intros Hs Ha. pose proof (si_nodup _ _ _ Hsi) as Hnd. rewrite Hslabs in Hnd.
  apply NoDup_cons in Hnd as [Hnin _].
  destruct (si_apart _ _ _ Hsi s rm); [rewrite Hslabs; by right|rewrite Hslabs; left|intros ->; done|lia|lia].
Qed.

Lemma slabs_inv_unmapped m n soo :
  (forall a, is_Some (m0 !! a) -> is_Some (m !! a)) ->
  slabs_inv (set_free c n soo) (unmap_pages m rm (slab_page c)) slabs'.
Proof.
  intros Hm. pose proof Hsi as [Hg Hok Hnd Hap Hmp]. apply slabs_inv_set_free. split; [done|..].
  - rewrite Hslabs in Hok. by apply Forall_cons in Hok as [_ ?].
  - rewrite Hslabs in Hnd. by apply NoDup_cons in Hnd as [_ ?].
  - intros s s' Hs Hs'. apply Hap; rewrite Hslabs; by right.
  - intros s k Hs Hk. rewrite unmap_out; [|by apply (other_slab s); [done|lia]].
    apply Hm, Hmp; [rewrite Hslabs; by right|done].
Qed.

Lemma length_soos l : length (soos c l) = (Z.to_nat (slab_objects c) * length l)%nat.
Proof.
  unfold soos. induction l as [|s l IH]; [cbn; lia|]. cbn [mbind list_bind].
  rewrite length_app, IH. unfold slab_objs, zrange. rewrite !length_fmap, length_seq. cbn. lia.
Qed.

Lemma fchain_free m soo fl x : fchain m soo fl -> x ∈ fl -> m !! SOO_OBJ x = Some 0.
Proof.
  revert soo. induction fl as [|z fl IH]; intros soo Hc Hx; [set_solver|].
  destruct Hc as (_ & _ & Hz & next & _ & Hc). apply elem_of_cons in Hx as [->|Hx]; [done|by eapply IH].
Qed.

Lemma clearing_start soo next fl p :
  represents m0 p H -> fits c slabs p H -> fchain m0 next fl -> m0 !! SOO_OBJ soo = Some 0 ->
  (soo :: fl) ++ vals p ≡ₚ soos c slabs -> soo_slab soo = rm ->
  Z.of_nat (length (soo :: fl)) = 2 * slab_objects c -> clearing 0 m0 next fl p.
Proof.
  intros Hr Hf Hc Hz Hp Hrm Hl. pose proof (soos_nodup _ _ _ Hsi) as Hnd. rewrite <-Hp in Hnd.
  apply NoDup_app in Hnd as ([_ Hnd]%NoDup_cons & Hdis & _).
  assert (rest fl ++ rest (vals p) ≡ₚ soos c slabs') as Hrest.
  { rewrite <-soos_rest, <-Hp. rewrite <-filter_app. cbn [app]. rewrite filter_cons.
    by rewrite decide_False by (intros ?; done). }
  split; try done.
  - intros x Hx. split; [rewrite <-Hp; set_solver|]. apply Hdis. by right.
  - intros k Hk. destruct (obj_facts k ltac:(lia)) as (Hk' & _). rewrite <-Hp in Hk'.
    apply elem_of_app in Hk' as [Hk'|?]; [right|by left].
    apply elem_of_cons in Hk' as [->|Hk']; [done|]. by eapply fchain_free.
  - intros x Hx Hxr. apply obj_of; [|done]. rewrite <-Hp. set_solver.
  - pose proof (filter_app_complement (fun x => soo_slab x = rm) (vals p)) as Hv.
    apply Permutation_length in Hv, Hrest, Hp. rewrite !length_app, !length_soos in *.
    rewrite (Permutation_length Hslabs) in Hp. cbn [length] in *.
    pose proof (si_geom _ _ _ Hsi) as (_ & _ & ? & _). lia.
Qed.

Lemma represents_unmapped m p :
  represents m p H -> fits c slabs p H -> rest (vals p) = vals p ->
  represents (unmap_pages m rm (slab_page c)) p H /\ fits c slabs' p H.
Proof.
  intros Hr Hf Hv. assert (forall i x, p !! i = Some x -> x ∈ soos c slabs') as Hp.
  { intros i x Hi. rewrite <-soos_rest. apply list_elem_of_filter. split; [|by eapply f_soo].
    assert (x ∈ vals p) as Hx by (apply elem_of_vals; eauto). rewrite <-Hv in Hx.
    by apply list_elem_of_filter in Hx as [? _]. }
  split.
  - intros l v Hl. rewrite unmap_out; [by apply Hr|]. destruct l as [a|i o].
    + destruct (f_fix _ _ _ _ Hf a ltac:(by rewrite Hl)) as (_ & _ & Hout).
      apply Hout. rewrite Hslabs. left.
    + destruct (proj1 (f_in _ _ _ _ Hf i o)) as ([x Hx] & Ho & _); [by rewrite Hl|].
      cbn. unfold soo_at. rewrite Hx. cbn. pose proof (Hp i x Hx) as (s & k & Hs & Hk & ->)%elem_of_soos.
      apply (other_slab s); [done|]. pose proof (si_geom _ _ _ Hsi) as Hg.
      pose proof (si_ok _ _ _ Hsi) as Hok. rewrite Forall_forall in Hok.
      destruct (soo_of_facts s (s + k * obj_size c)) as (-> & _).
      { apply slab_in_slab; [done|apply Hok; rewrite Hslabs; by right|done]. }
      pose proof (geom_obj c k Hg Hk). lia.
  - split; [done|apply Hf| |apply Hf]. intros a Ha. destruct (f_fix _ _ _ _ Hf a Ha) as (? & ? & Hout).
    split_and!; try done. intros s Hs. apply Hout. rewrite Hslabs. by right.
Qed.

Lemma unmap_in m a page k :
  0 <= k < 512 * page -> unmap_pages m a page !! (a + 8 * k) = None.
Proof.
  intros Hk. unfold unmap_pages.
  assert (a + 8 * k ∈ words_at a (page_words page)) as Hw.
  { apply elem_of_words_at. unfold page_words. exists k. split; [lia|done]. }
  induction (words_at a (page_words page)) as [|w l IH]; [set_solver|]. cbn.
  apply lookup_delete_None. apply elem_of_cons in Hw as [->|Hw]; [by left|right; by apply IH].
Qed.

Lemma unmap_objs m x o :
  x ∈ soos c slabs' -> 0 <= o < obj_size c ->
  unmap_pages m rm (slab_page c) !! (SOO_OBJ x + o) = m !! (SOO_OBJ x + o).
Proof.
  intros (s & k & Hs & Hk & ->)%elem_of_soos Ho. apply unmap_out, (other_slab s); [done|].
  pose proof (si_ok _ _ _ Hsi) as Hok. rewrite Forall_forall in Hok.
  destruct (soo_of_facts s (s + k * obj_size c)) as (-> & _).
  { apply slab_in_slab; [apply Hsi|apply Hok; rewrite Hslabs; by right|done]. }
  pose proof (geom_obj c k (si_geom _ _ _ Hsi) Hk). lia.
Qed.

Lemma unmap_first m x :
  x ∈ soos c slabs' -> unmap_pages m rm (slab_page c) !! SOO_OBJ x = m !! SOO_OBJ x.
Proof.
  intros Hx. pose proof (si_geom _ _ _ Hsi) as (Hsz & _).
  pose proof (unmap_objs m x 0 Hx ltac:(lia)) as E. by rewrite Z.add_0_r in E.
Qed.

(** The cache after the slab is gone. *)
Lemma cache_inv_unmapped m1 m2 soo1 soo2 fl p :
  clearing (slab_objects c) m1 soo1 fl p -> fchain m2 soo2 (rest fl) -> represents m2 p H ->
  (forall a, is_Some (m1 !! a) -> is_Some (m2 !! a)) ->
  cache_inv (set_free c (slab_objects c) soo2) (unmap_pages m2 rm (slab_page c)) slabs'
    (rest fl) (vals p).
Proof.
  intros Hcl Hc Hr Hk. destruct (cleared _ _ _ _ Hcl) as [Hv Hn].
  pose proof (si_geom _ _ _ Hsi) as (Hsz & _ & Hs0 & _).
  assert (forall x, x ∈ rest fl ++ vals p -> x ∈ soos c slabs') as Hin.
  { intros x. rewrite <-(cl_perm _ _ _ _ _ Hcl), Hv. done. }
  split; cbn [next_free_soo free_objects slab_objects set_free].
  - apply slabs_inv_unmapped. intros a Ha. by apply Hk, (cl_map _ _ _ _ _ Hcl).
  - rewrite <-Hv at 1. apply Hcl.
  - apply (fchain_frame m2); [done|]. intros x Hx.
    split; [apply unmap_first|apply unmap_objs; [|lia]]; apply Hin; set_solver.
  - lia.
  - lia.
  - intros x Hx. pose proof Hx as (i & Hi)%elem_of_vals.
    destruct (first_word p m2 i x Hr (cl_fits _ _ _ _ _ Hcl) Hi) as (w & Hw & Hw0).
    exists w. split; [|done]. rewrite unmap_first; [done|]. apply Hin. set_solver.
Qed.

Lemma reclaim_slab_ok munmap mm soo fl p :
  represents m0 p H -> fits c slabs p H -> fchain m0 soo (soo :: fl) ->
  (soo :: fl) ++ vals p ≡ₚ soos c slabs -> soo_slab soo = rm ->
  Z.of_nat (length (soo :: fl)) = 2 * slab_objects c ->
  munmap rm (sys_len (slab_page c)) = true ->
  exists m' c' p' fl' mm',
    reclaim_slab munmap m0 (set_free c (2 * slab_objects c) soo) mm = Some (m', c', mm') /\
    cache_inv c' m' slabs' fl' (vals p') /\ represents m' p' H /\ fits c slabs' p' H /\
    dom p' = dom p /\ c' = set_free c (slab_objects c) (next_free_soo c') /\
    (forall k, 0 <= k < 512 * slab_page c -> m' !! (rm + 8 * k) = None) /\
    mm' = {| free_pages := u64 (free_pages mm + slab_page c) |}.
Proof.
  intros Hr Hf Hc Hp Hrm Hl Hmun. pose proof (si_geom _ _ _ Hsi) as (_ & _ & Hs0 & _).
  unfold reclaim_slab. rewrite <-Hl.
  destruct (pop_cons m0 (set_free c (Z.of_nat (length (soo :: fl))) soo) soo fl Hc) as (next & -> & Hc').
  cbn [mbind option_bind]. rewrite Hrm.
  set (n := length (soo :: fl)) in *.
  change (set_free (set_free c (Z.of_nat n) soo) _ next) with (set_free c (Z.of_nat n) next).
  assert (m0 !! SOO_OBJ soo = Some 0) as Hz by (eapply fchain_free; [exact Hc|left]).
  pose proof (clearing_start soo next fl p Hr Hf Hc' Hz Hp Hrm Hl) as Hcl.
  unfold __clear_slab. change (slab_objects (set_free c (Z.of_nat n) next)) with (slab_objects c).
  destruct (clear_loop_ok n (Z.to_nat (slab_objects c)) 0 m0 next fl p Hcl)
    as (m1 & soo1 & fl1 & p1 & E1 & Hcl1 & Hd & Hl1); [lia|lia|unfold n; cbn; lia|].
  rewrite Z.mul_0_l, Z.add_0_r in E1. rewrite E1. cbn [mbind option_bind].
  destruct (cleared m1 soo1 fl1 p1 Hcl1) as [Hv1 Hn1].
  destruct (clean_ok n m1 soo1 fl1 p1 Hcl1 Hl1) as (m2 & soo2 & -> & Hc2 & Hr2 & Hk2).
  cbn [mbind option_bind slab_page slab_objects free_objects next_free_soo set_free].
  unfold memory_free, sys_free. rewrite option_guard_True by done. cbn [mbind option_bind].
  rewrite option_guard_True by (rewrite Hl, Z.shiftl_mul_pow2 by lia; lia). cbn [mbind option_bind].
  destruct (represents_unmapped m2 p1 Hr2 (cl_fits _ _ _ _ _ Hcl1) Hv1) as [Hr3 Hf3].
  eexists _, _, p1, (rest fl1), _. split; [done|]. split_and!; try done.
  - by eapply cache_inv_unmapped.
  - apply unmap_in.
Qed.

End reclaim.

(** ** Lists of the heap *)

(** The lru lists and hash chains of a heap, as Lists.v has them in memory. *)
Fixpoint heap_dseg (H : heap) (x : loc) (l : list loc) (y : loc) : Prop :=
  match l with
  | [] => H !! shift x 8 = Some (Ptr y) /\ H !! y = Some (Ptr x)
  | z :: l' => H !! shift x 8 = Some (Ptr z) /\ H !! z = Some (Ptr x) /\ heap_dseg H z l' y
  end.
Fixpoint heap_hseg (H : heap) (slot : loc) (l : list loc) : Prop :=
  match l with
  | [] => H !! slot = Some (Raw 0)
  | n :: l' => H !! slot = Some (Ptr n) /\ H !! n = Some (Ptr slot) /\ heap_hseg H (shift n 8) l'
  end.
Definition heap_cells (l : list loc) : list loc := l ++ ((fun x => shift x 8) <$> l).
Definition heap_dlist (H : heap) (head : loc) (l : list loc) : Prop :=
  NoDup (heap_cells (head :: l)) /\ heap_dseg H head l head.
Definition heap_hlist (H : heap) (head : loc) (l : list loc) : Prop :=
  NoDup (head :: heap_cells l) /\ heap_hseg H head l.

Lemma cells_addr p l : cells (address p <$> l) = address p <$> heap_cells l.
Proof.
  unfold cells, heap_cells. rewrite fmap_app, <-!list_fmap_compose. f_equal.
  apply list_fmap_ext. intros _ x _. cbn. rewrite addr_shift. lia.
Qed.

Lemma heap_dseg_represented m p H x l y :
  represents m p H -> heap_dseg H x l y -> dseg m (address p x) (address p <$> l) (address p y).
Proof.
  intros Hr. revert x. induction l as [|z l IH]; intros x; cbn [heap_dseg dseg fmap list_fmap].
  - intros [H1 H2]. rewrite <-addr_shift. by rewrite (Hr _ _ H1), (Hr _ _ H2).
  - intros (H1 & H2 & Hd). rewrite <-addr_shift. rewrite (Hr _ _ H1), (Hr _ _ H2). eauto.
Qed.

Lemma heap_dseg_cells H x l y :
  heap_dseg H x l y ->
  (forall z, z ∈ x :: l -> is_Some (H !! shift z 8)) /\ (forall z, z ∈ l ++ [y] -> is_Some (H !! z)).
Proof.
  revert x. induction l as [|z l IH]; intros x; cbn [heap_dseg].
  - intros [H1 H2]. split; intros w; [intros ->%list_elem_of_singleton|cbn; intros ->%list_elem_of_singleton]; eauto.
  - intros (H1 & H2 & Hd). destruct (IH z Hd) as [IH1 IH2].
    split; intros w; cbn; intros [->|Hw]%elem_of_cons; eauto.
Qed.

Lemma heap_hseg_represented m p H slot l :
  represents m p H -> heap_hseg H slot l -> hseg m (address p slot) (address p <$> l).
Proof.
  intros Hr. revert slot. induction l as [|n l IH]; intros slot; cbn [heap_hseg hseg fmap list_fmap].
  - intros H1. by rewrite (Hr _ _ H1).
  - intros (H1 & H2 & Hs). rewrite (Hr _ _ H1), (Hr _ _ H2). rewrite <-addr_shift. eauto.
Qed.

Lemma heap_hseg_cells H slot l :
  heap_hseg H slot l -> is_Some (H !! slot) /\
  forall z, z ∈ l -> is_Some (H !! z) /\ is_Some (H !! shift z 8).
Proof.
  revert slot. induction l as [|n l IH]; intros slot; cbn [heap_hseg].
  - intros H1. split; [by eauto|]. set_solver.
  - intros (H1 & H2 & Hs). destruct (IH _ Hs) as [IH1 IH2]. split; [by eauto|].
    intros z [->|Hz]%elem_of_cons; eauto.
Qed.

Lemma heap_dlist_represented c slabs m p H head l :
  slabs_inv c m slabs -> fits c slabs p H -> represents m p H -> heap_dlist H head l ->
  dlist m (address p head) (address p <$> l).
Proof.
  intros Hsi Hf Hr [Hnd Hd]. destruct (heap_dseg_cells _ _ _ _ Hd) as [H1 H2].
  assert (forall z, z ∈ heap_cells (head :: l) -> is_Some (H !! z)) as Hin.
  { intros z [Hz|Hz]%elem_of_app; [apply H2; set_solver|].
    apply list_elem_of_fmap in Hz as (w & -> & Hw). by apply H1. }
  unfold dlist, ring. change (address p head :: (address p <$> l)) with (address p <$> (head :: l)).
  split_and!.
  - rewrite cells_addr. apply NoDup_fmap_2_strong; [|done]. intros a b Ha Hb.
    apply (addr_inj c slabs m Hsi p H); auto.
  - intros (z & E & Hz)%list_elem_of_fmap. by apply (addr_nonzero c slabs m Hsi p H z Hf);
      [apply Hin, elem_of_app; left|].
  - by apply (heap_dseg_represented m p H).
Qed.

Lemma heap_hlist_represented c slabs m p H head l :
  slabs_inv c m slabs -> fits c slabs p H -> represents m p H -> heap_hlist H head l ->
  hlist m (address p head) (address p <$> l).
Proof.
  intros Hsi Hf Hr [Hnd Hs]. destruct (heap_hseg_cells _ _ _ Hs) as [H1 H2].
  assert (forall z, z ∈ head :: heap_cells l -> is_Some (H !! z)) as Hin.
  { intros z [->|[Hz|Hz]%elem_of_app]%elem_of_cons; [done|by apply H2|].
    apply list_elem_of_fmap in Hz as (w & -> & Hw). by apply H2. }
  unfold hlist. split_and!.
  - rewrite cells_addr. change (address p head :: (address p <$> heap_cells l)) with (address p <$> (head :: heap_cells l)).
    apply NoDup_fmap_2_strong; [|done]. intros a b Ha Hb. apply (addr_inj c slabs m Hsi p H); auto.
  - intros (z & E & Hz)%list_elem_of_fmap. by apply (addr_nonzero c slabs m Hsi p H z Hf);
      [apply Hin; right; apply elem_of_app; left|].
  - by apply heap_hseg_represented with (H := H).
Qed.

(** ** Giving an object back *)

Lemma fits_set_free c n soo slabs p H : fits c slabs p H -> fits (set_free c n soo) slabs p H.
Proof. intros []; by split. Qed.

(** The object becomes the first of the free list. *)
Lemma push_free c m slabs fl soo p H :
  cache_inv c m slabs fl (soo :: vals p) -> represents m p H -> fits c slabs p H ->
  exists m', free_obj_init m (SOO_OBJ soo) (next_free_soo c) = Some m' /\
    slabs_inv c m' slabs /\ fchain m' soo (soo :: fl) /\ represents m' p H /\
    (forall x, x ∈ vals p -> m' !! SOO_OBJ x = m !! SOO_OBJ x).
Proof.
  intros [Hsi Hp Hc Hn Hb Hl] Hr Hf. pose proof (si_geom _ _ _ Hsi) as (Hsz & _).
  assert (forall x, x ∈ fl ++ soo :: vals p -> x ∈ soos c slabs) as Hin by (intros x; by rewrite Hp).
  pose proof (Hin soo ltac:(set_solver)) as Hs.
  destruct (soo_facts _ _ _ soo Hsi Hs) as (Hs0 & _).
  pose proof (soos_nodup _ _ _ Hsi) as Hnd. rewrite <-Hp in Hnd. apply NoDup_middle in Hnd as [Hnin Hnd].
  assert (forall i, i = 0 \/ i = 8 -> is_Some (m !! (SOO_OBJ soo + i))) as Hmp.
  { intros i Hi. apply (soo_mapped c m slabs); [done|done|lia|by destruct Hi as [-> | ->]]. }
  pose proof (Hmp 0 ltac:(by left)) as Hm0. rewrite Z.add_0_r in Hm0.
  rewrite free_obj_init_ok by auto. eexists. split; [done|].
  assert (forall a, a <> SOO_OBJ soo -> a <> SOO_OBJ soo + 8 ->
    <[SOO_OBJ soo + 8 := next_free_soo c]> (<[SOO_OBJ soo := 0]> m) !! a = m !! a) as Hfr.
  { intros a H1 H2. by rewrite !lookup_insert_ne. }
  assert (forall x, x ∈ fl ++ vals p -> SOO_OBJ x + 16 <= SOO_OBJ soo \/ SOO_OBJ soo + 16 <= SOO_OBJ x) as Hsep.
  { intros x Hx. destruct (soos_sep _ _ _ x soo Hsi); [apply Hin; set_solver|done|intros ->; done|lia|lia]. }
  split_and!.
  - apply (slabs_inv_mono c m); [done|]. auto with umem.
  - cbn [fchain]. split_and!; [done|done|map_lia|]. exists (next_free_soo c). split; [map_lia|].
    apply (fchain_frame m); [done|]. intros x Hx. specialize (Hsep x ltac:(set_solver)).
    split; apply Hfr; lia.
  - intros l v Hl'. rewrite Hfr; [by apply Hr|..].
    all: destruct l as [a|i o]; cbn; [destruct (f_fix _ _ _ _ Hf a ltac:(by rewrite Hl')) as (_ & _ & Hout)|].
    + pose proof (outside_obj c slabs m Hsi a soo 0 Hout Hs). lia.
    + destruct (proj1 (f_in _ _ _ _ Hf i o)) as ([x Hx] & Ho & _); [by rewrite Hl'|].
      unfold soo_at. rewrite Hx. cbn. intros E.
      destruct (objs_apart c slabs m Hsi x soo o 0) as [-> _]; [by eapply f_soo|done|done|lia|lia|].
      apply Hnin. apply elem_of_app. right. apply elem_of_vals. eauto.
    + pose proof (outside_obj c slabs m Hsi a soo 8 Hout Hs). lia.
    + destruct (proj1 (f_in _ _ _ _ Hf i o)) as ([x Hx] & Ho & _); [by rewrite Hl'|].
      unfold soo_at. rewrite Hx. cbn. intros E.
      destruct (objs_apart c slabs m Hsi x soo o 8) as [-> _]; [by eapply f_soo|done|done|lia|lia|].
      apply Hnin. apply elem_of_app. right. apply elem_of_vals. eauto.
  - intros x Hx. specialize (Hsep x ltac:(set_solver)). apply Hfr; lia.
Qed.

Lemma kv_cache_free_ok munmap mm c m slabs fl soo p H :
  cache_inv c m slabs fl (soo :: vals p) -> represents m p H -> fits c slabs p H ->
  (forall i, is_Some (H !! In i 0) -> linked H i) ->
  (forall s, s ∈ slabs -> munmap s (sys_len (slab_page c)) = true) ->
  exists m' c' mm' slabs' fl' p',
    kv_cache_free munmap m c soo mm = Some (m', c', mm') /\
    cache_inv c' m' slabs' fl' (vals p') /\ represents m' p' H /\ fits c' slabs' p' H /\
    dom p' = dom p /\
    ((slabs' = slabs /\ p' = p /\ mm' = mm /\ free_objects c' = free_objects c + 1) \/
     (slabs ≡ₚ soo_slab soo :: slabs' /\ free_objects c' = slab_objects c /\
      free_objects c + 1 = 2 * slab_objects c /\
      (forall k, 0 <= k < 512 * slab_page c -> m' !! (soo_slab soo + 8 * k) = None) /\
      mm' = {| free_pages := u64 (free_pages mm + slab_page c) |})).
Proof.
  intros Hinv Hrep Hfits Hlinked Hmunmap.
  destruct (push_free c m slabs fl soo p H Hinv Hrep Hfits) as (m1 & E1 & Hsi & Hc & Hr & Hv).
  destruct Hinv as [Hsi0 Hp _ Hn Hb Hl]. pose proof (si_geom _ _ _ Hsi) as (_ & _ & Hs0 & _ & _ & Hs16).
  unfold kv_cache_free. rewrite E1. cbn [mbind option_bind].
  rewrite wrap_small by (change (2 ^ 16) with 65536 in *; lia).
  change (slab_objects (set_free c _ soo)) with (slab_objects c).
  change (free_objects (set_free c ?n soo)) with n. rewrite Z.shiftl_mul_pow2 by lia.
  assert ((soo :: fl) ++ vals p ≡ₚ soos c slabs) as Hp' by (rewrite <-Hp; solve_Permutation).
  case_bool_decide as Hfull.
  - assert (Z.of_nat (length (soo :: fl)) = 2 * slab_objects c) as Hlen by (cbn; lia).
    replace (free_objects c + 1) with (2 * slab_objects c) by lia.
    destruct (soo_facts _ _ _ soo Hsi) as (_ & Hss & _); [rewrite <-Hp'; left|].
    apply elem_of_Permutation in Hss as [slabs' Hslabs].
    destruct (reclaim_slab_ok c (soo_slab soo) slabs slabs' m1 H Hsi Hslabs Hlinked munmap mm soo fl p)
      as (m' & c' & p' & fl' & mm' & E & Hci & Hr' & Hf' & Hd & Hc' & Hun & Hmm); try done.
    { apply Hmunmap. rewrite Hslabs. left. }
    exists m', c', mm', slabs', fl', p'. split_and!; try done.
    + rewrite Hc'. by apply fits_set_free.
    + right. split_and!; try done. by rewrite Hc'.
  - eexists _, _, _, slabs, (soo :: fl), p. split; [done|]. split_and!; try done.
    + split; cbn [next_free_soo free_objects slab_objects set_free].
      * by apply slabs_inv_set_free.
      * done.
      * done.
      * cbn [length]. lia.
      * cbn [length]. lia.
      * intros x Hx. destruct (Hl x ltac:(by right)) as (w & Hw & ?). exists w. by rewrite Hv.
    + by apply fits_set_free.
    + left. done.
Qed.

(** ** Properties *)

(** C12: Giving an object back never faults and is transparent: the memory still
    represents the same heap of live objects, with every word of every object
    and every word that points to one, only the places of the objects may have
    changed, and every lru list and hash chain holds the same objects in the
    same order; the invariant of the cache holds again.  When two slabs' worth of
    objects are free, one slab is emptied by moving its live objects, its pages
    are unmapped and returned to the budget; otherwise nothing moves. *)
Theorem kv_cache_free_transparent munmap mm c m slabs fl soo p H
    (Hinv : cache_inv c m slabs fl (soo :: vals p)) (Hrep : represents m p H)
    (Hfits : fits c slabs p H) (Hlinked : forall i, is_Some (H !! In i 0) -> linked H i)
    (Hmunmap : forall s, s ∈ slabs -> munmap s (sys_len (slab_page c)) = true) :
  exists m' c' mm' slabs' fl' p',
    kv_cache_free munmap m c soo mm = Some (m', c', mm') /\
    cache_inv c' m' slabs' fl' (vals p') /\ represents m' p' H /\ fits c' slabs' p' H /\
    dom p' = dom p /\
    (forall head l, heap_dlist H head l ->
       dlist m (address p head) (address p <$> l) /\ dlist m' (address p' head) (address p' <$> l)) /\
    (forall head l, heap_hlist H head l ->
       hlist m (address p head) (address p <$> l) /\ hlist m' (address p' head) (address p' <$> l)) /\
    ((slabs' = slabs /\ p' = p /\ mm' = mm /\ free_objects c' = free_objects c + 1) \/
     (slabs ≡ₚ soo_slab soo :: slabs' /\ free_objects c' = slab_objects c /\
      free_objects c + 1 = 2 * slab_objects c /\
      (forall k, 0 <= k < 512 * slab_page c -> m' !! (soo_slab soo + 8 * k) = None) /\
      mm' = {| free_pages := u64 (free_pages mm + slab_page c) |})).
Proof.
  destruct (kv_cache_free_ok munmap mm c m slabs fl soo p H Hinv Hrep Hfits Hlinked Hmunmap)
    as (m' & c' & mm' & slabs' & fl' & p' & E & Hci & Hr & Hf & Hd & Hcase).
  exists m', c', mm', slabs', fl', p'. split_and!; try done.
  - intros head l Hl. split; [by eapply heap_dlist_represented; eauto using ci_slabs|].
    by eapply heap_dlist_represented; eauto using ci_slabs.
  - intros head l Hl. split; [by eapply heap_hlist_represented; eauto using ci_slabs|].
    by eapply heap_hlist_represented; eauto using ci_slabs.
Qed.

(** ** A slab that is emptied *)

(** Three slabs of two objects.  The first object of the first slab is given
    back; the second, object 1, is an enabled kv, alone on its lru list and its
    hash chain, with one borrower; object 2 is the tail of a concatenated kv in
    the second slab. *)
Definition sample_slabs : list Z := [0x10000; 0x20000; 0x30000].
Definition sample_places : places := <[1 := 0x10040]> {[2 := 0x20000]}.
Definition sample_heap : heap := list_to_map
  [(In 1 0, Soo 1); (In 1 8, Ptr (Fix 0x8020)); (In 1 16, Ptr (Fix 0x8000));
   (In 1 24, Ptr (Fix 0x8000)); (In 1 32, Raw 7); (In 1 40, Ptr (Fix 0x8010)); (In 1 48, Raw 0);
   (In 1 56, Raw 99);
   (Fix 0x8000, Ptr (In 1 16)); (Fix 0x8008, Ptr (In 1 16)); (Fix 0x8010, Ptr (In 1 40));
   (Fix 0x8020, Ptr (In 1 8)); (Fix 0x8028, Raw 0); (Fix 0x8030, Ptr (In 1 0));
   (In 2 0, Ptr (Fix 0x9000)); (In 2 8, Raw 5); (In 2 16, Raw 5); (In 2 24, Raw 5); (In 2 32, Raw 5);
   (In 2 40, Raw 5); (In 2 48, Raw 5); (In 2 56, Raw 5); (Fix 0x9000, Soo 2)].
Definition sample_cache : kv_cache :=
  {| slab_page := 1; obj_size := 64; slab_objects := 2; free_objects := 3; next_free_soo := 0x20040 |}.
Definition sample_mem : mem :=
  <[0x10000 := 1]> (<[0x20048 := 0x30000]> (<[0x30008 := 0x30040]> (<[0x30048 := 0]>
    (list_to_map ((fun lv => (address sample_places (fst lv), bits sample_places (snd lv)))
        <$> map_to_list sample_heap)
     ∪ foldr (fun s m => map_pages m s 1) ∅ sample_slabs)))).

Lemma sample_geom : geom sample_cache.
Proof. by apply geomb_ok. Qed.

Lemma sample_slab_cases s : s ∈ sample_slabs -> s = 0x10000 \/ s = 0x20000 \/ s = 0x30000.
Proof. unfold sample_slabs. rewrite !elem_of_cons, elem_of_nil. tauto. Qed.

Lemma sample_slabs_inv : slabs_inv sample_cache sample_mem sample_slabs.
Proof.
  split; [apply sample_geom|..].
  - repeat constructor; try done; vm_compute; congruence.
  - decide_now.
  - intros s s' [->|[->| ->]]%sample_slab_cases [->|[->| ->]]%sample_slab_cases Hne;
      unfold apart; cbn; lia || done.
  - intros s k Hs Hk. change (512 * slab_page sample_cache) with (Z.of_nat 512) in Hk.
    revert s Hs. revert k Hk.
    refine (forallb_zrange _ (fun k => bool_decide (Forall (fun s => is_Some (sample_mem !! (s + 8 * k))) sample_slabs)) _ _ _).
    + intros k Hk%bool_decide_eq_true s Hs. rewrite Forall_forall in Hk. by apply Hk.
    + vm_compute. reflexivity.
Qed.

Lemma sample_soos : soos sample_cache sample_slabs =
  [0x10000; 0x10040; 0x20000; 0x20040; 0x30000; 0x30040].
Proof. vm_compute. reflexivity. Qed.

Lemma sample_vals : vals sample_places ≡ₚ [0x10040; 0x20000].
Proof. vm_compute. reflexivity || apply Permutation_swap. Qed.

Lemma sample_inv : cache_inv sample_cache sample_mem sample_slabs
  [0x20040; 0x30000; 0x30040] (0x10000 :: vals sample_places).
Proof.
  split; [apply sample_slabs_inv|..].
  - rewrite sample_vals, sample_soos. solve_Permutation.
  - cbn [fchain sample_cache next_free_soo]. split_and!; [done|done|vm_compute; reflexivity|].
    exists 0x30000. split; [vm_compute; reflexivity|]. split_and!; [done|done|vm_compute; reflexivity|].
    exists 0x30040. split; [vm_compute; reflexivity|]. split_and!; [done|done|vm_compute; reflexivity|].
    exists 0. split; [vm_compute; reflexivity|done].
  - done.
  - cbn. lia.
  - intros x. rewrite sample_vals. intros Hx. set_unfold.
    destruct Hx as [->|[->|[->|[]]]]; eexists; (split; [vm_compute; reflexivity|done]).
Qed.

Lemma sample_represents : represents sample_mem sample_places sample_heap.
Proof.
  assert (map_Forall (fun l v => sample_mem !! address sample_places l = Some (bits sample_places v))
    sample_heap) as Hm; [|exact Hm].
  decide_now.
Qed.

Definition sample_entry (l : loc) (v : word) : Prop :=
  match l with
  | Fix a => 0 < a /\ a mod 8 = 0 /\ a < 0x10000
  | In i o => (i = 1 \/ i = 2) /\ 0 <= o < 64 /\ o mod 8 = 0
  end.
#[local] Instance sample_entry_dec l v : Decision (sample_entry l v).
Proof. destruct l; unfold sample_entry; apply _. Defined.

Lemma sample_fits : fits sample_cache sample_slabs sample_places sample_heap.
Proof.
  assert (map_Forall sample_entry sample_heap) as Hm by decide_now.
  assert (forall i x, sample_places !! i = Some x -> i = 1 /\ x = 0x10040 \/ i = 2 /\ x = 0x20000) as Hp.
  { intros i x. unfold sample_places.
    intros [[<- <-]|[_ [<- <-]%lookup_singleton_Some]]%lookup_insert_Some; auto. }
  split.
  - intros i x Hx. rewrite sample_soos. destruct (Hp i x Hx) as [[_ ->]|[_ ->]]; set_solver.
  - intros i j x [[-> ->]|[-> ->]]%Hp [[-> ?]|[-> ?]]%Hp; done.
  - intros a [v Hv]. destruct (Hm _ _ Hv) as (? & ? & ?). split_and!; [done|done|].
    clear Hm Hv. intros s Hs. left. apply sample_slab_cases in Hs as [->|[->| ->]]; lia.
  - intros i o. split.
    + intros [v Hv]. destruct (Hm _ _ Hv) as ([->| ->] & ? & ?); (split; [by eexists|done]).
    + intros ([x Hx] & Ho & Ho8). change (obj_size sample_cache) with 64 in Ho.
      assert (o = 8 * (o / 8)) as -> by (pose proof (Z.div_mod o 8); lia).
      assert (0 <= o / 8 < Z.of_nat 8) as Hk by (split; [apply Z.div_pos; lia|apply Z.div_lt_upper_bound; lia]).
      revert Hk. generalize (o / 8).
      refine (forallb_zrange _ (fun k => bool_decide (is_Some (sample_heap !! In i (8 * k)))) _ _ _).
      * intros k Hk. by apply bool_decide_eq_true in Hk.
      * destruct (Hp i x Hx) as [[-> _]|[-> _]]; vm_compute; reflexivity.
Qed.

Lemma sample_linked i : is_Some (sample_heap !! In i 0) -> linked sample_heap i.
Proof.
  intros Hi. apply (f_in _ _ _ _ sample_fits) in Hi as ([x Hx] & _).
  unfold sample_places in Hx. apply lookup_insert_Some in Hx as [[<- _]|[_ [<- _]%lookup_singleton_Some]].
  - left. exists [0x8020], (Some {| pl_prev := Fix 0x8000; pl_next := Fix 0x8000;
      pl_slot := Fix 0x8010; pl_nx := None |}).
    split_and!; [vm_compute; reflexivity|decide_now|vm_compute; split_and!; try done; by eexists
      |vm_compute; reflexivity| |].
    + split; try (vm_compute; reflexivity); [done|]. split; [vm_compute; reflexivity|].
      vm_compute. by eexists.
    + enough (map_Forall (fun l v => mentions 1 v -> l ∈ [In 1 0; Fix 0x8008; Fix 0x8000; Fix 0x8010;
        Fix 0x8020; Fix 0x8030]) sample_heap) as Ho by exact Ho. decide_now.
  - right. exists 0x9000. split_and!; [vm_compute; reflexivity..|].
    enough (map_Forall (fun l v => mentions 2 v -> l ∈ [Fix 0x9000]) sample_heap) as Ho by exact Ho.
    decide_now.
Qed.

Lemma kv_cache_free_transparent_witness :
  exists m' c' mm' slabs' p',
    kv_cache_free (fun _ _ => true) sample_mem sample_cache 0x10000 (memory_init 0) = Some (m', c', mm') /\
    sample_slabs ≡ₚ 0x10000 :: slabs' /\ represents m' p' sample_heap /\
    dlist m' 0x8000 [address p' (In 1 16)] /\ hlist m' 0x8010 [address p' (In 1 40)].
Proof.
  destruct (kv_cache_free_transparent (fun _ _ => true) (memory_init 0) sample_cache sample_mem sample_slabs
    [0x20040; 0x30000; 0x30040] 0x10000 sample_places sample_heap sample_inv sample_represents
    sample_fits sample_linked)
    as (m' & c' & mm' & slabs' & fl' & p' & E & _ & Hr & _ & _ & Hd & Hh & Hcase).
  - intros s _. reflexivity.
  - exists m', c', mm', slabs', p'. split; [exact E|]. split; [|split; [exact Hr|split]].
    + destruct Hcase as [(_ & _ & _ & Hf)|(Hs & _)]; [|exact Hs]. exfalso.
      assert ((fun r => free_objects (snd (fst r))) <$> kv_cache_free (fun _ _ => true) sample_mem sample_cache
        0x10000 (memory_init 0) = Some 2) as E' by (vm_compute; reflexivity).
      rewrite E in E'. cbn in E'. injection E' as E'. rewrite Hf in E'. discriminate E'.
    + apply (Hd (Fix 0x8000) [In 1 16]). split; [decide_now|].
      split; [vm_compute; reflexivity|]. split; [vm_compute; reflexivity|]. split; vm_compute; reflexivity.
    + apply (Hh (Fix 0x8010) [In 1 40]). split; [decide_now|].
      split; [vm_compute; reflexivity|]. split; vm_compute; reflexivity.
Defined.
