(* ===== verification/Machine.v ===== *)
(** * Machines of a cluster (machine.h, machine.c)

    A [struct machine] is 40 bytes: a 16-byte IPv6 address, a 2-byte port in
    network order, 2 bytes of padding (which [machines_cmp] compares and
    [machine_copy] copies), and the little-endian id, stability and version.
    The host is little-endian ([htole]/[letoh] are the identity), so the last
    three are the integers themselves.

    [memcmp], [qsort] and [bsearch] are the C library's: byte-wise comparison,
    merge sort and binary search. *)

From S2P Require Import Prelude.

Record machine := {
  sin6_addr : list Z; sin6_port : list Z; padding : list Z;
  id : Z; stability : Z; version : Z
}.

#[global] Instance machine_eq_dec : EqDecision machine.
Proof. solve_decision. Defined.

Definition MACHINE_SIZE : Z := 40.
Definition MACHINES_MIN : Z := 4.
Definition MACHINES_MAX : Z := 2 ^ 31 - 1.
Definition MACHINES_SIZE_MIN : Z := MACHINE_SIZE * MACHINES_MIN.
Definition MACHINES_SIZE_MAX : Z := MACHINE_SIZE * MACHINES_MAX.

Definition set_stability (m : machine) (s : Z) : machine :=
  {| sin6_addr := sin6_addr m; sin6_port := sin6_port m; padding := padding m;
     id := id m; stability := s; version := version m |}.
Definition set_id (m : machine) (i : Z) : machine :=
  {| sin6_addr := sin6_addr m; sin6_port := sin6_port m; padding := padding m;
     id := i; stability := stability m; version := version m |}.
Definition set_version (m : machine) (v : Z) : machine :=
  {| sin6_addr := sin6_addr m; sin6_port := sin6_port m; padding := padding m;
     id := id m; stability := stability m; version := v |}.

Definition machine_id (m : machine) : Z := id m.
Definition machine_stability (m : machine) : Z := stability m.

Definition is_power_of_2 (i : Z) : bool := Z.land i (wrap 32 (i - 1)) =? 0.

(** [size / MACHINE_SIZE] is passed as a 32-bit argument. *)
Definition machines_size_valid (size : Z) : bool :=
  (MACHINES_SIZE_MIN <=? size) && (size <=? MACHINES_SIZE_MAX) &&
  (size mod MACHINE_SIZE =? 0) && is_power_of_2 (u32 (size / MACHINE_SIZE)).

Definition stability_to_available (stability : Z) : bool := negb (Z.land stability 1 =? 0).
Definition machine_available (m : machine) : bool := stability_to_available (machine_stability m).

Definition machine_set_stability (m : machine) (available : bool) : machine :=
  let stability := machine_stability m in
  if negb (eqb (stability_to_available stability) available)
  then set_stability m (u64 (stability + 1))
  else m.

(** ** The C library's comparison, sort and search *)

Fixpoint memcmp (a b : list Z) : Z :=
  match a, b with
  | x :: a', y :: b' => if x =? y then memcmp a' b' else x - y
  | [], [] => 0
  | [], _ :: _ => -1
  | _ :: _, [] => 1
  end.

(** The 18 bytes [machine_addr_cmp] compares. *)
Definition addr (m : machine) : list Z := sin6_addr m ++ sin6_port m.

Definition machine_addr_cmp (a b : machine) : Z := memcmp (addr a) (addr b).

(** [qsort] with the comparison [cmp]. *)
Definition cmp_le {A} (cmp : A -> A -> Z) (a b : A) : Prop := cmp a b <= 0.
#[global] Instance cmp_le_dec {A} (cmp : A -> A -> Z) : RelDecision (cmp_le cmp).
Proof. intros a b. unfold cmp_le. apply _. Defined.
Definition qsort {A} (cmp : A -> A -> Z) (l : list A) : list A := merge_sort (cmp_le cmp) l.

(** [bsearch] between the indices [lo] and [hi]; the interval shrinks, so
    [hi - lo] is enough fuel.  [f x] is the comparison of the key with [x]. *)
Fixpoint bsearch_loop {A} (f : A -> Z) (l : list A) (lo hi fuel : nat) : option A :=
  match fuel with
  | O => None
  | S fuel' =>
      if (lo <? hi)%nat then
        let i := ((lo + hi) / 2)%nat in
        x ← l !! i;
        if f x <? 0 then bsearch_loop f l lo i fuel'
        else if 0 <? f x then bsearch_loop f l (S i) hi fuel'
        else Some x
      else None
  end.
Definition bsearch {A} (f : A -> Z) (l : list A) : option A :=
  bsearch_loop f l 0 (length l) (S (length l)).

Definition machines_sort_by_addr (machines : list machine) : list machine :=
  qsort machine_addr_cmp machines.

Definition machines_search_addr (key : machine) (base : list machine) : option machine :=
  bsearch (machine_addr_cmp key) base.

(** [true] when [memcmp] finds a difference in the [n] machines. *)
Definition machines_cmp (a b : list machine) : bool := negb (bool_decide (a = b)).

Fixpoint machines_find (machines : list machine) (i : Z) : option machine :=
  match machines with
  | [] => None
  | m :: machines' => if machine_id m =? i then Some m else machines_find machines' i
  end.

(** ** memcmp is a total order *)

Lemma memcmp_refl a : memcmp a a = 0.
Proof. induction a as [|x a IH]; cbn; [done|]. by rewrite Z.eqb_refl. Qed.

Lemma memcmp_eq a b : memcmp a b = 0 <-> a = b.
Proof.
  split; [|intros ->; apply memcmp_refl].
  revert b. induction a as [|x a IH]; intros [|y b]; cbn; try done.
  destruct (Z.eqb_spec x y) as [->|]; [|lia]. intros H. f_equal. by apply IH.
Qed.

Lemma memcmp_opp a b : memcmp b a = - memcmp a b.
Proof.
  revert b. induction a as [|x a IH]; intros [|y b]; cbn; try done.
  rewrite (Z.eqb_sym y x). case_match; [apply IH|lia].
Qed.

Lemma memcmp_trans a b c : memcmp a b <= 0 -> memcmp b c <= 0 -> memcmp a c <= 0.
Proof.
  revert b c. induction a as [|x a IH]; intros [|y b] [|z c]; cbn; try done; try lia.
  destruct (Z.eqb_spec x y), (Z.eqb_spec y z), (Z.eqb_spec x z); subst; try lia.
  apply IH.
Qed.

#[global] Instance addr_le_trans : Transitive (cmp_le machine_addr_cmp).
Proof. intros a b c. apply memcmp_trans. Qed.
#[global] Instance addr_le_total : Total (cmp_le machine_addr_cmp).
Proof. intros a b. unfold cmp_le, machine_addr_cmp. rewrite (memcmp_opp (addr a)). lia. Qed.

Lemma machine_addr_cmp_eq a b : machine_addr_cmp a b = 0 <-> addr a = addr b.
Proof. apply memcmp_eq. Qed.

Lemma sort_perm l : machines_sort_by_addr l ≡ₚ l.
Proof. apply merge_sort_Permutation. Qed.

Lemma sort_sorted l : StronglySorted (cmp_le machine_addr_cmp) (machines_sort_by_addr l).
Proof. apply StronglySorted_merge_sort; apply _. Qed.

(** ** Binary search *)

(** [f] is non-increasing along [l]: the list is sorted for the key. *)
Lemma bsearch_loop_some {A} (f : A -> Z) l lo hi fuel x :
  bsearch_loop f l lo hi fuel = Some x -> x ∈ l /\ f x = 0.
Proof.
  revert lo hi. induction fuel as [|fuel IH]; intros lo hi; cbn [bsearch_loop]; [done|].
  destruct (lo <? hi)%nat; [|done].
  destruct (l !! ((lo + hi) / 2)%nat) as [y|] eqn:E; cbn; [|done].
  destruct (Z.ltb_spec (f y) 0); [apply IH|]. destruct (Z.ltb_spec 0 (f y)); [apply IH|].
  intros [= <-]. split; [by eapply list_elem_of_lookup_2|lia].
Qed.

Lemma bsearch_loop_found {A} (f : A -> Z) l lo hi fuel k x :
  (forall i j a b, (i <= j)%nat -> l !! i = Some a -> l !! j = Some b ->
     (f b > 0 -> f a > 0) /\ (f a < 0 -> f b < 0)) ->
  (hi <= length l)%nat -> (hi - lo < fuel)%nat ->
  (lo <= k < hi)%nat -> l !! k = Some x -> f x = 0 ->
  is_Some (bsearch_loop f l lo hi fuel).
Proof.
  intros Hmono. revert lo hi. induction fuel as [|fuel IH]; intros lo hi Hhi Hf Hk Hx Hfx; [lia|].
  cbn [bsearch_loop]. destruct (Nat.ltb_spec lo hi); [|lia].
  assert (lo <= (lo + hi) / 2 < hi)%nat as Hm.
  { split; [apply Nat.div_le_lower_bound|apply Nat.Div0.div_lt_upper_bound]; lia. }
  revert Hm. generalize ((lo + hi) / 2)%nat. intros i Hm.
  destruct (lookup_lt_is_Some_2 l i) as [y Hy]; [lia|].
  rewrite Hy. cbn. destruct (Z.ltb_spec (f y) 0); [|destruct (Z.ltb_spec 0 (f y))].
  - apply IH; try done; [lia..|]. split; [lia|].
    destruct (Nat.le_gt_cases i k) as [Hle|?]; [|done].
    destruct (Hmono _ _ _ _ Hle Hy Hx). lia.
  - apply IH; try done; [lia..|]. split; [|lia].
    destruct (Nat.le_gt_cases k i) as [Hle|?]; [|lia].
    destruct (Hmono _ _ _ _ Hle Hx Hy). lia.
  - eauto.
Qed.

Lemma sorted_lookup {A} (cmp : A -> A -> Z) l i j a b :
  StronglySorted (cmp_le cmp) l -> (i < j)%nat -> l !! i = Some a -> l !! j = Some b ->
  cmp_le cmp a b.
Proof.
  intros Hs. revert i j. induction Hs as [|x l Hs IH Hall]; intros i j Hij Ha Hb; [done|].
  destruct j as [|j]; [lia|]. cbn in Hb. destruct i as [|i]; cbn in Ha.
  - simplify_eq. rewrite Forall_forall in Hall. apply Hall. by eapply list_elem_of_lookup_2.
  - eapply IH; [|done..]. lia.
Qed.

Lemma machines_search_addr_spec key l :
  StronglySorted (cmp_le machine_addr_cmp) l ->
  match machines_search_addr key l with
  | Some m => m ∈ l /\ addr m = addr key
  | None => addr key ∉ (addr <$> l)
  end.
Proof.
  intros Hs. unfold machines_search_addr, bsearch.
  destruct (bsearch_loop _ _ _ _ _) as [m|] eqn:E.
  - apply bsearch_loop_some in E as [? Hm%machine_addr_cmp_eq]. done.
  - intros (m & Hk & Hm)%list_elem_of_fmap. apply list_elem_of_lookup in Hm as (k & Hl).
    pose proof (lookup_lt_Some _ _ _ Hl).
    destruct (bsearch_loop_found (machine_addr_cmp key) l 0 (length l) (S (length l)) k m)
      as [? Hf]; try done; try lia.
    + intros i j a b Hij Ha Hb. destruct (decide (i = j)) as [->|]; [by simplify_eq|].
      assert (cmp_le machine_addr_cmp a b) as Hab by (eapply sorted_lookup; [done| |done..]; lia).
      unfold cmp_le, machine_addr_cmp in *.
      pose proof (memcmp_opp (addr key) (addr a)). pose proof (memcmp_opp (addr key) (addr b)).
      pose proof (memcmp_trans (addr key) (addr a) (addr b)).
      pose proof (memcmp_trans (addr a) (addr b) (addr key)).
      pose proof (memcmp_eq (addr key) (addr a)) as [He _].
      pose proof (memcmp_eq (addr key) (addr b)) as [He' _].
      pose proof (memcmp_opp (addr a) (addr b)).
      split; intros ?.
      * destruct (decide (memcmp (addr key) (addr a) = 0)) as [Z0|]; [rewrite (He Z0) in *; lia|lia].
      * destruct (decide (memcmp (addr key) (addr b) = 0)) as [Z0|]; [rewrite (He' Z0) in *; lia|lia].
    + by apply machine_addr_cmp_eq.
    + congruence.
Qed.

Lemma machines_find_some l i m :
  machines_find l i = Some m -> m ∈ l /\ machine_id m = i.
Proof.
  induction l as [|x l IH]; cbn; [done|]. destruct (Z.eqb_spec (machine_id x) i).
  - intros [= <-]. split; [left|done].
  - intros H. destruct (IH H). split; [by right|done].
Qed.

Lemma machines_find_none l i : machines_find l i = None <-> i ∉ machine_id <$> l.
Proof.
  induction l as [|x l IH]; cbn; [set_solver|]. destruct (Z.eqb_spec (machine_id x) i).
  - set_solver.
  - rewrite IH. set_solver.
Qed.

Lemma is_power_of_2_spec n :
  0 < n < 2 ^ 32 -> is_power_of_2 n = true <-> exists k, 0 <= k /\ n = 2 ^ k.
Proof.
  intros Hn. unfold is_power_of_2. rewrite wrap_small, Z.eqb_eq by lia. split.
  - intros H. exists (Z.log2 n). split; [apply Z.log2_nonneg|].
    destruct (Z.log2_spec n) as [Hlo Hhi]; [lia|].
    destruct (decide (n = 2 ^ Z.log2 n)) as [?|Hne]; [done|]. exfalso.
    assert (Z.log2 (n - 1) = Z.log2 n) as E by (apply Z.log2_unique; [apply Z.log2_nonneg|lia]).
    assert (Z.testbit (Z.land n (n - 1)) (Z.log2 n) = true) as Hb.
    { rewrite Z.land_spec, Z.bit_log2 by lia. rewrite <-E.
      assert (0 < n - 1) by (pose proof (Z.pow_pos_nonneg 2 (Z.log2 n)); pose proof (Z.log2_nonneg n); lia).
      by rewrite Z.bit_log2 by lia. }
    rewrite H, Z.bits_0 in Hb. done.
  - intros (k & Hk & ->). rewrite land_mask by lia. apply Z.mod_same.
    pose proof (Z.pow_pos_nonneg 2 k). lia.
Qed.

Lemma set_stability_facts m available :
  0 <= machine_stability m < 2 ^ 64 - 1 ->
  let m' := machine_set_stability m available in
  machine_available m' = available /\
  machine_stability m' = machine_stability m +
    (if eqb (machine_available m) available then 0 else 1) /\
  set_stability m' (machine_stability m) = m.
Proof.
  intros Hm.
  assert (forall s, 0 <= s -> stability_to_available s = Z.odd s) as Hodd.
  { intros s _. unfold stability_to_available. change 1 with (2 ^ 1 - 1).
    rewrite land_mask by lia. change (2 ^ 1) with 2. rewrite Zmod_odd. by destruct (Z.odd s). }
  destruct m as [a p d i s v]. unfold machine_set_stability, machine_available, set_stability,
    machine_stability in *. cbn in *. rewrite !(Hodd s) by lia.
  destruct (eqb (Z.odd s) available) eqn:E; cbn.
  - apply eqb_prop in E as <-. rewrite Hodd by lia. split_and!; [done|lia|done].
  - rewrite wrap_small, Hodd by lia. split_and!; [|lia|done].
    rewrite Z.odd_add. change (Z.odd 1) with true.
    by destruct (Z.odd s), available.
Qed.

(** ** Properties *)

(** A machine array is accepted exactly when it holds a power of two of
    machines, at least 4 and at most 2^30 (the 32-bit sum of two such counts
    therefore never wraps in [log_malloc_unstable]). *)
Theorem machines_size_valid_iff size (Hsize : 0 <= size < 2 ^ 64) :
  machines_size_valid size = true <-> exists k, 2 <= k <= 30 /\ size = MACHINE_SIZE * 2 ^ k.
Proof.
  unfold machines_size_valid, MACHINES_SIZE_MIN, MACHINES_SIZE_MAX, MACHINE_SIZE, MACHINES_MIN, MACHINES_MAX.
  rewrite !andb_true_iff, !Z.leb_le, Z.eqb_eq.
  pose proof (Z.div_mod size 40 ltac:(lia)) as Hdm. split.
  - intros [[[H1 H2] H3] H4]. rewrite H3 in Hdm.
    rewrite wrap_small, is_power_of_2_spec in H4 by lia.
    destruct H4 as (k & Hk & E). exists k. split; [|lia].
    assert (2 ^ 2 <= 2 ^ k < 2 ^ 31) as [Hl Hu] by lia.
    apply Z.pow_le_mono_r_iff in Hl; [|lia..]. apply Z.pow_lt_mono_r_iff in Hu; lia.
  - intros (k & Hk & ->).
    assert (2 ^ 2 <= 2 ^ k <= 2 ^ 30) by (split; apply Z.pow_le_mono_r; lia).
    replace (40 * 2 ^ k) with (2 ^ k * 40) by lia.
    rewrite Z.mod_mul, Z.div_mul by lia. rewrite wrap_small by lia.
    split_and!; [lia|lia|done|]. apply is_power_of_2_spec; [lia|]. exists k. lia.
Qed.

Lemma machines_size_valid_iff_witness :
  machines_size_valid 320 = true /\ exists k, 2 <= k <= 30 /\ 320 = MACHINE_SIZE * 2 ^ k.
Proof.
  split; [reflexivity|].
  apply (proj1 (machines_size_valid_iff 320 ltac:(split; [discriminate|reflexivity]))).
  reflexivity.
Defined.

(** On machines sorted by address the binary search finds a machine with the
    key's address if there is one, and nothing otherwise. *)
Theorem machines_search_addr_correct key l :
  match machines_search_addr key (machines_sort_by_addr l) with
  | Some m => m ∈ l /\ addr m = addr key
  | None => addr key ∉ addr <$> l
  end.
Proof.
  pose proof (machines_search_addr_spec key _ (sort_sorted l)) as H.
  destruct (machines_search_addr key (machines_sort_by_addr l)).
  - by rewrite sort_perm in H.
  - by rewrite sort_perm in H.
Qed.

(** Setting the availability of a machine leaves the stability's parity
    equal to the availability, counts one change up exactly when the
    availability changed, and touches nothing else. *)
Theorem machine_set_stability_parity m available
    (Hm : 0 <= machine_stability m < 2 ^ 64 - 1) :
  let m' := machine_set_stability m available in
  machine_available m' = available /\
  machine_stability m' = machine_stability m +
    (if eqb (machine_available m) available then 0 else 1) /\
  set_stability m' (machine_stability m) = m.
Proof. by apply set_stability_facts. Qed.

Definition machine0 : machine :=
  {| sin6_addr := repeat 0 16; sin6_port := [31; 144]; padding := [0; 0];
     id := 7; stability := 3; version := 9 |}.

Lemma machine_set_stability_parity_witness :
  machine_stability (machine_set_stability machine0 false) = 4 /\
  machine_available (machine_set_stability machine0 false) = false.
Proof.
  destruct (machine_set_stability_parity machine0 false) as (H1 & H2 & _).
  { vm_compute. split; congruence. }
  split; [rewrite H2; reflexivity|exact H1].
Defined.
