(* ===== verification/Log.v ===== *)
(** * The replicated cluster log (log.h, log.c)

    The raft log of umem-cache has one entry: the description of the cluster.
    A stable log lists the machines of the cluster; an unstable one lists the
    machines before and after a change.  [log_complete_*] turn the machines an
    administrator asked for into such an entry: they validate the request and
    hand out machine ids and versions.

    [malloc] is a parameter that returns the uninitialised block (or [None]);
    the functions write the fields the source writes. *)

From S2P Require Import Prelude Machine.

(** ** Log types *)

Definition LOG_TYPE_UNSTABLE_MASK : Z := 14.
Definition LOG_TYPE_JOINT_MASK : Z := 2.

Definition LOG_TYPE_OLD : Z := 0.
Definition LOG_TYPE_ADJUST : Z := 2.
Definition LOG_TYPE_SHRINK : Z := 6.
Definition LOG_TYPE_CHANGE_AVAILABLE : Z := 4.
Definition LOG_TYPE_GROW_COMPLETE : Z := 8.
Definition LOG_TYPE_GROW_TRANSFORM : Z := 1.
Definition LOG_TYPE_GROW : Z := 3.
Definition LOG_TYPE_GROW_CHANGE_AVAILABLE : Z := 5.

Record log := {
  refcount : Z; index : Z; term : Z; log_version : Z;
  next_machine_version : Z; next_machine_id : Z; type : Z;
  old_n : Z; new_n : Z; distinct_machines_n : Z; machines : list machine
}.

Definition sizeof_log : Z := 64.

(** [machines] split at [old_n]. *)
Definition old_machines (l : log) : list machine := take (Z.to_nat (old_n l)) (machines l).
Definition new_machines (l : log) : list machine := drop (Z.to_nat (old_n l)) (machines l).

(** Field updates. *)
Definition set_refcount (l : log) (x : Z) : log :=
  {| refcount := x; index := index l; term := term l; log_version := log_version l;
     next_machine_version := next_machine_version l; next_machine_id := next_machine_id l;
     type := type l; old_n := old_n l; new_n := new_n l;
     distinct_machines_n := distinct_machines_n l; machines := machines l |}.
Definition set_next (l : log) (ver i : Z) : log :=
  {| refcount := refcount l; index := index l; term := term l; log_version := log_version l;
     next_machine_version := ver; next_machine_id := i;
     type := type l; old_n := old_n l; new_n := new_n l;
     distinct_machines_n := distinct_machines_n l; machines := machines l |}.
Definition set_type (l : log) (x : Z) : log :=
  {| refcount := refcount l; index := index l; term := term l; log_version := log_version l;
     next_machine_version := next_machine_version l; next_machine_id := next_machine_id l;
     type := x; old_n := old_n l; new_n := new_n l;
     distinct_machines_n := distinct_machines_n l; machines := machines l |}.
Definition set_n (l : log) (o n : Z) : log :=
  {| refcount := refcount l; index := index l; term := term l; log_version := log_version l;
     next_machine_version := next_machine_version l; next_machine_id := next_machine_id l;
     type := type l; old_n := o; new_n := n;
     distinct_machines_n := distinct_machines_n l; machines := machines l |}.
Definition set_distinct (l : log) (x : Z) : log :=
  {| refcount := refcount l; index := index l; term := term l; log_version := log_version l;
     next_machine_version := next_machine_version l; next_machine_id := next_machine_id l;
     type := type l; old_n := old_n l; new_n := new_n l;
     distinct_machines_n := x; machines := machines l |}.
Definition set_machines (l : log) (x : list machine) : log :=
  {| refcount := refcount l; index := index l; term := term l; log_version := log_version l;
     next_machine_version := next_machine_version l; next_machine_id := next_machine_id l;
     type := type l; old_n := old_n l; new_n := new_n l;
     distinct_machines_n := distinct_machines_n l; machines := x |}.

(** ** Allocation *)

Section alloc.
Context (malloc : Z -> option log).

Definition log_malloc (machines_size : Z) : option log :=
  match malloc (u64 (sizeof_log + machines_size)) with
  | Some l => Some (set_refcount l 0)
  | None => None
  end.

(** The outer [None] is the failed assertion, the inner one [NULL]. *)
Definition log_malloc_init (machines_size : Z) : option (option log) :=
  guard (machines_size_valid machines_size = true);;
  Some match log_malloc machines_size with
  | Some l =>
      let old_n := u32 (machines_size / MACHINE_SIZE) in
      Some {| refcount := refcount l; index := 1; term := 1; log_version := 1;
              next_machine_version := 1; next_machine_id := 1; type := LOG_TYPE_OLD;
              old_n := old_n; new_n := 0; distinct_machines_n := old_n;
              machines := machines l |}
  | None => None
  end.

Definition log_malloc_stable (unstable : log) : option log :=
  let size := u64 (MACHINE_SIZE * new_n unstable) in
  match log_malloc size with
  | Some l =>
      Some {| refcount := refcount l; index := u64 (index unstable + 1);
              term := term unstable; log_version := u64 (log_version unstable + 1);
              next_machine_version := next_machine_version unstable;
              next_machine_id := next_machine_id unstable;
              type := Z.land (type unstable) (Z.lnot LOG_TYPE_UNSTABLE_MASK);
              old_n := new_n unstable; new_n := 0;
              distinct_machines_n := new_n unstable;
              machines := take (Z.to_nat (size / MACHINE_SIZE)) (new_machines unstable) |}
  | None => None
  end.

Definition log_malloc_unstable (old_n new_n : Z) : option log :=
  match log_malloc (u64 (MACHINE_SIZE * u32 (old_n + new_n))) with
  | Some l => Some (set_n l old_n new_n)
  | None => None
  end.

(** [machines_copy(log->machines, old->machines, old->old_n)] *)
Definition __log_complete_unstable (l old : log) (term : Z) : log :=
  {| refcount := refcount l; index := u64 (index old + 1); term := term;
     log_version := log_version old;
     next_machine_version := next_machine_version old;
     next_machine_id := next_machine_id old; type := type l;
     old_n := old_n l; new_n := new_n l;
     distinct_machines_n := distinct_machines_n l;
     machines := old_machines old ++ drop (Z.to_nat (old_n old)) (machines l) |}.

Definition log_machine_reset_version (l : log) (m : machine) : log * machine :=
  let m := set_version m (next_machine_version l) in
  (set_next l (u64 (next_machine_version l + 1)) (next_machine_id l), m).

(** The loop of [log_malloc_grow_complete] over an array of machines. *)
Fixpoint reset_versions (l : log) (ms : list machine) : log * list machine :=
  match ms with
  | [] => (l, [])
  | m :: ms' =>
      let '(l, m) := log_machine_reset_version l m in
      let '(l, ms') := reset_versions l ms' in
      (l, m :: ms')
  end.

Definition log_malloc_grow_complete (transform : log) (term : Z) : option log :=
  let n := old_n transform in
  match log_malloc_unstable n n with
  | Some l =>
      let l := __log_complete_unstable l transform term in
      let l := set_type l LOG_TYPE_GROW_COMPLETE in
      let olds := old_machines l in
      let k := Z.to_nat (Z.shiftr n 1) in
      let '(l, ms) := reset_versions l (take k olds) in
      let l := set_machines l (olds ++ ms ++ drop k olds) in
      Some (set_distinct l n)
  | None => None
  end.

End alloc.

(** ** Reference counting *)

(** The counter is an [int64_t]. *)
Definition log_borrow (l : log) : log := set_refcount l (refcount l + 1).

(** The inner [None] is a freed log. *)
Definition log_return (l : log) : option (option log) :=
  let l := set_refcount l (refcount l - 1) in
  guard (0 <= refcount l);;
  Some (if bool_decide (refcount l = 0) then None else Some l).

Definition log_at_least_up_to_date (l : log) (index' term' : Z) : bool :=
  (term l <? term') || ((term' =? term l) && (index l <=? index')).

(** ** Completing a log *)

Definition log_machine_set_id (l : log) (m : machine) : log * machine :=
  let m := set_id m (next_machine_id l) in
  (set_next l (next_machine_version l) (u32 (next_machine_id l + 1)), m).

Definition log_machine_init (l : log) (m : machine) : log * machine :=
  let '(l, m) := log_machine_set_id l m in
  let m := machine_set_stability m true in
  log_machine_reset_version l m.

Fixpoint sorted_by_addr_duplate (ms : list machine) : bool :=
  match ms with
  | a :: (b :: _) as ms' => (machine_addr_cmp a b =? 0) || sorted_by_addr_duplate ms'
  | _ => false
  end.

(** The [for] loops that initialise an array of machines. *)
Fixpoint init_machines (l : log) (ms : list machine) : log * list machine :=
  match ms with
  | [] => (l, [])
  | m :: ms' =>
      let '(l, m) := log_machine_init l m in
      let '(l, ms') := init_machines l ms' in
      (l, m :: ms')
  end.

Definition log_complete_init (l : log) : bool * log :=
  let '(l, ms) := init_machines l (old_machines l) in
  let ms := machines_sort_by_addr ms in
  (negb (sorted_by_addr_duplate ms), set_machines l (ms ++ new_machines l)).

(** *** Adjusting *)

(** The first loop of [__log_complete_adjust]: [sorted] is the old machines
    sorted by address, the accumulators are [keeps] and [new_n]. *)
Fixpoint adjust_loop (l : log) (sorted olds news : list machine) (keeps fresh : Z)
    : log * list machine * Z * Z :=
  match olds, news with
  | old :: olds', new :: news' =>
      let '(l, new, keeps, fresh) :=
        if machine_addr_cmp new old =? 0 then (l, old, keeps + 1, fresh)
        else
          match machines_search_addr new sorted with
          | Some m => (l, m, keeps, fresh)
          | None =>
              let '(l, new) := log_machine_init l new in
              (l, new, keeps, fresh + 1)
          end in
      let '(l, news', keeps, fresh) := adjust_loop l sorted olds' news' keeps fresh in
      (l, new :: news', keeps, fresh)
  | _, _ => (l, [], keeps, fresh)
  end.

(** The [while] loop that walks to the first position where [stop] holds and
    then tests [changed]; running past the arrays is a fault. *)
Fixpoint ring_first (stop changed : machine -> machine -> bool) (olds news : list machine)
    : option bool :=
  match olds, news with
  | old :: olds', new :: news' =>
      if stop old new then Some (changed old new) else ring_first stop changed olds' news'
  | _, _ => None
  end.

(** The [for] loop from the last position down, which carries [upgrade] and
    resets the versions of the new machines it holds for. *)
Fixpoint ring_pass (changed keep : machine -> machine -> bool) (l : log) (upgrade : bool)
    (olds news : list machine) : log * bool * list machine :=
  match olds, news with
  | old :: olds', new :: news' =>
      let '(l, upgrade, news') := ring_pass changed keep l upgrade olds' news' in
      let upgrade := if changed old new then true
                     else if keep old new then false else upgrade in
      if upgrade : bool then
        let '(l, new) := log_machine_reset_version l new in (l, upgrade, new :: news')
      else (l, upgrade, new :: news')
  | _, _ => (l, upgrade, [])
  end.

Definition id_changed (old new : machine) : bool := negb (machine_id old =? machine_id new).
Definition adjust_stop (old new : machine) : bool :=
  negb ((machine_id old =? machine_id new) && negb (machine_available old)).
Definition new_available (old new : machine) : bool := machine_available new.

Definition __log_complete_adjust (l old_log : log) : option (bool * log) :=
  let n := old_n l in
  let sorted := machines_sort_by_addr (old_machines l) in
  let olds := old_machines old_log in
  let '(l, news, keeps, fresh) := adjust_loop l sorted olds (new_machines l) 0 0 in
  if (keeps =? n) || (keeps <? n / 2) then Some (false, set_machines l (sorted ++ news))
  else
    let sorted := machines_sort_by_addr news in
    if sorted_by_addr_duplate sorted then Some (false, set_machines l (sorted ++ news))
    else
      upgrade ← ring_first adjust_stop id_changed olds news;
      let '(l, _, news) := ring_pass id_changed new_available l upgrade olds news in
      Some (true, set_distinct (set_machines l (olds ++ news)) (u64 (n + fresh))).

(** *** Shrinking and growing *)

Definition __log_complete_shrink (l : log) : bool * log :=
  if machines_cmp (take (Z.to_nat (new_n l)) (machines l))
       (take (Z.to_nat (new_n l)) (new_machines l))
  then (false, l)
  else (true, set_distinct l (old_n l)).

(** The merge of two sorted arrays that looks for a common address; every
    iteration advances one of them. *)
Fixpoint merge_disjoint (a b : list machine) (fuel : nat) : option bool :=
  match a, b with
  | x :: a', y :: b' =>
      match fuel with
      | O => None
      | S fuel' =>
          let cmp := machine_addr_cmp x y in
          if cmp <? 0 then merge_disjoint a' b fuel'
          else if 0 <? cmp then merge_disjoint a b' fuel'
          else Some false
      end
  | _, _ => Some true
  end.

Definition __log_complete_grow (l : log) : option (bool * log) :=
  let n := Z.to_nat (old_n l) in
  let olds := old_machines l in
  let news := take n (new_machines l) in
  if machines_cmp news olds then Some (false, l)
  else
    let extra := machines_sort_by_addr (drop n (new_machines l)) in
    if sorted_by_addr_duplate extra then Some (false, set_machines l (olds ++ news ++ extra))
    else
      let sorted := machines_sort_by_addr olds in
      disjoint ← merge_disjoint sorted extra (length sorted + length extra);
      if disjoint : bool then
        let '(l, extra) := init_machines l extra in
        Some (true, set_distinct (set_machines l (news ++ news ++ extra)) (new_n l))
      else Some (false, set_machines l (sorted ++ news ++ extra)).

Definition log_complete_change (l old : log) (term : Z) : option (bool * log) :=
  let l := __log_complete_unstable l old term in
  if new_n l =? old_n l then
    __log_complete_adjust (set_type l LOG_TYPE_ADJUST) old
  else if new_n l =? Z.shiftr (old_n l) 1 then
    Some (__log_complete_shrink (set_type l LOG_TYPE_SHRINK))
  else if new_n l =? u32 (Z.shiftl (old_n l) 1) then
    __log_complete_grow (set_type l LOG_TYPE_GROW)
  else Some (false, l).

(** *** Changing availability *)

Definition available_changed (old new : machine) : bool :=
  negb (eqb (machine_available new) (machine_available old)).
Definition available_stop (old new : machine) : bool :=
  negb (negb (machine_available old) && negb (machine_available new)).
Definition old_available (old new : machine) : bool := machine_available old.

Definition log_complete_change_available (l old_log : log) (term : Z) : option log :=
  let l := __log_complete_unstable l old_log term in
  l ← (if type old_log =? LOG_TYPE_OLD then Some (set_type l LOG_TYPE_CHANGE_AVAILABLE)
       else
         guard (type old_log = LOG_TYPE_GROW_TRANSFORM);;
         Some (set_type l LOG_TYPE_GROW_CHANGE_AVAILABLE));
  let olds := old_machines l in
  let news := new_machines l in
  guard (machines_cmp olds news = true);;
  upgrade ← ring_first available_stop available_changed olds news;
  let '(l, _, news) := ring_pass available_changed old_available l upgrade olds news in
  Some (set_distinct (set_machines l (olds ++ news)) (old_n l)).

(** ** Lookup *)

Definition log_machines_find (l : log) (i : Z) : option machine :=
  machines_find (take (Z.to_nat (u32 (old_n l + new_n l))) (machines l)) i.
Definition log_machines_find_old (l : log) (i : Z) : option machine :=
  machines_find (old_machines l) i.
Definition log_machines_find_new (l : log) (i : Z) : option machine :=
  machines_find (take (Z.to_nat (new_n l)) (new_machines l)) i.
