(* ===== verification/LogInv.v ===== *)
(** * Correctness of the cluster log (log.c)

    [log_wf] says what every log of a cluster satisfies: addresses, ids and
    versions are unique within a configuration, the two configurations of an
    unstable log name a machine consistently, and [distinct_machines_n] counts
    the machines.  The theorems show when each kind of change is accepted, that
    an accepted change is well-formed, and which machines get a new version. *)

From S2P Require Import Prelude Machine Log.

(** ** Well-formed logs *)

(** The machines of one configuration, below the next free id and version. *)
Record config (nid nver : Z) (ms : list machine) : Prop := {
  cf_addr : NoDup (addr <$> ms);
  cf_id : NoDup (machine_id <$> ms);
  cf_version : NoDup (version <$> ms);
  cf_range : Forall (fun m => 0 <= machine_id m < nid /\ 0 <= version m < nver) ms
}.

(** Two configurations that name the same machine with the same id. *)
Definition same_names (olds news : list machine) : Prop :=
  forall a b, a ∈ olds -> b ∈ news -> machine_id a = machine_id b <-> addr a = addr b.

Definition ids (ms : list machine) : gset Z := list_to_set (machine_id <$> ms).

Record log_wf (l : log) : Prop := {
  wf_old_n : Z.of_nat (length (old_machines l)) = old_n l;
  wf_new_n : Z.of_nat (length (new_machines l)) = new_n l;
  wf_old : config (next_machine_id l) (next_machine_version l) (old_machines l);
  wf_new : config (next_machine_id l) (next_machine_version l) (new_machines l);
  wf_names : same_names (old_machines l) (new_machines l);
  wf_distinct : distinct_machines_n l = Z.of_nat (size (ids (machines l)))
}.

(** The counters do not wrap while [n] machines are handed out. *)
Definition room (l : log) (n : nat) : Prop :=
  0 <= next_machine_id l /\ next_machine_id l + Z.of_nat n < 2 ^ 32 /\
  0 <= next_machine_version l /\ next_machine_version l + Z.of_nat n < 2 ^ 64.

Lemma set_next_twice l a b c d : set_next (set_next l a b) c d = set_next l c d.
Proof. done. Qed.

Lemma set_next_same l : set_next l (next_machine_version l) (next_machine_id l) = l.
Proof. by destruct l. Qed.

Lemma log_machine_init_spec l m :
  room l 1 -> exists m',
    log_machine_init l m =
      (set_next l (next_machine_version l + 1) (next_machine_id l + 1), m') /\
    addr m' = addr m /\ machine_id m' = next_machine_id l /\
    version m' = next_machine_version l.
Proof.
  intros (? & ? & ? & ?). unfold log_machine_init, log_machine_set_id, log_machine_reset_version.
  cbn. rewrite !wrap_small by lia. eexists. split; [done|].
  unfold machine_set_stability. by case_match.
Qed.

(** Machines initialised in order get consecutive ids and versions. *)
Definition fresh_from (l : log) (ms : list machine) : Prop :=
  machine_id <$> ms = (Z.add (next_machine_id l)) <$> zrange (length ms) /\
  version <$> ms = (Z.add (next_machine_version l)) <$> zrange (length ms).

Lemma shift_zrange a n :
  Z.add a <$> zrange (S n) = a :: (Z.add (a + 1) <$> zrange n).
Proof.
  unfold zrange. cbn [seq]. rewrite <-fmap_S_seq, !fmap_cons, <-!list_fmap_compose.
  f_equal; [lia|]. apply list_fmap_ext. intros; cbn; lia.
Qed.

Lemma init_machines_spec l ms :
  room l (length ms) -> exists ms',
    init_machines l ms =
      (set_next l (next_machine_version l + Z.of_nat (length ms))
         (next_machine_id l + Z.of_nat (length ms)), ms') /\
    addr <$> ms' = addr <$> ms /\ length ms' = length ms /\ fresh_from l ms'.
Proof.
  revert l. induction ms as [|m ms IH]; intros l Hr.
  { exists []. cbn. rewrite !Z.add_0_r, set_next_same. done. }
  unfold room in Hr. cbn [length] in Hr. cbn [init_machines].
  destruct (log_machine_init_spec l m) as (m' & -> & Ha & Hi & Hv); [unfold room; lia|].
  destruct (IH (set_next l (next_machine_version l + 1) (next_machine_id l + 1)))
    as (ms' & -> & Has & Hlen & Hid & Hver); [unfold room; cbn; lia|].
  exists (m' :: ms'). cbn [length]. rewrite !fmap_cons, Ha, Has, Hlen. cbn in Hid, Hver.
  split_and!; [cbn; do 2 f_equal; lia|done|done|].
  split; cbn [length]; rewrite shift_zrange, fmap_cons; congruence.
Qed.

Lemma shift_zrange_NoDup a n : NoDup (Z.add a <$> zrange n).
Proof. apply NoDup_fmap_2_strong; [intros; lia|]. apply NoDup_fmap_2, NoDup_seq. apply _. Qed.

Lemma elem_of_shift_zrange a n x : x ∈ Z.add a <$> zrange n <-> a <= x < a + Z.of_nat n.
Proof.
  rewrite list_elem_of_fmap. split.
  - intros (y & -> & Hy%elem_of_zrange). lia.
  - intros Hx. exists (x - a). rewrite elem_of_zrange. lia.
Qed.

Lemma fresh_from_range l ms m :
  fresh_from l ms -> m ∈ ms ->
  next_machine_id l <= machine_id m < next_machine_id l + Z.of_nat (length ms) /\
  next_machine_version l <= version m < next_machine_version l + Z.of_nat (length ms).
Proof.
  intros [Hi Hv] Hm. rewrite <-!elem_of_shift_zrange, <-Hi, <-Hv.
  split; by apply list_elem_of_fmap_2.
Qed.

(** ** Duplicate addresses *)

Lemma sorted_no_duplate ms :
  StronglySorted (cmp_le machine_addr_cmp) ms ->
  sorted_by_addr_duplate ms = false <-> NoDup (addr <$> ms).
Proof.
  intros Hs. induction Hs as [|a ms Hs IH Hall]; [split; [constructor|done]|].
  destruct ms as [|b ms]; [split; [intros _; apply NoDup_singleton|done]|].
  change (sorted_by_addr_duplate (a :: b :: ms))
    with ((machine_addr_cmp a b =? 0) || sorted_by_addr_duplate (b :: ms)).
  rewrite orb_false_iff, Z.eqb_neq, IH, machine_addr_cmp_eq.
  rewrite (fmap_cons addr a), (NoDup_cons (addr a)).
  split; intros [Hab Hnd]; split; try done.
  - intros (c & Ec & Hc)%list_elem_of_fmap. apply elem_of_cons in Hc as [->|Hc]; [done|].
    apply Forall_cons in Hall as [Hle _].
    assert (cmp_le machine_addr_cmp b c) as Hbc.
    { inversion Hs as [|x y _ Hall']; subst. rewrite Forall_forall in Hall'. by apply Hall'. }
    apply Hab, machine_addr_cmp_eq. unfold cmp_le, machine_addr_cmp in *.
    rewrite <-Ec, (memcmp_opp (addr a)) in Hbc. lia.
  - intros E. apply Hab. rewrite E. apply list_elem_of_fmap_2. left.
Qed.

Lemma sort_no_duplate ms :
  sorted_by_addr_duplate (machines_sort_by_addr ms) = false <-> NoDup (addr <$> ms).
Proof. rewrite sorted_no_duplate by apply sort_sorted. by rewrite sort_perm. Qed.

(** ** The walk around the ring *)

(** At each position, whether the machine changed and whether it is available
    and unchanged. The first position that is one of the two decides. *)
Definition marks (changed keep : machine -> machine -> bool) (olds news : list machine)
    : list (bool * bool) :=
  zip_with (fun o n => (changed o n, keep o n)) olds news.

Fixpoint decide_first (ds : list (bool * bool)) : option bool :=
  match ds with
  | [] => None
  | (true, _) :: _ => Some true
  | (false, true) :: _ => Some false
  | (false, false) :: ds' => decide_first ds'
  end.

Lemma decide_first_app ds1 ds2 :
  decide_first (ds1 ++ ds2) =
  match decide_first ds1 with Some b => Some b | None => decide_first ds2 end.
Proof. induction ds1 as [|[[] []] ds1 IH]; cbn; auto. Qed.

(** From position [i] on around the ring, the first machine that changed or is
    available has changed. *)
Definition behind_change (ds : list (bool * bool)) (i : nat) : bool :=
  default false (decide_first (drop i ds ++ take i ds)).

Lemma behind_change_eq ds i up :
  decide_first ds = Some up -> default up (decide_first (drop i ds)) = behind_change ds i.
Proof.
  intros H. unfold behind_change. rewrite decide_first_app.
  rewrite <-(take_drop i ds), decide_first_app in H.
  destruct (decide_first (drop i ds)); [done|]. by destruct (decide_first (take i ds)); simplify_eq/=.
Qed.

Definition reset_if (b : bool) (lo hi : Z) (m m' : machine) : Prop :=
  if b then exists v, m' = set_version m v /\ lo <= v < hi else m' = m.

Lemma reset_if_mono b lo hi hi' m m' : hi <= hi' -> reset_if b lo hi m m' -> reset_if b lo hi' m m'.
Proof. destruct b; cbn; [|done]. intros ? (v & -> & ?). exists v. split; [done|lia]. Qed.

Lemma reset_if_same b lo hi m m' :
  reset_if b lo hi m m' ->
  addr m' = addr m /\ machine_id m' = machine_id m /\
  (version m' = version m \/ lo <= version m' < hi).
Proof. destruct b; cbn; [intros (v & -> & ?)|intros ->]; auto. Qed.

(** What a pass leaves: position [i] of [news'] against [news]. *)
Definition passed (ds : list (bool * bool)) (up : bool) (lo hi : Z)
    (news news' : list machine) : Prop :=
  length news' = length news /\
  forall i m, news !! i = Some m -> exists m', news' !! i = Some m' /\
    reset_if (default up (decide_first (drop i ds))) lo hi m m'.

Lemma passed_elem ds up lo hi news news' m' :
  passed ds up lo hi news news' -> m' ∈ news' ->
  exists m b, m ∈ news /\ reset_if b lo hi m m'.
Proof.
  intros [Hlen H] (i & Hi)%list_elem_of_lookup.
  destruct (lookup_lt_is_Some_2 news i) as [m Hm]; [rewrite <-Hlen; by eapply lookup_lt_Some|].
  destruct (H i m Hm) as (m'' & Hm'' & Hr). simplify_eq.
  exists m, (default up (decide_first (drop i ds))). split; [by eapply list_elem_of_lookup_2|done].
Qed.

Lemma ring_pass_spec ch kp l up olds news :
  length olds = length news -> 0 <= next_machine_version l ->
  next_machine_version l + Z.of_nat (length news) < 2 ^ 64 ->
  exists k news', 0 <= k <= Z.of_nat (length news) /\
    ring_pass ch kp l up olds news =
      (set_next l (next_machine_version l + k) (next_machine_id l),
       default up (decide_first (marks ch kp olds news)), news') /\
    passed (marks ch kp olds news) up (next_machine_version l) (next_machine_version l + k)
      news news' /\
    (NoDup (version <$> news) -> Forall (fun m => version m < next_machine_version l) news ->
     NoDup (version <$> news')).
Proof.
  revert news. induction olds as [|o olds IH]; intros [|n news] Hlen Hnv Hr; try done.
  { exists 0, []. cbn. rewrite Z.add_0_r, set_next_same. split_and!; done. }
  cbn [length] in *. destruct (IH news) as (k & news' & Hk & E & Hp & Hnd); [lia..|].
  cbn [ring_pass marks zip_with]. rewrite E.
  change (zip_with _ olds news) with (marks ch kp olds news).
  cbv beta iota zeta. set (up' := if ch o n then true else _).
  assert (default up (decide_first ((ch o n, kp o n) :: marks ch kp olds news)) = up') as Eup
    by (unfold up'; cbn; by destruct (ch o n), (kp o n)).
  assert (forall m', reset_if up' (next_machine_version l)
                       (next_machine_version l + k + (if up' then 1 else 0)) n m' ->
    passed ((ch o n, kp o n) :: marks ch kp olds news) up (next_machine_version l)
      (next_machine_version l + k + (if up' then 1 else 0)) (n :: news) (m' :: news')) as Hpass.
  { intros m' Hm'. destruct Hp as [Hl Hp]. split; [cbn; lia|].
    intros [|i] m Hm; cbn in Hm.
    - injection Hm as <-. exists m'. cbn [drop]. by rewrite Eup.
    - destruct (Hp i m Hm) as (m'' & ? & ?). exists m''. split; [done|].
      eapply reset_if_mono; [|done]. destruct up'; lia. }
  assert (forall m', (version m' = version n \/ version m' = next_machine_version l + k) ->
    NoDup (version <$> n :: news) ->
    Forall (fun m => version m < next_machine_version l) (n :: news) ->
    NoDup (version <$> m' :: news')) as Hnd'.
  { intros m' Hv Hn Hf. rewrite fmap_cons, NoDup_cons in Hn |- *.
    apply Forall_cons in Hf as [Hvn Hf]. destruct Hn as [Hn Hn'].
    split; [|by apply Hnd]. intros (y & Ey & Hy)%list_elem_of_fmap.
    destruct (passed_elem _ _ _ _ _ _ _ Hp Hy) as (x & b & Hx & Hb).
    rewrite Forall_forall in Hf. specialize (Hf x Hx).
    destruct (reset_if_same _ _ _ _ _ Hb) as (_ & _ & [Hs|Hs]).
    - destruct Hv as [Hv|Hv]; [|lia]. apply Hn. rewrite <-Hv, Ey, Hs.
      by apply list_elem_of_fmap_2.
    - destruct Hv; lia. }
  destruct up' eqn:Eu.
  - exists (k + 1), (set_version n (next_machine_version l + k) :: news').
    split; [lia|]. split.
    { rewrite Eup. cbn. rewrite wrap_small by lia. rewrite Z.add_assoc. done. }
    rewrite Z.add_assoc. split.
    + apply Hpass. eexists. split; [done|]. lia.
    + apply Hnd'. by right.
  - exists k, (n :: news'). split; [lia|]. split; [by rewrite Eup|]. rewrite Z.add_0_r in Hpass.
    split; [by apply Hpass|]. apply Hnd'. by left.
Qed.

(** The [while] loop finds the first decision, provided some machine changed. *)
Lemma ring_first_spec stop ch kp olds news :
  (forall i o n, olds !! i = Some o -> news !! i = Some n -> stop o n = ch o n || kp o n) ->
  ring_first stop ch olds news = decide_first (marks ch kp olds news).
Proof.
  revert news. induction olds as [|o olds IH]; intros [|n news] Hs; cbn; try done.
  rewrite (Hs 0%nat o n) by done.
  destruct (ch o n), (kp o n); try done. apply IH. intros i. apply (Hs (S i)).
Qed.

Lemma decide_first_some ch kp olds news :
  length olds = length news ->
  (exists i o n, olds !! i = Some o /\ news !! i = Some n /\ ch o n = true) ->
  is_Some (decide_first (marks ch kp olds news)).
Proof.
  revert news. induction olds as [|o olds IH]; intros [|n news] Hl (i & a & b & Ha & Hb & Hc);
    try done.
  cbn. destruct (ch o n) eqn:E1; [eauto|]. destruct (kp o n); [eauto|]. cbn in Hl.
  apply IH; [lia|]. destruct i; cbn in *; simplify_eq; [congruence|]. eauto 10.
Qed.

(** ** Adjusting *)

(** A requested machine and the machine [adjust_loop] puts in its place. *)
Definition adjusted (O : list machine) (a a' b b' : Z) (m m' : machine) : Prop :=
  addr m' = addr m /\
  (m' ∈ O \/ addr m ∉ addr <$> O /\ a <= machine_id m' < a' /\ b <= version m' < b').

Definition unknown (O : list machine) (m : machine) : Prop := addr m ∉ addr <$> O.
#[global] Instance unknown_dec O m : Decision (unknown O m).
Proof. unfold unknown. apply _. Defined.

(** The positions that keep their machine. *)
Definition kept (olds news : list machine) : Z :=
  Z.of_nat (length (filter (fun p => addr p.1 = addr p.2) (zip olds news))).

Lemma config_inj nid nver ms a b :
  config nid nver ms -> a ∈ ms -> b ∈ ms ->
  (addr a = addr b \/ machine_id a = machine_id b \/ version a = version b) -> a = b.
Proof.
  intros [H1 H2 H3 _] Ha Hb E.
  apply list_elem_of_lookup in Ha as (i & Hi). apply list_elem_of_lookup in Hb as (j & Hj).
  assert (forall {B} (f : machine -> B), NoDup (f <$> ms) -> f a = f b -> i = j) as Hinj.
  { intros B f Hnd Ef. apply (NoDup_lookup (f <$> ms) i j (f a) Hnd);
      rewrite list_lookup_fmap, ?Hi, ?Hj; cbn; congruence. }
  assert (i = j) as -> by (destruct E as [E|[E|E]]; eauto). congruence.
Qed.

Lemma config_range nid nver ms m :
  config nid nver ms -> m ∈ ms -> 0 <= machine_id m < nid /\ 0 <= version m < nver.
Proof. intros [_ _ _ H] Hm. rewrite Forall_forall in H. by apply H. Qed.

Lemma adjusted_mono O a a' b b' c c' e e' x y :
  c <= a -> a' <= c' -> e <= b -> b' <= e' ->
  adjusted O a a' b b' x y -> adjusted O c c' e e' x y.
Proof.
  intros ? ? ? ? [? [?|(? & ? & ?)]]; (split; [done|]); [by left|right]. split; [done|]. lia.
Qed.

(** Machines put in place of different addresses have different ids and
    versions. *)
Lemma adjusted_ne O a0 b0 a a' b b' c d x1 x2 y1 y2 :
  config a0 b0 O -> a0 <= a -> b0 <= b -> a' <= c -> b' <= d ->
  adjusted O a a' b b' x1 y1 -> adjusted O a' c b' d x2 y2 -> a <= a' -> b <= b' ->
  addr x1 <> addr x2 -> machine_id y1 <> machine_id y2 /\ version y1 <> version y2.
Proof.
  intros Hc ? ? ? ? [E1 H1] [E2 H2] ? ? Hne. rewrite <-E1, <-E2 in Hne.
  destruct H1 as [H1|(_ & ? & ?)], H2 as [H2|(_ & ? & ?)].
  - split; intros Eq; apply Hne; f_equal; eapply config_inj; eauto.
  - destruct (config_range _ _ _ _ Hc H1). lia.
  - destruct (config_range _ _ _ _ Hc H2). lia.
  - lia.
Qed.

(** One iteration of [adjust_loop]. *)
Lemma adjust_step_spec l O sorted old new keeps fresh :
  StronglySorted (cmp_le machine_addr_cmp) sorted -> sorted ≡ₚ O -> old ∈ O -> room l 1 ->
  exists m d,
    (if machine_addr_cmp new old =? 0 then (l, old, keeps + 1, fresh)
     else match machines_search_addr new sorted with
          | Some m => (l, m, keeps, fresh)
          | None => let '(l, new) := log_machine_init l new in (l, new, keeps, fresh + 1)
          end) =
    (set_next l (next_machine_version l + d) (next_machine_id l + d), m,
     keeps + (if decide (addr old = addr new) then 1 else 0), fresh + d) /\
    d = (if decide (unknown O new) then 1 else 0) /\
    adjusted O (next_machine_id l) (next_machine_id l + d)
      (next_machine_version l) (next_machine_version l + d) new m.
Proof.
  intros Hs Hp Hold Hr.
  destruct (Z.eqb_spec (machine_addr_cmp new old) 0) as [E|E]; rewrite machine_addr_cmp_eq in E.
  - assert (addr new ∈ addr <$> O) as Hin by (rewrite E; by apply list_elem_of_fmap_2).
    exists old, 0. rewrite (decide_False (P := unknown O new)) by (unfold unknown; tauto).
    rewrite decide_True, !Z.add_0_r, set_next_same by done. split_and!; try done.
    split; [done|]. by left.
  - rewrite decide_False by congruence.
    pose proof (machines_search_addr_spec new sorted Hs) as Hsearch.
    destruct (machines_search_addr new sorted) as [m|]; rewrite Hp in Hsearch.
    + destruct Hsearch as [Hm Ea]. exists m, 0.
      rewrite (decide_False (P := unknown O new))
        by (unfold unknown; rewrite <-Ea; intros Hn; apply Hn; by apply list_elem_of_fmap_2).
      rewrite !Z.add_0_r, set_next_same. split_and!; try done. split; [done|]. by left.
    + destruct (log_machine_init_spec l new Hr) as (m & -> & Ea & Ei & Ev).
      exists m, 1. rewrite Z.add_0_r, decide_True by done. split_and!; try done.
      split; [done|]. right. split; [done|]. lia.
Qed.

Lemma adjust_loop_spec l O a0 b0 sorted olds news keeps fresh :
  StronglySorted (cmp_le machine_addr_cmp) sorted -> sorted ≡ₚ O ->
  config a0 b0 O -> a0 <= next_machine_id l -> b0 <= next_machine_version l ->
  length olds = length news -> olds ⊆ O -> room l (length news) ->
  exists news',
    let k := Z.of_nat (length (filter (unknown O) news)) in
    adjust_loop l sorted olds news keeps fresh =
      (set_next l (next_machine_version l + k) (next_machine_id l + k), news',
       keeps + kept olds news, fresh + k) /\
    Forall2 (adjusted O (next_machine_id l) (next_machine_id l + k)
               (next_machine_version l) (next_machine_version l + k)) news news' /\
    (NoDup (addr <$> news) ->
     NoDup (machine_id <$> news') /\ NoDup (version <$> news')).
Proof.
  intros Hs Hp Hc. revert l keeps fresh news.
  induction olds as [|old olds IH]; intros l keeps fresh [|new news] Ha0 Hb0 Hlen Hsub Hr; try done.
  { exists []. cbn. rewrite !Z.add_0_r, set_next_same. split_and!; try done.
    intros _. split; constructor. }
  cbn [length] in Hlen, Hr. unfold room in Hr. cbn [adjust_loop].
  destruct (adjust_step_spec l O sorted old new keeps fresh)
    as (m1 & d & -> & Hd & Hadj); [done..|apply Hsub; left|unfold room; lia|].
  assert (0 <= d <= 1) by (subst d; case_decide; lia).
  destruct (IH (set_next l (next_machine_version l + d) (next_machine_id l + d))
              (keeps + (if decide (addr old = addr new) then 1 else 0)) (fresh + d) news)
    as (news' & E & HF & Hnd); [cbn; lia|cbn; lia|lia|set_solver|unfold room; cbn; lia|].
  cbn in E, HF. rewrite E. exists (m1 :: news').
  assert (Z.of_nat (length (filter (unknown O) (new :: news))) =
          d + Z.of_nat (length (filter (unknown O) news))) as ->.
  { rewrite filter_cons, Hd. destruct (decide (unknown O new)); cbn [length]; lia. }
  assert (kept (old :: olds) (new :: news) =
          (if decide (addr old = addr new) then 1 else 0) + kept olds news) as ->.
  { unfold kept. cbn [zip zip_with]. rewrite filter_cons. cbn [fst snd].
    destruct (decide (addr old = addr new)); cbn [length]; lia. }
  rewrite !Z.add_assoc. split; [done|]. split.
  { constructor; [eapply adjusted_mono; [..|exact Hadj]; lia|].
    eapply Forall2_impl; [exact HF|]. intros x y Hxy.
    eapply adjusted_mono; [..|exact Hxy]; lia. }
  intros Hn. rewrite fmap_cons, NoDup_cons in Hn. destruct Hn as [Hn Hn'].
  destruct (Hnd Hn') as [Hi Hv].
  assert (forall y, y ∈ news' -> machine_id m1 <> machine_id y /\ version m1 <> version y) as Hne.
  { intros y (i & Hy)%list_elem_of_lookup.
    destruct (Forall2_lookup_r _ _ _ _ _ HF Hy) as (x & Hx & Hyc).
    eapply adjusted_ne; [exact Hc| | | | |exact Hadj|exact Hyc|..]; try lia.
    intros Eq. apply Hn. rewrite Eq. apply list_elem_of_fmap_2. by eapply list_elem_of_lookup_2. }
  rewrite !fmap_cons, !NoDup_cons. split_and!; try done;
    intros (y & Ey & Hy)%list_elem_of_fmap; destruct (Hne y Hy); done.
Qed.

Lemma Forall2_fmap_eq {A B C} (f : A -> C) (g : B -> C) l l' :
  Forall2 (fun x y => g y = f x) l l' -> g <$> l' = f <$> l.
Proof. induction 1; cbn; congruence. Qed.

Lemma Forall2_length_filter {A B} (P : A -> Prop) (Q : B -> Prop)
    `{!forall x, Decision (P x)} `{!forall x, Decision (Q x)} l l' :
  Forall2 (fun x y => P x <-> Q y) l l' -> length (filter P l) = length (filter Q l').
Proof.
  induction 1 as [|x y l l' Hxy _ IH]; [done|]. rewrite !filter_cons.
  destruct (decide (P x)), (decide (Q y)); cbn [length]; try tauto; congruence.
Qed.

Lemma config_mono nid nver nid' nver' ms :
  nid <= nid' -> nver <= nver' -> config nid nver ms -> config nid' nver' ms.
Proof.
  intros ? ? []. split; try done. eapply Forall_impl; [done|]. cbn. intros. lia.
Qed.

(** The number of distinct machines of two configurations. *)
Lemma ids_size olds news :
  NoDup (machine_id <$> olds) -> NoDup (machine_id <$> news) ->
  size (ids (olds ++ news)) =
  (length olds + length (filter (fun m => machine_id m ∉ machine_id <$> olds) news))%nat.
Proof.
  intros Ho Hn. unfold ids. rewrite fmap_app, list_to_set_app_L, size_union_alt.
  f_equal; [by rewrite size_list_to_set, length_fmap|].
  induction news as [|m news IH].
  { cbn. apply size_empty_iff. set_solver. }
  rewrite fmap_cons, NoDup_cons in Hn. destruct Hn as [Hm Hn]. specialize (IH Hn).
  rewrite fmap_cons, list_to_set_cons, filter_cons. case_decide as Hd.
  - cbn [length]. rewrite <-IH, difference_union_distr_l_L.
    rewrite size_union by set_solver.
    replace (_ ∖ _) with ({[machine_id m]} : gset Z) by set_solver.
    rewrite size_singleton. lia.
  - rewrite <-IH. f_equal. set_solver.
Qed.

Lemma passed_Forall2 ds up lo hi news news' :
  passed ds up lo hi news news' ->
  Forall2 (fun m m' => addr m' = addr m /\ machine_id m' = machine_id m /\
             machine_available m' = machine_available m /\
             (version m' = version m \/ lo <= version m' < hi)) news news'.
Proof.
  intros [Hlen H]. apply Forall2_same_length_lookup. split; [done|].
  intros i m m' Hm Hm'. destruct (H i m Hm) as (m'' & Hm'' & Hr). simplify_eq.
  destruct (default up _); cbn in Hr; [destruct Hr as (v & -> & ?)|subst]; auto.
Qed.

Lemma marks_passed ch kp olds news news' :
  (forall o n n', machine_id n' = machine_id n -> machine_available n' = machine_available n ->
     ch o n' = ch o n /\ kp o n' = kp o n) ->
  Forall2 (fun m m' => machine_id m' = machine_id m /\
                       machine_available m' = machine_available m) news news' ->
  marks ch kp olds news' = marks ch kp olds news.
Proof.
  intros Hext HF. revert olds. induction HF as [|n n' news news' [H1 H2] _ IH];
    intros [|o olds]; try done. cbn. destruct (Hext o n n' H1 H2) as [-> ->]. f_equal. apply IH.
Qed.

(** ** A request for a change *)

(** An unstable block for a change of the stable log [old]: room for the old
    machines and, behind them, the machines asked for. *)
Record request (l old : log) : Prop := {
  rq_wf : log_wf old;
  rq_stable : new_n old = 0;
  rq_old_n : old_n l = old_n old;
  rq_len : Z.of_nat (length (machines l)) = old_n l + new_n l;
  rq_n : 0 < old_n l /\ 0 <= new_n l /\ old_n l < 2 ^ 31;
  rq_room : room old (Z.to_nat (old_n l + new_n l))
}.

(** The machines asked for. *)
Definition asked (l : log) : list machine := new_machines l.

Lemma request_split l old t :
  request l old ->
  old_machines (__log_complete_unstable l old t) = old_machines old /\
  new_machines (__log_complete_unstable l old t) = asked l /\
  length (old_machines old) = Z.to_nat (old_n l) /\
  length (asked l) = Z.to_nat (new_n l).
Proof.
  intros [Hwf Hst Hon Hlen Hn _]. pose proof (wf_old_n _ Hwf) as H1.
  assert (length (old_machines old) = Z.to_nat (old_n l)) as E by lia.
  unfold asked, new_machines, old_machines at 1. cbn.
  rewrite take_app_length', drop_app_length', length_drop by lia.
  split_and!; [done|by rewrite Hon|done|lia].
Qed.

Section adjust.
Context (O req news : list machine) (nid nver nid' nver' : Z).
Context (Hc : config nid nver O).
Context (HF : Forall2 (adjusted O nid nid' nver nver') req news).

Lemma adjusted_elem y :
  y ∈ news -> y ∈ O \/ addr y ∉ addr <$> O /\ nid <= machine_id y < nid' /\
                       nver <= version y < nver'.
Proof.
  intros (i & Hy)%list_elem_of_lookup.
  destruct (Forall2_lookup_r _ _ _ _ _ HF Hy) as (x & Hx & -> & [?|?]); auto.
Qed.

Lemma adjusted_addr : addr <$> news = addr <$> req.
Proof. apply Forall2_fmap_eq. eapply Forall2_impl; [exact HF|]. by intros ? ? []. Qed.

Lemma adjusted_names : same_names O news.
Proof.
  intros a b Ha Hb. destruct (adjusted_elem b Hb) as [HO|(Hn & ? & _)].
  - split; intros E; [|]; rewrite (config_inj nid nver O a b); auto.
  - split; intros E; exfalso.
    + destruct (config_range _ _ _ _ Hc Ha). lia.
    + apply Hn. rewrite <-E. by apply list_elem_of_fmap_2.
Qed.

Lemma adjusted_unknown :
  length (filter (fun m => machine_id m ∉ machine_id <$> O) news) =
  length (filter (unknown O) req).
Proof.
  symmetry. apply Forall2_length_filter. eapply Forall2_impl; [exact HF|].
  intros x y [Ea H]. unfold unknown. rewrite <-Ea. destruct H as [H|(Hn & ? & ?)].
  - split; intros Hx; exfalso; apply Hx; by apply list_elem_of_fmap_2.
  - rewrite Ea. split; [intros _|done]. intros (a & E & Ha)%list_elem_of_fmap.
    destruct (config_range _ _ _ _ Hc Ha). lia.
Qed.

Lemma adjusted_range :
  0 <= nid <= nid' -> 0 <= nver <= nver' ->
  Forall (fun m => 0 <= machine_id m < nid' /\ 0 <= version m < nver') news.
Proof.
  intros ? ?. apply Forall_forall. intros y Hy. destruct (adjusted_elem y Hy) as [HO|(_ & ? & ?)].
  - destruct (config_range _ _ _ _ Hc HO). lia.
  - lia.
Qed.

Lemma adjusted_same a b : a ∈ O -> b ∈ news -> machine_id a = machine_id b -> b = a.
Proof.
  intros Ha Hb E. destruct (adjusted_elem b Hb) as [HO|(_ & ? & _)].
  - eapply config_inj; eauto.
  - destruct (config_range _ _ _ _ Hc Ha). lia.
Qed.

(** Where the addresses differ, so do the ids. *)
Lemma adjusted_changed :
  length req = length O -> kept O req <> Z.of_nat (length O) ->
  exists i o n, O !! i = Some o /\ news !! i = Some n /\ id_changed o n = true.
Proof.
  intros Hlen Hk.
  assert (exists i o r, O !! i = Some o /\ req !! i = Some r /\ addr o <> addr r)
    as (i & o & r & Ho & Hr & Hne).
  { clear - Hlen Hk. revert req Hlen Hk. induction O as [|o O' IH]; intros [|r req'] Hlen Hk; try done.
    destruct (decide (addr o = addr r)) as [E|E]; [|by exists 0%nat, o, r].
    unfold kept in *. cbn [zip zip_with] in Hk. rewrite filter_cons_True in Hk by done.
    cbn [length] in *. destruct (IH req') as (i & a & b & ? & ? & ?); [lia|lia|].
    by exists (S i), a, b. }
  destruct (Forall2_lookup_l _ _ _ _ _ HF Hr) as (n & Hn & Ea & _).
  exists i, o, n. split_and!; [done..|]. unfold id_changed. apply negb_true_iff, Z.eqb_neq.
  intros E. apply Hne. rewrite <-Ea. f_equal.
  symmetry. apply adjusted_same; [by eapply list_elem_of_lookup_2..|done].
Qed.

Lemma adjusted_stop i o n :
  O !! i = Some o -> news !! i = Some n ->
  adjust_stop o n = id_changed o n || new_available o n.
Proof.
  intros Ho Hn. unfold adjust_stop, id_changed, new_available.
  destruct (Z.eqb_spec (machine_id o) (machine_id n)) as [E|]; [|done]. cbn.
  rewrite (adjusted_same o n); [|by eapply list_elem_of_lookup_2..|done]. apply negb_involutive.
Qed.
End adjust.

Lemma kept_le olds news : kept olds news <= Z.of_nat (length olds).
Proof.
  unfold kept. pose proof (length_filter (fun p => addr p.1 = addr p.2) (zip olds news)).
  rewrite length_zip_with in *. lia.
Qed.

(** Conditions under which an adjustment is accepted. *)
Definition adjust_ok (olds req : list machine) : Prop :=
  kept olds req <> Z.of_nat (length olds) /\
  Z.of_nat (length olds) / 2 <= kept olds req /\ NoDup (addr <$> req).

(** The outcome of walking the ring: every new machine is the old one at its
    position, or it lies behind a change and has a version never used before. *)
Definition ring_outcome (ch kp : machine -> machine -> bool) (nver : Z)
    (olds news : list machine) : Prop :=
  forall i o n, olds !! i = Some o -> news !! i = Some n ->
    if behind_change (marks ch kp olds news) i then nver <= version n
    else version n = version o.

Lemma split_machines l olds news :
  length olds = Z.to_nat (old_n l) ->
  old_machines (set_machines l (olds ++ news)) = olds /\
  new_machines (set_machines l (olds ++ news)) = news.
Proof.
  intros H. unfold old_machines, new_machines. cbn.
  rewrite take_app_length', drop_app_length' by done. done.
Qed.

(** The decision functions look at the ids and the availability only. *)
Definition ring_ext (ch kp : machine -> machine -> bool) : Prop :=
  forall o n n', machine_id n' = machine_id n -> machine_available n' = machine_available n ->
    ch o n' = ch o n /\ kp o n' = kp o n.

Lemma decide_first_head c k ds b :
  decide_first ((c, k) :: ds) = Some b -> b = false -> c = false.
Proof. destruct c; cbn; [|done]. intros [= <-]. done. Qed.

Lemma behind_change_false ch kp olds news i o n :
  olds !! i = Some o -> news !! i = Some n ->
  behind_change (marks ch kp olds news) i = false -> ch o n = false.
Proof.
  intros Ho Hn. unfold behind_change.
  assert (marks ch kp olds news !! i = Some (ch o n, kp o n)) as Hi
    by (unfold marks; rewrite lookup_zip_with, Ho, Hn; done).
  rewrite (drop_S _ _ _ Hi). cbn. by destruct (ch o n).
Qed.

(** The pass around the ring keeps a configuration well-formed. *)
Lemma ring_finish ch kp l up olds news nver0 :
  ring_ext ch kp -> length olds = length news ->
  0 <= next_machine_version l ->
  next_machine_version l + Z.of_nat (length news) < 2 ^ 64 ->
  nver0 <= next_machine_version l ->
  decide_first (marks ch kp olds news) = Some up ->
  config (next_machine_id l) (next_machine_version l) news ->
  (forall i o n, olds !! i = Some o -> news !! i = Some n -> ch o n = false ->
     version n = version o) ->
  exists k b news', 0 <= k /\
    ring_pass ch kp l up olds news =
      (set_next l (next_machine_version l + k) (next_machine_id l), b, news') /\
    config (next_machine_id l) (next_machine_version l + k) news' /\
    addr <$> news' = addr <$> news /\ machine_id <$> news' = machine_id <$> news /\
    Forall2 (fun m m' => addr m' = addr m /\ machine_id m' = machine_id m /\
               machine_available m' = machine_available m) news news' /\
    ring_outcome ch kp nver0 olds news'.
Proof.
  intros Hext Hlen Hnv Hroom Hv0 Hup [Ca Ci Cv Cr] Hsame.
  destruct (ring_pass_spec ch kp l up olds news Hlen Hnv Hroom) as (k & news' & Hk & E & Hp & Hnd).
  pose proof (passed_Forall2 _ _ _ _ _ _ Hp) as HF.
  assert (addr <$> news' = addr <$> news) as Ea.
  { apply Forall2_fmap_eq. eapply Forall2_impl; [exact HF|]. naive_solver. }
  assert (machine_id <$> news' = machine_id <$> news) as Ei.
  { apply Forall2_fmap_eq. eapply Forall2_impl; [exact HF|]. naive_solver. }
  exists k, (default up (decide_first (marks ch kp olds news))), news'.
  split; [lia|]. split; [exact E|]. split_and!; try done.
  - split.
    + by rewrite Ea.
    + by rewrite Ei.
    + apply Hnd; [done|]. eapply Forall_impl; [exact Cr|]. cbn. intros. lia.
    + apply Forall_forall. intros y (i & Hy)%list_elem_of_lookup.
      destruct (Forall2_lookup_r _ _ _ _ _ HF Hy) as (x & Hx & _ & -> & _ & Hv).
      rewrite Forall_forall in Cr.
      destruct (Cr x (list_elem_of_lookup_2 _ _ _ Hx)). destruct Hv as [->|?]; lia.
  - eapply Forall2_impl; [exact HF|]. naive_solver.
  - intros i o n' Ho Hn'. destruct (Forall2_lookup_r _ _ _ _ _ HF Hn') as (n & Hn & _).
    rewrite (marks_passed ch kp olds news news').
    2: exact Hext.
    2: { eapply Forall2_impl; [exact HF|]. naive_solver. }
    destruct Hp as [_ Hp]. destruct (Hp i n Hn) as (n'' & Hn'' & Hr). simplify_eq.
    rewrite (behind_change_eq _ i up Hup) in Hr.
    destruct (behind_change (marks ch kp olds news) i) eqn:Eb; cbn in Hr.
    + destruct Hr as (v & -> & ?). cbn. lia.
    + subst. eapply Hsame; [done..|]. by eapply behind_change_false.
Qed.

Lemma log_wf_intro l olds news k :
  length olds = Z.to_nat (old_n l) -> length news = Z.to_nat (new_n l) ->
  0 <= old_n l -> 0 <= new_n l ->
  config (next_machine_id l) (next_machine_version l) olds ->
  config (next_machine_id l) (next_machine_version l) news ->
  same_names olds news ->
  k = old_n l + Z.of_nat (length (filter (fun m => machine_id m ∉ machine_id <$> olds) news)) ->
  log_wf (set_distinct (set_machines l (olds ++ news)) k).
Proof.
  intros H1 H2 ? ? Ho Hn Hs Hk. destruct (split_machines l olds news H1) as [E1 E2].
  set (l' := set_distinct _ _).
  change (old_machines l') with (old_machines (set_machines l (olds ++ news))) in *.
  assert (old_machines l' = olds) as F1 by exact E1.
  assert (new_machines l' = news) as F2 by exact E2.
  split; rewrite ?F1, ?F2; try done.
  - cbn. lia.
  - cbn. lia.
  - change (k = Z.of_nat (size (ids (olds ++ news)))).
    rewrite ids_size by (apply Ho || apply Hn). lia.
Qed.

(** The second half of an accepted adjustment. *)
Lemma adjusted_finish l O req news nid nver :
  config nid nver O ->
  Forall2 (adjusted O nid (next_machine_id l) nver (next_machine_version l)) req news ->
  0 <= nid <= next_machine_id l -> 0 <= nver <= next_machine_version l ->
  next_machine_version l + Z.of_nat (length O) < 2 ^ 64 ->
  length req = length O -> kept O req <> Z.of_nat (length O) ->
  NoDup (addr <$> req) -> NoDup (machine_id <$> news) -> NoDup (version <$> news) ->
  exists up b k news', 0 <= k /\
    ring_first adjust_stop id_changed O news = Some up /\
    ring_pass id_changed new_available l up O news =
      (set_next l (next_machine_version l + k) (next_machine_id l), b, news') /\
    config (next_machine_id l) (next_machine_version l + k) news' /\
    addr <$> news' = addr <$> req /\ same_names O news' /\
    length (filter (fun m => machine_id m ∉ machine_id <$> O) news') =
      length (filter (unknown O) req) /\
    ring_outcome id_changed new_available nver O news'.
Proof.
  intros Hc HF Hi Hv Hroom Hlen Hk Ha Hid Hver.
  assert (length req = length news) as Hlen' by (eapply Forall2_length; exact HF).
  pose proof (adjusted_addr _ _ _ _ _ _ _ HF) as Eaddr.
  rewrite (ring_first_spec _ _ new_available) by (by eapply adjusted_stop).
  destruct (decide_first_some id_changed new_available O news) as [up Hup];
    [lia|apply (adjusted_changed O req news _ _ _ _ Hc HF); lia|].
  destruct (ring_finish id_changed new_available l up O news nver)
    as (k & b & news' & Hk' & E & Hcn & Ea & Ei & HF' & Hout); try done; try lia.
  { intros o n n' H1 H2. unfold id_changed, new_available. by rewrite H1, H2. }
  { split; [by rewrite Eaddr|done..|]. apply (adjusted_range O req news _ _ _ _ Hc HF); lia. }
  { intros i o n Ho Hn' Hch. unfold id_changed in Hch. apply negb_false_iff, Z.eqb_eq in Hch.
    rewrite (adjusted_same O req news _ _ _ _ Hc HF o n);
      [done|by eapply list_elem_of_lookup_2..|done]. }
  exists up, b, k, news'. split_and!; try done.
  - congruence.
  - intros a y Ha' (i & Hy)%list_elem_of_lookup.
    destruct (Forall2_lookup_r _ _ _ _ _ HF' Hy) as (x & Hx & -> & -> & _).
    apply (adjusted_names O req news _ _ _ _ Hc HF a x Ha'). by eapply list_elem_of_lookup_2.
  - rewrite <-(adjusted_unknown O req news _ _ _ _ Hc HF). symmetry.
    apply Forall2_length_filter. eapply Forall2_impl; [exact HF'|]. intros x y (_ & -> & _). done.
Qed.

Lemma new_machines_distinct l k : new_machines (set_distinct l k) = new_machines l.
Proof. done. Qed.

Lemma adjust_core l old t :
  request l old -> new_n l = old_n l ->
  exists ok l', log_complete_change l old t = Some (ok, l') /\
    (ok = true <-> adjust_ok (old_machines old) (asked l)) /\
    (ok = true ->
     log_wf l' /\ type l' = LOG_TYPE_ADJUST /\ old_machines l' = old_machines old /\
     addr <$> new_machines l' = addr <$> asked l /\
     same_names (old_machines old) (new_machines l') /\
     ring_outcome id_changed new_available (next_machine_version old)
       (old_machines old) (new_machines l')).
Proof.
  intros Hrq Hn. destruct (request_split l old t Hrq) as (E1 & E2 & Hl1 & Hl2).
  pose proof (wf_old _ (rq_wf _ _ Hrq)) as Hc. destruct (rq_n _ _ Hrq) as (? & _ & ?).
  pose proof (rq_room _ _ Hrq) as Hroom.
  unfold log_complete_change. cbn [new_n old_n __log_complete_unstable].
  rewrite Hn, Z.eqb_refl. unfold __log_complete_adjust.
  set (l0 := set_type _ _). change (old_machines l0) with (old_machines (__log_complete_unstable l old t)).
  change (new_machines l0) with (new_machines (__log_complete_unstable l old t)).
  rewrite E1, E2. set (O := old_machines old) in *. set (req := asked l) in *.
  destruct (adjust_loop_spec l0 O (next_machine_id old) (next_machine_version old)
              (machines_sort_by_addr O) O req 0 0) as (news & E & HF & Hnd);
    [apply sort_sorted|apply sort_perm|done|done|done|lia|done| |].
  { unfold room in *. cbn. lia. }
  rewrite E. change (next_machine_id l0) with (next_machine_id old) in *.
  change (next_machine_version l0) with (next_machine_version old) in *.
  change (old_n l0) with (old_n l).
  set (k := Z.of_nat (length (filter (unknown O) req))) in *.
  rewrite !Z.add_0_l. unfold adjust_ok. rewrite Hl1, Z2Nat.id by lia.
  destruct (Z.eqb_spec (kept O req) (old_n l)) as [Ek|Ek]; cbn [orb].
  { eexists false, _. split; [done|]. split; [split; [done|tauto]|done]. }
  destruct (Z.ltb_spec (kept O req) (old_n l / 2)) as [Ek2|Ek2].
  { eexists false, _. split; [done|]. split; [split; [done|lia]|done]. }
  pose proof (adjusted_addr _ _ _ _ _ _ _ HF) as Eaddr.
  destruct (sorted_by_addr_duplate (machines_sort_by_addr news)) eqn:Edup.
  { eexists false, _. split; [done|]. split; [split; [done|]|done].
    intros (_ & _ & Hno). rewrite <-Eaddr in Hno. apply sort_no_duplate in Hno. congruence. }
  apply sort_no_duplate in Edup. rewrite Eaddr in Edup. destruct (Hnd Edup) as [Hid Hver].
  set (l1 := set_next l0 _ _) in *. unfold room in Hroom.
  assert (0 <= k <= Z.of_nat (length req)) as Hk
    by (unfold k; pose proof (length_filter (unknown O) req); lia).
  destruct (adjusted_finish l1 O req news (next_machine_id old) (next_machine_version old))
    as (up & b & j & news' & Hj & -> & E3 & Hcn & Ea' & Hsn & Hcount & Hout);
    try done; try (cbn; lia).
  cbn [mbind option_bind]. rewrite E3. eexists true, _. split; [done|]. split; [done|]. intros _.
  destruct (split_machines (set_next l1 (next_machine_version l1 + j) (next_machine_id l1))
    O news' Hl1) as [F1 F2].
  assert (length news' = length req) as Hlen' by (by rewrite <-(length_fmap addr), Ea', length_fmap).
  rewrite new_machines_distinct, F2. split; [|done].
  apply log_wf_intro; try done; try (cbn; lia).
  - cbn. eapply config_mono; [..|exact Hc]; cbn; lia.
  - rewrite wrap_small by lia. cbn. lia.
Qed.

(** ** Shrinking *)

Lemma config_sublist nid nver ms ms' : ms' `sublist_of` ms -> config nid nver ms -> config nid nver ms'.
Proof.
  intros Hs [H1 H2 H3 H4]. split.
  1-3: eapply sublist_NoDup; [|by apply fmap_sublist]; done.
  apply Forall_forall. intros m Hm. rewrite Forall_forall in H4. apply H4.
  by eapply elem_of_sublist.
Qed.

Lemma same_names_subset nid nver olds news :
  config nid nver olds -> news ⊆ olds -> same_names olds news.
Proof.
  intros Hc Hs a b Ha Hb. split; intros E; rewrite (config_inj nid nver olds a b); auto.
Qed.

Lemma known_none (olds news : list machine) :
  (forall m, m ∈ news -> machine_id m ∈ machine_id <$> olds) ->
  length (filter (fun m => machine_id m ∉ machine_id <$> olds) news) = 0%nat.
Proof.
  induction news as [|m news IH]; intros H; [done|].
  rewrite filter_cons_False by (intros Hn; apply Hn, H; left). apply IH. set_solver.
Qed.

Lemma filter_all {A} (P : A -> Prop) `{!forall x, Decision (P x)} l : Forall P l -> filter P l = l.
Proof. induction 1; [done|]. rewrite filter_cons_True by done. congruence. Qed.

Lemma shrink_core l old t :
  request l old -> new_n l = Z.shiftr (old_n l) 1 ->
  exists ok l', log_complete_change l old t = Some (ok, l') /\
    (ok = true <-> asked l = take (Z.to_nat (new_n l)) (old_machines old)) /\
    (ok = true ->
     log_wf l' /\ type l' = LOG_TYPE_SHRINK /\ old_machines l' = old_machines old /\
     new_machines l' = asked l).
Proof.
  intros Hrq Hn. destruct (request_split l old t Hrq) as (E1 & E2 & Hl1 & Hl2).
  pose proof (wf_old _ (rq_wf _ _ Hrq)) as Hc. destruct (rq_n _ _ Hrq) as (? & ? & ?).
  rewrite Z.shiftr_div_pow2 in Hn by lia. change (2 ^ 1) with 2 in Hn.
  pose proof (Z.div_mod (old_n l) 2 ltac:(lia)). pose proof (Z.mod_pos_bound (old_n l) 2 ltac:(lia)).
  unfold log_complete_change. cbn [new_n old_n __log_complete_unstable].
  destruct (Z.eqb_spec (new_n l) (old_n l)); [lia|].
  rewrite (proj2 (Z.eqb_eq (new_n l) _))
    by (rewrite Z.shiftr_div_pow2 by lia; exact Hn).
  unfold __log_complete_shrink. set (l0 := set_type _ _).
  change (new_machines l0) with (new_machines (__log_complete_unstable l old t)).
  assert (machines l0 = old_machines old ++ asked l) as Em.
  { rewrite <-E1, <-E2. symmetry. apply take_drop. }
  rewrite E2. change (new_n l0) with (new_n l). rewrite Em, take_app_le by lia.
  rewrite (take_ge (asked l)) by lia. unfold machines_cmp.
  case_bool_decide as Heq; cbn [negb].
  2:{ eexists false, _. split; [done|]. split; [|done]. split; [done|]. intros E; by rewrite <-E in Heq. }
  eexists true, _. split; [done|]. split; [done|]. intros _.
  split; [|split_and!; [done|exact E1|exact E2]].
  assert (set_distinct l0 (old_n l0) =
    set_distinct (set_machines l0 (old_machines old ++ asked l)) (old_n l0)) as ->
    by (rewrite <-Em; done).
  assert (asked l `sublist_of` old_machines old) as Hsub by (rewrite <-Heq; apply sublist_take).
  apply log_wf_intro; [done|done|cbn; lia|cbn; lia|done|..].
  - by eapply config_sublist.
  - eapply same_names_subset; [done|]. intros m Hm. by eapply elem_of_sublist.
  - rewrite known_none; [lia|]. intros m Hm. apply list_elem_of_fmap_2. by eapply elem_of_sublist.
Qed.

(** ** Growing *)

Lemma merge_disjoint_spec a b fuel :
  StronglySorted (cmp_le machine_addr_cmp) a -> StronglySorted (cmp_le machine_addr_cmp) b ->
  (length a + length b <= fuel)%nat ->
  exists r, merge_disjoint a b fuel = Some r /\
    (r = true <-> forall x y, x ∈ a -> y ∈ b -> addr x <> addr y).
Proof.
  intros Ha Hb. revert a b Ha Hb. induction fuel as [|fuel IH]; intros a b Ha Hb Hf.
  { destruct a, b; cbn in Hf; try lia. exists true. cbn. set_solver. }
  destruct Ha as [|x a Ha Hxa]; [exists true; cbn; set_solver|].
  destruct Hb as [|y b Hb Hyb]; [exists true; cbn; set_solver|].
  cbn [merge_disjoint]. cbn [length] in Hf.
  assert (forall u v w, memcmp u v < 0 -> memcmp v w <= 0 -> memcmp u w <> 0) as Hlt.
  { intros u v w H1 H2 E%memcmp_eq. subst w. rewrite memcmp_opp in H2. lia. }
  rewrite Forall_forall in Hxa, Hyb. unfold cmp_le, machine_addr_cmp in Hxa, Hyb.
  destruct (Z.ltb_spec (machine_addr_cmp x y) 0) as [E|E].
  - destruct (IH a (y :: b)) as (r & -> & Hr); [done|by constructor; [|apply Forall_forall]|cbn; lia|].
    exists r. split; [done|]. rewrite Hr. split; intros H u v Hu Hv; [|set_solver].
    apply elem_of_cons in Hu as [->|Hu]; [|by apply H].
    rewrite <-memcmp_eq. apply elem_of_cons in Hv as [->|Hv].
    + unfold machine_addr_cmp in E. lia.
    + eapply Hlt; [exact E|]. by apply Hyb.
  - destruct (Z.ltb_spec 0 (machine_addr_cmp x y)) as [E'|E'].
    + destruct (IH (x :: a) b) as (r & -> & Hr); [by constructor; [|apply Forall_forall]|done|cbn; lia|].
      exists r. split; [done|]. rewrite Hr. split; intros H u v Hu Hv; [|set_solver].
      apply elem_of_cons in Hv as [->|Hv]; [|by apply H].
      intros Eq. symmetry in Eq. revert Eq. rewrite <-memcmp_eq.
      assert (memcmp (addr y) (addr x) < 0) as Eyx
        by (rewrite memcmp_opp; unfold machine_addr_cmp in E'; lia).
      apply elem_of_cons in Hu as [->|Hu]; [lia|]. eapply Hlt; [exact Eyx|]. by apply Hxa.
    + exists false. split; [done|]. split; [done|]. intros H. exfalso.
      apply (H x y); [left|left|]. apply machine_addr_cmp_eq. lia.
Qed.

Lemma config_app_fresh l olds ms :
  config (next_machine_id l) (next_machine_version l) olds -> fresh_from l ms ->
  0 <= next_machine_id l -> 0 <= next_machine_version l ->
  NoDup (addr <$> ms) -> (forall x y, x ∈ olds -> y ∈ ms -> addr x <> addr y) ->
  config (next_machine_id l + Z.of_nat (length ms))
    (next_machine_version l + Z.of_nat (length ms)) (olds ++ ms) /\
  same_names olds (olds ++ ms).
Proof.
  intros Hc Hf Hi0 Hv0 Hnd Hdis. pose proof Hc as [H1 H2 H3 H4]. pose proof Hf as [Hi Hv].
  assert (forall {B} (f : machine -> B), NoDup (f <$> olds) -> NoDup (f <$> ms) ->
    (forall x y, x ∈ olds -> y ∈ ms -> f x <> f y) -> NoDup (f <$> olds ++ ms)) as Happ.
  { intros B f Ho Hm Hne. rewrite fmap_app. apply NoDup_app. split_and!; try done.
    intros v (x & -> & Hx)%list_elem_of_fmap (y & E & Hy)%list_elem_of_fmap. by apply (Hne x y). }
  assert (forall x y, x ∈ olds -> y ∈ ms ->
    machine_id x <> machine_id y /\ version x <> version y) as Hne.
  { intros x y Hx Hy. destruct (config_range _ _ _ _ Hc Hx), (fresh_from_range _ _ _ Hf Hy). lia. }
  split.
  - split; [by apply Happ| | |].
    + apply Happ; [done|rewrite Hi; apply shift_zrange_NoDup|naive_solver].
    + apply Happ; [done|rewrite Hv; apply shift_zrange_NoDup|naive_solver].
    + apply Forall_forall. intros m [Hm|Hm]%elem_of_app.
      * destruct (config_range _ _ _ _ Hc Hm). lia.
      * destruct (fresh_from_range _ _ _ Hf Hm). lia.
  - intros a b Ha [Hb|Hb]%elem_of_app.
    + split; intros E; rewrite (config_inj _ _ olds a b Hc); auto.
    + pose proof (Hne a b Ha Hb). pose proof (Hdis a b Ha Hb). tauto.
Qed.

(** A request for twice as many machines is a growth. *)
Lemma change_is_grow l old t :
  0 < old_n l < 2 ^ 31 -> new_n l = 2 * old_n l ->
  log_complete_change l old t =
    __log_complete_grow (set_type (__log_complete_unstable l old t) LOG_TYPE_GROW).
Proof.
  intros Ho Hn. unfold log_complete_change. cbn [new_n old_n __log_complete_unstable].
  destruct (Z.eqb_spec (new_n l) (old_n l)); [lia|].
  assert (Z.shiftr (old_n l) 1 <= old_n l) as Hsh
    by (rewrite Z.shiftr_div_pow2 by lia; apply Z.div_le_upper_bound; lia).
  destruct (Z.eqb_spec (new_n l) (Z.shiftr (old_n l) 1)); [lia|].
  rewrite Z.shiftl_mul_pow2, wrap_small by lia. by rewrite (proj2 (Z.eqb_eq (new_n l) _)) by lia.
Qed.

(** Machines with fresh ids are the ones an old configuration does not know. *)
Lemma unknown_fresh l nver olds ms :
  config (next_machine_id l) nver olds -> fresh_from l ms ->
  length (filter (fun m => machine_id m ∉ machine_id <$> olds) (olds ++ ms)) = length ms.
Proof.
  intros Hc Hf. rewrite filter_app, length_app, known_none by (intros; by apply list_elem_of_fmap_2).
  rewrite filter_all; [done|]. apply Forall_forall. intros m Hm (a & E & Ha)%list_elem_of_fmap.
  destruct (config_range _ _ _ _ Hc Ha), (fresh_from_range _ _ _ Hf Hm) as [Hid _]. lia.
Qed.

(** Sorting does not change whether the addresses of two lists are distinct. *)
Lemma disjoint_nodup (ms ms' : list machine) :
  NoDup (addr <$> ms) -> NoDup (addr <$> ms') ->
  (forall x y, x ∈ machines_sort_by_addr ms -> y ∈ machines_sort_by_addr ms' -> addr x <> addr y) <->
  NoDup (addr <$> ms ++ ms').
Proof.
  intros Hn Hn'. rewrite fmap_app, NoDup_app. split.
  - intros Hd. split_and!; try done.
    intros v (x & -> & Hx)%list_elem_of_fmap (y & E & Hy)%list_elem_of_fmap.
    apply (Hd x y); [by rewrite sort_perm..|done].
  - intros (_ & Hd & _) x y. rewrite !sort_perm. intros Hx Hy E.
    apply (Hd (addr x)); [by apply list_elem_of_fmap_2|]. rewrite E. by apply list_elem_of_fmap_2.
Qed.

Lemma grow_core l old t :
  request l old -> new_n l = 2 * old_n l ->
  exists ok l', log_complete_change l old t = Some (ok, l') /\
    (ok = true <-> take (Z.to_nat (old_n l)) (asked l) = old_machines old /\
                   NoDup (addr <$> asked l)) /\
    (ok = true ->
     log_wf l' /\ type l' = LOG_TYPE_GROW /\ old_machines l' = old_machines old /\
     take (Z.to_nat (old_n l)) (new_machines l') = old_machines old /\
     addr <$> new_machines l' ≡ₚ addr <$> asked l).
Proof.
  intros Hrq Hn. destruct (request_split l old t Hrq) as (E1 & E2 & Hl1 & Hl2).
  pose proof (wf_old _ (rq_wf _ _ Hrq)) as Hc. destruct (rq_n _ _ Hrq) as (? & ? & ?).
  pose proof (rq_room _ _ Hrq) as Hroom. unfold room in Hroom.
  rewrite change_is_grow by lia. unfold __log_complete_grow.
  set (l0 := set_type _ _).
  change (new_machines l0) with (new_machines (__log_complete_unstable l old t)).
  change (old_machines l0) with (old_machines (__log_complete_unstable l old t)).
  change (old_n l0) with (old_n l). rewrite E1, E2.
  set (O := old_machines old) in *. set (N := Z.to_nat (old_n l)) in *.
  unfold machines_cmp. case_bool_decide as Heq; cbn [negb].
  2:{ eexists false, _. split; [done|]. split; [|done]. split; [done|]. tauto. }
  set (extra := drop N (asked l)). rewrite Heq.
  assert (asked l = O ++ extra) as Hasked by (rewrite <-Heq; symmetry; apply take_drop).
  destruct (sorted_by_addr_duplate (machines_sort_by_addr extra)) eqn:Edup.
  { eexists false, _. split; [done|]. split; [|done]. split; [done|]. intros [_ Hnd].
    rewrite Hasked, fmap_app in Hnd. apply NoDup_app in Hnd as (_ & _ & Hnd).
    apply sort_no_duplate in Hnd. congruence. }
  apply sort_no_duplate in Edup.
  destruct (merge_disjoint_spec (machines_sort_by_addr O) (machines_sort_by_addr extra)
    (length (machines_sort_by_addr O) + length (machines_sort_by_addr extra)))
    as (r & -> & Hr); [apply sort_sorted|apply sort_sorted|done|]. cbn [mbind option_bind].
  pose proof (disjoint_nodup O extra (cf_addr _ _ _ Hc) Edup) as Hiff. rewrite <-Hasked in Hiff.
  rewrite Hiff in Hr. destruct r.
  2:{ eexists false, _. split; [done|]. split; [|done]. split; [done|]. tauto. }
  assert (length extra = N) as Hle by (unfold extra; rewrite length_drop; lia).
  assert (length (machines_sort_by_addr extra) = N) as Hls by (by rewrite sort_perm).
  destruct (init_machines_spec l0 (machines_sort_by_addr extra))
    as (extra' & -> & Ea & Hlen & Hfresh).
  { rewrite Hls. unfold room. cbn. lia. }
  rewrite Hls in *.
  destruct (config_app_fresh l0 O extra') as [Hcn Hsn]; [done|done|cbn; lia|cbn; lia| | |].
  { rewrite Ea. by rewrite sort_perm. }
  { intros x y Hx (i & Hy)%list_elem_of_lookup.
    assert (addr y ∈ addr <$> machines_sort_by_addr extra) as (z & -> & Hz)%list_elem_of_fmap.
    { rewrite <-Ea. apply list_elem_of_fmap_2. by eapply list_elem_of_lookup_2. }
    apply (proj2 Hiff (proj1 Hr eq_refl)); [by rewrite sort_perm|done]. }
  rewrite Hlen in Hcn. eexists true, _. split; [done|]. split; [tauto|]. intros _.
  set (l1 := set_next l0 _ _). destruct (split_machines l1 O (O ++ extra') Hl1) as [F1 F2].
  rewrite new_machines_distinct, F2. split; [|split_and!; [done|exact F1|by apply take_app_length'|]].
  - apply log_wf_intro; [done|cbn; rewrite length_app; lia|cbn; lia|cbn; lia|..|done|].
    + eapply config_mono; [..|exact Hc]; cbn; lia.
    + exact Hcn.
    + change (new_n l0 = old_n l0 + Z.of_nat (length (filter
        (fun m => machine_id m ∉ machine_id <$> O) (O ++ extra')))).
      rewrite (unknown_fresh l0 _ _ _ Hc Hfresh). cbn. lia.
  - rewrite Hasked, !fmap_app, Ea. by rewrite sort_perm.
Qed.

(** ** Completing a grow *)

Lemma reset_versions_spec l ms :
  0 <= next_machine_version l ->
  next_machine_version l + Z.of_nat (length ms) < 2 ^ 64 ->
  exists ms',
    reset_versions l ms =
      (set_next l (next_machine_version l + Z.of_nat (length ms)) (next_machine_id l), ms') /\
    addr <$> ms' = addr <$> ms /\ machine_id <$> ms' = machine_id <$> ms /\
    version <$> ms' = Z.add (next_machine_version l) <$> zrange (length ms).
Proof.
  revert l. induction ms as [|m ms IH]; intros l Hv Hr.
  { exists []. cbn. rewrite Z.add_0_r, set_next_same. done. }
  cbn [length] in Hr |- *. cbn [reset_versions log_machine_reset_version].
  rewrite wrap_small by lia.
  destruct (IH (set_next l (next_machine_version l + 1) (next_machine_id l)))
    as (ms' & -> & Ha & Hi & Hver); [cbn; lia|cbn; lia|]. cbn in Ha, Hi, Hver.
  exists (set_version m (next_machine_version l) :: ms'). rewrite !fmap_cons, Ha, Hi, Hver.
  rewrite shift_zrange. split_and!; [|done..]. cbn. do 2 f_equal. lia.
Qed.

(** A stable log with [n] machines. *)
Definition stable (l : log) : Prop := log_wf l /\ new_n l = 0 /\ 0 < old_n l < 2 ^ 31.

Lemma complete_unstable_old l old t :
  old_n l = old_n old -> log_wf old ->
  old_machines (__log_complete_unstable l old t) = old_machines old.
Proof.
  intros E Hwf. unfold old_machines at 1. cbn. pose proof (wf_old_n _ Hwf).
  rewrite take_app_length' by lia. done.
Qed.

(** Renewed machines: same names, other versions. *)
Lemma config_renamed nid nver O nver' news :
  config nid nver O -> addr <$> news = addr <$> O -> machine_id <$> news = machine_id <$> O ->
  NoDup (version <$> news) -> (forall y, y ∈ news -> 0 <= version y < nver') ->
  config nid nver' news.
Proof.
  intros Hc Ha Hi Hv Hr. split; [rewrite Ha; apply Hc|rewrite Hi; apply Hc|done|].
  apply Forall_forall. intros y Hy. split; [|by apply Hr].
  assert (machine_id y ∈ machine_id <$> O) as (o & -> & Ho)%list_elem_of_fmap
    by (rewrite <-Hi; by apply list_elem_of_fmap_2).
  by destruct (config_range _ _ _ _ Hc Ho).
Qed.

Lemma same_names_pointwise nid nver O news :
  config nid nver O -> addr <$> news = addr <$> O -> machine_id <$> news = machine_id <$> O ->
  same_names O news.
Proof.
  intros Hc Ha Hi a b HaO (i & Hb)%list_elem_of_lookup.
  assert (exists o, O !! i = Some o /\ addr b = addr o /\ machine_id b = machine_id o)
    as (o & Ho & -> & ->).
  { assert ((addr <$> news) !! i = (addr <$> O) !! i) as E1 by (by rewrite Ha).
    assert ((machine_id <$> news) !! i = (machine_id <$> O) !! i) as E2 by (by rewrite Hi).
    rewrite !list_lookup_fmap, Hb in E1. rewrite !list_lookup_fmap, Hb in E2. destruct (O !! i) as [o|]; [|done].
    exists o. by simplify_eq/=. }
  apply list_elem_of_lookup_2 in Ho.
  split; intros E; rewrite (config_inj nid nver O a o); auto.
Qed.

Lemma grow_complete_core malloc transform t :
  stable transform -> room transform (length (old_machines transform)) ->
  match log_malloc_grow_complete malloc transform t with
  | None => malloc (u64 (sizeof_log + u64 (MACHINE_SIZE * u32 (old_n transform + old_n transform)))) = None
  | Some l =>
      log_wf l /\ type l = LOG_TYPE_GROW_COMPLETE /\
      old_machines l = old_machines transform /\
      addr <$> new_machines l = addr <$> old_machines transform /\
      machine_id <$> new_machines l = machine_id <$> old_machines transform /\
      forall i o n, old_machines l !! i = Some o -> new_machines l !! i = Some n ->
        if (i <? length (old_machines l) / 2)%nat
        then next_machine_version transform <= version n else n = o
  end.
Proof.
  intros (Hwf & Hn0 & Hn) Hroom. unfold log_malloc_grow_complete, log_malloc_unstable, log_malloc.
  destruct (malloc _) as [blk|]; [|done].
  set (l0 := set_type _ _).
  assert (old_machines l0 = old_machines transform) as E1
    by (apply (complete_unstable_old (set_n (set_refcount blk 0) _ _)); done).
  pose proof (wf_old_n _ Hwf) as Hlen. pose proof (wf_old _ Hwf) as Hc.
  rewrite E1. set (O := old_machines transform) in *. set (k := Z.to_nat (Z.shiftr (old_n transform) 1)).
  assert (k = length O / 2)%nat as Hk.
  { unfold k. rewrite Z.shiftr_div_pow2 by lia. change (2 ^ 1) with 2.
    rewrite <-Hlen. change 2 with (Z.of_nat 2). rewrite <-Nat2Z.inj_div. lia. }
  assert (length O / 2 <= length O)%nat as Hle by (apply Nat.Div0.div_le_upper_bound; lia).
  assert (length (take k O) = k) as Htk by (rewrite length_take; lia). unfold room in Hroom.
  destruct (reset_versions_spec l0 (take k O)) as (ms & -> & Ea & Ei & Ev); [cbn; lia|cbn; lia|].
  rewrite Htk in *. assert (length ms = k) as Hms by (rewrite <-Htk, <-(length_fmap addr ms), Ea, length_fmap; done).
  set (l1 := set_next l0 _ _).
  destruct (split_machines l1 O (ms ++ drop k O)) as [F1 F2]; [cbn; lia|].
  set (l2 := set_distinct _ _).
  assert (old_machines l2 = O) as G1 by exact F1.
  assert (new_machines l2 = ms ++ drop k O) as G2 by exact F2.
  assert (addr <$> ms ++ drop k O = addr <$> O) as Ha
    by (rewrite fmap_app, Ea, <-fmap_app, take_drop; done).
  assert (machine_id <$> ms ++ drop k O = machine_id <$> O) as Hi
    by (rewrite fmap_app, Ei, <-fmap_app, take_drop; done).
  assert (forall y, y ∈ ms -> next_machine_version transform <= version y <
            next_machine_version transform + Z.of_nat k) as Hfr.
  { intros y Hy. rewrite <-elem_of_shift_zrange.
    change (next_machine_version transform) with (next_machine_version l0). rewrite <-Ev.
    by apply list_elem_of_fmap_2. }
  rewrite G1, G2. split; [|split_and!; [done..|]].
  - apply log_wf_intro; [cbn; lia|rewrite length_app, length_drop; cbn; lia|cbn; lia|cbn; lia|..].
    + eapply config_mono; [..|exact Hc]; cbn; lia.
    + apply (config_renamed (next_machine_id transform) (next_machine_version transform) O); try done.
      * rewrite fmap_app, Ev. apply NoDup_app. split_and!.
        -- apply shift_zrange_NoDup.
        -- intros v Hv (y & -> & Hy)%list_elem_of_fmap. apply elem_of_shift_zrange in Hv.
           destruct (config_range _ _ _ _ Hc (elem_of_sublist _ _ _ Hy (sublist_drop _ _))).
           cbn in Hv. lia.
        -- eapply sublist_NoDup; [apply (cf_version _ _ _ Hc)|]. apply fmap_sublist, sublist_drop.
      * intros y [Hy|Hy]%elem_of_app; [specialize (Hfr y Hy); cbn; lia|].
        destruct (config_range _ _ _ _ Hc (elem_of_sublist _ _ _ Hy (sublist_drop _ _))). cbn. lia.
    + by eapply same_names_pointwise.
    + rewrite known_none; [cbn; lia|]. intros m Hm. rewrite <-Hi. by apply list_elem_of_fmap_2.
  - intros i o n Ho Hn'. rewrite <-Hk. destruct (Nat.ltb_spec i k) as [Hik|Hik].
    + rewrite lookup_app_l in Hn' by lia. apply Hfr. by eapply list_elem_of_lookup_2.
    + rewrite lookup_app_r, lookup_drop in Hn' by lia. replace (k + (i - length ms))%nat with i in Hn' by lia.
      congruence.
Qed.

(** ** Changing availability *)

(** The machines [log_malloc_change_available] prepares: the old ones with new
    stabilities. *)
Definition restated (olds news : list machine) : Prop :=
  Forall2 (fun o n => n = set_stability o (stability n)) olds news.

Lemma restated_facts olds news :
  restated olds news ->
  addr <$> news = addr <$> olds /\ machine_id <$> news = machine_id <$> olds /\
  version <$> news = version <$> olds.
Proof.
  intros H. split_and!; apply Forall2_fmap_eq; (eapply Forall2_impl; [exact H|]);
    intros o n ->; done.
Qed.

Lemma change_available_core l old t :
  request l old -> new_n l = old_n l -> restated (old_machines old) (asked l) ->
  (exists i o n, old_machines old !! i = Some o /\ asked l !! i = Some n /\
     machine_available n <> machine_available o) ->
  type old = LOG_TYPE_OLD \/ type old = LOG_TYPE_GROW_TRANSFORM ->
  exists l', log_complete_change_available l old t = Some l' /\ log_wf l' /\
    type l' = (if type old =? LOG_TYPE_OLD then LOG_TYPE_CHANGE_AVAILABLE
               else LOG_TYPE_GROW_CHANGE_AVAILABLE) /\
    old_machines l' = old_machines old /\
    machine_id <$> new_machines l' = machine_id <$> old_machines old /\
    machine_available <$> new_machines l' = machine_available <$> asked l /\
    ring_outcome available_changed old_available (next_machine_version old)
      (old_machines old) (new_machines l').
Proof.
  intros Hrq Hn Hre Hch Hty. destruct (request_split l old t Hrq) as (E1 & E2 & Hl1 & Hl2).
  pose proof (wf_old _ (rq_wf _ _ Hrq)) as Hc. destruct (rq_n _ _ Hrq) as (? & _ & ?).
  pose proof (rq_room _ _ Hrq) as Hroom. unfold room in Hroom.
  destruct (restated_facts _ _ Hre) as (Ra & Ri & Rv).
  unfold log_complete_change_available. set (ty := if type old =? LOG_TYPE_OLD
    then LOG_TYPE_CHANGE_AVAILABLE else LOG_TYPE_GROW_CHANGE_AVAILABLE).
  assert ((if type old =? LOG_TYPE_OLD
    then Some (set_type (__log_complete_unstable l old t) LOG_TYPE_CHANGE_AVAILABLE)
    else guard (type old = LOG_TYPE_GROW_TRANSFORM);;
         Some (set_type (__log_complete_unstable l old t) LOG_TYPE_GROW_CHANGE_AVAILABLE))
    = Some (set_type (__log_complete_unstable l old t) ty)) as ->.
  { unfold ty. destruct (Z.eqb_spec (type old) LOG_TYPE_OLD); [done|].
    by rewrite option_guard_True by tauto. }
  cbn [mbind option_bind]. set (l0 := set_type _ _).
  change (old_machines l0) with (old_machines (__log_complete_unstable l old t)).
  change (new_machines l0) with (new_machines (__log_complete_unstable l old t)).
  rewrite E1, E2. set (O := old_machines old) in *. set (news := asked l) in *.
  destruct Hch as (i & o & n & Ho & Hni & Hne).
  rewrite option_guard_True.
  2:{ unfold machines_cmp. rewrite bool_decide_false; [done|]. intros E. rewrite <-E in Hni. congruence. }
  cbn [mbind option_bind].
  rewrite (ring_first_spec _ _ old_available).
  2:{ intros j a b _ _. unfold available_stop, available_changed, old_available.
      by destruct (machine_available a), (machine_available b). }
  destruct (decide_first_some available_changed old_available O news) as [up Hup]; [lia| |].
  { exists i, o, n. split_and!; [done..|]. unfold available_changed.
    by destruct (machine_available n), (machine_available o). }
  rewrite Hup. cbn [mbind option_bind].
  destruct (ring_finish available_changed old_available l0 up O news (next_machine_version old))
    as (j & b & news' & Hj & -> & Hcn' & Ea' & Ei' & HF' & Hout); try done; try (cbn; lia).
  { intros a m m' _ Em. unfold available_changed, old_available. by rewrite Em. }
  { apply (config_renamed (next_machine_id old) (next_machine_version old) O); try done.
    - rewrite Rv. apply Hc.
    - intros y Hy. assert (version y ∈ version <$> O) as (a & -> & Ha)%list_elem_of_fmap
        by (rewrite <-Rv; by apply list_elem_of_fmap_2).
      by destruct (config_range _ _ _ _ Hc Ha). }
  { intros k a m Hk Hm _. by rewrite (Forall2_lookup_lr _ _ _ _ _ _ Hre Hk Hm). }
  eexists. split; [done|].
  destruct (split_machines (set_next l0 (next_machine_version l0 + j) (next_machine_id l0))
    O news' Hl1) as [F1 F2].
  assert (length news' = length news) as Hlen' by (symmetry; eapply Forall2_length; exact HF').
  rewrite !new_machines_distinct, !F2, Ei', Ri. split; [|split_and!; try done].
  - apply log_wf_intro; [done|cbn; lia|cbn; lia|cbn; lia|..].
    + eapply config_mono; [..|exact Hc]; cbn; lia.
    + exact Hcn'.
    + eapply same_names_pointwise; [exact Hc|..]; congruence.
    + rewrite known_none; [cbn; lia|]. intros m Hm. rewrite <-Ri, <-Ei'. by apply list_elem_of_fmap_2.
  - apply Forall2_fmap_eq. eapply Forall2_impl; [exact HF'|]. naive_solver.
Qed.

(** ** Making a log stable *)

Lemma stable_intro l :
  Z.of_nat (length (machines l)) = old_n l -> new_n l = 0 -> 0 < old_n l < 2 ^ 31 ->
  config (next_machine_id l) (next_machine_version l) (machines l) ->
  distinct_machines_n l = old_n l ->
  stable l /\ old_machines l = machines l.
Proof.
  intros Hlen Hn Ho Hc Hd.
  assert (old_machines l = machines l) as E1 by (apply take_ge; lia).
  assert (new_machines l = []) as E2 by (apply drop_ge; lia).
  split; [|done]. split; [|done]. split; rewrite ?E1, ?E2.
  - done.
  - done.
  - done.
  - split; constructor.
  - intros a b _ Hb. by apply elem_of_nil in Hb.
  - pose proof (ids_size (machines l) []) as Hs. rewrite app_nil_r in Hs. rewrite Hd, <-Hlen, Hs.
    + cbn. lia.
    + apply Hc.
    + constructor.
Qed.

Lemma stable_core malloc l l' :
  log_wf l -> 0 < new_n l < 2 ^ 31 -> log_malloc_stable malloc l = Some l' ->
  stable l' /\ old_machines l' = new_machines l.
Proof.
  intros Hwf Hn. unfold log_malloc_stable. destruct (log_malloc _ _) as [b|]; [|done].
  intros [= <-]. pose proof (wf_new_n _ Hwf) as Hlen. set (l' := Build_log _ _ _ _ _ _ _ _ _ _ _).
  assert (machines l' = new_machines l) as Em.
  { cbn. unfold MACHINE_SIZE. rewrite wrap_small by lia.
    rewrite (Z.mul_comm 40), Z.div_mul by lia. apply take_ge. lia. }
  destruct (stable_intro l') as [Hs Ho]; [rewrite Em; done|done|cbn; lia| |done|].
  - rewrite Em. apply Hwf.
  - split; [done|]. by rewrite Ho.
Qed.

(** ** The first log *)

Lemma init_core l :
  next_machine_id l = 1 -> next_machine_version l = 1 -> new_n l = 0 ->
  Z.of_nat (length (machines l)) = old_n l -> 0 < old_n l < 2 ^ 31 ->
  distinct_machines_n l = old_n l ->
  let '(ok, l') := log_complete_init l in
  (ok = true <-> NoDup (addr <$> machines l)) /\
  (ok = true ->
   stable l' /\ addr <$> machines l' ≡ₚ addr <$> machines l /\
   StronglySorted (cmp_le machine_addr_cmp) (machines l')).
Proof.
  intros Hi Hv Hn Hlen Ho Hd. unfold log_complete_init.
  assert (old_machines l = machines l) as -> by (apply take_ge; lia).
  destruct (init_machines_spec l (machines l)) as (ms & -> & Ea & Hl & Hf); [unfold room; lia|].
  set (l1 := set_next l _ _).
  assert (new_machines l1 = []) as -> by (apply drop_ge; cbn; lia). rewrite app_nil_r.
  assert (negb (sorted_by_addr_duplate (machines_sort_by_addr ms)) = true <->
    NoDup (addr <$> machines l)) as Hok
    by (rewrite negb_true_iff, sort_no_duplate, Ea; done).
  split; [done|]. rewrite Hok. intros Hnd. split_and!; [| |apply sort_sorted].
  - apply stable_intro; [cbn; rewrite sort_perm; lia|done|done| |done]. cbn.
    destruct (config_app_fresh l [] ms) as [Hc _]; [split; constructor|done|lia|lia|by rewrite Ea|set_solver|].
    rewrite Hl in Hc. destruct Hc as [H1 H2 H3 H4].
    split; [by rewrite sort_perm..|]. by rewrite sort_perm.
  - cbn. rewrite sort_perm, Ea. done.
Qed.

(** ** The life of a cluster's log *)

(** Except in an adjustment, one configuration starts with the machines of the
    other. *)
Definition aligned (l : log) : Prop :=
  type l <> LOG_TYPE_ADJUST ->
  let k := Nat.min (length (old_machines l)) (length (new_machines l)) in
  machine_id <$> take k (old_machines l) = machine_id <$> take k (new_machines l).

Lemma aligned_stable l : stable l -> aligned l.
Proof.
  intros (Hwf & Hn & _) _. cbv zeta. pose proof (wf_new_n _ Hwf).
  replace (Nat.min _ _) with 0%nat by lia. done.
Qed.

Lemma aligned_same l :
  machine_id <$> new_machines l = machine_id <$> old_machines l -> aligned l.
Proof.
  intros E _. cbv zeta.
  assert (length (new_machines l) = length (old_machines l)) as Hl
    by (by rewrite <-(length_fmap machine_id), E, length_fmap).
  rewrite Hl, Nat.min_id, !take_ge by lia. done.
Qed.

(** The logs a cluster can be built from. *)
Definition electable (l : log) : Prop :=
  log_wf l /\ aligned l /\ (type l = LOG_TYPE_ADJUST -> new_n l = old_n l) /\
  0 < old_n l < 2 ^ 31 /\ 0 <= new_n l < 2 ^ 31.

(** A stable log lists one configuration, an unstable one two. *)
Definition shape (l : log) : Prop :=
  (stable l /\ (type l = LOG_TYPE_OLD \/ type l = LOG_TYPE_GROW_TRANSFORM)) \/
  (electable l /\ 0 < new_n l /\
   Z.land (type l) LOG_TYPE_UNSTABLE_MASK <> 0 /\ 0 <= type l <= 8).

Lemma shape_electable l : shape l -> electable l.
Proof.
  intros [[Hs Ht]|[He _]]; [|done]. pose proof Hs as (Hwf & Hn & Ho). unfold electable.
  split; [done|]. split; [by apply aligned_stable|]. rewrite Hn.
  split; [destruct Ht as [-> | ->]; done|]. done.
Qed.

(** An unstable log that renews the machines of a stable one. *)
Lemma electable_renewed old l :
  stable old -> log_wf l -> old_machines l = old_machines old ->
  machine_id <$> new_machines l = machine_id <$> old_machines old ->
  electable l /\ 0 < new_n l.
Proof.
  intros (Hwf0 & _ & Hon) Hwf Ho Hid.
  pose proof (wf_new_n _ Hwf). pose proof (wf_old_n _ Hwf) as Ho'. pose proof (wf_old_n _ Hwf0).
  rewrite Ho in Ho'. assert (length (new_machines l) = length (old_machines old))
    by (by rewrite <-(length_fmap machine_id), Hid, length_fmap).
  split; [|lia]. split_and!; try done; try lia. apply aligned_same. by rewrite Hid, Ho.
Qed.

Section life.
Context (malloc : Z -> option log).

(** The transitions a leader makes: an administrator's change, a change of
    availability, the completion of a grow, the commit of an unstable log, and
    the new term of an unstable log after an election. *)
Inductive log_step : log -> log -> Prop :=
| step_change old blk t l :
    type old = LOG_TYPE_OLD ->
    old_n blk = old_n old -> Z.of_nat (length (machines blk)) = old_n blk + new_n blk ->
    0 <= new_n blk < 2 ^ 32 -> machines_size_valid (MACHINE_SIZE * new_n blk) = true ->
    room old (Z.to_nat (old_n blk + new_n blk)) ->
    log_complete_change blk old t = Some (true, l) -> log_step old l
| step_available old blk t l :
    Z.land (type old) LOG_TYPE_UNSTABLE_MASK = 0 ->
    old_n blk = old_n old -> new_n blk = old_n old ->
    Z.of_nat (length (machines blk)) = old_n blk + new_n blk ->
    Forall2 (fun o n => exists available, n = machine_set_stability o available)
      (old_machines old) (asked blk) ->
    Forall (fun o => 0 <= machine_stability o < 2 ^ 64 - 1) (old_machines old) ->
    room old (Z.to_nat (old_n blk + new_n blk)) ->
    log_complete_change_available blk old t = Some l -> log_step old l
| step_grow_complete old t l :
    type old = LOG_TYPE_GROW_TRANSFORM -> room old (length (old_machines old)) ->
    log_malloc_grow_complete malloc old t = Some l -> log_step old l
| step_commit old l :
    Z.land (type old) LOG_TYPE_UNSTABLE_MASK <> 0 ->
    log_malloc_stable malloc old = Some l -> log_step old l
| step_elected old t l :
    Z.land (type old) LOG_TYPE_UNSTABLE_MASK <> 0 ->
    l = {| refcount := refcount old; index := u64 (index old + 1); term := t;
           log_version := log_version old;
           next_machine_version := next_machine_version old;
           next_machine_id := next_machine_id old; type := type old;
           old_n := old_n old; new_n := new_n old;
           distinct_machines_n := distinct_machines_n old; machines := machines old |} ->
    log_step old l.

Lemma stable_type t :
  0 <= t <= 8 -> Z.land t LOG_TYPE_UNSTABLE_MASK <> 0 ->
  Z.land t (Z.lnot LOG_TYPE_UNSTABLE_MASK) = LOG_TYPE_OLD \/
  Z.land t (Z.lnot LOG_TYPE_UNSTABLE_MASK) = LOG_TYPE_GROW_TRANSFORM.
Proof.
  intros H _. unfold LOG_TYPE_UNSTABLE_MASK. change 14 with (Z.lor 14 0).
  assert (t = 0 \/ t = 1 \/ t = 2 \/ t = 3 \/ t = 4 \/ t = 5 \/ t = 6 \/ t = 7 \/ t = 8)
    as [->|[->|[->|[->|[->|[->|[->|[->| ->]]]]]]]] by lia; vm_compute; auto.
Qed.

Lemma unstable_request old blk :
  stable old -> old_n blk = old_n old ->
  Z.of_nat (length (machines blk)) = old_n blk + new_n blk -> 0 <= new_n blk ->
  room old (Z.to_nat (old_n blk + new_n blk)) -> request blk old.
Proof. intros (? & ? & ?) ? ? ? ?. split; try done. lia. Qed.

(** A restated machine whose record differs differs in availability. *)
Lemma restated_of_set O news :
  Forall2 (fun o n => exists available, n = machine_set_stability o available) O news ->
  Forall (fun o => 0 <= machine_stability o < 2 ^ 64 - 1) O ->
  restated O news /\
  (O <> news -> exists i o n, O !! i = Some o /\ news !! i = Some n /\
                  machine_available n <> machine_available o).
Proof.
  intros HF Hr. induction HF as [|o n O news [b ->] _ IH]; [split; [constructor|done]|].
  apply Forall_cons in Hr as [Ho Hr]. destruct (IH Hr) as [Hre Hex]. split.
  { constructor; [|done]. unfold machine_set_stability. case_match; [done|]. by destruct o. }
  intros Hne. destruct (decide (O = news)) as [->|HO].
  - exists 0%nat, o, (machine_set_stability o b). split_and!; [done..|].
    destruct (set_stability_facts o b Ho) as [-> _].
    intros Eb. apply Hne. f_equal. unfold machine_set_stability. unfold machine_available in Eb.
    by rewrite <-Eb, eqb_reflx.
  - destruct (Hex HO) as (i & a & c & ? & ? & ?). by exists (S i), a, c.
Qed.
Lemma change_cases blk old t l :
  request blk old -> 0 < new_n blk < 2 ^ 31 -> log_complete_change blk old t = Some (true, l) ->
  electable l /\ 0 < new_n l /\
  (type l = LOG_TYPE_ADJUST \/ type l = LOG_TYPE_SHRINK \/ type l = LOG_TYPE_GROW).
Proof.
  intros Hrq Hn E. destruct (request_split blk old t Hrq) as (_ & _ & Hlo & Hl).
  destruct (rq_n _ _ Hrq) as (? & _ & ?).
  assert (forall l', log_wf l' -> aligned l' -> old_machines l' = old_machines old ->
            length (new_machines l') = length (asked blk) ->
            (type l' = LOG_TYPE_ADJUST -> new_n blk = old_n blk) ->
            electable l' /\ 0 < new_n l') as Hel.
  { intros l' Hwf Hal Ho Heq Hadj. pose proof (wf_new_n _ Hwf). pose proof (wf_old_n _ Hwf) as Ho'.
    rewrite Ho in Ho'. split; [|lia]. split_and!; try done; try lia. }
  enough ((electable l /\ 0 < new_n l) /\ (type l = LOG_TYPE_ADJUST \/ type l = LOG_TYPE_SHRINK \/
    type l = LOG_TYPE_GROW)) by tauto.
  destruct (decide (new_n blk = old_n blk)) as [H1|H1].
  { destruct (adjust_core blk old t Hrq H1) as (ok & l' & E' & _ & Hok). simplify_eq.
    destruct (Hok eq_refl) as (Hwf & Ht & Ho & Ha & _). split; [|by left].
    apply Hel; try done; [by intros ?|]. by rewrite <-(length_fmap addr), Ha, length_fmap. }
  destruct (decide (new_n blk = Z.shiftr (old_n blk) 1)) as [H2|H2].
  { destruct (shrink_core blk old t Hrq H2) as (ok & l' & E' & Hiff & Hok). simplify_eq.
    destruct (Hok eq_refl) as (Hwf & Ht & Ho & Ha). pose proof (proj1 Hiff eq_refl) as Hp.
    split; [|auto]. apply Hel; try done; [|by rewrite Ha|by rewrite Ht].
    intros _. cbv zeta. rewrite Ho, Ha. rewrite Nat.min_r by (rewrite Hp, length_take; lia).
    rewrite (take_ge (asked blk)), Hl by lia. by rewrite Hp. }
  destruct (decide (new_n blk = 2 * old_n blk)) as [H3|H3].
  { destruct (grow_core blk old t Hrq H3) as (ok & l' & E' & _ & Hok). simplify_eq.
    destruct (Hok eq_refl) as (Hwf & Ht & Ho & Htk & Ha).
    assert (length (new_machines l) = length (asked blk)) as Hlen
      by (by rewrite <-(length_fmap addr), Ha, length_fmap).
    split; [|auto]. apply Hel; try done; [|by rewrite Ht].
    intros _. cbv zeta. rewrite Ho, Nat.min_l by lia. rewrite take_ge by lia.
    rewrite <-Htk at 1. do 2 f_equal. lia. }
  exfalso. unfold log_complete_change in E. cbn [new_n old_n __log_complete_unstable] in E.
  rewrite !(proj2 (Z.eqb_neq _ _)) in E; try done.
  rewrite Z.shiftl_mul_pow2, wrap_small by lia. lia.
Qed.

(** A change of availability is only made when some machine changed. *)
Lemma available_differs blk old t l :
  request blk old -> log_complete_change_available blk old t = Some l ->
  old_machines old <> asked blk.
Proof.
  intros Hrq E Heq. destruct (request_split blk old t Hrq) as (E1 & E2 & _).
  unfold log_complete_change_available in E. apply bind_Some in E as (l1 & E' & E).
  assert (old_machines l1 = old_machines old /\ new_machines l1 = asked blk) as [F1 F2].
  { case_match; [by simplify_eq|]. apply bind_Some in E' as (_ & _ & E'). by simplify_eq. }
  rewrite F1, F2, Heq in E. unfold machines_cmp in E. rewrite bool_decide_true in E by done. done.
Qed.

Lemma log_step_shape old l : shape old -> log_step old l -> shape l.
Proof.
  intros Hsh Hst.
  destruct Hst as [old blk t l Hty Ho Hlen Hn Hv Hr E|old blk t l Hty Ho Hn Hlen HF Hrg Hr E
    |old t l Hty Hr E|old l Hty E|old t l Hty ->].
  - right. destruct Hsh as [[Hs _]|(_ & _ & Hu & _)]; [|by rewrite Hty in Hu].
    unfold machines_size_valid, MACHINES_SIZE_MIN, MACHINES_SIZE_MAX, MACHINE_SIZE,
      MACHINES_MIN, MACHINES_MAX in Hv. rewrite !andb_true_iff, !Z.leb_le in Hv.
    destruct (change_cases blk old t l) as (He & Hnn & Hty');
      [apply unstable_request; try done; lia|lia|done|]. split; [done|]. split; [done|].
    destruct Hty' as [->|[->| ->]]; (split_and!; vm_compute; congruence).
  - right. destruct Hsh as [[Hs Hty']|(_ & _ & Hu & _)]; [|done].
    assert (request blk old) as Hrq
      by (destruct Hs as (? & ? & ?); apply unstable_request; [done..|lia|done]).
    destruct (restated_of_set _ _ HF Hrg) as [Hre Hex].
    destruct (change_available_core blk old t Hrq) as (l' & E' & Hwf' & Ht & Hold & Hid & _);
      [lia|done|by eapply Hex, available_differs|done|]. simplify_eq.
    destruct (electable_renewed old l Hs Hwf' Hold Hid) as [He Hnn]. split; [done|]. split; [done|].
    rewrite Ht. case_match; (split_and!; vm_compute; congruence).
  - right. destruct Hsh as [[Hs _]|(_ & _ & Hu & _)]; [|by rewrite Hty in Hu].
    pose proof (grow_complete_core malloc old t Hs Hr) as Hg. rewrite E in Hg.
    destruct Hg as (Hwf & Ht & Hold & _ & Hid & _).
    destruct (electable_renewed old l Hs Hwf Hold Hid) as [He Hnn]. split; [done|]. split; [done|].
    rewrite Ht. split_and!; vm_compute; congruence.
  - left. destruct Hsh as [[_ Ht]|((Hwf & _ & _ & _ & Hn) & Hn' & Hu & Ht)];
      [destruct Ht as [Ht|Ht]; by rewrite Ht in Hty|].
    destruct (stable_core malloc old l Hwf ltac:(lia) E) as [Hs _]. split; [done|].
    unfold log_malloc_stable in E. destruct (log_malloc _ _); [|done]. simplify_eq.
    by apply stable_type.
  - right. destruct Hsh as [[_ Ht]|((Hwf & Hrest) & Hrest')];
      [destruct Ht as [Ht|Ht]; by rewrite Ht in Hty|].
    split; [|done]. split; [|done]. destruct Hwf. by split.
Qed.

End life.

(** ** A sample cluster *)

Definition mach (a : Z) : machine :=
  {| sin6_addr := repeat 0 15 ++ [a]; sin6_port := [31; 144]; padding := [0; 0];
     id := 0; stability := 0; version := 0 |}.

Definition block (o n : Z) (ms : list machine) : log :=
  {| refcount := 0; index := 0; term := 0; log_version := 0; next_machine_version := 0;
     next_machine_id := 0; type := 0; old_n := o; new_n := n; distinct_machines_n := 0;
     machines := ms |}.

(** The log of four machines, initialised. *)
Definition sample_init : log :=
  {| refcount := 0; index := 1; term := 1; log_version := 1; next_machine_version := 1;
     next_machine_id := 1; type := LOG_TYPE_OLD; old_n := 4; new_n := 0;
     distinct_machines_n := 4; machines := [mach 4; mach 2; mach 3; mach 1] |}.
Definition sample_log : log := Eval vm_compute in snd (log_complete_init sample_init).

Lemma NoDup_dec_true {A} `{!EqDecision A} (l : list A) : bool_decide (NoDup l) = true -> NoDup l.
Proof. by intros ?%bool_decide_eq_true. Qed.

Lemma sample_stable : stable sample_log.
Proof.
  pose proof (init_core sample_init eq_refl eq_refl eq_refl eq_refl ltac:(cbn; lia) eq_refl) as H.
  assert (log_complete_init sample_init = (true, sample_log)) as E by (vm_compute; reflexivity).
  rewrite E in H. destruct H as [_ H]. by destruct (H eq_refl).
Qed.

(** Old machines 1 to 4 in address order; an administrator replaces machine 3
    by machine 9. *)
Definition sample_adjust : log :=
  block 4 4 (machines sample_log ++ [mach 1; mach 2; mach 9; mach 4]).
Definition sample_grow : log :=
  block 4 8 (machines sample_log ++ machines sample_log ++ [mach 8; mach 7; mach 6; mach 5]).
Definition sample_shrink_log : log :=
  block 4 2 (machines sample_log ++ take 2 (machines sample_log)).

Lemma sample_request o n ms :
  o = 4 -> Z.of_nat (length ms) = o + n -> 0 <= n <= 8 -> request (block o n ms) sample_log.
Proof.
  intros -> Hlen Hn. apply unstable_request; [apply sample_stable|done|done|cbn; lia|].
  unfold room. cbn. lia.
Qed.

(** ** Properties *)

(** C1: every log a cluster goes through is well-formed: from the log that
    initialises it, through any sequence of accepted changes, changes of
    availability, grow completions, commits and elections, the machines of each
    configuration have distinct addresses, ids and versions, both configurations
    of an unstable log agree on who is who, [distinct_machines_n] is the number
    of distinct machines, and except in an adjustment one configuration starts
    with the machines of the other. *)
Theorem log_reachable_wf malloc blk l0 l
    (Hcounters : next_machine_id blk = 1 /\ next_machine_version blk = 1)
    (Hblk : new_n blk = 0 /\ Z.of_nat (length (machines blk)) = old_n blk /\
            0 < old_n blk < 2 ^ 31 /\ distinct_machines_n blk = old_n blk /\
            type blk = LOG_TYPE_OLD)
    (Hinit : log_complete_init blk = (true, l0))
    (Hrun : rtc (log_step malloc) l0 l) :
  electable l.
Proof.
  destruct Hcounters as [Hi Hv], Hblk as (Hn & Hlen & Ho & Hd & Hty).
  assert (shape l0) as Hs0.
  { left. pose proof (init_core blk Hi Hv Hn Hlen Ho Hd) as H. rewrite Hinit in H.
    destruct H as [_ H]. destruct (H eq_refl) as (Hst & _). split; [done|]. left.
    unfold log_complete_init in Hinit.
    destruct (init_machines_spec blk (old_machines blk)) as (ms & E & _).
    { pose proof (take_ge (machines blk) (Z.to_nat (old_n blk)) ltac:(lia)) as E.
      unfold old_machines. rewrite E. unfold room. lia. }
    rewrite E in Hinit. simplify_eq. done. }
  apply shape_electable. eapply (rtc_ind_r shape); [exact Hs0| |exact Hrun].
  intros x y _ Hxy Hx. by eapply log_step_shape.
Qed.

Lemma log_reachable_wf_witness :
  exists l', log_complete_change sample_adjust sample_log 1 = Some (true, l') /\ electable l'.
Proof.
  destruct (adjust_core sample_adjust sample_log 1) as (ok & l' & E & _ & _);
    [by apply sample_request|done|].
  assert (ok = true) as ->.
  { assert (fst <$> log_complete_change sample_adjust sample_log 1 = Some true) as E'
      by (vm_compute; reflexivity). rewrite E in E'. by injection E'. }
  exists l'. split; [exact E|].
  apply (log_reachable_wf (fun _ => None) sample_init sample_log l');
    [done|split_and!; done|vm_compute; reflexivity|].
  apply rtc_once. eapply step_change with (blk := sample_adjust) (t := 1);
    [done..|split; done|reflexivity|unfold room; cbn; lia|exact E].
Defined.

(** C28: a request to replace machines (as many as before) is accepted exactly
    when at least half of the positions but not all keep their machine and no
    address repeats.  The accepted log is well-formed, keeps the requested
    order, a machine known before keeps its id, and its version changes exactly
    when, walking the ring from its position on, the first machine that was
    replaced or is available was replaced. *)
Theorem log_complete_adjust_correct l old t
    (Hreq : request l old) (Hn : new_n l = old_n l) :
  exists ok l', log_complete_change l old t = Some (ok, l') /\
    (ok = true <-> adjust_ok (old_machines old) (asked l)) /\
    (ok = true ->
     log_wf l' /\ type l' = LOG_TYPE_ADJUST /\ old_machines l' = old_machines old /\
     addr <$> new_machines l' = addr <$> asked l /\
     same_names (old_machines old) (new_machines l') /\
     ring_outcome id_changed new_available (next_machine_version old)
       (old_machines old) (new_machines l')).
Proof. by apply adjust_core. Qed.

Lemma log_complete_adjust_correct_witness :
  exists l', log_complete_change sample_adjust sample_log 1 = Some (true, l') /\ log_wf l' /\
    version <$> new_machines l' = [4; 2; 6; 1].
Proof.
  destruct (log_complete_adjust_correct sample_adjust sample_log 1) as (ok & l' & E & Hok & Hwf);
    [by apply sample_request|done|].
  assert (ok = true) as ->.
  { apply Hok. unfold adjust_ok. split; [vm_compute; congruence|].
    split; [vm_compute; congruence|]. apply NoDup_dec_true. vm_compute. reflexivity. }
  exists l'. split; [exact E|]. split; [by apply Hwf|].
  assert ((fun r => version <$> new_machines r.2) <$>
            log_complete_change sample_adjust sample_log 1 = Some [4; 2; 6; 1]) as E'
    by (vm_compute; reflexivity).
  rewrite E in E'. by injection E'.
Defined.

(** C29: a request for another size of the cluster never faults.  One for half as
    many machines is accepted exactly when it lists the first half of the
    cluster unchanged; one for twice as many exactly when it starts with the
    cluster unchanged and all its addresses are distinct.  The accepted log is
    well-formed and keeps the machines that stay in front. *)
Theorem log_complete_resize_correct l old t
    (Hreq : request l old) (Hn : new_n l = Z.shiftr (old_n l) 1 \/ new_n l = 2 * old_n l) :
  exists ok l', log_complete_change l old t = Some (ok, l') /\
    (new_n l = Z.shiftr (old_n l) 1 ->
     (ok = true <-> asked l = take (Z.to_nat (new_n l)) (old_machines old)) /\
     (ok = true ->
      log_wf l' /\ type l' = LOG_TYPE_SHRINK /\ old_machines l' = old_machines old /\
      new_machines l' = asked l)) /\
    (new_n l = 2 * old_n l ->
     (ok = true <-> take (Z.to_nat (old_n l)) (asked l) = old_machines old /\
                    NoDup (addr <$> asked l)) /\
     (ok = true ->
      log_wf l' /\ type l' = LOG_TYPE_GROW /\ old_machines l' = old_machines old /\
      take (Z.to_nat (old_n l)) (new_machines l') = old_machines old /\
      addr <$> new_machines l' ≡ₚ addr <$> asked l)).
Proof.
  pose proof (fun H => shrink_core l old t Hreq H) as Hs.
  pose proof (fun H => grow_core l old t Hreq H) as Hg.
  destruct Hn as [Hn|Hn]; [specialize (Hs Hn)|specialize (Hg Hn)].
  - destruct Hs as (ok & l' & E & Hs). exists ok, l'. split; [done|]. split; [done|].
    intros Hn'. destruct (Hg Hn') as (ok' & l'' & E' & Hg'). rewrite E in E'. by simplify_eq.
  - destruct Hg as (ok & l' & E & Hg). exists ok, l'. split; [done|]. split; [|done].
    intros Hn'. destruct (Hs Hn') as (ok' & l'' & E' & Hs'). rewrite E in E'. by simplify_eq.
Qed.

Lemma log_complete_resize_correct_witness :
  (exists l', log_complete_change sample_shrink_log sample_log 1 = Some (true, l') /\ log_wf l') /\
  (exists l', log_complete_change sample_grow sample_log 1 = Some (true, l') /\ log_wf l').
Proof.
  split.
  - destruct (log_complete_resize_correct sample_shrink_log sample_log 1) as (ok & l' & E & H & _);
      [by apply sample_request|left; reflexivity|]. destruct (H eq_refl) as [Hok Hwf].
    assert (ok = true) as -> by (apply Hok; reflexivity).
    exists l'. split; [exact E|]. by apply Hwf.
  - destruct (log_complete_resize_correct sample_grow sample_log 1) as (ok & l' & E & _ & H);
      [by apply sample_request|right; reflexivity|]. destruct (H eq_refl) as [Hok Hwf].
    assert (ok = true) as ->.
    { apply Hok. split; [reflexivity|]. apply NoDup_dec_true. vm_compute. reflexivity. }
    exists l'. split; [exact E|]. by apply Hwf.
Defined.

(** Completing a grow gives the first half of the machines versions that
    were never used (the second half took over part of their keys) and leaves
    the second half as it was; the log is well-formed, and [NULL] is returned
    only when the allocation fails. *)
Theorem log_grow_complete_correct malloc transform t
    (Hst : stable transform) (Hroom : room transform (length (old_machines transform))) :
  match log_malloc_grow_complete malloc transform t with
  | None => malloc (u64 (sizeof_log + u64 (MACHINE_SIZE * u32 (old_n transform + old_n transform)))) = None
  | Some l =>
      log_wf l /\ type l = LOG_TYPE_GROW_COMPLETE /\
      old_machines l = old_machines transform /\
      addr <$> new_machines l = addr <$> old_machines transform /\
      machine_id <$> new_machines l = machine_id <$> old_machines transform /\
      forall i o n, old_machines l !! i = Some o -> new_machines l !! i = Some n ->
        if (i <? length (old_machines l) / 2)%nat
        then next_machine_version transform <= version n else n = o
  end.
Proof. by apply grow_complete_core. Qed.

Definition sample_malloc : Z -> option log := fun _ => Some (block 0 0 []).

Lemma log_grow_complete_correct_witness :
  exists l, log_malloc_grow_complete sample_malloc sample_log 1 = Some l /\ log_wf l /\
    version <$> new_machines l = [5; 6; 3; 1].
Proof.
  assert (room sample_log (length (old_machines sample_log))) as Hr
    by (unfold room; split_and!; vm_compute; congruence).
  pose proof (log_grow_complete_correct sample_malloc sample_log 1 sample_stable Hr) as H.
  assert ((fun l => version <$> new_machines l) <$>
    log_malloc_grow_complete sample_malloc sample_log 1 = Some [5; 6; 3; 1]) as E
    by (vm_compute; reflexivity).
  destruct (log_malloc_grow_complete sample_malloc sample_log 1) as [l|]; [|discriminate E].
  exists l. split; [reflexivity|]. split; [apply H|]. by injection E.
Defined.

(** C30: a change of availability that really changes some machine is completed
    without a fault; the log is well-formed, ids stay, and a machine's version
    changes exactly when, walking the ring from its position on, the first
    machine that changed or was available before has changed. *)
Theorem log_change_available_correct l old t
    (Hreq : request l old) (Hn : new_n l = old_n l)
    (Hre : restated (old_machines old) (asked l))
    (Hch : exists i o n, old_machines old !! i = Some o /\ asked l !! i = Some n /\
       machine_available n <> machine_available o)
    (Hty : type old = LOG_TYPE_OLD \/ type old = LOG_TYPE_GROW_TRANSFORM) :
  exists l', log_complete_change_available l old t = Some l' /\ log_wf l' /\
    type l' = (if type old =? LOG_TYPE_OLD then LOG_TYPE_CHANGE_AVAILABLE
               else LOG_TYPE_GROW_CHANGE_AVAILABLE) /\
    old_machines l' = old_machines old /\
    machine_id <$> new_machines l' = machine_id <$> old_machines old /\
    machine_available <$> new_machines l' = machine_available <$> asked l /\
    ring_outcome available_changed old_available (next_machine_version old)
      (old_machines old) (new_machines l').
Proof. by apply change_available_core. Qed.

(** The third machine goes down. *)
Definition sample_down : log :=
  block 4 4 (machines sample_log ++
    ((fun m => machine_set_stability m (negb (machine_id m =? 3))) <$> machines sample_log)).

Lemma log_change_available_correct_witness :
  exists l', log_complete_change_available sample_down sample_log 1 = Some l' /\ log_wf l' /\
    machine_available <$> new_machines l' = [true; true; false; true].
Proof.
  destruct (log_change_available_correct sample_down sample_log 1) as (l' & E & Hwf & _ & _ & _ & Ha & _);
    [by apply sample_request|reflexivity|repeat constructor; reflexivity| |by left|].
  { exists 2%nat. eexists _, _. split; [reflexivity|]. split; [reflexivity|]. discriminate. }
  exists l'. split; [exact E|]. split; [exact Hwf|]. rewrite Ha. reflexivity.
Defined.

(** Committing an unstable log yields a stable, well-formed log of exactly
    the new machines, one index and one cluster version later; a grow leads to
    [LOG_TYPE_GROW_TRANSFORM] and every other change to [LOG_TYPE_OLD] unless
    it was made during a grow. *)
Theorem log_commit_correct malloc l l'
    (Hwf : log_wf l) (Hn : 0 < new_n l < 2 ^ 31)
    (Hlt : 0 <= index l < 2 ^ 64 - 1 /\ 0 <= log_version l < 2 ^ 64 - 1)
    (Hl' : log_malloc_stable malloc l = Some l') :
  stable l' /\ old_machines l' = new_machines l /\ index l' = index l + 1 /\
  log_version l' = log_version l + 1 /\
  type l' = (if bool_decide (type l ∈ [LOG_TYPE_GROW_TRANSFORM; LOG_TYPE_GROW; LOG_TYPE_GROW_CHANGE_AVAILABLE])
             then LOG_TYPE_GROW_TRANSFORM else Z.land (type l) (Z.lnot LOG_TYPE_UNSTABLE_MASK)) /\
  (type l ∈ [LOG_TYPE_OLD; LOG_TYPE_ADJUST; LOG_TYPE_SHRINK; LOG_TYPE_CHANGE_AVAILABLE;
             LOG_TYPE_GROW_COMPLETE] -> type l' = LOG_TYPE_OLD).
Proof.
  destruct (stable_core malloc l l' Hwf Hn Hl') as [Hs Ho]. split; [done|]. split; [done|].
  unfold log_malloc_stable in Hl'. destruct (log_malloc _ _); [|done]. injection Hl' as <-. cbn [index log_version type].
  rewrite !wrap_small by lia. split; [done|]. split; [done|]. split.
  - case_bool_decide as H; [|done].
    repeat (apply elem_of_cons in H as [->|H]; [reflexivity|]). by apply elem_of_nil in H.
  - intros H. repeat (apply elem_of_cons in H as [->|H]; [reflexivity|]). by apply elem_of_nil in H.
Qed.

Lemma log_commit_correct_witness :
  exists l l', log_complete_change sample_grow sample_log 1 = Some (true, l) /\
    log_malloc_stable sample_malloc l = Some l' /\ stable l' /\ type l' = LOG_TYPE_GROW_TRANSFORM.
Proof.
  destruct (grow_core sample_grow sample_log 1) as (ok & l & E & _ & Hwf);
    [by apply sample_request|reflexivity|].
  assert ((fun r => (r.1, (type r.2, new_n r.2, (index r.2, log_version r.2)))) <$>
    log_complete_change sample_grow sample_log 1 = Some (true, (LOG_TYPE_GROW, 8, (2, 1)))) as E'
    by (vm_compute; reflexivity).
  rewrite E in E'. injection E' as -> Ht Hn Hi Hv.
  destruct (log_malloc_stable sample_malloc l) as [l'|] eqn:El; [|discriminate El].
  destruct (log_commit_correct sample_malloc l l') as (Hs & _ & _ & _ & Hty & _);
    [by apply Hwf|lia|lia|exact El|].
  exists l, l'. split; [exact E|]. split; [exact El|]. split; [exact Hs|].
  rewrite Hty, Ht. reflexivity.
Defined.

(** [log_at_least_up_to_date] is raft's order on logs: later terms win, and
    within a term longer logs win.  The comparison is total, transitive and two
    logs are mutually up to date only when index and term agree. *)
Theorem up_to_date_order l1 l2 l3 :
  let ge a b := log_at_least_up_to_date a (index b) (term b) in
  (ge l1 l2 = true \/ ge l2 l1 = true) /\
  (ge l1 l2 = true -> ge l2 l3 = true -> ge l1 l3 = true) /\
  (ge l1 l2 = true -> ge l2 l1 = true -> index l1 = index l2 /\ term l1 = term l2).
Proof.
  cbv zeta. unfold log_at_least_up_to_date.
  rewrite !orb_true_iff, !andb_true_iff, !Z.ltb_lt, !Z.eqb_eq, !Z.leb_le. lia.
Qed.
