(* ===== verification/Tls.v ===== *)
(** * TLS sessions (tls.h, tls.c)

    A session lies inside the connection it secures, so it is named by the
    address of that connection; [live] is the set of the sessions that are
    allocated.  GnuTLS is not part of the program: what its calls answer are
    arguments.  A session that is used or released while it is not allocated is
    a fault, [None].

    The calls that cannot fail and only set attributes of a session (its name
    to verify, its transport, its timeouts, the request of a certificate) leave
    the set as it is. *)

From S2P Require Import Prelude.

(** What GnuTLS answers to the calls of [tls_session_init]. *)
Record tls_answer := { g_init : bool; g_priority : bool; g_credentials : bool }.

(** What [gnutls_handshake] answers: on success whether the kernel took over
    both directions, on [GNUTLS_E_AGAIN] whether it waits to write. *)
Inductive handshake_answer :=
  | GNUTLS_E_SUCCESS (ktls_duplex : bool)
  | GNUTLS_E_AGAIN (to_write : bool)
  | GNUTLS_E_OTHER.

Definition gnutls_init (p : Z) (live : gset Z) : gset Z := {[p]} ∪ live.

Definition gnutls_deinit (p : Z) (live : gset Z) : option (gset Z) :=
  guard (p ∈ live);; Some (live ∖ {[p]}).

Definition tls_session_init (a : tls_answer) (p : Z) (live : gset Z) : option (bool * gset Z) :=
  if g_init a then
    let live := gnutls_init p live in
    if negb (g_priority a) || negb (g_credentials a) then
      live ← gnutls_deinit p live; Some (false, live)
    else Some (true, live)
  else Some (false, live).

Definition tls_init_client (a : tls_answer) (p : Z) (live : gset Z) : option (bool * gset Z) :=
  tls_session_init a p live.

Definition tls_init_server (a : tls_answer) (p : Z) (live : gset Z) : option (bool * gset Z) :=
  '(ok, live) ← tls_session_init a p live;
  if negb ok then Some (false, live) else Some (true, live).

(** What GnuTLS answers when the credentials are loaded: the version test, the
    allocation, the key pair, the parameters, and the number of certificates in
    the trust file. *)
Record global_answer := {
  g_version : bool; g_allocate : bool; g_key_file : bool; g_dh_params : bool; g_trusted : Z
}.

Definition tls_global_init (a : global_answer) : bool :=
  g_version a && g_allocate a && g_key_file a && g_dh_params a && (0 <? g_trusted a).

Definition tls_handshake (a : handshake_answer) (p : Z) (live : gset Z) : option handshake_answer :=
  guard (p ∈ live);;
  match a with
  | GNUTLS_E_SUCCESS ktls_duplex => guard (ktls_duplex = true);; Some a
  | _ => Some a
  end.

(** [to_write] is the answer of [gnutls_record_get_direction]. *)
Definition tls_record_require_write (to_write : bool) (p : Z) (live : gset Z) : option bool :=
  guard (p ∈ live);; Some to_write.

Definition tls_deinit (p : Z) (live : gset Z) : option (gset Z) := gnutls_deinit p live.

(** ** Lemmas *)

(** Whether the calls of [tls_session_init] all succeed. *)
Definition granted (a : tls_answer) : bool := g_init a && g_priority a && g_credentials a.

(** A failed initialisation leaves nothing allocated. *)
Lemma tls_session_init_eq a p live :
  p ∉ live -> tls_session_init a p live =
    Some (granted a, if granted a then {[p]} ∪ live else live).
Proof.
  intros Hp. unfold tls_session_init, granted, gnutls_init, gnutls_deinit.
  destruct (g_init a), (g_priority a), (g_credentials a); cbn; try done;
    rewrite option_guard_True by set_solver; cbn; do 2 f_equal; set_solver.
Qed.

Lemma tls_init_client_eq a p live :
  p ∉ live -> tls_init_client a p live = Some (granted a, if granted a then {[p]} ∪ live else live).
Proof. apply tls_session_init_eq. Qed.

Lemma tls_init_server_eq a p live :
  p ∉ live -> tls_init_server a p live = Some (granted a, if granted a then {[p]} ∪ live else live).
Proof.
  intros Hp. unfold tls_init_server. rewrite tls_session_init_eq by done. cbn.
  by destruct (granted a).
Qed.

Lemma tls_deinit_live p live : p ∈ live -> tls_deinit p live = Some (live ∖ {[p]}).
Proof. intros. unfold tls_deinit, gnutls_deinit. by rewrite option_guard_True. Qed.

Lemma tls_deinit_Some p live live' :
  tls_deinit p live = Some live' -> p ∈ live /\ live' = live ∖ {[p]}.
Proof. unfold tls_deinit, gnutls_deinit. intros E. case_guard; [|done]. by injection E as <-. Qed.

Lemma tls_handshake_Some a p live b :
  tls_handshake a p live = Some b -> b = a /\ p ∈ live /\ a <> GNUTLS_E_SUCCESS false.
Proof.
  unfold tls_handshake. intros E. case_guard as Hp; [|done]. cbn in E.
  destruct a as [[]| |]; by simplify_eq/=.
Qed.

Lemma tls_handshake_live a p live :
  p ∈ live -> a <> GNUTLS_E_SUCCESS false -> tls_handshake a p live = Some a.
Proof.
  intros Hp Ha. unfold tls_handshake. rewrite option_guard_True by done. cbn.
  by destruct a as [[]| |].
Qed.
