(* ===== verification/RaftConn.v ===== *)
(** * Connections between the machines (raft_conn.h, raft_conn.c)

    A [struct raft_conn] is a state, the number of bytes its state still has to
    transfer, and, in the states marked [EPOLLLOG], a reference to a log.  The
    store [raft] holds the connections and the logs by address: freeing removes
    them, so that a use after free is a fault.  [with_tls] says whether the build
    has [CONFIG_KERNEL_TLS]; the TLS session of a connection in its handshake
    lies in the union of the connection, and [sessions] are the connections whose
    session is allocated.  [read], [send] and [sendmsg] are system calls: an
    operation takes the value its call returns, and whether [errno] is
    [EWOULDBLOCK] when it is -1, as arguments.

    The theorem is that the reference count of every log is exact under every
    operation, so that no log is freed while a connection uses it. *)

From S2P Require Import Prelude Machine Log Tls.

Definition EPOLLIN : Z := 1.
Definition EPOLLOUT : Z := 4.
Definition EPOLLLOG : Z := 2.

Definition RAFT_CONN_STATE_TLS_CLIENT_HANDSHAKE_IN : Z := Z.shiftl 0 3 + EPOLLIN.
Definition RAFT_CONN_STATE_TLS_CLIENT_HANDSHAKE_OUT : Z := Z.shiftl 1 3 + EPOLLOUT.
Definition RAFT_CONN_STATE_TLS_CLIENT_DIVIDER : Z := Z.shiftl 2 3 + 0.
Definition RAFT_CONN_STATE_NOT_CONNECTED : Z := Z.shiftl 3 3 + 0.
Definition RAFT_CONN_STATE_IN_PROGRESS : Z := Z.shiftl 4 3 + EPOLLOUT.
Definition RAFT_CONN_STATE_READY_FOR_USE : Z := Z.shiftl 5 3 + 0.
Definition RAFT_CONN_STATE_REQUEST_VOTE_OUT : Z := Z.shiftl 6 3 + EPOLLOUT.
Definition RAFT_CONN_STATE_REQUEST_VOTE_IN : Z := Z.shiftl 7 3 + EPOLLIN.
Definition RAFT_CONN_STATE_APPEND_LOG_OUT : Z := Z.shiftl 8 3 + EPOLLOUT + EPOLLLOG.
Definition RAFT_CONN_STATE_APPEND_LOG_IN : Z := Z.shiftl 9 3 + EPOLLIN.
Definition RAFT_CONN_STATE_HEARTBEAT_OUT : Z := Z.shiftl 10 3 + EPOLLOUT.
Definition RAFT_CONN_STATE_HEARTBEAT_IN : Z := Z.shiftl 11 3 + EPOLLIN.
Definition RAFT_CONN_OUTGOING_INCOMING_DIVIDER : Z := Z.shiftl 12 3 + 0.
Definition RAFT_CONN_STATE_TLS_SERVER_HANDSHAKE_IN : Z := Z.shiftl 13 3 + EPOLLIN.
Definition RAFT_CONN_STATE_TLS_SERVER_HANDSHAKE_OUT : Z := Z.shiftl 14 3 + EPOLLOUT.
Definition RAFT_CONN_STATE_TLS_SERVER_DIVIDER : Z := Z.shiftl 15 3 + 0.
Definition RAFT_CONN_STATE_IN_CMD : Z := Z.shiftl 16 3 + EPOLLIN.
Definition RAFT_CONN_STATE_CHANGE_CLUSTER_OUT : Z := Z.shiftl 17 3 + EPOLLOUT.
Definition RAFT_CONN_STATE_VOTE_OUT : Z := Z.shiftl 18 3 + EPOLLOUT.
Definition RAFT_CONN_STATE_RECV_ENTRY_OUT : Z := Z.shiftl 19 3 + EPOLLOUT.
Definition RAFT_CONN_STATE_RECV_LOG_IN : Z := Z.shiftl 20 3 + EPOLLIN + EPOLLLOG.
Definition RAFT_CONN_STATE_LEADER_OUT : Z := Z.shiftl 21 3 + EPOLLOUT.
Definition RAFT_CONN_STATE_CLUSTER_OUT : Z := Z.shiftl 22 3 + EPOLLOUT + EPOLLLOG.
Definition RAFT_CONN_STATE_INIT_CLUSTER_IN : Z := Z.shiftl 23 3 + EPOLLIN + EPOLLLOG.
Definition RAFT_CONN_STATE_CHANGE_CLUSTER_IN : Z := Z.shiftl 24 3 + EPOLLIN + EPOLLLOG.
Definition RAFT_CONN_STATE_AUTHORITY_DIVIDER : Z := Z.shiftl 25 3 + 0.
Definition RAFT_CONN_STATE_AUTHORITY_PENDING : Z := Z.shiftl 26 3 + EPOLLIN.
Definition RAFT_CONN_STATE_AUTHORITY_OUT : Z := Z.shiftl 27 3 + EPOLLOUT.

Definition RAFT_CONN_BUFFER_SIZE : Z := 80.

Record raft_conn := { c_log : Z; unio : Z; fd : Z; admin : bool; state : Z }.

(** The connections, the logs, the list of connections in the authority
    states, and the TLS sessions. *)
Record raft := {
  with_tls : bool; conns : gmap Z raft_conn; logs : gmap Z log; authority : list Z;
  sessions : gset Z
}.

Definition set_conns (r : raft) (x : gmap Z raft_conn) : raft :=
  {| with_tls := with_tls r; conns := x; logs := logs r; authority := authority r;
     sessions := sessions r |}.
Definition set_logs (r : raft) (x : gmap Z log) : raft :=
  {| with_tls := with_tls r; conns := conns r; logs := x; authority := authority r;
     sessions := sessions r |}.
Definition set_authority (r : raft) (x : list Z) : raft :=
  {| with_tls := with_tls r; conns := conns r; logs := logs r; authority := x;
     sessions := sessions r |}.
Definition set_sessions (r : raft) (x : gset Z) : raft :=
  {| with_tls := with_tls r; conns := conns r; logs := logs r; authority := authority r;
     sessions := x |}.

(** The calls of tls.c on the session of the connection at [h]. *)
Definition session_init_client (r : raft) (h : Z) (a : tls_answer) : option (bool * raft) :=
  '(ok, live) ← tls_init_client a h (sessions r); Some (ok, set_sessions r live).
Definition session_init_server (r : raft) (h : Z) (a : tls_answer) : option (bool * raft) :=
  '(ok, live) ← tls_init_server a h (sessions r); Some (ok, set_sessions r live).
Definition session_deinit (r : raft) (h : Z) : option raft :=
  live ← tls_deinit h (sessions r); Some (set_sessions r live).

(** [ptr] is what [malloc] returned, [None] for [NULL].  The members that are
    not set are 0. *)
Definition raft_in_conn_malloc (r : raft) (ptr : option Z) (fd : Z) (admin : bool)
    (a : tls_answer) : option (option Z * raft) :=
  match ptr with
  | Some h =>
      if with_tls r then
        '(ok, r) ← session_init_server r h a;
        if (ok : bool) then
          Some (Some h, set_conns r (<[h := {| c_log := 0; unio := 0; fd := fd; admin := admin;
            state := RAFT_CONN_STATE_TLS_SERVER_HANDSHAKE_IN |}]> (conns r)))
        else Some (None, r)
      else
        Some (Some h, set_conns r (<[h := {| c_log := 0; unio := RAFT_CONN_BUFFER_SIZE; fd := fd;
          admin := admin; state := RAFT_CONN_STATE_IN_CMD |}]> (conns r)))
  | None => Some (None, r)
  end.

Definition conn_borrowed_log (c : raft_conn) : bool := negb (Z.land (state c) EPOLLLOG =? 0).

Definition with_state (c : raft_conn) (st : Z) : raft_conn :=
  {| c_log := c_log c; unio := unio c; fd := fd c; admin := admin c; state := st |}.

Definition raft_out_conn_init (c : raft_conn) : raft_conn :=
  with_state c RAFT_CONN_STATE_NOT_CONNECTED.

Definition set_io (c : raft_conn) (st size : Z) : raft_conn :=
  {| c_log := c_log c; unio := size; fd := fd c; admin := admin c; state := st |}.

Definition raft_conn_set_io (r : raft) (h st size : Z) : option raft :=
  c ← conns r !! h;
  Some (set_conns r (<[h := set_io c st size]> (conns r))).

Definition raft_conn_borrow_log (r : raft) (h log_h st size : Z) : option raft :=
  c ← conns r !! h;
  guard (conn_borrowed_log c = false);;
  l ← logs r !! log_h;
  let c := {| c_log := log_h; unio := size; fd := fd c; admin := admin c; state := st |} in
  guard (conn_borrowed_log c = true);;
  Some (set_logs (set_conns r (<[h := c]> (conns r))) (<[log_h := log_borrow l]> (logs r))).

(** [log_return] frees the log when its count drops to zero. *)
Definition return_log (r : raft) (log_h : Z) : option raft :=
  l ← logs r !! log_h;
  res ← log_return l;
  Some (set_logs r (match res with
                    | Some l => <[log_h := l]> (logs r)
                    | None => delete log_h (logs r)
                    end)).

Definition raft_conn_return_log (r : raft) (h : Z) : option raft :=
  c ← conns r !! h;
  guard (conn_borrowed_log c = true);;
  return_log r (c_log c).

Definition raft_conn_change_to_ready_for_use (r : raft) (h : Z) : option raft :=
  c ← conns r !! h;
  Some (set_conns r (<[h := with_state c RAFT_CONN_STATE_READY_FOR_USE]> (conns r))).

Definition raft_conn_outgoing (c : raft_conn) : bool :=
  state c <? RAFT_CONN_OUTGOING_INCOMING_DIVIDER.

(** [list_del] of a connection that is not on the list is a fault. *)
Definition raft_conn_free (r : raft) (h : Z) : option raft :=
  c ← conns r !! h;
  guard (raft_conn_outgoing c = false);;
  r ← (if conn_borrowed_log c then raft_conn_return_log r h
       else if RAFT_CONN_STATE_AUTHORITY_DIVIDER <? state c then
         guard (h ∈ authority r);; Some (set_authority r (filter (.≠ h) (authority r)))
       else if with_tls r && (state c <? RAFT_CONN_STATE_TLS_SERVER_DIVIDER) then session_deinit r h
       else Some r);
  Some (set_conns r (delete h (conns r))).

Definition raft_conn_clear (r : raft) (h : Z) : option raft :=
  c ← conns r !! h;
  guard (raft_conn_outgoing c = true);;
  guard (state c <> RAFT_CONN_STATE_NOT_CONNECTED);;
  r ← (if conn_borrowed_log c then raft_conn_return_log r h
       else if with_tls r && (state c <? RAFT_CONN_STATE_TLS_CLIENT_DIVIDER) then session_deinit r h
       else Some r);
  Some (set_conns r (<[h := with_state c RAFT_CONN_STATE_NOT_CONNECTED]> (conns r))).

Definition close_conn (r : raft) (incoming : bool) (h : Z) : option raft :=
  if incoming then raft_conn_free r h else raft_conn_clear r h.

(** ** Transfers *)

(** [n] is the value [read] returned. *)
Definition conn_check_read (r : raft) (incoming : bool) (h n : Z) (wouldblock : bool)
    : option (bool * raft) :=
  c ← conns r !! h;
  if bool_decide (0 < n) then
    guard (n <= unio c);;
    Some (true, set_conns r (<[h := set_io c (state c) (u64 (unio c - n))]> (conns r)))
  else if bool_decide (n = 0) || negb wouldblock then
    r ← close_conn r incoming h; Some (false, r)
  else Some (false, r).

Definition raft_conn_read (r : raft) (incoming : bool) (h n : Z) (wouldblock : bool)
    : option (bool * raft) :=
  c ← conns r !! h;
  guard (0 < unio c);;
  conn_check_read r incoming h n wouldblock.

(** The test [conn->unio == 0] behind a successful transfer. *)
Definition and_done (h : Z) (res : bool * raft) : option (bool * raft) :=
  let '(ok, r) := res in
  if ok : bool then c ← conns r !! h; Some (unio c =? 0, r) else Some (false, r).

Definition raft_conn_full_read (r : raft) (incoming : bool) (h n : Z) (wouldblock : bool)
    : option (bool * raft) :=
  res ← raft_conn_read r incoming h n wouldblock;
  and_done h res.

(** The position in the buffer the next [read] fills, and the outcome. *)
Definition raft_conn_full_read_to_buffer (r : raft) (incoming : bool) (h size n : Z)
    (wouldblock : bool) : option (Z * (bool * raft)) :=
  c ← conns r !! h;
  let readed := u64 (size - unio c) in
  res ← raft_conn_full_read r incoming h n wouldblock;
  Some (readed, res).

Definition conn_check_write (r : raft) (incoming : bool) (h n : Z) (wouldblock : bool)
    : option (bool * raft) :=
  c ← conns r !! h;
  if bool_decide (0 < n) then
    guard (n <= unio c);;
    Some (true, set_conns r (<[h := set_io c (state c) (u64 (unio c - n))]> (conns r)))
  else
    guard (n = -1);;
    if wouldblock then Some (false, r)
    else r ← close_conn r incoming h; Some (false, r).

Definition conn_write (r : raft) (incoming : bool) (h n : Z) (wouldblock : bool)
    : option (bool * raft) :=
  c ← conns r !! h;
  guard (0 < unio c);;
  conn_check_write r incoming h n wouldblock.

Definition conn_full_write (r : raft) (incoming : bool) (h n : Z) (wouldblock : bool)
    : option (bool * raft) :=
  res ← conn_write r incoming h n wouldblock;
  and_done h res.

Definition raft_conn_full_write_buffer (r : raft) (incoming : bool) (h size n : Z)
    (wouldblock : bool) : option (Z * (bool * raft)) :=
  c ← conns r !! h;
  let written := u64 (size - unio c) in
  res ← conn_full_write r incoming h n wouldblock;
  Some (written, res).

(** [sendmsg] instead of [send]; the outcome is treated the same way. *)
Definition conn_write_msg (r : raft) (incoming : bool) (h n : Z) (wouldblock : bool)
    : option (bool * raft) :=
  c ← conns r !! h;
  guard (0 < unio c);;
  conn_check_write r incoming h n wouldblock.

Definition raft_conn_full_write_msg (r : raft) (incoming : bool) (h n : Z)
    (wouldblock : bool) : option (bool * raft) :=
  res ← conn_write_msg r incoming h n wouldblock;
  and_done h res.

Definition raft_conn_write_byte_zero (r : raft) (incoming : bool) (h n : Z)
    (wouldblock : bool) : option (bool * raft) :=
  if bool_decide (0 < n) then Some (true, r)
  else
    guard (n = -1);;
    if wouldblock then Some (false, r)
    else r ← close_conn r incoming h; Some (false, r).

(** ** Reference counts *)

(** Whether a connection holds a reference to the log at [k], and how many of
    them do. *)
Definition used (k : Z) (c : raft_conn) : Z :=
  if conn_borrowed_log c && (c_log c =? k) then 1 else 0.
Definition users (k : Z) (m : gmap Z raft_conn) : Z :=
  map_fold (fun _ c acc => used k c + acc) 0 m.

(** Every log's count is the number of its users, plus what [base] says the
    server itself holds; a log nobody holds a reference to may have been freed. *)
Definition refs_ok (base : Z -> Z) (r : raft) : Prop :=
  forall k, 0 <= base k /\
    match logs r !! k with
    | Some l => refcount l = base k + users k (conns r)
    | None => base k = 0 /\ users k (conns r) = 0
    end.

Lemma used_range k c : 0 <= used k c <= 1.
Proof. unfold used. case_match; lia. Qed.

Lemma users_insert k m h c :
  m !! h = None -> users k (<[h := c]> m) = used k c + users k m.
Proof.
  intros Hn. unfold users. apply (map_fold_insert_L (fun _ c acc => used k c + acc)); [|done].
  intros. lia.
Qed.

Lemma users_delete k m h c :
  m !! h = Some c -> users k m = used k c + users k (delete h m).
Proof.
  intros Hs. unfold users. apply (map_fold_delete_L (fun _ c acc => used k c + acc)); [|done].
  intros. lia.
Qed.

Lemma users_update k m h c c' :
  m !! h = Some c -> users k (<[h := c']> m) = users k m - used k c + used k c'.
Proof.
  intros Hs. rewrite (users_delete k m h c Hs), <-insert_delete_eq.
  rewrite users_insert by apply lookup_delete_eq. lia.
Qed.

Lemma users_nonneg k m : 0 <= users k m.
Proof.
  unfold users. apply (map_fold_weak_ind (fun r _ => 0 <= r)); [lia|].
  intros i c m' r _ Hr. pose proof (used_range k c). lia.
Qed.

Lemma used_not c k : conn_borrowed_log c = false -> used k c = 0.
Proof. unfold used. by intros ->. Qed.

Lemma used_self c k : conn_borrowed_log c = true -> used k c = if k =? c_log c then 1 else 0.
Proof. unfold used. intros ->. cbn. by rewrite Z.eqb_sym. Qed.

(** Changing a connection that keeps (or never held) its reference. *)
Lemma refs_ok_same base r h c c' :
  refs_ok base r -> conns r !! h = Some c -> (forall k, used k c' = used k c) ->
  refs_ok base (set_conns r (<[h := c']> (conns r))).
Proof.
  intros Hr Hc Hu k. specialize (Hr k). cbn. rewrite (users_update k _ _ _ c' Hc), Hu.
  replace (users k (conns r) - used k c + used k c) with (users k (conns r)) by lia. done.
Qed.

(** A connection that holds a reference gives it back and moves to a state
    without one, or disappears. *)
Lemma return_log_ok base r h c :
  refs_ok base r -> conns r !! h = Some c -> conn_borrowed_log c = true ->
  exists r', return_log r (c_log c) = Some r' /\ conns r' = conns r /\
    authority r' = authority r /\
    (forall k, k <> c_log c -> logs r' !! k = logs r !! k) /\
    (forall l, logs r' !! c_log c = Some l -> refcount l <> 0) /\
    (forall m, (forall k, users k m = users k (conns r) - used k c) ->
       refs_ok base (set_conns r' m)).
Proof.
  intros Hr Hc Hb. pose proof (Hr (c_log c)) as [Hbase Hk].
  pose proof (users_delete (c_log c) _ _ _ Hc) as Hd.
  pose proof (users_nonneg (c_log c) (delete h (conns r))) as Hnn.
  pose proof (used_self c (c_log c) Hb) as Hus. rewrite Z.eqb_refl in Hus.
  unfold return_log. destruct (logs r !! c_log c) as [l|] eqn:El; [|lia]. cbn.
  unfold log_return. cbn. rewrite option_guard_True by lia. cbn.
  eexists. split; [done|]. split; [done|]. split; [done|]. split.
  { intros k Hk'. cbn. case_bool_decide; [by rewrite lookup_delete_ne|by rewrite lookup_insert_ne]. }
  split.
  { intros l'. cbn. case_bool_decide; [by rewrite lookup_delete_eq|].
    rewrite lookup_insert_eq. by intros [= <-]. }
  intros m Hm k. specialize (Hr k). cbn. rewrite Hm, (used_self c k Hb).
  destruct (Z.eqb_spec k (c_log c)) as [->|Hne].
  - rewrite El in Hr. split; [lia|]. case_bool_decide.
    + rewrite lookup_delete_eq. lia.
    + rewrite lookup_insert_eq. cbn. lia.
  - replace (users k (conns r) - 0) with (users k (conns r)) by lia.
    case_bool_decide; rewrite ?lookup_delete_ne, ?lookup_insert_ne by done; done.
Qed.

(** The session of a connection in a state below [divider] is allocated. *)
Definition session_held (divider : Z) (r : raft) (h : Z) (c : raft_conn) : Prop :=
  with_tls r = true -> conn_borrowed_log c = false -> state c < divider -> h ∈ sessions r.

(** The last branch of [raft_conn_free] and [raft_conn_clear]. *)
Lemma session_branch divider r h c :
  session_held divider r h c -> conn_borrowed_log c = false ->
  exists r', (if with_tls r && (state c <? divider) then session_deinit r h else Some r) = Some r' /\
    conns r' = conns r /\ logs r' = logs r.
Proof.
  intros Hs Hb. destruct (with_tls r && _) eqn:E; [|by exists r].
  apply andb_true_iff in E as [Ht Hlt%Z.ltb_lt]. unfold session_deinit.
  rewrite tls_deinit_live by auto. by eexists.
Qed.

Lemma free_ok base r h c :
  refs_ok base r -> conns r !! h = Some c -> raft_conn_outgoing c = false ->
  (conn_borrowed_log c = false -> RAFT_CONN_STATE_AUTHORITY_DIVIDER < state c ->
     h ∈ authority r) ->
  session_held RAFT_CONN_STATE_TLS_SERVER_DIVIDER r h c ->
  exists r', raft_conn_free r h = Some r' /\ conns r' = delete h (conns r) /\ refs_ok base r' /\
    (forall k, conn_borrowed_log c = false \/ k <> c_log c -> logs r' !! k = logs r !! k) /\
    (conn_borrowed_log c = true -> forall l, logs r' !! c_log c = Some l -> refcount l <> 0).
Proof.
  intros Hr Hc Ho Ha Hse. unfold raft_conn_free. rewrite Hc. cbn. rewrite option_guard_True by done. cbn.
  assert (forall k, users k (delete h (conns r)) = users k (conns r) - used k c) as Hd
    by (intros k; rewrite (users_delete k _ _ _ Hc); lia).
  destruct (conn_borrowed_log c) eqn:Hb.
  - destruct (return_log_ok base r h c Hr Hc Hb) as (r1 & E & Ec & Eau & El & Hnz & Hm).
    unfold raft_conn_return_log. rewrite Hc. cbn. rewrite option_guard_True by done. cbn. rewrite E.
    cbn. rewrite Ec. eexists. split; [done|]. split; [done|]. split; [by apply Hm|].
    split; [|done]. intros k [?|?]; [done|]. by apply El.
  - assert (forall r1, logs r1 = logs r -> conns r1 = conns r ->
      refs_ok base (set_conns r1 (delete h (conns r1)))) as Hgo.
    { intros r1 El Ec k. cbn. rewrite El, Ec, Hd, (used_not c k Hb), Z.sub_0_r. apply Hr. }
    destruct (Z.ltb_spec RAFT_CONN_STATE_AUTHORITY_DIVIDER (state c)) as [Hlt|Hlt].
    + rewrite option_guard_True by auto. cbn. eexists. split; [done|]. split; [done|].
      split; [by apply (Hgo (set_authority r (filter (.≠ h) (authority r))))|done].
    + destruct (session_branch _ r h c Hse Hb) as (r1 & -> & Ec & El). cbn. eexists.
      split; [done|]. cbn. rewrite Ec, El. split; [done|]. split; [|done].
      rewrite <-Ec. by apply Hgo.
Qed.

Lemma clear_ok base r h c :
  refs_ok base r -> conns r !! h = Some c -> raft_conn_outgoing c = true ->
  state c <> RAFT_CONN_STATE_NOT_CONNECTED ->
  session_held RAFT_CONN_STATE_TLS_CLIENT_DIVIDER r h c ->
  exists r', raft_conn_clear r h = Some r' /\
    conns r' = <[h := with_state c RAFT_CONN_STATE_NOT_CONNECTED]> (conns r) /\ refs_ok base r' /\
    (forall k, conn_borrowed_log c = false \/ k <> c_log c -> logs r' !! k = logs r !! k).
Proof.
  intros Hr Hc Ho Hs Hse. unfold raft_conn_clear. rewrite Hc. cbn.
  rewrite !option_guard_True by done. cbn. set (c' := with_state c _).
  assert (forall k, users k (<[h := c']> (conns r)) = users k (conns r) - used k c) as Hd.
  { intros k. rewrite (users_update k _ _ _ c' Hc). rewrite (used_not c' k) by done. lia. }
  destruct (conn_borrowed_log c) eqn:Hb.
  - destruct (return_log_ok base r h c Hr Hc Hb) as (r1 & E & Ec & Eau & El & Hnz & Hm).
    unfold raft_conn_return_log. rewrite Hc. cbn. rewrite option_guard_True by done. cbn. rewrite E.
    cbn. rewrite Ec. eexists. split; [done|]. split; [done|]. split; [by apply Hm|].
    intros k [?|?]; [done|]. by apply El.
  - destruct (session_branch _ r h c Hse Hb) as (r1 & -> & Ec & El). cbn. eexists.
    split; [done|]. cbn. rewrite Ec, El. split; [done|]. split; [|done].
    intros k. cbn. rewrite El, Hd, (used_not c k Hb), Z.sub_0_r. apply Hr.
Qed.

(** ** The operations of the server on its connections *)

(** [base] is what the server itself references; it does not change here. *)
Inductive raft_step : raft -> raft -> Prop :=
| step_accept r h fd admin a res r' :
    conns r !! h = None -> raft_in_conn_malloc r (Some h) fd admin a = Some (res, r') ->
    raft_step r r'
| step_session r h a ok r' :
    session_init_client r h a = Some (ok, r') -> raft_step r r'
| step_secured r h r' :
    session_deinit r h = Some r' -> raft_step r r'
| step_set_io r h c st size r' :
    conns r !! h = Some c -> conn_borrowed_log c = false -> Z.land st EPOLLLOG = 0 ->
    raft_conn_set_io r h st size = Some r' -> raft_step r r'
| step_borrow r h log_h st size r' :
    raft_conn_borrow_log r h log_h st size = Some r' -> raft_step r r'
| step_return r h st size r1 r' :
    raft_conn_return_log r h = Some r1 -> Z.land st EPOLLLOG = 0 ->
    raft_conn_set_io r1 h st size = Some r' -> raft_step r r'
| step_read r incoming h n wouldblock ok r' :
    raft_conn_full_read r incoming h n wouldblock = Some (ok, r') -> raft_step r r'
| step_write r incoming h n wouldblock ok r' :
    conn_full_write r incoming h n wouldblock = Some (ok, r') -> raft_step r r'
| step_write_msg r incoming h n wouldblock ok r' :
    raft_conn_full_write_msg r incoming h n wouldblock = Some (ok, r') -> raft_step r r'
| step_write_zero r incoming h n wouldblock ok r' :
    raft_conn_write_byte_zero r incoming h n wouldblock = Some (ok, r') -> raft_step r r'
| step_close r incoming h r' :
    close_conn r incoming h = Some r' -> raft_step r r'.

Lemma set_io_used c st size k :
  conn_borrowed_log c = false -> Z.land st EPOLLLOG = 0 -> used k (set_io c st size) = used k c.
Proof.
  intros Hb Hs. rewrite (used_not c k Hb). apply used_not. unfold conn_borrowed_log. cbn.
  by rewrite Hs.
Qed.

Lemma session_deinit_live r h r' : session_deinit r h = Some r' -> h ∈ sessions r.
Proof. unfold session_deinit. intros (live & E & _)%bind_Some. by apply tls_deinit_Some in E as [? _]. Qed.

Lemma close_refs base r incoming h r' :
  refs_ok base r -> close_conn r incoming h = Some r' -> refs_ok base r'.
Proof.
  intros Hr E. pose proof E as E0. destruct incoming; cbn [close_conn] in E, E0.
  - unfold raft_conn_free in E. apply bind_Some in E as (c & Hc & E).
    apply bind_Some in E as (Ho & _ & E). apply bind_Some in E as (r1 & E & _).
    destruct (free_ok base r h c Hr Hc Ho) as (r2 & E1 & _ & Hr1 & _);
      [| |assert (r2 = r') as <- by congruence; done].
    + intros Hb Hlt. rewrite Hb, (proj2 (Z.ltb_lt _ _) Hlt) in E.
      by apply bind_Some in E as (Hin & _).
    + intros Ht Hb Hlt. rewrite Hb, Ht in E.
      rewrite (proj2 (Z.ltb_ge RAFT_CONN_STATE_AUTHORITY_DIVIDER (state c))),
        (proj2 (Z.ltb_lt _ _) Hlt) in E 
          by (change RAFT_CONN_STATE_TLS_SERVER_DIVIDER with 120 in Hlt;
              change RAFT_CONN_STATE_AUTHORITY_DIVIDER with 200; lia).
      by apply session_deinit_live in E.
  - unfold raft_conn_clear in E. apply bind_Some in E as (c & Hc & E).
    apply bind_Some in E as (Ho & _ & E). apply bind_Some in E as (Hs & _ & E).
    apply bind_Some in E as (r2 & E & _).
    destruct (clear_ok base r h c Hr Hc Ho Hs) as (r1 & E1 & _ & Hr1 & _);
      [|assert (r1 = r') as <- by congruence; done].
    intros Ht Hb Hlt. rewrite Hb, Ht, (proj2 (Z.ltb_lt _ _) Hlt) in E. by apply session_deinit_live in E.
Qed.

(** A transfer of [n] bytes. *)
Lemma progress_refs base r h c n :
  refs_ok base r -> conns r !! h = Some c ->
  refs_ok base (set_conns r (<[h := set_io c (state c) n]> (conns r))).
Proof. intros Hr Hc. by eapply refs_ok_same. Qed.

Lemma check_read_refs base r incoming h n w ok r' :
  refs_ok base r -> conn_check_read r incoming h n w = Some (ok, r') -> refs_ok base r'.
Proof.
  intros Hr E. unfold conn_check_read in E. destruct (conns r !! h) as [c|] eqn:Hc; [|done].
  cbn in E. case_bool_decide.
  - case_guard; [|done]. simplify_eq/=. by apply progress_refs.
  - destruct (bool_decide (n = 0) || negb w); [|by simplify_eq/=].
    apply bind_Some in E as (r1 & E1 & E). simplify_eq. by eapply close_refs.
Qed.

Lemma check_write_refs base r incoming h n w ok r' :
  refs_ok base r -> conn_check_write r incoming h n w = Some (ok, r') -> refs_ok base r'.
Proof.
  intros Hr E. unfold conn_check_write in E. destruct (conns r !! h) as [c|] eqn:Hc; [|done].
  cbn in E. case_bool_decide.
  - case_guard; [|done]. simplify_eq/=. by apply progress_refs.
  - case_guard; [|done]. cbn in E. destruct w; [by simplify_eq/=|].
    apply bind_Some in E as (r1 & E1 & E). simplify_eq. by eapply close_refs.
Qed.

Lemma and_done_state h res ok r' : and_done h res = Some (ok, r') -> r' = snd res.
Proof.
  destruct res as [[|] r]; cbn; [|by intros [= _ ->]].
  destruct (conns r !! h); [|done]. cbn. by intros [= _ ->].
Qed.

(** A new connection holds no reference. *)
Lemma accept_refs base r h c :
  refs_ok base r -> conns r !! h = None -> conn_borrowed_log c = false ->
  refs_ok base (set_conns r (<[h := c]> (conns r))).
Proof.
  intros Hr Hn Hb k. cbn. rewrite users_insert by done. rewrite (used_not c k Hb), Z.add_0_l. apply Hr.
Qed.

Lemma raft_step_refs base r r' : refs_ok base r -> raft_step r r' -> refs_ok base r'.
Proof.
  intros Hr Hst. destruct Hst as [r h fd admin a res r' Hn E|r h a ok r' E|r h r' E|r h c st size r' Hc Hb Hs E
    |r h log_h st size r' E|r h st size r1 r' E1 Hs E|r i h n w ok r' E|r i h n w ok r' E
    |r i h n w ok r' E|r i h n w ok r' E|r i h r' E].
  - cbn in E. destruct (with_tls r); [|injection E as _ <-; by apply accept_refs].
    apply bind_Some in E as ([ok r1] & E1 & E). apply bind_Some in E1 as ([ok' live] & _ & [= <- <-]).
    destruct ok'; injection E as _ <-; [by apply (accept_refs base (set_sessions r live))|exact Hr].
  - by apply bind_Some in E as ([ok' live] & _ & [= _ <-]).
  - by apply bind_Some in E as (live & _ & [= <-]).
  - unfold raft_conn_set_io in E. rewrite Hc in E. simplify_eq/=.
    eapply refs_ok_same; [done..|]. intros k. by apply set_io_used.
  - unfold raft_conn_borrow_log in E. apply bind_Some in E as (c & Hc & E).
    apply bind_Some in E as (Hb & _ & E). apply bind_Some in E as (l & Hl & E).
    apply bind_Some in E as (Hb' & _ & E). injection E as <-. intros k. specialize (Hr k). cbn.
    rewrite (users_update k _ _ _ _ Hc), (used_not c k Hb), (used_self _ k Hb'). cbn.
    destruct (Z.eqb_spec k log_h) as [->|Hne].
    + rewrite lookup_insert_eq. rewrite Hl in Hr. cbn. lia.
    + rewrite lookup_insert_ne by done. by rewrite Z.sub_0_r, Z.add_0_r.
  - unfold raft_conn_return_log in E1. apply bind_Some in E1 as (c & Hc & E1).
    apply bind_Some in E1 as (Hb & _ & E1).
    destruct (return_log_ok base r h c Hr Hc Hb) as (r2 & E2 & Ec & _ & _ & _ & Hm).
    rewrite E2 in E1. injection E1 as ->. unfold raft_conn_set_io in E. rewrite Ec, Hc in E.
    injection E as <-. apply Hm. intros k. rewrite (users_update k _ _ _ _ Hc).
    rewrite (used_not (set_io c st size) k); [lia|]. unfold conn_borrowed_log. cbn. by rewrite Hs.
  - apply bind_Some in E as ([ok' r1] & E1 & E). apply and_done_state in E as ->.
    unfold raft_conn_read in E1. apply bind_Some in E1 as (c & _ & E1).
    apply bind_Some in E1 as (_ & _ & E1).
    eapply check_read_refs; [done|exact E1].
  - apply bind_Some in E as ([ok' r1] & E1 & E). apply and_done_state in E as ->.
    unfold conn_write in E1. apply bind_Some in E1 as (c & _ & E1).
    apply bind_Some in E1 as (_ & _ & E1).
    eapply check_write_refs; [done|exact E1].
  - apply bind_Some in E as ([ok' r1] & E1 & E). apply and_done_state in E as ->.
    unfold conn_write_msg in E1. apply bind_Some in E1 as (c & _ & E1).
    apply bind_Some in E1 as (_ & _ & E1).
    eapply check_write_refs; [done|exact E1].
  - unfold raft_conn_write_byte_zero in E. case_bool_decide; [by simplify_eq|].
    case_guard; [|done]. cbn in E. destruct w; [by simplify_eq/=|].
    apply bind_Some in E as (r1 & E1 & E). simplify_eq. by eapply close_refs.
  - by eapply close_refs.
Qed.

(** ** Receiving a message in pieces *)

(** Successive [raft_conn_full_read_to_buffer] calls that read [ns] bytes: where
    each lands in the buffer and whether the message is complete. *)
Fixpoint read_pieces (r : raft) (h size : Z) (ns : list Z) : option (list (Z * bool) * raft) :=
  match ns with
  | [] => Some ([], r)
  | n :: ns' =>
      '(pos, (ok, r)) ← raft_conn_full_read_to_buffer r true h size n false;
      '(rest, r) ← read_pieces r h size ns';
      Some ((pos, ok) :: rest, r)
  end.

(** The same in terms of offsets: each piece starts where the previous ended. *)
Fixpoint pieces (off size : Z) (ns : list Z) : list (Z * bool) :=
  match ns with
  | [] => []
  | n :: ns' => (off, off + n =? size) :: pieces (off + n) size ns'
  end.

Definition sum (ns : list Z) : Z := foldr Z.add 0 ns.

Lemma sum_nonneg ns : Forall (fun n => 0 < n) ns -> 0 <= sum ns.
Proof. unfold sum. induction 1; cbn; lia. Qed.

Lemma read_piece r h c size n :
  conns r !! h = Some c -> 0 < n <= unio c -> unio c <= size < 2 ^ 64 ->
  raft_conn_full_read_to_buffer r true h size n false =
  Some (size - unio c, (unio c - n =? 0,
    set_conns r (<[h := set_io c (state c) (unio c - n)]> (conns r)))).
Proof.
  intros Hc Hn Hs. unfold raft_conn_full_read_to_buffer, raft_conn_full_read, raft_conn_read,
    conn_check_read. rewrite !Hc. cbn. rewrite option_guard_True by lia. cbn.
  rewrite bool_decide_true by lia. rewrite option_guard_True by lia. cbn.
  rewrite lookup_insert_eq. cbn. rewrite !wrap_small by lia. done.
Qed.

Lemma read_pieces_spec r h c size ns :
  conns r !! h = Some c -> 0 <= unio c <= size -> size < 2 ^ 64 ->
  Forall (fun n => 0 < n) ns -> sum ns <= unio c ->
  exists r', read_pieces r h size ns = Some (pieces (size - unio c) size ns, r') /\
    conns r' !! h = Some (set_io c (state c) (unio c - sum ns)).
Proof.
  intros Hc Hu Hs Hns. revert r c Hc Hu.
  induction Hns as [|n ns Hn Hns IH]; intros r c Hc Hu Hsum.
  { exists r. cbn. rewrite Z.sub_0_r. split; [done|]. rewrite Hc. by destruct c. }
  cbn [sum foldr] in Hsum. change (foldr Z.add 0 ns) with (sum ns) in Hsum.
  pose proof (sum_nonneg ns Hns). cbn [read_pieces pieces].
  rewrite (read_piece r h c) by (done || lia). cbn [mbind option_bind].
  destruct (IH (set_conns r (<[h := set_io c (state c) (unio c - n)]> (conns r)))
              (set_io c (state c) (unio c - n))) as (r' & E & Hr').
  { cbn. by rewrite lookup_insert_eq. }
  { cbn. lia. }
  { cbn. lia. }
  rewrite E. cbn. exists r'. split.
  - replace (size - (unio c - n)) with (size - unio c + n) by lia.
    do 4 f_equal. destruct (Z.eqb_spec (unio c - n) 0), (Z.eqb_spec (size - unio c + n) size); lia || done.
  - rewrite Hr'. unfold set_io. cbn. do 2 f_equal. unfold sum. cbn. lia.
Qed.

(** ** Properties *)

(** C17: whatever the peers and the network do, the reference count of every log
    is exactly the number of connections that use it plus the server's own
    references; a log that is in use has not been freed. *)
Theorem log_refcount_exact base r r'
    (Hinit : refs_ok base r) (Hrun : rtc raft_step r r') :
  refs_ok base r' /\
  forall h c, conns r' !! h = Some c -> conn_borrowed_log c = true ->
    exists l, logs r' !! c_log c = Some l /\ 0 < refcount l.
Proof.
  assert (refs_ok base r') as Hr.
  { eapply (rtc_ind_r (refs_ok base)); [exact Hinit| |exact Hrun].
    intros x y _ Hxy Hx. by eapply raft_step_refs. }
  split; [done|]. intros h c Hc Hb. destruct (Hr (c_log c)) as [Hbase Hk].
  pose proof (users_delete (c_log c) _ _ _ Hc) as Hd.
  pose proof (users_nonneg (c_log c) (delete h (conns r'))).
  rewrite (used_self c _ Hb), Z.eqb_refl in Hd.
  destruct (logs r' !! c_log c) as [l|]; [|lia]. exists l. split; [done|]. lia.
Qed.

(** One log held by the server, one connection waiting for a command. *)
Definition sample_conn : raft_conn :=
  {| c_log := 0; unio := 80; fd := 5; admin := false; state := RAFT_CONN_STATE_IN_CMD |}.
Definition sample_raft_log : log :=
  {| refcount := 1; index := 1; term := 1; log_version := 1; next_machine_version := 5;
     next_machine_id := 5; type := 0; old_n := 4; new_n := 0; distinct_machines_n := 4;
     machines := [] |}.
Definition sample_raft : raft :=
  {| with_tls := true; conns := {[64 := sample_conn]}; logs := {[128 := sample_raft_log]};
     authority := []; sessions := ∅ |}.
Definition sample_base : Z -> Z := fun k => if k =? 128 then 1 else 0.

Lemma sample_raft_refs : refs_ok sample_base sample_raft.
Proof.
  intros k. unfold sample_base.
  assert (users k (conns sample_raft) = 0) as ->.
  { change (conns sample_raft) with (<[64 := sample_conn]> ∅ : gmap Z raft_conn).
    rewrite users_insert by done. by rewrite (used_not sample_conn k). }
  change (logs sample_raft) with (<[128 := sample_raft_log]> ∅ : gmap Z log).
  destruct (Z.eqb_spec k 128) as [->|Hne]; (split; [lia|]).
  - by rewrite lookup_insert_eq.
  - by rewrite lookup_insert_ne by done.
Qed.

Lemma log_refcount_exact_witness :
  exists r', raft_conn_borrow_log sample_raft 64 128 RAFT_CONN_STATE_CLUSTER_OUT 40 = Some r' /\
    exists l, logs r' !! 128 = Some l /\ 0 < refcount l.
Proof.
  destruct (raft_conn_borrow_log sample_raft 64 128 RAFT_CONN_STATE_CLUSTER_OUT 40) as [r'|] eqn:E;
    [|vm_compute in E; discriminate E].
  exists r'. split; [reflexivity|].
  destruct (log_refcount_exact sample_base sample_raft r' sample_raft_refs) as [_ H].
  { apply rtc_once. eapply step_borrow. exact E. }
  vm_compute in E. injection E as <-.
  destruct (H 64 {| c_log := 128; unio := 40; fd := 5; admin := false;
                    state := RAFT_CONN_STATE_CLUSTER_OUT |}) as (l & Hl & Hpos);
    [reflexivity|reflexivity|].
  exists l. split; [exact Hl|exact Hpos].
Defined.

(** Closing an incoming connection never faults: it removes the connection
    and nothing else, gives back the log it used, and frees that log exactly
    when no one else references it. *)
Theorem raft_conn_free_releases base r h c
    (Hrefs : refs_ok base r) (Hc : conns r !! h = Some c)
    (Hin : raft_conn_outgoing c = false)
    (Hauth : conn_borrowed_log c = false -> RAFT_CONN_STATE_AUTHORITY_DIVIDER < state c ->
       h ∈ authority r)
    (Hsession : session_held RAFT_CONN_STATE_TLS_SERVER_DIVIDER r h c) :
  exists r', raft_conn_free r h = Some r' /\ conns r' = delete h (conns r) /\
    (forall k, logs r' !! k = None <->
       logs r !! k = None \/
       (conn_borrowed_log c = true /\ k = c_log c /\ base k + users k (delete h (conns r)) = 0)).
Proof.
  destruct (free_ok base r h c Hrefs Hc Hin Hauth Hsession) as (r' & E & Ec & Hr' & El & Hnz).
  exists r'. split; [done|]. split; [done|]. intros k.
  destruct (decide (conn_borrowed_log c = false \/ k <> c_log c)) as [Hd|Hd].
  { rewrite El by done. split; [by left|]. intros [?|(Hb & -> & _)]; [done|].
    destruct Hd; congruence. }
  assert (conn_borrowed_log c = true /\ k = c_log c) as [Hb ->]
    by (destruct (conn_borrowed_log c); [|tauto]; split; [done|lia]).
  destruct (Hr' (c_log c)) as [Hb0 Hk']. rewrite Ec in Hk'.
  destruct (Hrefs (c_log c)) as [_ Hk].
  pose proof (users_delete (c_log c) _ _ _ Hc) as Hdel.
  pose proof (users_nonneg (c_log c) (delete h (conns r))).
  rewrite (used_self c _ Hb), Z.eqb_refl in Hdel.
  destruct (logs r !! c_log c) as [l|]; [|lia].
  destruct (logs r' !! c_log c) as [l'|] eqn:El'.
  - specialize (Hnz Hb l' eq_refl). split; [done|]. intros [?|(_ & _ & ?)]; [done|lia].
  - split; [|done]. intros _. right. split; [done|]. split; [done|]. lia.
Qed.

Lemma raft_conn_free_releases_witness :
  exists r', raft_conn_free sample_raft 64 = Some r' /\ conns r' = ∅ /\
    logs r' !! 128 <> None.
Proof.
  destruct (raft_conn_free_releases sample_base sample_raft 64 sample_conn sample_raft_refs)
    as (r' & E & Ec & Hl); [reflexivity|reflexivity|intros _ H; vm_compute in H; congruence
      |intros _ _ H; vm_compute in H; congruence|].
  exists r'. split; [exact E|]. split; [rewrite Ec; reflexivity|].
  rewrite Hl. intros [H|(H & _)]; vm_compute in H; congruence.
Defined.

(** A message of [size] bytes received in any number of pieces lands in the
    buffer contiguously and is reported complete exactly when its last byte has
    arrived. *)
Theorem read_pieces_contiguous r h c size ns
    (Hc : conns r !! h = Some c) (Hunio : unio c = size) (Hsize : 0 <= size < 2 ^ 64)
    (Hns : Forall (fun n => 0 < n) ns) (Hsum : sum ns <= size) :
  exists r', read_pieces r h size ns = Some (pieces 0 size ns, r') /\
    conns r' !! h = Some (set_io c (state c) (size - sum ns)).
Proof.
  destruct (read_pieces_spec r h c size ns Hc) as (r' & E & Hr'); [lia|lia|done|lia|].
  exists r'. rewrite Hunio, Z.sub_diag in E. rewrite Hunio in Hr'. done.
Qed.

Lemma read_pieces_contiguous_witness :
  exists r', read_pieces sample_raft 64 80 [30; 50] = Some ([(0, false); (30, true)], r').
Proof.
  destruct (read_pieces_contiguous sample_raft 64 sample_conn 80 [30; 50]) as (r' & E & _);
    [reflexivity|reflexivity|lia|repeat constructor; lia|vm_compute; congruence|].
  exists r'. exact E.
Defined.
