(* ===== verification/Proto.v ===== *)
(** * Messages between the machines (raft_proto.h)

    The messages are C structs the machines write to their connection's 80-byte
    buffer and send as they lie in memory: every field at its aligned offset,
    integers in little-endian order.  [put_msg] writes the fields of a message
    and leaves the padding alone; [get_msg] reads them.  The interface [Wire]
    says that reading gives back what was written and depends on nothing but
    the bytes that are sent; every struct of raft_proto.h is an instance.  The
    transfer of a message from one machine to another is in Delivery.v. *)

From S2P Require Import Prelude Machine RaftConn.

(** ** Little-endian integers in a buffer *)

Fixpoint le_split (w : nat) (v : Z) : list Z :=
  match w with O => [] | S w' => v mod 256 :: le_split w' (v / 256) end.

Fixpoint le_combine (bs : list Z) : Z :=
  match bs with [] => 0 | b :: bs' => b + 256 * le_combine bs' end.

(** The bytes of a field, and the field as an integer. *)
Definition field (o w : nat) (b : list Z) : list Z := take w (drop o b).
Definition fill (o : nat) (bs b : list Z) : list Z := take o b ++ bs ++ drop (o + length bs) b.
Definition get (o w : nat) (b : list Z) : Z := le_combine (field o w b).
Definition put (o w : nat) (v : Z) (b : list Z) : list Z := fill o (le_split w v) b.

Lemma length_le_split w v : length (le_split w v) = w.
Proof. revert v. induction w as [|w IH]; intros v; cbn; by rewrite ?IH. Qed.

Lemma le_combine_split w v : 0 <= v < 2 ^ (8 * Z.of_nat w) -> le_combine (le_split w v) = v.
Proof.
  revert v. induction w as [|w IH]; intros v Hv; cbn [le_split le_combine].
  { change (2 ^ (8 * Z.of_nat 0)) with 1 in Hv. lia. }
  replace (8 * Z.of_nat (S w)) with (8 + 8 * Z.of_nat w) in Hv by lia.
  rewrite Z.pow_add_r in Hv by lia. change (2 ^ 8) with 256 in Hv.
  rewrite IH; [pose proof (Z.div_mod v 256); lia|].
  split; [apply Z.div_pos; lia|]. apply Z.div_lt_upper_bound; lia.
Qed.

#[global] Arguments le_split : simpl never.

Lemma length_fill o bs b : (o + length bs <= length b)%nat -> length (fill o bs b) = length b.
Proof. intros. unfold fill. rewrite !length_app, length_take, length_drop. lia. Qed.

Lemma length_put o w v b : (o + w <= length b)%nat -> length (put o w v b) = length b.
Proof. intros. apply length_fill. by rewrite length_le_split. Qed.

Lemma field_fill o bs b : (o <= length b)%nat -> field o (length bs) (fill o bs b) = bs.
Proof.
  intros. unfold field, fill. rewrite drop_app_length' by (rewrite length_take; lia).
  by rewrite take_app_length.
Qed.

Lemma field_fill_ne o w o' bs b :
  (o' + length bs <= length b)%nat -> (o + w <= o')%nat \/ (o' + length bs <= o)%nat ->
  field o w (fill o' bs b) = field o w b.
Proof.
  intros Hl Ho. apply list_eq. intros i. unfold field.
  destruct (decide (i < w)%nat); [|by rewrite !lookup_take_ge by lia].
  rewrite !lookup_take_lt, !lookup_drop by done. unfold fill.
  destruct Ho.
  - rewrite lookup_app_l, lookup_take_lt by (rewrite ?length_take; lia). done.
  - rewrite lookup_app_r, lookup_app_r by (rewrite ?length_take; lia).
    rewrite lookup_drop, length_take. f_equal. lia.
Qed.

Lemma get_put o w v b :
  (o <= length b)%nat -> 0 <= v < 2 ^ (8 * Z.of_nat w) -> get o w (put o w v b) = v.
Proof.
  intros Hl Hv. unfold get, put. rewrite <-(length_le_split w v) at 1.
  rewrite field_fill by done. by apply le_combine_split.
Qed.

Lemma get_put_ne o w o' w' v b :
  (o' + w' <= length b)%nat -> (o + w <= o')%nat \/ (o' + w' <= o)%nat ->
  get o w (put o' w' v b) = get o w b.
Proof.
  intros. unfold get, put. by rewrite field_fill_ne by (rewrite ?length_le_split; lia).
Qed.

(** A [bool] is one byte. *)
Definition get_bool (o : nat) (b : list Z) : bool := negb (get o 1 b =? 0).
Definition put_bool (o : nat) (x : bool) (b : list Z) : list Z := put o 1 (if x then 1 else 0) b.

Lemma get_put_bool o x b : (o < length b)%nat -> get_bool o (put_bool o x b) = x.
Proof.
  intros. unfold get_bool, put_bool.
  rewrite get_put by (destruct x; try (change (2 ^ _) with 256); lia). by destruct x.
Qed.

Notation "b '|>' f" := (f b) (at level 61, left associativity, only parsing) : umem_scope.

(** ** The interface of a message *)

Definition u8_ok (x : Z) : Prop := 0 <= x < 2 ^ 8.
Definition u32_ok (x : Z) : Prop := 0 <= x < 2 ^ 32.
Definition u64_ok (x : Z) : Prop := 0 <= x < 2 ^ 64.

Class Wire (A : Type) := {
  msg_size : nat;
  put_msg : A -> list Z -> list Z;
  get_msg : list Z -> A;
  msg_ok : A -> Prop;
  msg_size_buffer : (msg_size <= Z.to_nat RAFT_CONN_BUFFER_SIZE)%nat;
  length_put_msg m b : (msg_size <= length b)%nat -> length (put_msg m b) = length b;
  get_put_msg m b : (msg_size <= length b)%nat -> msg_ok m -> get_msg (put_msg m b) = m;
  get_msg_take b : get_msg (take msg_size b) = get_msg b
}.

(** The laws of a struct, from its fields. *)
Lemma field_take o w n b : (o + w <= n)%nat -> field o w (take n b) = field o w b.
Proof.
  intros H. unfold field. rewrite !take_drop_commute, take_take. do 2 f_equal. lia.
Qed.

Lemma get_take o w n b : (o + w <= n)%nat -> get o w (take n b) = get o w b.
Proof. intros. unfold get. by rewrite field_take. Qed.

Lemma get_bool_take o n b : (o + 1 <= n)%nat -> get_bool o (take n b) = get_bool o b.
Proof. intros. unfold get_bool. by rewrite get_take. Qed.


(** A write never shortens the buffer, so the writes of a struct stay inside it. *)
Lemma put_le n o w v b : (n <= length b)%nat -> (n <= length (put o w v b))%nat.
Proof.
  intros. unfold put, fill. rewrite !length_app, length_take, length_drop, length_le_split. lia.
Qed.

Ltac inside n := apply (Nat.le_trans _ n); [lia|]; repeat apply put_le; assumption.
Ltac wire_fits := cbv; lia.
Ltac wire_length n :=
  intros m b Hb; unfold put_bool; rewrite !length_put; first [reflexivity | inside n].
Ltac wire_take := intros b; f_equal;
  (apply get_take || apply get_bool_take || apply field_take); lia.
Ltac wire_get n :=
  intros m b Hb Hok; destruct m; cbn in Hok; destruct_and?; f_equal; cbn; unfold get_bool, put_bool;
  repeat rewrite get_put_ne by (first [inside n | lia]);
  (rewrite get_put by (first [inside n | case_match; lia | assumption])); try done; by case_match.

(** ** The structs *)

Record request_vote_req := { rv_cmd : Z; rv_candidate_id : Z; rv_term : Z; rv_log_index : Z;
  rv_log_term : Z }.

Definition put_request_vote_req (m : request_vote_req) (b : list Z) : list Z :=
  b
    |> put 0 1 (rv_cmd m)
    |> put 4 4 (rv_candidate_id m)
    |> put 8 8 (rv_term m)
    |> put 16 8 (rv_log_index m)
    |> put 24 8 (rv_log_term m).
Definition get_request_vote_req (b : list Z) : request_vote_req :=
  {| rv_cmd := get 0 1 b;
     rv_candidate_id := get 4 4 b;
     rv_term := get 8 8 b;
     rv_log_index := get 16 8 b;
     rv_log_term := get 24 8 b |}.
Definition request_vote_req_ok (m : request_vote_req) : Prop :=
  u8_ok (rv_cmd m) /\ u32_ok (rv_candidate_id m) /\ u64_ok (rv_term m) /\ u64_ok
  (rv_log_index m) /\ u64_ok (rv_log_term m).

#[global] Instance wire_request_vote_req : Wire request_vote_req.
Proof.
  refine (Build_Wire _ 32 put_request_vote_req get_request_vote_req request_vote_req_ok _ _ _ _);
    unfold put_request_vote_req, get_request_vote_req, request_vote_req_ok;
    [wire_fits|wire_length 32%nat|wire_get 32%nat|wire_take].
Defined.

Record request_vote_res := { rvr_term : Z; rvr_granted : bool }.

Definition put_request_vote_res (m : request_vote_res) (b : list Z) : list Z :=
  b
    |> put 0 8 (rvr_term m)
    |> put_bool 8 (rvr_granted m).
Definition get_request_vote_res (b : list Z) : request_vote_res :=
  {| rvr_term := get 0 8 b;
     rvr_granted := get_bool 8 b |}.
Definition request_vote_res_ok (m : request_vote_res) : Prop :=
  u64_ok (rvr_term m).

#[global] Instance wire_request_vote_res : Wire request_vote_res.
Proof.
  refine (Build_Wire _ 16 put_request_vote_res get_request_vote_res request_vote_res_ok _ _ _ _);
    unfold put_request_vote_res, get_request_vote_res, request_vote_res_ok;
    [wire_fits|wire_length 16%nat|wire_get 16%nat|wire_take].
Defined.

Record append_log_req := { al_cmd : Z; al_type : Z; al_machines_size : Z; al_term : Z;
  al_leader_id : Z; al_follower_id : Z; al_log_index : Z; al_log_term : Z; al_version : Z;
  al_next_machine_version : Z; al_next_machine_id : Z; al_new_machine_nr : Z;
  al_distinct_machines_n : Z }.

Definition put_append_log_req (m : append_log_req) (b : list Z) : list Z :=
  b
    |> put 0 1 (al_cmd m)
    |> put 1 1 (al_type m)
    |> put 8 8 (al_machines_size m)
    |> put 16 8 (al_term m)
    |> put 24 4 (al_leader_id m)
    |> put 28 4 (al_follower_id m)
    |> put 32 8 (al_log_index m)
    |> put 40 8 (al_log_term m)
    |> put 48 8 (al_version m)
    |> put 56 8 (al_next_machine_version m)
    |> put 64 4 (al_next_machine_id m)
    |> put 68 4 (al_new_machine_nr m)
    |> put 72 8 (al_distinct_machines_n m).
Definition get_append_log_req (b : list Z) : append_log_req :=
  {| al_cmd := get 0 1 b;
     al_type := get 1 1 b;
     al_machines_size := get 8 8 b;
     al_term := get 16 8 b;
     al_leader_id := get 24 4 b;
     al_follower_id := get 28 4 b;
     al_log_index := get 32 8 b;
     al_log_term := get 40 8 b;
     al_version := get 48 8 b;
     al_next_machine_version := get 56 8 b;
     al_next_machine_id := get 64 4 b;
     al_new_machine_nr := get 68 4 b;
     al_distinct_machines_n := get 72 8 b |}.
Definition append_log_req_ok (m : append_log_req) : Prop :=
  u8_ok (al_cmd m) /\ u8_ok (al_type m) /\ u64_ok (al_machines_size m) /\ u64_ok (al_term m)
  /\ u32_ok (al_leader_id m) /\ u32_ok (al_follower_id m) /\ u64_ok (al_log_index m) /\
  u64_ok (al_log_term m) /\ u64_ok (al_version m) /\ u64_ok (al_next_machine_version m) /\
  u32_ok (al_next_machine_id m) /\ u32_ok (al_new_machine_nr m) /\ u64_ok
  (al_distinct_machines_n m).

#[global] Instance wire_append_log_req : Wire append_log_req.
Proof.
  refine (Build_Wire _ 80 put_append_log_req get_append_log_req append_log_req_ok _ _ _ _);
    unfold put_append_log_req, get_append_log_req, append_log_req_ok;
    [wire_fits|wire_length 80%nat|wire_get 80%nat|wire_take].
Defined.

Record heartbeat_req := { hb_cmd : Z; hb_term : Z }.

Definition put_heartbeat_req (m : heartbeat_req) (b : list Z) : list Z :=
  b
    |> put 0 1 (hb_cmd m)
    |> put 8 8 (hb_term m).
Definition get_heartbeat_req (b : list Z) : heartbeat_req :=
  {| hb_cmd := get 0 1 b;
     hb_term := get 8 8 b |}.
Definition heartbeat_req_ok (m : heartbeat_req) : Prop :=
  u8_ok (hb_cmd m) /\ u64_ok (hb_term m).

#[global] Instance wire_heartbeat_req : Wire heartbeat_req.
Proof.
  refine (Build_Wire _ 16 put_heartbeat_req get_heartbeat_req heartbeat_req_ok _ _ _ _);
    unfold put_heartbeat_req, get_heartbeat_req, heartbeat_req_ok;
    [wire_fits|wire_length 16%nat|wire_get 16%nat|wire_take].
Defined.

Record append_entry_res := { ae_term : Z; ae_applied : bool }.

Definition put_append_entry_res (m : append_entry_res) (b : list Z) : list Z :=
  b
    |> put 0 8 (ae_term m)
    |> put_bool 8 (ae_applied m).
Definition get_append_entry_res (b : list Z) : append_entry_res :=
  {| ae_term := get 0 8 b;
     ae_applied := get_bool 8 b |}.
Definition append_entry_res_ok (m : append_entry_res) : Prop :=
  u64_ok (ae_term m).

#[global] Instance wire_append_entry_res : Wire append_entry_res.
Proof.
  refine (Build_Wire _ 16 put_append_entry_res get_append_entry_res append_entry_res_ok _ _ _ _);
    unfold put_append_entry_res, get_append_entry_res, append_entry_res_ok;
    [wire_fits|wire_length 16%nat|wire_get 16%nat|wire_take].
Defined.

Record change_cluster_req := { cc_cmd : Z; cc_machines_size : Z }.

Definition put_change_cluster_req (m : change_cluster_req) (b : list Z) : list Z :=
  b
    |> put 0 1 (cc_cmd m)
    |> put 8 8 (cc_machines_size m).
Definition get_change_cluster_req (b : list Z) : change_cluster_req :=
  {| cc_cmd := get 0 1 b;
     cc_machines_size := get 8 8 b |}.
Definition change_cluster_req_ok (m : change_cluster_req) : Prop :=
  u8_ok (cc_cmd m) /\ u64_ok (cc_machines_size m).

#[global] Instance wire_change_cluster_req : Wire change_cluster_req.
Proof.
  refine (Build_Wire _ 16 put_change_cluster_req get_change_cluster_req change_cluster_req_ok _ _ _ _);
    unfold put_change_cluster_req, get_change_cluster_req, change_cluster_req_ok;
    [wire_fits|wire_length 16%nat|wire_get 16%nat|wire_take].
Defined.

Record cluster_res := { cl_type : Z; cl_machines_size : Z; cl_version : Z }.

Definition put_cluster_res (m : cluster_res) (b : list Z) : list Z :=
  b
    |> put 0 1 (cl_type m)
    |> put 8 8 (cl_machines_size m)
    |> put 16 8 (cl_version m).
Definition get_cluster_res (b : list Z) : cluster_res :=
  {| cl_type := get 0 1 b;
     cl_machines_size := get 8 8 b;
     cl_version := get 16 8 b |}.
Definition cluster_res_ok (m : cluster_res) : Prop :=
  u8_ok (cl_type m) /\ u64_ok (cl_machines_size m) /\ u64_ok (cl_version m).

#[global] Instance wire_cluster_res : Wire cluster_res.
Proof.
  refine (Build_Wire _ 24 put_cluster_res get_cluster_res cluster_res_ok _ _ _ _);
    unfold put_cluster_res, get_cluster_res, cluster_res_ok;
    [wire_fits|wire_length 24%nat|wire_get 24%nat|wire_take].
Defined.

Record connect_req := { co_cmd : Z; co_thread_id : Z }.

Definition put_connect_req (m : connect_req) (b : list Z) : list Z :=
  b
    |> put 0 1 (co_cmd m)
    |> put 4 4 (co_thread_id m).
Definition get_connect_req (b : list Z) : connect_req :=
  {| co_cmd := get 0 1 b;
     co_thread_id := get 4 4 b |}.
Definition connect_req_ok (m : connect_req) : Prop :=
  u8_ok (co_cmd m) /\ u32_ok (co_thread_id m).

#[global] Instance wire_connect_req : Wire connect_req.
Proof.
  refine (Build_Wire _ 8 put_connect_req get_connect_req connect_req_ok _ _ _ _);
    unfold put_connect_req, get_connect_req, connect_req_ok;
    [wire_fits|wire_length 8%nat|wire_get 8%nat|wire_take].
Defined.

Record authority_approval := { aa_version : Z; aa_count : Z }.

Definition put_authority_approval (m : authority_approval) (b : list Z) : list Z :=
  b
    |> put 0 8 (aa_version m)
    |> put 8 8 (aa_count m).
Definition get_authority_approval (b : list Z) : authority_approval :=
  {| aa_version := get 0 8 b;
     aa_count := get 8 8 b |}.
Definition authority_approval_ok (m : authority_approval) : Prop :=
  u64_ok (aa_version m) /\ u64_ok (aa_count m).

#[global] Instance wire_authority_approval : Wire authority_approval.
Proof.
  refine (Build_Wire _ 16 put_authority_approval get_authority_approval authority_approval_ok _ _ _ _);
    unfold put_authority_approval, get_authority_approval, authority_approval_ok;
    [wire_fits|wire_length 16%nat|wire_get 16%nat|wire_take].
Defined.

Record leader_res := { lr_sin6_addr : list Z; lr_sin6_port : list Z; lr_lost : bool }.

Definition put_leader_res (m : leader_res) (b : list Z) : list Z :=
  b |> fill 0 (lr_sin6_addr m)
    |> fill 16 (lr_sin6_port m)
    |> put_bool 18 (lr_lost m).
Definition get_leader_res (b : list Z) : leader_res :=
  {| lr_sin6_addr := field 0 16 b;
     lr_sin6_port := field 16 2 b;
     lr_lost := get_bool 18 b |}.

(** ** Commands *)

Definition RAFT_CMD_REQUEST_VOTE : Z := 0.
Definition RAFT_CMD_APPEND_LOG : Z := 1.
Definition RAFT_CMD_HEARTBEAT : Z := 2.
Definition RAFT_CMD_INIT_CLUSTER : Z := 3.
Definition RAFT_CMD_CHANGE_CLUSTER : Z := 4.
Definition RAFT_CMD_ADMIN_DIVIDER : Z := 5.
Definition RAFT_CMD_LEADER : Z := 6.
Definition RAFT_CMD_CLUSTER : Z := 7.
Definition RAFT_CMD_CONNECT : Z := 8.
Definition RAFT_CMD_AUTHORITY : Z := 9.

(** ** The machines of a log as bytes *)

Definition machine_bytes (m : machine) : list Z :=
  sin6_addr m ++ sin6_port m ++ padding m ++
  le_split 4 (id m) ++ le_split 8 (stability m) ++ le_split 8 (version m).

Definition machine_of_bytes (b : list Z) : machine :=
  {| sin6_addr := field 0 16 b; sin6_port := field 16 2 b; padding := field 18 2 b;
     id := get 20 4 b; stability := get 24 8 b; version := get 32 8 b |}.

Definition machines_bytes (ms : list machine) : list Z := concat (machine_bytes <$> ms).

Fixpoint machines_of_bytes (n : nat) (b : list Z) : list machine :=
  match n with
  | O => []
  | S n' => machine_of_bytes (take 40 b) :: machines_of_bytes n' (drop 40 b)
  end.

(** [machines] after [bs] has been copied to byte [o] of the array. *)
Definition machines_fill (o : nat) (bs : list Z) (ms : list machine) : list machine :=
  machines_of_bytes (length ms) (fill o bs (machines_bytes ms)).

Definition machine_ok (m : machine) : Prop :=
  length (sin6_addr m) = 16%nat /\ length (sin6_port m) = 2%nat /\ length (padding m) = 2%nat /\
  u32_ok (id m) /\ u64_ok (stability m) /\ u64_ok (version m).

Lemma length_machine_bytes m : machine_ok m -> length (machine_bytes m) = 40%nat.
Proof.
  intros (Ha & Hp & Hd & _). unfold machine_bytes. rewrite !length_app, !length_le_split. lia.
Qed.

Lemma field_app_at o w a bs c : length a = o -> length bs = w -> field o w (a ++ bs ++ c) = bs.
Proof.
  intros <- <-. unfold field. by rewrite drop_app_length, take_app_length.
Qed.

Lemma get_app_at o w a v c :
  length a = o -> 0 <= v < 2 ^ (8 * Z.of_nat w) -> get o w (a ++ le_split w v ++ c) = v.
Proof.
  intros Ha Hv. unfold get. rewrite field_app_at; [by apply le_combine_split|done|].
  apply length_le_split.
Qed.

Lemma machine_of_to_bytes m : machine_ok m -> machine_of_bytes (machine_bytes m) = m.
Proof.
  destruct m as [a p d i s v]. intros (Ha & Hp & Hd & Hi & Hs & Hv). cbn in *.
  unfold machine_of_bytes, machine_bytes. cbn [sin6_addr sin6_port padding id stability version].
  f_equal.
  - by apply (field_app_at 0 16 []).
  - by apply (field_app_at 16 2 a).
  - rewrite (app_assoc a p). apply field_app_at; [rewrite length_app; lia|done].
  - rewrite (app_assoc a p), (app_assoc (a ++ p)).
    apply get_app_at; [rewrite !length_app; lia|done].
  - rewrite (app_assoc a p), (app_assoc (a ++ p)), (app_assoc ((a ++ p) ++ d)).
    apply get_app_at; [rewrite !length_app, length_le_split; lia|done].
  - rewrite (app_assoc a p), (app_assoc (a ++ p)), (app_assoc ((a ++ p) ++ d)),
      (app_assoc (((a ++ p) ++ d) ++ _)). rewrite <-(app_nil_r (le_split 8 v)).
    apply get_app_at; [rewrite !length_app, !length_le_split; lia|done].
Qed.

Lemma machines_of_to_bytes ms :
  Forall machine_ok ms -> machines_of_bytes (length ms) (machines_bytes ms) = ms.
Proof.
  induction 1 as [|m ms Hm _ IH]; [done|]. cbn [length machines_of_bytes].
  unfold machines_bytes. rewrite fmap_cons. cbn [concat].
  rewrite take_app_length', drop_app_length' by (by rewrite length_machine_bytes).
  rewrite machine_of_to_bytes by done. f_equal. apply IH.
Qed.

Lemma length_machines_bytes ms :
  Forall machine_ok ms -> length (machines_bytes ms) = (40 * length ms)%nat.
Proof.
  unfold machines_bytes. induction 1 as [|m ms Hm _ IH]; [done|]. rewrite fmap_cons. cbn [concat].
  rewrite length_app, IH, length_machine_bytes by done. cbn. lia.
Qed.

(** ** Pieces *)

(** A piece copied behind another one. *)
Lemma fill_fill o p q b :
  (o + length p + length q <= length b)%nat ->
  fill (o + length p) q (fill o p b) = fill o (p ++ q) b.
Proof.
  intros H. unfold fill. rewrite (app_assoc (take o b) p (drop _ _)).
  rewrite take_app_length', <-drop_drop, drop_app_length'
    by (rewrite length_app, length_take; lia).
  rewrite <-!app_assoc, drop_drop, length_app. do 4 f_equal. lia.
Qed.

(** The machines of a log are the same after the bytes of their structs were
    copied over the machines of another log of the same length. *)
Theorem machines_delivered ms ms'
  (Hms : Forall machine_ok ms) (Hms' : Forall machine_ok ms') (Hn : length ms' = length ms) :
  machines_fill 0 (machines_bytes ms) ms' = ms.
Proof.
  unfold machines_fill, fill. rewrite take_0. cbn [app].
  rewrite drop_ge by (rewrite !length_machines_bytes by done; lia).
  rewrite app_nil_r, Hn. by apply machines_of_to_bytes.
Qed.

Lemma machines_delivered_witness :
  let m i := {| sin6_addr := replicate 16 0; sin6_port := [0; 80]; padding := [0; 0];
                id := i; stability := 1; version := i |} in
  machines_fill 0 (machines_bytes [m 1; m 2]) [m 8; m 9] = [m 1; m 2].
Proof.
  intros m.
  assert (forall i, 0 <= i < 10 -> machine_ok (m i)) as Hm.
  { intros i Hi. unfold machine_ok, u32_ok, u64_ok. cbn. lia. }
  apply (machines_delivered [m 1; m 2] [m 8; m 9]); [..|done];
    repeat constructor; by apply Hm.
Defined.
