(* ===== verification/Cluster.v ===== *)
(** * The leader's view of the cluster (member.h, member.c, cluster.h, cluster.c)

    A candidate or leader keeps a [struct cluster]: the machines of its log
    other than itself, each with the configurations it belongs to, sorted by
    id, and the number of votes of others it needs in either configuration.

    [members] is the array behind the allocated [struct cluster]: a member
    beyond it does not exist, so writing one is a fault. *)

From S2P Require Import Prelude Machine Log LogInv RaftConn.

Definition MEMBER_TYPE_OLD : Z := Z.shiftl 1 0.
Definition MEMBER_TYPE_NEW : Z := Z.shiftl 1 1.
Definition MEMBER_TYPE_ALL : Z := MEMBER_TYPE_OLD + MEMBER_TYPE_NEW.
Definition MEMBER_IN_OLD (t : Z) : Z := Z.land t MEMBER_TYPE_OLD.
Definition MEMBER_IN_NEW (t : Z) : Z := Z.shiftr t 1.

Record member := {
  m_id : Z; unstable_round : Z; m_type : Z; m_port : list Z; m_addr : list Z;
  m_available : bool; responded_append_entry : bool; m_conn : raft_conn;
  append_entry_round : Z; next_index : Z; match_index : Z
}.

Definition set_m_type (m : member) (t : Z) : member :=
  {| m_id := m_id m; unstable_round := unstable_round m; m_type := t; m_port := m_port m;
     m_addr := m_addr m; m_available := m_available m;
     responded_append_entry := responded_append_entry m; m_conn := m_conn m;
     append_entry_round := append_entry_round m; next_index := next_index m;
     match_index := match_index m |}.

(** ** member.c *)

Definition member_id_cmp (a b : member) : Z :=
  (if m_id b <? m_id a then 1 else 0) - (if m_id a <? m_id b then 1 else 0).

Definition members_sort_by_id (ms : list member) : list member := qsort member_id_cmp ms.

(** [bsearch] returns the position of the member, where the caller writes. *)
Definition members_search_id (ms : list member) (i : Z) : option (nat * member) :=
  bsearch (fun p => (if m_id p.2 <? i then 1 else 0) - (if i <? m_id p.2 then 1 else 0))
    (imap pair ms).

(** [raw] is the uninitialised member; [append_entry_round] is left alone. *)
Definition init_member (raw : member) (m : machine) (t : Z) : member :=
  {| m_id := machine_id m; unstable_round := 0; m_type := t; m_port := sin6_port m;
     m_addr := sin6_addr m; m_available := machine_available m;
     responded_append_entry := false; m_conn := raft_out_conn_init (m_conn raw);
     append_entry_round := append_entry_round raw; next_index := 0; match_index := 0 |}.

(** The members initialised from the front of the array [raw], and the rest of
    the array. *)
Fixpoint init_members (raw : list member) (t : Z) (ms : list machine) (leader : Z)
    : option (list member * list member) :=
  match ms with
  | [] => Some ([], raw)
  | m :: ms' =>
      if machine_id m =? leader then init_members raw t ms' leader
      else
        match raw with
        | [] => None
        | x :: raw' =>
            '(done, rest) ← init_members raw' t ms' leader;
            Some (init_member x m t :: done, rest)
        end
  end.

(** The second loop of [init_adjust]: [olds] are the sorted members of the old
    configuration, [news] the ones added so far. *)
Fixpoint init_adjust_loop (olds news raw : list member) (ms : list machine) (leader : Z)
    : option (list member * list member) :=
  match ms with
  | [] => Some (olds ++ news, raw)
  | m :: ms' =>
      if machine_id m =? leader then init_adjust_loop olds news raw ms' leader
      else
        match members_search_id olds (machine_id m) with
        | Some (i, x) =>
            init_adjust_loop (<[i := set_m_type x MEMBER_TYPE_ALL]> olds) news raw ms' leader
        | None =>
            match raw with
            | [] => None
            | x :: raw' =>
                init_adjust_loop olds (news ++ [init_member x m MEMBER_TYPE_NEW]) raw' ms' leader
            end
        end
  end.

Definition init_adjust (raw : list member) (l : log) (leader : Z)
    : option (list member * list member) :=
  '(olds, raw) ← init_members raw MEMBER_TYPE_OLD (old_machines l) leader;
  let olds := members_sort_by_id olds in
  init_adjust_loop olds [] raw (take (Z.to_nat (old_n l)) (new_machines l)) leader.

Definition init (raw : list member) (leader extra_type k n : Z) (ms : list machine)
    : option (list member * list member) :=
  '(all, raw) ← init_members raw MEMBER_TYPE_ALL (take (Z.to_nat k) ms) leader;
  '(extra, raw) ← init_members raw extra_type
                    (take (Z.to_nat (n - k)) (drop (Z.to_nat k) ms)) leader;
  Some (all ++ extra, raw).

(** The array after [members_init]: its first members are sorted by id. *)
Definition members_init (raw : list member) (l : log) (leader : Z)
    : option (list member * list member) :=
  '(ms, raw) ← (if type l =? LOG_TYPE_ADJUST then init_adjust raw l leader
                else if old_n l <=? new_n l
                then init raw leader MEMBER_TYPE_NEW (old_n l) (new_n l) (new_machines l)
                else init raw leader MEMBER_TYPE_OLD (new_n l) (old_n l) (machines l));
  Some (members_sort_by_id ms, raw).

(** ** cluster.c *)

Record cluster := {
  require_old_votes : Z; require_new_votes : Z; members_n : Z; members : list member
}.

Definition majority (n : Z) : option Z := guard (0 < n);; Some (n / 2 + 1).

Definition sizeof_cluster : Z := 24.
Definition sizeof_member : Z := 160.

(** The outer [None] is a failed assertion or a write beyond the array;
    [malloc size] is the array of uninitialised members. *)
Definition cluster_malloc (malloc : Z -> option (list member)) (l : log) (leader : Z)
    : option (option cluster) :=
  let leader_in_old := bool_decide (is_Some (log_machines_find_old l leader)) in
  let leader_in_new := bool_decide (is_Some (log_machines_find_new l leader)) in
  let n := u32 (distinct_machines_n l) in
  let n := if leader_in_old || leader_in_new then u32 (n - 1) else n in
  match malloc (u64 (sizeof_cluster + sizeof_member * n)) with
  | None => Some None
  | Some raw =>
      old ← majority (old_n l);
      let old := if leader_in_old then u32 (old - 1) else old in
      new ← (if new_n l =? 0 then Some 0
             else
               new ← majority (new_n l);
               Some (if leader_in_new then u32 (new - 1) else new));
      '(ms, _) ← members_init raw l leader;
      guard (Z.of_nat (length ms) = n);;
      Some (Some {| require_old_votes := old; require_new_votes := new; members_n := n;
                    members := ms |})
  end.

(** [cl] is the address of the cluster; the connection of member [i] is inside
    it. *)
Definition member_conn (cl : Z) (i : nat) : Z := cl + sizeof_cluster + sizeof_member * Z.of_nat i + 32.

Fixpoint cluster_free_loop (r : raft) (cl : Z) (i n : nat) : option raft :=
  match n with
  | O => Some r
  | S n' =>
      let h := member_conn cl i in
      c ← conns r !! h;
      r ← (if bool_decide (state c <> RAFT_CONN_STATE_NOT_CONNECTED) then raft_conn_clear r h
           else Some r);
      cluster_free_loop r cl (S i) n'
  end.

Definition cluster_free (r : raft) (cl : Z) (c : cluster) : option raft :=
  cluster_free_loop r cl 0 (Z.to_nat (members_n c)).

Definition cluster_has_conn (cl : option (Z * cluster)) (conn : Z) : bool :=
  match cl with
  | None => false
  | Some (a, c) => (a <=? conn) && (conn <? a + sizeof_cluster + sizeof_member * members_n c)
  end.

Definition cluster_search (c : cluster) (m : machine) : option member :=
  snd <$> members_search_id (members c) (machine_id m).

(** The log [log_malloc_change_available] passes on. *)
Definition prepare_available (c : cluster) (l old : log) : log :=
  set_machines l (take (Z.to_nat (old_n old)) (Log.machines l) ++
    ((fun m => machine_set_stability m
                 (match cluster_search c m with Some x => m_available x | None => true end))
     <$> old_machines old)).

Definition log_malloc_change_available (malloc : Z -> option log) (c : cluster) (old : log)
    (term : Z) : option (option log) :=
  let n := old_n old in
  match log_malloc_unstable malloc n n with
  | None => Some None
  | Some l => l ← log_complete_change_available (prepare_available c l old) old term; Some (Some l)
  end.

(** ** Sorting and searching members *)

Lemma member_cmp_le a b : cmp_le member_id_cmp a b <-> m_id a <= m_id b.
Proof.
  unfold cmp_le, member_id_cmp. destruct (Z.ltb_spec (m_id b) (m_id a)), (Z.ltb_spec (m_id a) (m_id b)); lia.
Qed.

#[global] Instance member_le_trans : Transitive (cmp_le member_id_cmp).
Proof. intros a b c. rewrite !member_cmp_le. lia. Qed.
#[global] Instance member_le_total : Total (cmp_le member_id_cmp).
Proof. intros a b. rewrite !member_cmp_le. lia. Qed.

Lemma members_sort_perm ms : members_sort_by_id ms ≡ₚ ms.
Proof. apply merge_sort_Permutation. Qed.

Lemma members_sort_sorted ms : StronglySorted (cmp_le member_id_cmp) (members_sort_by_id ms).
Proof. apply StronglySorted_merge_sort; apply _. Qed.

Lemma elem_of_imap_pair {A} (l : list A) i x : (i, x) ∈ imap pair l <-> l !! i = Some x.
Proof.
  rewrite list_elem_of_lookup. setoid_rewrite list_lookup_imap. split.
  - intros (j & Hj). destruct (l !! j) eqn:E; by simplify_eq/=.
  - intros H. exists i. by rewrite H.
Qed.

Lemma members_search_id_spec ms i :
  StronglySorted (cmp_le member_id_cmp) ms ->
  match members_search_id ms i with
  | Some (k, x) => ms !! k = Some x /\ m_id x = i
  | None => i ∉ m_id <$> ms
  end.
Proof.
  intros Hs. unfold members_search_id, bsearch. set (f := fun p : nat * member => _).
  assert (forall p, (f p > 0 <-> m_id p.2 < i) /\ (f p < 0 <-> i < m_id p.2)) as Hf.
  { intros p. unfold f. destruct (Z.ltb_spec (m_id p.2) i), (Z.ltb_spec i (m_id p.2)); lia. }
  destruct (bsearch_loop _ _ _ _ _) as [[k x]|] eqn:E.
  - apply bsearch_loop_some in E as [Hin H0]. apply elem_of_imap_pair in Hin. split; [done|].
    pose proof (Hf (k, x)) as [? ?]. cbn in *. lia.
  - intros (x & Hi & Hx)%list_elem_of_fmap. apply list_elem_of_lookup in Hx as (k & Hk).
    assert (length (imap pair ms) = length ms) as Hlen by (by rewrite length_imap).
    pose proof (lookup_lt_Some _ _ _ Hk).
    destruct (bsearch_loop_found f (imap pair ms) 0 (length (imap pair ms))
      (S (length (imap pair ms))) k (k, x)) as [y Hy]; try lia.
    + intros a b [a' p] [b' q] Hab Ha Hb.
      apply list_lookup_imap_Some in Ha as (p' & Hp' & [= -> ->]).
      apply list_lookup_imap_Some in Hb as (q' & Hq' & [= -> ->]).
      assert (m_id p' <= m_id q').
      { destruct (decide (a = b)) as [->|Hne]; [by simplify_eq|].
        apply member_cmp_le. eapply sorted_lookup; [done| |done..]. lia. }
      pose proof (Hf (a, p')) as [? ?]. pose proof (Hf (b, q')) as [? ?]. cbn in *. lia.
    + rewrite list_lookup_imap, Hk. done.
    + pose proof (Hf (k, x)) as [? ?]. cbn in *. lia.
    + congruence.
Qed.

(** ** The members of a log *)

(** The membership of a machine in two configurations. *)
Definition kind (olds news : list Z) (i : Z) : Z :=
  (if decide (i ∈ olds) then MEMBER_TYPE_OLD else 0) +
  (if decide (i ∈ news) then MEMBER_TYPE_NEW else 0).

Lemma kind_in olds news i :
  MEMBER_IN_OLD (kind olds news i) = (if decide (i ∈ olds) then 1 else 0) /\
  MEMBER_IN_NEW (kind olds news i) = (if decide (i ∈ news) then 1 else 0).
Proof. unfold kind. destruct (decide (i ∈ olds)), (decide (i ∈ news)); done. Qed.

(** The ids other than the leader's. *)
Definition others (leader : Z) (l : list Z) : list Z := filter (.≠ leader) l.

Lemma init_members_spec raw t ms leader :
  (length (others leader (machine_id <$> ms)) <= length raw)%nat ->
  exists done rest, init_members raw t ms leader = Some (done, rest) /\
    m_id <$> done = others leader (machine_id <$> ms) /\
    Forall (fun x => m_type x = t) done /\
    (length rest + length (others leader (machine_id <$> ms)) = length raw)%nat.
Proof.
  revert raw. induction ms as [|m ms IH]; intros raw Hlen.
  { exists [], raw. cbn. split_and!; done || lia. }
  cbn [init_members]. unfold others in *. rewrite fmap_cons in Hlen |- *.
  destruct (Z.eqb_spec (machine_id m) leader) as [E|Hne].
  - rewrite filter_cons_False in Hlen |- * by tauto. by apply IH.
  - rewrite filter_cons_True in Hlen |- * by done. cbn [length] in Hlen |- *.
    destruct raw as [|x raw]; [cbn in Hlen; lia|]. cbn [length] in Hlen.
    destruct (IH raw) as (d & rest & -> & Hi & Ht & Hl); [lia|]. cbn.
    eexists _, rest. split; [done|]. rewrite fmap_cons, Hi. split; [done|]. split; [by constructor|lia].
Qed.

(** What [members_init] must produce for configurations with ids [olds], [news]. *)
Record members_ok (olds news : list Z) (leader : Z) (ms : list member) : Prop := {
  mo_ids : forall i, i ∈ m_id <$> ms <-> (i ∈ olds \/ i ∈ news) /\ i <> leader;
  mo_nodup : NoDup (m_id <$> ms);
  mo_kind : Forall (fun x => m_type x = kind olds news (m_id x)) ms
}.

Lemma members_ok_perm olds news leader ms ms' :
  ms ≡ₚ ms' -> members_ok olds news leader ms -> members_ok olds news leader ms'.
Proof.
  intros Hp [H1 H2 H3]. split.
  - intros i. by rewrite <-Hp.
  - by rewrite <-Hp.
  - by rewrite <-Hp.
Qed.

Lemma elem_of_others leader l i : i ∈ others leader l <-> i ∈ l /\ i <> leader.
Proof. unfold others. rewrite list_elem_of_filter. tauto. Qed.

Lemma others_NoDup leader l : NoDup l -> NoDup (others leader l).
Proof. apply NoDup_filter. Qed.

Lemma others_app leader l1 l2 : others leader (l1 ++ l2) = others leader l1 ++ others leader l2.
Proof. apply filter_app. Qed.

(** [init]: the machines of one configuration, the first of which are in both. *)
Lemma init_spec raw leader extra k n ms :
  0 <= k <= n -> Z.of_nat (length ms) >= n -> NoDup (machine_id <$> take (Z.to_nat n) ms) ->
  (length (others leader (machine_id <$> take (Z.to_nat n) ms)) <= length raw)%nat ->
  exists done rest, init raw leader extra k n ms = Some (done, rest) /\
    m_id <$> done = others leader (machine_id <$> take (Z.to_nat n) ms) /\
    Forall (fun x => m_type x = if decide (m_id x ∈ machine_id <$> take (Z.to_nat k) ms)
                                then MEMBER_TYPE_ALL else extra) done.
Proof.
  intros Hk Hlen Hnd Hraw. unfold init.
  assert (take (Z.to_nat n) ms = take (Z.to_nat k) ms ++
            take (Z.to_nat (n - k)) (drop (Z.to_nat k) ms)) as Hsplit.
  { replace (Z.to_nat n) with (Z.to_nat k + Z.to_nat (n - k))%nat by lia.
    by rewrite <-take_take_drop. }
  set (a := take (Z.to_nat k) ms) in *. set (b := take (Z.to_nat (n - k)) (drop (Z.to_nat k) ms)) in *.
  rewrite Hsplit, fmap_app, others_app, length_app in Hraw.
  rewrite Hsplit, fmap_app in Hnd. apply NoDup_app in Hnd as (_ & Hdis & _).
  destruct (init_members_spec raw MEMBER_TYPE_ALL a leader) as (d & r1 & -> & Hi & Ht & Hl); [lia|].
  cbn. destruct (init_members_spec r1 extra b leader) as (d' & r2 & -> & Hi' & Ht' & _); [lia|].
  cbn. exists (d ++ d'), r2. split; [done|].
  rewrite Hsplit, !fmap_app, others_app, Hi, Hi'. split; [done|].
  apply Forall_app. split; apply Forall_forall; intros x Hx.
  - rewrite decide_True; [rewrite Forall_forall in Ht; by apply Ht|].
    apply (elem_of_others leader). rewrite <-Hi. by apply list_elem_of_fmap_2.
  - rewrite decide_False; [rewrite Forall_forall in Ht'; by apply Ht'|].
    intros Hin. apply (Hdis _ Hin). apply (elem_of_others leader). rewrite <-Hi'.
    by apply list_elem_of_fmap_2.
Qed.

Lemma sorted_ids ms :
  StronglySorted (cmp_le member_id_cmp) ms <-> StronglySorted Z.le (m_id <$> ms).
Proof.
  induction ms as [|m ms IH]; [split; constructor|].
  rewrite fmap_cons. split; intros H; apply StronglySorted_inv in H as [Hs Hall];
    constructor; try by apply IH.
  - apply Forall_fmap. eapply Forall_impl; [exact Hall|]. intros x. by rewrite member_cmp_le.
  - apply Forall_forall. intros x Hx. rewrite Forall_forall in Hall.
    by apply member_cmp_le, Hall, list_elem_of_fmap_2.
Qed.

Lemma set_m_type_ids (olds : list member) (i : nat) x t :
  olds !! i = Some x -> m_id <$> <[i := set_m_type x t]> olds = m_id <$> olds.
Proof.
  intros Hi. rewrite list_fmap_insert. apply list_insert_id.
  by rewrite list_lookup_fmap, Hi.
Qed.

Lemma kind_snoc olds P i j :
  kind olds (P ++ [i]) j =
  if decide (j = i) then (if decide (j ∈ olds) then MEMBER_TYPE_OLD else 0) + MEMBER_TYPE_NEW
  else kind olds P j.
Proof.
  unfold kind. destruct (decide (j = i)) as [->|Hne].
  - rewrite (decide_True (P := i ∈ P ++ [i])) by set_solver. done.
  - destruct (decide (j ∈ P)) as [Hin|Hin].
    + by rewrite (decide_True (P := j ∈ P ++ [i])) by set_solver.
    + by rewrite (decide_False (P := j ∈ P ++ [i])) by set_solver.
Qed.

(** The new machines that need a member of their own. *)
Definition added (olds : list Z) (leader : Z) (l : list Z) : list Z :=
  filter (fun i => i ∉ olds /\ i <> leader) l.

Record adjust_inv (O P : list Z) (leader : Z) (olds news : list member) : Prop := {
  ai_sorted : StronglySorted (cmp_le member_id_cmp) olds;
  ai_olds : forall i, i ∈ m_id <$> olds <-> i ∈ O /\ i <> leader;
  ai_news : forall i, i ∈ m_id <$> news <-> i ∈ P /\ i ∉ O /\ i <> leader;
  ai_nd : NoDup (m_id <$> olds) /\ NoDup (m_id <$> news);
  ai_kind : Forall (fun x => m_type x = kind O P (m_id x)) (olds ++ news)
}.

(** A processed machine that is the leader. *)
Lemma adjust_inv_leader O P leader olds news :
  adjust_inv O P leader olds news -> adjust_inv O (P ++ [leader]) leader olds news.
Proof.
  intros [H1 H2 H3 H4 H5]. split; try done.
  - intros i. rewrite H3. set_solver.
  - apply Forall_forall. intros x Hx. rewrite Forall_forall in H5. rewrite (H5 x Hx), kind_snoc.
    rewrite decide_False; [done|]. intros E. apply elem_of_app in Hx as [Hx|Hx];
      apply (list_elem_of_fmap_2 m_id) in Hx; [apply H2 in Hx|apply H3 in Hx]; naive_solver.
Qed.

(** A processed machine that was in the old configuration. *)
Lemma adjust_inv_known O P leader olds news k x :
  adjust_inv O P leader olds news -> olds !! k = Some x ->
  adjust_inv O (P ++ [m_id x]) leader (<[k := set_m_type x MEMBER_TYPE_ALL]> olds) news.
Proof.
  intros [H1 H2 H3 H4 H5] Hk. pose proof (set_m_type_ids olds k x MEMBER_TYPE_ALL Hk) as Eids.
  assert (m_id x ∈ O /\ m_id x <> leader) as [HxO Hxl].
  { apply H2, list_elem_of_fmap_2. by eapply list_elem_of_lookup_2. }
  rewrite Forall_app, !Forall_forall in H5. destruct H5 as [H5 H6]. split.
  - apply sorted_ids. rewrite Eids. by apply sorted_ids.
  - by rewrite Eids.
  - intros i. rewrite H3. set_solver.
  - by rewrite Eids.
  - apply Forall_app. split; apply Forall_forall.
    + intros y (j & Hj)%list_elem_of_lookup. rewrite kind_snoc.
      destruct (decide (j = k)) as [->|Hne].
      * rewrite list_lookup_insert_eq in Hj by (by eapply lookup_lt_Some). simplify_eq. cbn.
        by rewrite !decide_True.
      * rewrite list_lookup_insert_ne in Hj by done. rewrite decide_False.
        -- apply H5. by eapply list_elem_of_lookup_2.
        -- intros E. apply Hne. destruct H4 as [Hnd _].
           apply (NoDup_lookup (m_id <$> olds) j k (m_id x) Hnd); rewrite list_lookup_fmap, ?Hj, ?Hk; cbn; congruence.
    + intros y Hy. rewrite kind_snoc, decide_False; [by apply H6|]. intros E.
      apply (list_elem_of_fmap_2 m_id), H3 in Hy as (_ & Hn & _). apply Hn. by rewrite E.
Qed.

(** A processed machine that is new. *)
Lemma adjust_inv_new O P leader olds news raw m :
  adjust_inv O P leader olds news -> machine_id m ∉ O -> machine_id m <> leader ->
  machine_id m ∉ P ->
  adjust_inv O (P ++ [machine_id m]) leader olds (news ++ [init_member raw m MEMBER_TYPE_NEW]).
Proof.
  intros [H1 H2 H3 H4 H5] HO Hl HP. rewrite Forall_app, !Forall_forall in H5. destruct H5 as [H5 H6].
  split; try done.
  - intros i. rewrite fmap_app, elem_of_app, H3. cbn. set_solver.
  - split; [apply H4|]. rewrite fmap_app. apply NoDup_app. split_and!; [apply H4| |apply NoDup_singleton].
    intros i Hi. apply H3 in Hi. cbn. set_solver.
  - rewrite !Forall_app. split_and!.
    + apply Forall_forall. intros y Hy. rewrite kind_snoc, decide_False; [by apply H5|]. intros E.
      apply (list_elem_of_fmap_2 m_id), H2 in Hy as [Hy _]. apply HO. by rewrite <-E.
    + apply Forall_forall. intros y Hy. rewrite kind_snoc, decide_False; [by apply H6|]. intros E.
      apply (list_elem_of_fmap_2 m_id), H3 in Hy as [Hy _]. apply HP. by rewrite <-E.
    + apply Forall_singleton. cbn. rewrite kind_snoc, decide_True by done. by rewrite decide_False.
Qed.

Lemma init_adjust_loop_spec O P leader olds news raw ms :
  adjust_inv O P leader olds news -> NoDup (P ++ (machine_id <$> ms)) ->
  (length (added O leader (machine_id <$> ms)) <= length raw)%nat ->
  exists olds' news' rest,
    init_adjust_loop olds news raw ms leader = Some (olds' ++ news', rest) /\
    adjust_inv O (P ++ (machine_id <$> ms)) leader olds' news'.
Proof.
  revert P olds news raw. induction ms as [|m ms IH]; intros P olds news raw Hi Hnd Hlen.
  { exists olds, news, raw. cbn. by rewrite app_nil_r. }
  rewrite fmap_cons in Hnd, Hlen |- *. unfold added in Hlen. cbn [init_adjust_loop].
  assert (machine_id m ∉ P) as HmP by (apply NoDup_middle in Hnd as [Hn _]; set_solver).
  rewrite (cons_middle (machine_id m) P), app_assoc in Hnd.
  rewrite (cons_middle (machine_id m) P), app_assoc.
  destruct (Z.eqb_spec (machine_id m) leader) as [E|Hne].
  - rewrite filter_cons_False in Hlen by tauto.
    apply IH; [rewrite E; by apply adjust_inv_leader|done|done].
  - pose proof (members_search_id_spec olds (machine_id m) (ai_sorted _ _ _ _ _ Hi)) as Hs.
    destruct (members_search_id olds (machine_id m)) as [[k x]|].
    + destruct Hs as [Hk Ex].
      assert (machine_id m ∈ O) as HO.
      { rewrite <-Ex. apply (ai_olds _ _ _ _ _ Hi), list_elem_of_fmap_2. by eapply list_elem_of_lookup_2. }
      rewrite filter_cons_False in Hlen by tauto.
      apply IH; [|done|done]. rewrite <-Ex. by apply adjust_inv_known.
    + assert (machine_id m ∉ O) as HO.
      { intros HO. apply Hs. apply (ai_olds _ _ _ _ _ Hi). done. }
      rewrite filter_cons_True in Hlen by done. cbn [length] in Hlen.
      destruct raw as [|r raw]; [cbn in Hlen; lia|]. cbn [length] in Hlen.
      apply IH; [by apply adjust_inv_new|done|unfold added; lia].
Qed.

(** The number of machines of a log other than the leader. *)
Definition others_n (l : log) (leader : Z) : nat := size (ids (Log.machines l) ∖ {[leader]}).

Lemma others_n_list l leader (L : list Z) :
  NoDup L ->
  (forall i, i ∈ L <-> (i ∈ machine_id <$> old_machines l \/ i ∈ machine_id <$> new_machines l) /\
               i <> leader) ->
  length L = others_n l leader.
Proof.
  intros Hnd H. unfold others_n, ids. rewrite <-(size_list_to_set (C := gset Z) L Hnd). f_equal.
  apply set_eq. intros i. rewrite elem_of_difference, !elem_of_list_to_set, elem_of_singleton, H.
  rewrite <-(take_drop (Z.to_nat (old_n l)) (Log.machines l)), fmap_app, elem_of_app. done.
Qed.

Lemma members_ok_length l leader ms :
  members_ok (machine_id <$> old_machines l) (machine_id <$> new_machines l) leader ms ->
  length ms = others_n l leader.
Proof.
  intros [H1 H2 _]. rewrite <-(length_fmap m_id). by apply others_n_list.
Qed.

Lemma init_adjust_ok raw l leader :
  log_wf l -> new_n l = old_n l -> (others_n l leader <= length raw)%nat ->
  exists ms rest, init_adjust raw l leader = Some (ms, rest) /\
    members_ok (machine_id <$> old_machines l) (machine_id <$> new_machines l) leader ms.
Proof.
  intros Hwf Hn Hraw. unfold init_adjust.
  pose proof (cf_id _ _ _ (wf_old _ Hwf)) as HO. pose proof (cf_id _ _ _ (wf_new _ Hwf)) as HN.
  pose proof (wf_new_n _ Hwf). rewrite take_ge by lia.
  set (O := machine_id <$> old_machines l) in *. set (N := machine_id <$> new_machines l) in *.
  assert (length (others leader O ++ added O leader N) = others_n l leader) as Hlen.
  { apply others_n_list.
    - apply NoDup_app. split_and!; [by apply others_NoDup| |by apply NoDup_filter].
      intros i [Hi _]%elem_of_others. unfold added. rewrite list_elem_of_filter. tauto.
    - intros i. unfold added. rewrite elem_of_app, elem_of_others, list_elem_of_filter.
      fold O N. destruct (decide (i ∈ O)); tauto. }
  rewrite length_app in Hlen.
  destruct (init_members_spec raw MEMBER_TYPE_OLD (old_machines l) leader)
    as (olds & r1 & -> & Hi & Ht & Hl); [fold O; lia|].
  fold O in Hi, Hl. cbn [mbind option_bind].
  destruct (init_adjust_loop_spec O [] leader (members_sort_by_id olds) [] r1 (new_machines l))
    as (olds' & news' & rest & -> & [H1 H2 H3 H4 H5]); [|done|fold N; lia|].
  { split; [apply members_sort_sorted| | | |].
    - intros i. rewrite members_sort_perm, Hi. apply elem_of_others.
    - intros i. cbn. set_solver.
    - split; [|constructor]. rewrite members_sort_perm, Hi. by apply others_NoDup.
    - rewrite app_nil_r, members_sort_perm. apply Forall_forall. intros x Hx.
      rewrite Forall_forall in Ht. rewrite (Ht x Hx). unfold kind.
      rewrite decide_True, decide_False; [done|set_solver|].
      apply (list_elem_of_fmap_2 m_id) in Hx. rewrite Hi in Hx. by apply elem_of_others in Hx as [? _]. }
  fold N in H3, H5. cbn in H3, H5. exists (olds' ++ news'), rest. split; [done|]. split.
  - intros i. rewrite fmap_app, elem_of_app, H2, H3. destruct (decide (i ∈ O)); tauto.
  - rewrite fmap_app. apply NoDup_app. destruct H4. split_and!; try done.
    intros i Hi1 Hi2. apply H2 in Hi1. apply H3 in Hi2. tauto.
  - done.
Qed.

(** One configuration extends the other: [big] starts with the ids [small]. *)
Lemma init_ok raw l leader big k extra :
  (others_n l leader <= length raw)%nat ->
  0 <= k <= Z.of_nat (length big) -> NoDup (machine_id <$> big) ->
  (forall i, i ∈ machine_id <$> big <->
     i ∈ machine_id <$> old_machines l \/ i ∈ machine_id <$> new_machines l) ->
  (forall i, i ∈ machine_id <$> big ->
     kind (machine_id <$> old_machines l) (machine_id <$> new_machines l) i =
     if decide (i ∈ machine_id <$> take (Z.to_nat k) big) then MEMBER_TYPE_ALL else extra) ->
  forall tail, exists ms rest,
    init raw leader extra k (Z.of_nat (length big)) (big ++ tail) = Some (ms, rest) /\
    members_ok (machine_id <$> old_machines l) (machine_id <$> new_machines l) leader ms.
Proof.
  intros Hraw Hk Hnd Hset Hkind tail.
  assert (take (Z.to_nat (Z.of_nat (length big))) (big ++ tail) = big) as Htk
    by (rewrite Nat2Z.id; apply take_app_length).
  assert (length (others leader (machine_id <$> big)) = others_n l leader) as Hlen.
  { apply others_n_list; [by apply others_NoDup|]. intros i. rewrite elem_of_others, Hset. done. }
  destruct (init_spec raw leader extra k (Z.of_nat (length big)) (big ++ tail))
    as (ms & rest & -> & Hi & Ht); [done|rewrite length_app; lia|by rewrite Htk|rewrite Htk; lia|].
  rewrite Htk in Hi. rewrite take_app_le in Ht by lia.
  exists ms, rest. split; [done|]. split.
  - intros i. rewrite Hi, elem_of_others, Hset. done.
  - rewrite Hi. by apply others_NoDup.
  - apply Forall_forall. intros x Hx. rewrite Forall_forall in Ht. rewrite (Ht x Hx), Hkind; [done|].
    apply (list_elem_of_fmap_2 m_id) in Hx. rewrite Hi in Hx. by apply elem_of_others in Hx as [? _].
Qed.

Lemma members_init_ok raw l leader :
  log_wf l -> aligned l -> (type l = LOG_TYPE_ADJUST -> new_n l = old_n l) ->
  (others_n l leader <= length raw)%nat ->
  exists ms rest, members_init raw l leader = Some (ms, rest) /\
    members_ok (machine_id <$> old_machines l) (machine_id <$> new_machines l) leader ms /\
    StronglySorted (cmp_le member_id_cmp) ms.
Proof.
  intros Hwf Hal Hadj Hraw. unfold members_init.
  pose proof (cf_id _ _ _ (wf_old _ Hwf)) as HO. pose proof (cf_id _ _ _ (wf_new _ Hwf)) as HN.
  pose proof (wf_new_n _ Hwf) as Hn. pose proof (wf_old_n _ Hwf) as Ho.
  enough (exists ms rest,
    (if type l =? LOG_TYPE_ADJUST then init_adjust raw l leader
     else if old_n l <=? new_n l
          then init raw leader MEMBER_TYPE_NEW (old_n l) (new_n l) (new_machines l)
          else init raw leader MEMBER_TYPE_OLD (new_n l) (old_n l) (Log.machines l)) = Some (ms, rest) /\
    members_ok (machine_id <$> old_machines l) (machine_id <$> new_machines l) leader ms)
    as (ms & rest & -> & Hok).
  { exists (members_sort_by_id ms), rest. split; [done|]. split; [|apply members_sort_sorted].
    eapply members_ok_perm; [|done]. symmetry. apply members_sort_perm. }
  destruct (Z.eqb_spec (type l) LOG_TYPE_ADJUST) as [Ht|Ht].
  { apply init_adjust_ok; auto. }
  specialize (Hal Ht). cbv zeta in Hal.
  destruct (Z.leb_spec (old_n l) (new_n l)) as [Hle|Hlt].
  - rewrite Nat.min_l, (take_ge (old_machines l)) in Hal by lia.
    assert (forall i, i ∈ machine_id <$> old_machines l -> i ∈ machine_id <$> new_machines l) as Hsub.
    { intros i Hi. rewrite Hal, fmap_take in Hi. eapply elem_of_sublist; [exact Hi|apply sublist_take]. }
    replace (init raw leader MEMBER_TYPE_NEW (old_n l) (new_n l) (new_machines l))
      with (init raw leader MEMBER_TYPE_NEW (old_n l) (Z.of_nat (length (new_machines l)))
              (new_machines l ++ [])) by (by rewrite app_nil_r, Hn).
    apply init_ok; [done|lia|done|naive_solver|].
    intros i Hi. unfold kind. rewrite (decide_True (P := i ∈ machine_id <$> new_machines l)) by done.
    rewrite Hal. replace (Z.to_nat (old_n l)) with (length (old_machines l)) by lia.
    destruct (decide _); done.
  - rewrite Nat.min_r, (take_ge (new_machines l)) in Hal by lia.
    assert (forall i, i ∈ machine_id <$> new_machines l -> i ∈ machine_id <$> old_machines l) as Hsub.
    { intros i Hi. rewrite <-Hal, fmap_take in Hi. eapply elem_of_sublist; [exact Hi|apply sublist_take]. }
    replace (init raw leader MEMBER_TYPE_OLD (new_n l) (old_n l) (Log.machines l))
      with (init raw leader MEMBER_TYPE_OLD (new_n l) (Z.of_nat (length (old_machines l)))
              (old_machines l ++ new_machines l))
      by (rewrite Ho; unfold old_machines, new_machines; by rewrite take_drop).
    apply (init_ok raw l leader (old_machines l)); [done|lia|done|naive_solver|].
    intros i Hi. unfold kind. rewrite (decide_True (P := i ∈ machine_id <$> old_machines l)) by done.
    rewrite <-Hal. replace (Z.to_nat (new_n l)) with (length (new_machines l)) by lia.
    destruct (decide _); done.
Qed.

(** ** Counting members (leader_log_commited of service_raft.c) *)

(** The two sums of the loop over the members, 32-bit each. *)
Fixpoint commited_loop (ms : list member) (idx old_commited new_commited : Z) : Z * Z :=
  match ms with
  | [] => (old_commited, new_commited)
  | m :: ms' =>
      if idx <=? match_index m
      then commited_loop ms' idx (u32 (old_commited + MEMBER_IN_OLD (m_type m)))
             (u32 (new_commited + MEMBER_IN_NEW (m_type m)))
      else commited_loop ms' idx old_commited new_commited
  end.

Definition leader_log_commited (c : cluster) (l : log) : bool :=
  let '(old_commited, new_commited) := commited_loop (members c) (index l) 0 0 in
  (require_old_votes c <=? old_commited) && (require_new_votes c <=? new_commited).

(** The members of a configuration among those that satisfy [P]. *)
Definition count (P : member -> bool) (cfg : list Z) (ms : list member) : Z :=
  Z.of_nat (length (filter (fun m => P m = true /\ m_id m ∈ cfg) ms)).

Lemma count_cons P cfg m ms :
  count P cfg (m :: ms) = (if P m then if decide (m_id m ∈ cfg) then 1 else 0 else 0) + count P cfg ms.
Proof.
  unfold count. rewrite filter_cons. destruct (P m), (decide (m_id m ∈ cfg)).
  - rewrite decide_True by done. cbn [length]. lia.
  - rewrite decide_False by tauto. lia.
  - rewrite decide_False by naive_solver. lia.
  - rewrite decide_False by tauto. lia.
Qed.

Lemma count_le P cfg ms : 0 <= count P cfg ms <= Z.of_nat (length ms).
Proof.
  unfold count. pose proof (length_filter (fun m => P m = true /\ m_id m ∈ cfg) ms). lia.
Qed.

Lemma commited_loop_spec O N ms idx a b :
  Forall (fun x => m_type x = kind O N (m_id x)) ms ->
  0 <= a -> a + Z.of_nat (length ms) < 2 ^ 32 -> 0 <= b -> b + Z.of_nat (length ms) < 2 ^ 32 ->
  commited_loop ms idx a b =
  (a + count (fun m => idx <=? match_index m) O ms, b + count (fun m => idx <=? match_index m) N ms).
Proof.
  intros Hk. revert a b. induction Hk as [|m ms Hm _ IH]; intros a b Ha Ha' Hb Hb'.
  { cbn. by rewrite !Z.add_0_r. }
  cbn [commited_loop length] in *. rewrite !count_cons.
  destruct (kind_in O N (m_id m)) as [E1 E2]. rewrite Hm, E1, E2.
  destruct (idx <=? match_index m); [|rewrite IH by lia; by rewrite !Z.add_0_l].
  destruct (decide (m_id m ∈ O)), (decide (m_id m ∈ N)); rewrite !wrap_small, IH by lia; f_equal; lia.
Qed.

(** ** Majorities *)

(** The machines of a configuration that satisfy [P], the leader included. *)
Definition supporters (P : member -> bool) (cfg : list Z) (leader : Z) (ms : list member) : gset Z :=
  list_to_set (m_id <$> filter (fun m => P m = true /\ m_id m ∈ cfg) ms) ∪
  (if decide (leader ∈ cfg) then {[leader]} else ∅).

Lemma supporters_size P cfg leader ms :
  NoDup (m_id <$> ms) -> leader ∉ m_id <$> ms ->
  Z.of_nat (size (supporters P cfg leader ms)) =
  count P cfg ms + (if decide (leader ∈ cfg) then 1 else 0).
Proof.
  intros Hnd Hl. unfold supporters, count.
  set (L := filter _ ms).
  assert (NoDup (m_id <$> L)) as HndL by (by apply NoDup_fmap_filter).
  assert (leader ∉ m_id <$> L) as HlL.
  { intros (x & -> & Hx)%list_elem_of_fmap. apply list_elem_of_filter in Hx as [_ Hx].
    apply Hl. by apply list_elem_of_fmap_2. }
  case_decide.
  - rewrite size_union by set_solver. rewrite size_singleton, size_list_to_set, length_fmap by done. lia.
  - rewrite (right_id_L ∅ (∪)), size_list_to_set, length_fmap by done. lia.
Qed.

Lemma supporters_subset P cfg leader ms : supporters P cfg leader ms ⊆ list_to_set cfg.
Proof.
  unfold supporters. intros i [Hi|Hi]%elem_of_union; apply elem_of_list_to_set.
  - apply elem_of_list_to_set, list_elem_of_fmap in Hi as (x & -> & Hx).
    by apply list_elem_of_filter in Hx as [[_ ?] _].
  - case_decide; [|set_solver]. by apply elem_of_singleton in Hi as ->.
Qed.

(** Two sets that hold more than half of a configuration meet. *)
Lemma majorities_meet (cfg : list Z) (A B : gset Z) n :
  NoDup cfg -> Z.of_nat (length cfg) = n ->
  A ⊆ list_to_set cfg -> B ⊆ list_to_set cfg ->
  n / 2 + 1 <= Z.of_nat (size A) -> n / 2 + 1 <= Z.of_nat (size B) ->
  exists i, i ∈ A /\ i ∈ B.
Proof.
  intros Hnd Hn HA HB Ha Hb. destruct (decide (A ∩ B ≡ ∅)) as [He|Hne].
  - exfalso. assert (size (A ∪ B) = size A + size B)%nat as Hu by (apply size_union; set_solver).
    assert (size (A ∪ B) <= size (list_to_set cfg : gset Z))%nat as Hs
      by (apply subseteq_size; set_solver).
    rewrite size_list_to_set in Hs by done. pose proof (Z.div_mod n 2). 
    pose proof (Z.mod_pos_bound n 2). lia.
  - apply set_choose in Hne as [i Hi]. exists i. set_solver.
Qed.

(** ** The cluster of a log *)

Definition indicator (P : Prop) `{!Decision P} : Z := if decide P then 1 else 0.

(** What [cluster_malloc] promises of the cluster of [l] seen by [leader]. *)
Record cluster_of (l : log) (leader : Z) (c : cluster) : Prop := {
  co_members : members_ok (machine_id <$> old_machines l) (machine_id <$> new_machines l) leader
                 (members c);
  co_sorted : StronglySorted (cmp_le member_id_cmp) (members c);
  co_n : members_n c = Z.of_nat (length (members c));
  co_old : require_old_votes c =
             old_n l / 2 + 1 - indicator (leader ∈ machine_id <$> old_machines l);
  co_new : require_new_votes c =
             if new_n l =? 0 then 0
             else new_n l / 2 + 1 - indicator (leader ∈ machine_id <$> new_machines l)
}.

Lemma find_is_some ms i :
  bool_decide (is_Some (machines_find ms i)) = bool_decide (i ∈ machine_id <$> ms).
Proof.
  apply bool_decide_ext. pose proof (machines_find_none ms i) as H.
  destruct (machines_find ms i) as [m|] eqn:E.
  - split; [intros _|done]. destruct (decide (i ∈ machine_id <$> ms)); [done|]. exfalso.
    apply H in n. done.
  - split; [intros [? ?]; done|]. intros Hi. by apply H in Hi.
Qed.

Lemma others_n_eq l leader :
  log_wf l ->
  Z.of_nat (others_n l leader) =
  distinct_machines_n l -
  indicator (leader ∈ machine_id <$> old_machines l \/ leader ∈ machine_id <$> new_machines l).
Proof.
  intros Hwf. rewrite (wf_distinct _ Hwf). unfold others_n, indicator.
  assert (leader ∈ ids (Log.machines l) <->
    leader ∈ machine_id <$> old_machines l \/ leader ∈ machine_id <$> new_machines l) as Hin.
  { unfold ids. rewrite elem_of_list_to_set.
    rewrite <-(take_drop (Z.to_nat (old_n l)) (Log.machines l)), fmap_app, elem_of_app. done. }
  case_decide as Hd.
  - rewrite size_difference by set_solver. rewrite size_singleton.
    assert (size (ids (Log.machines l)) <> 0)%nat; [|lia].
    intros E%size_empty_inv. set_solver.
  - rewrite difference_disjoint_L by set_solver. lia.
Qed.

Lemma others_n_bound l leader :
  electable l -> 0 <= Z.of_nat (others_n l leader) < 2 ^ 32 - 1.
Proof.
  intros (Hwf & _ & _ & Ho & Hn). unfold others_n.
  assert (size (ids (Log.machines l) ∖ {[leader]}) <= size (ids (Log.machines l)))%nat
    by (apply subseteq_size; set_solver).
  pose proof (ids_size (old_machines l) (new_machines l) (cf_id _ _ _ (wf_old _ Hwf))
    (cf_id _ _ _ (wf_new _ Hwf))) as Hs.
  assert (old_machines l ++ new_machines l = Log.machines l) as E by apply take_drop.
  rewrite E in Hs. pose proof (wf_old_n _ Hwf). pose proof (wf_new_n _ Hwf).
  pose proof (length_filter (fun m => machine_id m ∉ machine_id <$> old_machines l) (new_machines l)).
  lia.
Qed.

Lemma majority_pos n : 0 < n -> majority n = Some (n / 2 + 1).
Proof. intros. unfold majority. by rewrite option_guard_True. Qed.

Lemma required_dec n P `{!Decision P} :
  0 < n < 2 ^ 31 ->
  (if bool_decide P then u32 (n / 2 + 1 - 1) else n / 2 + 1) = n / 2 + 1 - indicator P.
Proof.
  intros Hn. rewrite bool_decide_decide. unfold indicator.
  pose proof (Z.div_pos n 2). pose proof (Z.div_le_upper_bound n 2 n).
  destruct (decide P); rewrite ?wrap_small; lia.
Qed.

Lemma required_new n P `{!Decision P} :
  0 <= n < 2 ^ 31 ->
  (if n =? 0 then Some 0
   else new ← majority n; Some (if bool_decide P then u32 (new - 1) else new)) =
  Some (if n =? 0 then 0 else n / 2 + 1 - indicator P).
Proof.
  intros Hn. destruct (Z.eqb_spec n 0); [done|].
  rewrite majority_pos by lia. cbn [mbind option_bind]. by rewrite required_dec by lia.
Qed.

Lemma cluster_malloc_core malloc l leader :
  electable l ->
  (forall size raw, malloc size = Some raw ->
     sizeof_cluster + sizeof_member * Z.of_nat (length raw) = size) ->
  exists res, cluster_malloc malloc l leader = Some res /\
    match res with
    | Some c => cluster_of l leader c
    | None => malloc (sizeof_cluster + sizeof_member * Z.of_nat (others_n l leader)) = None
    end.
Proof.
  intros He Hmalloc. pose proof (others_n_bound l leader He) as Hbound.
  destruct He as (Hwf & Hal & Hadj & Ho & Hn). pose proof (wf_new_n _ Hwf) as Hlen.
  unfold cluster_malloc, log_machines_find_old, log_machines_find_new.
  rewrite !find_is_some, (take_ge (new_machines l)) by lia.
  pose proof (others_n_eq l leader Hwf) as Hoth. unfold indicator in Hoth.
  set (O := machine_id <$> old_machines l) in *. set (N := machine_id <$> new_machines l) in *.
  set (n := if bool_decide (leader ∈ O) || bool_decide (leader ∈ N) then _ else _).
  assert (n = Z.of_nat (others_n l leader)) as En.
  { unfold n. rewrite bool_decide_decide, bool_decide_decide.
    destruct (decide (leader ∈ O)), (decide (leader ∈ N)); cbn [orb];
      [rewrite decide_True in Hoth by tauto..|rewrite decide_False in Hoth by tauto];
      rewrite !wrap_small; rewrite ?wrap_small; lia. }
  rewrite En. unfold sizeof_cluster, sizeof_member in *. rewrite wrap_small by lia.
  destruct (malloc _) as [raw|] eqn:Em; [|by exists None].
  apply Hmalloc in Em. rewrite (majority_pos (old_n l)) by lia. cbn [mbind option_bind].
  destruct (members_init_ok raw l leader Hwf Hal Hadj) as (ms & rest & -> & Hok & Hs); [lia|].
  pose proof (members_ok_length l leader ms Hok) as Hml.
  rewrite required_new by lia. cbn [mbind option_bind]. rewrite option_guard_True by lia.
  eexists. split; [done|]. split; cbn [require_old_votes require_new_votes members_n members].
  - done.
  - done.
  - lia.
  - by apply required_dec.
  - done.
Qed.

Lemma commited_supporters l leader c :
  electable l -> cluster_of l leader c -> leader_log_commited c l = true ->
  let has m := index l <=? match_index m in
  old_n l / 2 + 1 <=
    Z.of_nat (size (supporters has (machine_id <$> old_machines l) leader (members c))) /\
  (new_n l <> 0 -> new_n l / 2 + 1 <=
    Z.of_nat (size (supporters has (machine_id <$> new_machines l) leader (members c)))).
Proof.
  intros Hlog [Hok _ _ Hro Hrn] Hcommit. cbv zeta.
  pose proof (members_ok_length _ _ _ Hok) as Hml. pose proof (others_n_bound l leader Hlog).
  unfold leader_log_commited in Hcommit.
  rewrite (commited_loop_spec _ _ _ _ 0 0 (mo_kind _ _ _ _ Hok)), !Z.add_0_l in Hcommit by lia.
  apply andb_true_iff in Hcommit as [H1%Z.leb_le H2%Z.leb_le].
  assert (leader ∉ m_id <$> members c) as Hl
    by (intros Hin; apply (mo_ids _ _ _ _ Hok) in Hin; tauto).
  rewrite !supporters_size by (done || apply Hok). rewrite Hro in H1. rewrite Hrn in H2.
  unfold indicator in *. split; [lia|]. intros Hn. destruct (Z.eqb_spec (new_n l) 0); [done|]. lia.
Qed.

(** ** Properties *)

(** C31: building the cluster of any log a cluster goes through never faults: no
    write leaves the array sized by [distinct_machines_n], the assertion on the
    number of members holds, and the result holds every machine of either
    configuration except the leader exactly once, sorted by id, with its
    membership in the two configurations and the right numbers of votes to ask
    others for. *)
Theorem cluster_malloc_correct malloc l leader
    (Hlog : electable l)
    (Hmalloc : forall size raw, malloc size = Some raw ->
       sizeof_cluster + sizeof_member * Z.of_nat (length raw) = size) :
  exists res, cluster_malloc malloc l leader = Some res /\
    match res with
    | Some c => cluster_of l leader c
    | None => malloc (sizeof_cluster + sizeof_member * Z.of_nat (others_n l leader)) = None
    end.
Proof. by apply cluster_malloc_core. Qed.

Definition raw_member : member :=
  {| m_id := 0; unstable_round := 0; m_type := 0; m_port := []; m_addr := [];
     m_available := false; responded_append_entry := false;
     m_conn := {| c_log := 0; unio := 0; fd := 0; admin := false; state := 0 |};
     append_entry_round := 0; next_index := 0; match_index := 0 |}.

(** An allocator that returns arrays of exactly the requested size. *)
Definition exact_malloc (size : Z) : option (list member) :=
  if (24 <=? size) && ((size - 24) mod 160 =? 0)
  then Some (repeat raw_member (Z.to_nat ((size - 24) / 160))) else None.

Lemma exact_malloc_ok size raw :
  exact_malloc size = Some raw ->
  sizeof_cluster + sizeof_member * Z.of_nat (length raw) = size.
Proof.
  unfold exact_malloc. destruct (_ && _) eqn:E; [|done]. intros [= <-].
  rewrite andb_true_iff, Z.leb_le, Z.eqb_eq in E. destruct E as [H1 H2].
  rewrite repeat_length. unfold sizeof_cluster, sizeof_member.
  pose proof (Z.div_mod (size - 24) 160 ltac:(lia)). pose proof (Z.div_pos (size - 24) 160).
  lia.
Qed.

Lemma sample_electable : electable sample_log.
Proof.
  destruct sample_stable as (Hwf & Hn & Ho). unfold electable.
  split; [done|]. split; [apply aligned_stable, sample_stable|]. done.
Qed.

Lemma cluster_malloc_correct_witness :
  exists c, cluster_malloc exact_malloc sample_log 3 = Some (Some c) /\
    cluster_of sample_log 3 c /\ m_id <$> members c = [1; 2; 4].
Proof.
  destruct (cluster_malloc_correct exact_malloc sample_log 3 sample_electable exact_malloc_ok)
    as (res & E & H).
  assert (match cluster_malloc exact_malloc sample_log 3 with
          | Some (Some c) => Some (m_id <$> members c) | _ => None end = Some [1; 2; 4]) as E'
    by (vm_compute; reflexivity).
  rewrite E in E'. destruct res as [c|]; [|discriminate E'].
  exists c. split; [exact E|]. split; [exact H|]. by injection E'.
Defined.

(** When the leader counts a log as committed, it and the members that have
    it are more than half of the machines of the old configuration and, in a
    change, of the new one. *)
Theorem leader_log_commited_majority l leader c
    (Hlog : electable l) (Hc : cluster_of l leader c)
    (Hcommit : leader_log_commited c l = true) :
  let has m := index l <=? match_index m in
  old_n l < 2 * Z.of_nat (size (supporters has (machine_id <$> old_machines l) leader (members c))) /\
  (new_n l <> 0 ->
   new_n l < 2 * Z.of_nat (size (supporters has (machine_id <$> new_machines l) leader (members c)))).
Proof.
  cbv zeta. destruct (commited_supporters l leader c Hlog Hc Hcommit) as [H1 H2].
  pose proof (Z.div_mod (old_n l) 2 ltac:(lia)). pose proof (Z.mod_pos_bound (old_n l) 2 ltac:(lia)).
  pose proof (Z.div_mod (new_n l) 2 ltac:(lia)). pose proof (Z.mod_pos_bound (new_n l) 2 ltac:(lia)).
  split; [lia|]. intros Hn. specialize (H2 Hn). lia.
Qed.

(** The cluster after every member has acknowledged the log up to [n]. *)
Definition acked (n : Z) (c : cluster) : cluster :=
  {| require_old_votes := require_old_votes c; require_new_votes := require_new_votes c;
     members_n := members_n c;
     members := (fun m =>
       {| m_id := m_id m; unstable_round := unstable_round m; m_type := m_type m;
          m_port := m_port m; m_addr := m_addr m; m_available := m_available m;
          responded_append_entry := responded_append_entry m; m_conn := m_conn m;
          append_entry_round := append_entry_round m; next_index := n + 1;
          match_index := n |}) <$> members c |}.

Lemma acked_cluster_of l leader n c : cluster_of l leader c -> cluster_of l leader (acked n c).
Proof.
  intros [[H1 H2 H3] Hs Hn Ho Hw].
  assert (m_id <$> members (acked n c) = m_id <$> members c) as E
    by (cbn; by rewrite <-list_fmap_compose).
  split; [split| | | |].
  - by rewrite E.
  - by rewrite E.
  - cbn. apply Forall_fmap. exact H3.
  - apply sorted_ids. rewrite E. by apply sorted_ids.
  - cbn. by rewrite length_fmap.
  - done.
  - done.
Qed.

Lemma leader_log_commited_majority_witness :
  exists c, cluster_of sample_log 3 c /\ leader_log_commited c sample_log = true /\
    4 < 2 * Z.of_nat (size (supporters (fun m => 1 <=? match_index m) [4; 2; 3; 1] 3 (members c))).
Proof.
  destruct (cluster_malloc_core exact_malloc sample_log 3 sample_electable exact_malloc_ok)
    as (res & E & H).
  assert (match cluster_malloc exact_malloc sample_log 3 with
          | Some (Some c) => leader_log_commited (acked 1 c) sample_log | _ => false end = true) as E'
    by (vm_compute; reflexivity).
  rewrite E in E'. destruct res as [c|]; [|discriminate E'].
  exists (acked 1 c). assert (cluster_of sample_log 3 (acked 1 c)) as Hc by (by apply acked_cluster_of).
  split; [exact Hc|]. split; [exact E'|].
  exact (proj1 (leader_log_commited_majority sample_log 3 (acked 1 c) sample_electable Hc E')).
Defined.

(** C16: a committed log and an election over the same configuration always
    share a machine: whoever collects the votes its cluster asks for in the old
    configuration has the vote of a machine that holds the committed log. *)
Theorem commit_meets_election l a ca b cb vote
    (Hlog : electable l) (Ha : cluster_of l a ca) (Hb : cluster_of l b cb)
    (Hcommit : leader_log_commited ca l = true)
    (Hvotes : require_old_votes cb <= count vote (machine_id <$> old_machines l) (members cb)) :
  exists i,
    i ∈ supporters (fun m => index l <=? match_index m) (machine_id <$> old_machines l) a (members ca) /\
    i ∈ supporters vote (machine_id <$> old_machines l) b (members cb).
Proof.
  destruct Hb as [Hok _ _ Hro _].
  assert (b ∉ m_id <$> members cb) as Hl
    by (intros Hin; apply (mo_ids _ _ _ _ Hok) in Hin; tauto).
  pose proof Hlog as (Hwf & _). pose proof (cf_id _ _ _ (wf_old _ Hwf)) as Hnd.
  apply (majorities_meet (machine_id <$> old_machines l) _ _ (old_n l)); try done.
  - rewrite length_fmap. apply (wf_old_n _ Hwf).
  - apply supporters_subset.
  - apply supporters_subset.
  - destruct (commited_supporters l a ca Hlog Ha Hcommit) as [H _]. exact H.
  - rewrite supporters_size by (done || apply Hok). rewrite Hro in Hvotes. unfold indicator in Hvotes. lia.
Qed.

Lemma commit_meets_election_witness :
  exists ca cb i, cluster_of sample_log 3 ca /\ leader_log_commited ca sample_log = true /\
    cluster_of sample_log 1 cb /\
    i ∈ supporters (fun m => 1 <=? match_index m) [4; 2; 3; 1] 3 (members ca) /\
    i ∈ supporters (fun m => negb (m_id m =? 3)) [4; 2; 3; 1] 1 (members cb).
Proof.
  destruct (cluster_malloc_core exact_malloc sample_log 3 sample_electable exact_malloc_ok)
    as (ra & Ea & Ha).
  destruct (cluster_malloc_core exact_malloc sample_log 1 sample_electable exact_malloc_ok)
    as (rb & Eb & Hb).
  assert (match cluster_malloc exact_malloc sample_log 3 with
          | Some (Some c) => leader_log_commited (acked 1 c) sample_log | _ => false end = true) as E
    by (vm_compute; reflexivity).
  assert (match cluster_malloc exact_malloc sample_log 1 with
          | Some (Some c) => require_old_votes c <=?
              count (fun m => negb (m_id m =? 3)) (machine_id <$> old_machines sample_log) (members c)
          | _ => false end = true) as E'
    by (vm_compute; reflexivity).
  rewrite Ea in E. rewrite Eb in E'.
  destruct ra as [ca|]; [|discriminate E]. destruct rb as [cb|]; [|discriminate E'].
  apply Z.leb_le in E'. apply (acked_cluster_of _ _ 1) in Ha.
  destruct (commit_meets_election sample_log 3 (acked 1 ca) 1 cb (fun m => negb (m_id m =? 3))
    sample_electable Ha Hb E E') as (i & H1 & H2).
  exists (acked 1 ca), cb, i. split; [exact Ha|]. split; [exact E|]. split; [exact Hb|].
  split; [exact H1|exact H2].
Defined.
