(* ===== verification/Server.v ===== *)
(** * The raft server (service_raft.c)

    One machine of the cluster: its role, its term, its log, its connections to
    the other machines, every handler of its event loop, the loop itself and
    its start, in the builds with and without [CONFIG_KERNEL_TLS].

    A handler is a computation of the monad [M]: it reads and changes the
    [world] (the [struct server], the connections, logs and clusters of the
    heap), takes the answers of the system from [input], and ends in [Ret], in
    [Exit] where the source leaves the process, or in [Fault] where an
    assertion fails or freed memory is used.  An answer that the call at hand
    cannot get counts as a failure of the call, and no answer as
    [EWOULDBLOCK]; so every list of answers is a behaviour of the system. *)

From S2P Require Import Prelude Machine Log LogInv Tls RaftConn Proto Cluster.

Definition CONFIG_THREAD_NR : Z := 4.

(** ** The state *)

(** The tag [state] with the members of the union it selects.  The other
    members of [leader] do not overlap [candidate] or [follower] and are fields
    of [server]. *)
Inductive role :=
  | LEADER (replicate_entry_round : Z)
  | CANDIDATE (required_old_votes required_new_votes : Z)
  | FOLLOWER (voted_for leader : Z).

(** [stale_cluster] is the list threaded through [next_stale]; a [NULL] pointer
    is 0. *)
Record server := {
  s_id : Z; s_term : Z; timer_ticks : Z; s_role : role;
  commit_entry_required_old_votes : Z; commit_entry_required_new_votes : Z;
  entry_commited : bool; replicate_entry_flag : bool; leader_available : bool;
  s_log : Z; stale_cluster : list Z; s_cluster : Z
}.

Definition set_s_id (s : server) (x : Z) : server :=
  {| s_id := x; s_term := s_term s; timer_ticks := timer_ticks s; s_role := s_role s;
     commit_entry_required_old_votes := commit_entry_required_old_votes s;
     commit_entry_required_new_votes := commit_entry_required_new_votes s;
     entry_commited := entry_commited s; replicate_entry_flag := replicate_entry_flag s;
     leader_available := leader_available s; s_log := s_log s;
     stale_cluster := stale_cluster s; s_cluster := s_cluster s |}.
Definition set_s_term (s : server) (x : Z) : server :=
  {| s_id := s_id s; s_term := x; timer_ticks := timer_ticks s; s_role := s_role s;
     commit_entry_required_old_votes := commit_entry_required_old_votes s;
     commit_entry_required_new_votes := commit_entry_required_new_votes s;
     entry_commited := entry_commited s; replicate_entry_flag := replicate_entry_flag s;
     leader_available := leader_available s; s_log := s_log s;
     stale_cluster := stale_cluster s; s_cluster := s_cluster s |}.
Definition set_timer_ticks (s : server) (x : Z) : server :=
  {| s_id := s_id s; s_term := s_term s; timer_ticks := x; s_role := s_role s;
     commit_entry_required_old_votes := commit_entry_required_old_votes s;
     commit_entry_required_new_votes := commit_entry_required_new_votes s;
     entry_commited := entry_commited s; replicate_entry_flag := replicate_entry_flag s;
     leader_available := leader_available s; s_log := s_log s;
     stale_cluster := stale_cluster s; s_cluster := s_cluster s |}.
Definition set_role (s : server) (x : role) : server :=
  {| s_id := s_id s; s_term := s_term s; timer_ticks := timer_ticks s; s_role := x;
     commit_entry_required_old_votes := commit_entry_required_old_votes s;
     commit_entry_required_new_votes := commit_entry_required_new_votes s;
     entry_commited := entry_commited s; replicate_entry_flag := replicate_entry_flag s;
     leader_available := leader_available s; s_log := s_log s;
     stale_cluster := stale_cluster s; s_cluster := s_cluster s |}.
Definition set_commit_votes (s : server) (x y : Z) : server :=
  {| s_id := s_id s; s_term := s_term s; timer_ticks := timer_ticks s; s_role := s_role s;
     commit_entry_required_old_votes := x; commit_entry_required_new_votes := y;
     entry_commited := entry_commited s; replicate_entry_flag := replicate_entry_flag s;
     leader_available := leader_available s; s_log := s_log s;
     stale_cluster := stale_cluster s; s_cluster := s_cluster s |}.
Definition set_entry_commited (s : server) (x : bool) : server :=
  {| s_id := s_id s; s_term := s_term s; timer_ticks := timer_ticks s; s_role := s_role s;
     commit_entry_required_old_votes := commit_entry_required_old_votes s;
     commit_entry_required_new_votes := commit_entry_required_new_votes s;
     entry_commited := x; replicate_entry_flag := replicate_entry_flag s;
     leader_available := leader_available s; s_log := s_log s;
     stale_cluster := stale_cluster s; s_cluster := s_cluster s |}.
Definition set_replicate_entry (s : server) (x : bool) : server :=
  {| s_id := s_id s; s_term := s_term s; timer_ticks := timer_ticks s; s_role := s_role s;
     commit_entry_required_old_votes := commit_entry_required_old_votes s;
     commit_entry_required_new_votes := commit_entry_required_new_votes s;
     entry_commited := entry_commited s; replicate_entry_flag := x;
     leader_available := leader_available s; s_log := s_log s;
     stale_cluster := stale_cluster s; s_cluster := s_cluster s |}.
Definition set_leader_available (s : server) (x : bool) : server :=
  {| s_id := s_id s; s_term := s_term s; timer_ticks := timer_ticks s; s_role := s_role s;
     commit_entry_required_old_votes := commit_entry_required_old_votes s;
     commit_entry_required_new_votes := commit_entry_required_new_votes s;
     entry_commited := entry_commited s; replicate_entry_flag := replicate_entry_flag s;
     leader_available := x; s_log := s_log s;
     stale_cluster := stale_cluster s; s_cluster := s_cluster s |}.
Definition set_s_log (s : server) (x : Z) : server :=
  {| s_id := s_id s; s_term := s_term s; timer_ticks := timer_ticks s; s_role := s_role s;
     commit_entry_required_old_votes := commit_entry_required_old_votes s;
     commit_entry_required_new_votes := commit_entry_required_new_votes s;
     entry_commited := entry_commited s; replicate_entry_flag := replicate_entry_flag s;
     leader_available := leader_available s; s_log := x;
     stale_cluster := stale_cluster s; s_cluster := s_cluster s |}.
Definition set_s_cluster (s : server) (stale : list Z) (x : Z) : server :=
  {| s_id := s_id s; s_term := s_term s; timer_ticks := timer_ticks s; s_role := s_role s;
     commit_entry_required_old_votes := commit_entry_required_old_votes s;
     commit_entry_required_new_votes := commit_entry_required_new_votes s;
     entry_commited := entry_commited s; replicate_entry_flag := replicate_entry_flag s;
     leader_available := leader_available s; s_log := s_log s;
     stale_cluster := stale; s_cluster := x |}.

(** The counters of a connection in the authority states. *)
Record authority_nrs := { pending_nr : Z; processing_nr : Z; succeed_nr : Z }.

(** What a system call answers. *)
Inductive answer :=
  | Got (bs : list Z)                        (** [read]: these bytes, none at the end *)
  | Wrote (n : Z)                            (** [send], [sendmsg]: so many bytes *)
  | Again                                    (** -1 with [EWOULDBLOCK] *)
  | Failed                                   (** -1, or [NULL] *)
  | Alloc_log (h : Z) (raw : log)            (** [malloc] of a log: its block *)
  | Alloc_cluster (h : Z) (raw : list member) (** [malloc] of a cluster: its block *)
  | Connected (sock : Z) | Connecting (sock : Z) | Refused (sock : Z)
  | No_error                                 (** [getsockopt]: [SO_ERROR] is 0; success *)
  | Accepted (sock h : Z) (added : bool)     (** [accept2], the new [raft_conn], [epoll_add] *)
  | Warm (b : bool)                          (** [threads_warmed_up] *)
  | Session (a : tls_answer) (raw : list Z)  (** [tls_session_init], and the bytes of the session *)
  | Handshake (a : handshake_answer)         (** [gnutls_handshake] *)
  | Listening (sock : Z)                     (** the socket of [listen_port] *)
  | Random (n : Z).                          (** [rand] *)

(** What leaves the machine. *)
Inductive event :=
  | Sent (h : Z) (bs : list Z)               (** bytes on a connection *)
  | Dispatched (thread sock : Z)             (** a client handed to a thread *)
  | Listened (sock port data : Z)            (** a listening socket and its epoll data *)
  | Timer_set (interval : Z).                (** the interval timer, in nanoseconds *)

(** [bufs] and [nrs] are the unions behind the connections at every address;
    memory that was never written holds some value.  [user_fd] and [admin_fd]
    are the listening sockets, -1 for none. *)
Record world := {
  srv : server; net : raft; bufs : Z -> list Z; nrs : Z -> authority_nrs;
  clusters : gmap Z cluster; input : list answer; output : list event;
  user_fd : Z; admin_fd : Z
}.

Definition set_srv (w : world) (x : server) : world :=
  {| srv := x; net := net w; bufs := bufs w; nrs := nrs w; clusters := clusters w;
     input := input w; output := output w; user_fd := user_fd w; admin_fd := admin_fd w |}.
Definition set_net (w : world) (x : raft) : world :=
  {| srv := srv w; net := x; bufs := bufs w; nrs := nrs w; clusters := clusters w;
     input := input w; output := output w; user_fd := user_fd w; admin_fd := admin_fd w |}.
Definition set_bufs (w : world) (x : Z -> list Z) : world :=
  {| srv := srv w; net := net w; bufs := x; nrs := nrs w; clusters := clusters w;
     input := input w; output := output w; user_fd := user_fd w; admin_fd := admin_fd w |}.
Definition set_nrs (w : world) (x : Z -> authority_nrs) : world :=
  {| srv := srv w; net := net w; bufs := bufs w; nrs := x; clusters := clusters w;
     input := input w; output := output w; user_fd := user_fd w; admin_fd := admin_fd w |}.
Definition set_clusters (w : world) (x : gmap Z cluster) : world :=
  {| srv := srv w; net := net w; bufs := bufs w; nrs := nrs w; clusters := x;
     input := input w; output := output w; user_fd := user_fd w; admin_fd := admin_fd w |}.
Definition set_input (w : world) (x : list answer) : world :=
  {| srv := srv w; net := net w; bufs := bufs w; nrs := nrs w; clusters := clusters w;
     input := x; output := output w; user_fd := user_fd w; admin_fd := admin_fd w |}.
Definition set_output (w : world) (x : list event) : world :=
  {| srv := srv w; net := net w; bufs := bufs w; nrs := nrs w; clusters := clusters w;
     input := input w; output := x; user_fd := user_fd w; admin_fd := admin_fd w |}.
Definition set_fds (w : world) (x y : Z) : world :=
  {| srv := srv w; net := net w; bufs := bufs w; nrs := nrs w; clusters := clusters w;
     input := input w; output := output w; user_fd := x; admin_fd := y |}.

(** ** The monad *)

Inductive outcome (A : Type) :=
  | Ret (a : A) (w : world)
  | Exit (w : world)
  | Fault.
Arguments Ret {A} a w.
Arguments Exit {A} w.
Arguments Fault {A}.

Definition M (A : Type) : Type := world -> outcome A.

#[global] Instance M_ret : MRet M := fun A a w => Ret a w.
#[global] Instance M_bind : MBind M := fun A B f m w =>
  match m w with Ret a w' => f a w' | Exit w' => Exit w' | Fault => Fault end.

Definition fault {A} : M A := fun _ => Fault.
Definition exit {A} : M A := fun w => Exit w.
Definition assert (P : Prop) `{!Decision P} : M unit := if decide P then mret tt else fault.
Definition from {A} (x : option A) : M A := match x with Some a => mret a | None => fault end.
Definition skip : M unit := mret tt.

Definition get_srv : M server := fun w => Ret (srv w) w.
Definition mod_srv (f : server -> server) : M unit := fun w => Ret tt (set_srv w (f (srv w))).
Definition get_net : M raft := fun w => Ret (net w) w.
Definition put_net (r : raft) : M unit := fun w => Ret tt (set_net w r).
Definition get_buf (h : Z) : M (list Z) := fun w => Ret (bufs w h) w.
Definition mod_buf (h : Z) (f : list Z -> list Z) : M unit := fun w =>
  Ret tt (set_bufs w (fun a => if a =? h then f (bufs w h) else bufs w a)).
Definition get_nrs (h : Z) : M authority_nrs := fun w => Ret (nrs w h) w.
Definition put_nrs (h : Z) (x : authority_nrs) : M unit := fun w =>
  Ret tt (set_nrs w (fun a => if a =? h then x else nrs w a)).
Definition get_clusters : M (gmap Z cluster) := fun w => Ret (clusters w) w.
Definition put_clusters (x : gmap Z cluster) : M unit := fun w => Ret tt (set_clusters w x).
Definition emit (e : event) : M unit := fun w => Ret tt (set_output w (output w ++ [e])).
Definition get_fds : M (Z * Z) := fun w => Ret (user_fd w, admin_fd w) w.
Definition put_fds (x y : Z) : M unit := fun w => Ret tt (set_fds w x y).
Definition pop : M answer := fun w =>
  match input w with
  | [] => Ret Again w
  | a :: input' => Ret a (set_input w input')
  end.

(** The operations of raft_conn.c. *)
Definition lift (f : raft -> option raft) : M unit :=
  r ← get_net; r ← from (f r); put_net r.

Fixpoint iter {A} (f : A -> M unit) (l : list A) : M unit :=
  match l with [] => skip | x :: l' => f x ;; iter f l' end.

Definition is_leader (s : server) : bool := match s_role s with LEADER _ => true | _ => false end.
Definition is_candidate (s : server) : bool :=
  match s_role s with CANDIDATE _ _ => true | _ => false end.
Definition is_follower (s : server) : bool :=
  match s_role s with FOLLOWER _ _ => true | _ => false end.

(** ** System calls *)

(** The value of [read], whether [errno] is [EWOULDBLOCK], and the bytes. *)
Definition sys_read : M (Z * bool * list Z) :=
  a ← pop;
  mret match a with
       | Got bs => (Z.of_nat (length bs), false, bs)
       | Again => (-1, true, [])
       | _ => (-1, false, [])
       end.

Definition sys_write : M (Z * bool) :=
  a ← pop;
  mret match a with Wrote n => (n, false) | Again => (-1, true) | _ => (-1, false) end.

Definition full_read_to_buffer (h : Z) (incoming : bool) (size : Z) : M bool :=
  '(n, wouldblock, bs) ← sys_read;
  r ← get_net;
  '(readed, (ok, r)) ← from (raft_conn_full_read_to_buffer r incoming h size n wouldblock);
  put_net r;;
  (if bool_decide (0 < n) then mod_buf h (fill (Z.to_nat readed) bs) else skip);;
  mret ok.

(** [raft_conn_full_read] into the machines of the connection's log, at byte
    [off]; a write past the block of the log is a fault. *)
Definition full_read_to_log (h : Z) (incoming : bool) (off : Z) : M bool :=
  '(n, wouldblock, bs) ← sys_read;
  r ← get_net;
  c ← from (conns r !! h);
  '(ok, r) ← from (raft_conn_full_read r incoming h n wouldblock);
  put_net r;;
  (if bool_decide (0 < n) then
     l ← from (logs r !! c_log c);
     assert (0 <= off /\ off + n < MACHINE_SIZE * (Z.of_nat (length (machines l)) + 1));;
     put_net (set_logs r
       (<[c_log c := set_machines l (machines_fill (Z.to_nat off) bs (machines l))]> (logs r)))
   else skip);;
  mret ok.

Definition sent (h n : Z) (bs : list Z) : M unit :=
  if bool_decide (0 < n) then emit (Sent h (take (Z.to_nat n) bs)) else skip.

Definition full_write_buffer (h : Z) (incoming : bool) (size : Z) : M bool :=
  '(n, wouldblock) ← sys_write;
  r ← get_net;
  '(written, (ok, r)) ← from (raft_conn_full_write_buffer r incoming h size n wouldblock);
  put_net r;;
  b ← get_buf h;
  sent h n (drop (Z.to_nat written) b);;
  mret ok.

Definition full_write_msg (h : Z) (incoming : bool) (iov : list (list Z)) : M bool :=
  '(n, wouldblock) ← sys_write;
  r ← get_net;
  '(ok, r) ← from (raft_conn_full_write_msg r incoming h n wouldblock);
  put_net r;;
  sent h n (concat iov);;
  mret ok.

Definition write_byte_zero (h : Z) (incoming : bool) : M bool :=
  '(n, wouldblock) ← sys_write;
  r ← get_net;
  '(ok, r) ← from (raft_conn_write_byte_zero r incoming h n wouldblock);
  put_net r;;
  sent h n [0];;
  mret ok.

(** ** Allocation *)

Definition get_log (h : Z) : M log := r ← get_net; from (logs r !! h).
Definition put_log (h : Z) (l : log) : M unit :=
  r ← get_net; put_net (set_logs r (<[h := l]> (logs r))).
Definition my_log : M log := s ← get_srv; get_log (s_log s).

(** [f] is a function of log.c or cluster.c that allocates a log: [malloc] gives
    it a block at a fresh address with room for the machines it asked for. *)
Definition log_alloc (f : (Z -> option log) -> option (option log)) : M (option Z) :=
  a ← pop; r ← get_net;
  match a with
  | Alloc_log h raw =>
      let malloc size :=
        if bool_decide (h <> 0 /\ logs r !! h = None /\
             Z.of_nat (length (machines raw)) = (size - sizeof_log) / MACHINE_SIZE)
        then Some raw else None in
      l ← from (f malloc);
      match l with Some l => put_log h l;; mret (Some h) | None => mret None end
  | _ => l ← from (f (fun _ => None)); mret None
  end.

(** [free] of a log nobody borrowed. *)
Definition log_free (h : Z) : M unit :=
  lift (fun r => l ← logs r !! h; Some (set_logs r (delete h (logs r)))).

(** The connections inside the cluster at [a]. *)
Definition cluster_conns (a : Z) (c : cluster) : list (Z * raft_conn) :=
  imap (fun i m => (member_conn a i, m_conn m)) (members c).

(** [cluster_malloc]: the address of the new cluster, 0 for [NULL].  The
    allocator's blocks do not overlap. *)
Definition cluster_alloc (l : log) (leader : Z) : M Z :=
  a ← pop; r ← get_net; cls ← get_clusters;
  match a with
  | Alloc_cluster h raw =>
      let malloc size :=
        if bool_decide (h <> 0 /\ cls !! h = None /\
             u64 (sizeof_cluster + sizeof_member * Z.of_nat (length raw)) = size /\
             Forall (fun i => conns r !! member_conn h i = None) (seq 0 (length raw)))
        then Some raw else None in
      c ← from (cluster_malloc malloc l leader);
      match c with
      | Some c =>
          put_clusters (<[h := c]> cls);;
          put_net (set_conns r (list_to_map (cluster_conns h c) ∪ conns r));;
          mret h
      | None => mret 0
      end
  | _ => c ← from (cluster_malloc (fun _ => None) l leader); mret 0
  end.

Definition my_cluster : M cluster :=
  s ← get_srv; cls ← get_clusters; from (cls !! s_cluster s).

Definition set_members (c : cluster) (ms : list member) : cluster :=
  {| require_old_votes := require_old_votes c; require_new_votes := require_new_votes c;
     members_n := members_n c; members := ms |}.

(** A [struct member *]: a cluster and an index. *)
Definition mref : Type := Z * nat.
Definition conn_of (p : mref) : Z := member_conn p.1 p.2.

(** [container_of(conn, struct member, conn)] of a connection of the current
    cluster. *)
Definition member_of (h : Z) : M mref :=
  s ← get_srv; c ← my_cluster;
  i ← from (snd <$> list_find (fun i => member_conn (s_cluster s) i = h)
              (seq 0 (length (members c))));
  mret (s_cluster s, i).
Definition get_member (p : mref) : M member :=
  cls ← get_clusters; c ← from (cls !! p.1); from (members c !! p.2).
Definition mod_member (p : mref) (f : member -> member) : M unit :=
  cls ← get_clusters; c ← from (cls !! p.1); m ← from (members c !! p.2);
  put_clusters (<[p.1 := set_members c (<[p.2 := f m]> (members c))]> cls).

Definition set_indexes (m : member) (next match' : Z) : member :=
  {| m_id := m_id m; unstable_round := unstable_round m; m_type := m_type m; m_port := m_port m;
     m_addr := m_addr m; m_available := m_available m;
     responded_append_entry := responded_append_entry m; m_conn := m_conn m;
     append_entry_round := append_entry_round m; next_index := next; match_index := match' |}.
Definition set_responded (m : member) (x : bool) : member :=
  {| m_id := m_id m; unstable_round := unstable_round m; m_type := m_type m; m_port := m_port m;
     m_addr := m_addr m; m_available := m_available m; responded_append_entry := x;
     m_conn := m_conn m; append_entry_round := append_entry_round m;
     next_index := next_index m; match_index := match_index m |}.
Definition set_round (m : member) (x : Z) : member :=
  {| m_id := m_id m; unstable_round := unstable_round m; m_type := m_type m; m_port := m_port m;
     m_addr := m_addr m; m_available := m_available m;
     responded_append_entry := responded_append_entry m; m_conn := m_conn m;
     append_entry_round := x; next_index := next_index m; match_index := match_index m |}.
Definition set_stable (m : member) (x : Z) (available : bool) : member :=
  {| m_id := m_id m; unstable_round := x; m_type := m_type m; m_port := m_port m;
     m_addr := m_addr m; m_available := available;
     responded_append_entry := responded_append_entry m; m_conn := m_conn m;
     append_entry_round := append_entry_round m; next_index := next_index m;
     match_index := match_index m |}.

(** ** Roles and terms *)

Definition server_borrow_log (h : Z) : M unit :=
  l ← get_log h;
  put_log h (log_borrow l);;
  mod_srv (fun s => set_s_log s h).

Definition server_replace_log (new : Z) : M unit :=
  s ← get_srv;
  lift (fun r => return_log r (s_log s));;
  server_borrow_log new.

Definition reset_timer : M unit := mod_srv (fun s => set_timer_ticks s 0).

(** The interval of the timer in nanoseconds, from the value of [rand]; when the
    timer ticks is up to the system. *)
Definition broadcast_time (rand : Z) : Z := Z.rem rand (15 * 1000000) + (30 - 15) * 1000000.

Definition reset_timer_hard : M unit :=
  a ← pop;
  emit (Timer_set (broadcast_time (match a with Random n => n | _ => 0 end)));;
  reset_timer.

(** [srand] decides which values [rand] answers with. *)
Definition set_timer (id : Z) : M unit := reset_timer_hard.

Definition election_timeout (s : server) : bool := 10 <? timer_ticks s.

Definition server_replace_cluster (cl : Z) : M unit :=
  s ← get_srv;
  assert (s_cluster s <> 0);;
  mod_srv (fun s => set_s_cluster s (s_cluster s :: stale_cluster s) cl).

Definition reset_follower : M unit :=
  s ← get_srv;
  assert (is_follower s = true);;
  mod_srv (fun s => set_role s (FOLLOWER 0 0)).

Definition convert_to_follower : M unit :=
  s ← get_srv;
  assert (is_follower s = false);;
  mod_srv (fun s => set_role s (FOLLOWER 0 0));;
  reset_follower;;
  reset_timer;;
  server_replace_cluster 0.

Definition server_increase_term (term : Z) : M unit :=
  s ← get_srv;
  assert (s_term s < term);;
  mod_srv (fun s => set_s_term s term);;
  if is_follower s then reset_follower else convert_to_follower.

(** The zeroed log of a machine that is in no cluster. *)
Definition zero_log : log :=
  {| refcount := 0; index := 0; term := 0; log_version := 0; next_machine_version := 0;
     next_machine_id := 0; type := 0; old_n := 0; new_n := 0; distinct_machines_n := 0;
     machines := [] |}.

(** [must]: the process aborts unless the call succeeded. *)
Definition must_succeed : M unit := a ← pop; match a with No_error => skip | _ => exit end.

(** The epoll instance, the timer and its registration. *)
Definition must_server_init : M unit :=
  must_succeed;;
  mod_srv (fun s => set_s_term s 0);;
  must_succeed;;
  must_succeed;;
  mod_srv (fun s => set_role s (FOLLOWER 0 0));;
  reset_follower;;
  h ← log_alloc (fun malloc => Some (log_malloc malloc 0));
  match h with
  | None => exit
  | Some h =>
      put_log h zero_log;;
      server_borrow_log h;;
      lift (fun r => Some (set_authority r []));;
      mod_srv (fun s => set_s_cluster s [] 0)
  end.

Definition leader_change_available : M bool :=
  s ← get_srv; c ← my_cluster; l ← my_log;
  new ← log_alloc (fun malloc => log_malloc_change_available malloc c l (s_term s));
  match new with
  | Some new =>
      server_replace_log new;;
      mod_srv (fun s => set_replicate_entry s true);;
      mret true
  | None => mret false
  end.

Definition leader_replace_log (new : Z) : M bool :=
  s ← get_srv;
  assert (is_leader s = true);;
  l ← get_log new;
  cl ← cluster_alloc l (s_id s);
  if bool_decide (cl <> 0) then
    server_replace_log new;;
    server_replace_cluster cl;;
    mod_srv (fun s => set_entry_commited s true);;
    mod_srv (fun s => set_replicate_entry s true);;
    mret true
  else mret false.

Definition set_index_term (l : log) (i t : Z) : log :=
  {| refcount := refcount l; index := i; term := t; log_version := log_version l;
     next_machine_version := next_machine_version l; next_machine_id := next_machine_id l;
     type := type l; old_n := old_n l; new_n := new_n l;
     distinct_machines_n := distinct_machines_n l; machines := machines l |}.

Definition convert_to_leader : M unit :=
  s ← get_srv;
  assert (is_candidate s = true);;
  mod_srv (fun s => set_role s (LEADER 0));;
  l ← my_log;
  leader ← (if bool_decide (Z.land (type l) LOG_TYPE_UNSTABLE_MASK <> 0) then
              put_log (s_log s) (set_index_term l (u64 (index l + 1)) (s_term s));;
              mret (log_machines_find_new l (s_id s))
            else mret (log_machines_find_old l (s_id s)));
  mod_srv (fun s => set_entry_commited s true);;
  mod_srv (fun s => set_replicate_entry s true);;
  mod_srv (fun s => set_leader_available s
    (match leader with Some m => machine_available m | None => true end)).

Definition win_election : M unit := convert_to_leader.

(** ** Voting *)

Definition set_conn_io (h st size : Z) : M unit := lift (fun r => raft_conn_set_io r h st size).

(** [conn->state = state] *)
Definition set_conn_state (h st : Z) : M unit :=
  lift (fun r => c ← conns r !! h; Some (set_conns r (<[h := with_state c st]> (conns r)))).

Definition change_to_in_cmd (h : Z) : M unit :=
  set_conn_io h RAFT_CONN_STATE_IN_CMD RAFT_CONN_BUFFER_SIZE.

Definition state_vote_out (h : Z) : M unit :=
  ok ← full_write_buffer h true 16;
  if ok : bool then change_to_in_cmd h else skip.

Definition change_to_vote_out (h : Z) (grant : bool) : M unit :=
  s ← get_srv;
  mod_buf h (put_request_vote_res {| rvr_term := s_term s; rvr_granted := grant |});;
  set_conn_io h RAFT_CONN_STATE_VOTE_OUT 16;;
  state_vote_out h.

(** [true] when a request to vote is refused whatever it says. *)
Definition hears_leader (s : server) : bool :=
  match s_role s with
  | LEADER _ => true
  | FOLLOWER _ leader => negb (leader =? 0)
  | CANDIDATE _ _ => false
  end.

Definition state_vote_in (h : Z) : M unit :=
  s ← get_srv;
  if hears_leader s then change_to_vote_out h false
  else
    b ← get_buf h;
    let req := get_request_vote_req b in
    (if s_term s <? rv_term req then server_increase_term (rv_term req) else skip);;
    s ← get_srv; l ← my_log;
    match s_role s with
    | FOLLOWER voted_for leader =>
        if (s_term s <=? rv_term req) &&
           ((voted_for =? 0) || (voted_for =? rv_candidate_id req)) &&
           log_at_least_up_to_date l (rv_log_index req) (rv_log_term req)
        then
          assert (leader = 0);;
          reset_timer;;
          mod_srv (fun s => set_role s (FOLLOWER (rv_candidate_id req) leader));;
          change_to_vote_out h true
        else change_to_vote_out h false
    | _ => change_to_vote_out h false
    end.

Definition change_to_ready (h : Z) : M unit :=
  lift (fun r => raft_conn_change_to_ready_for_use r h).

Definition state_request_vote_in (h : Z) : M unit :=
  ok ← full_read_to_buffer h false 16;
  if ok : bool then
    b ← get_buf h;
    let res := get_request_vote_res b in
    change_to_ready h;;
    s ← get_srv;
    if s_term s <? rvr_term res then server_increase_term (rvr_term res)
    else
      match s_role s with
      | CANDIDATE old new =>
          if (s_term s =? rvr_term res) && rvr_granted res then
            p ← member_of h; m ← get_member p;
            let old := old - MEMBER_IN_OLD (m_type m) in
            let new := new - MEMBER_IN_NEW (m_type m) in
            mod_srv (fun s => set_role s (CANDIDATE old new));;
            if (old <=? 0) && (new <=? 0) then win_election else skip
          else skip
      | _ => skip
      end
  else skip.

Definition change_to_request_vote_in (h : Z) : M unit :=
  set_conn_io h RAFT_CONN_STATE_REQUEST_VOTE_IN 16.

Definition state_request_vote_out (h : Z) : M unit :=
  ok ← full_write_buffer h false 32;
  if ok : bool then change_to_request_vote_in h else skip.

Definition change_to_request_vote_out (h : Z) : M unit :=
  s ← get_srv;
  assert (is_candidate s = true);;
  l ← my_log;
  mod_buf h (put_request_vote_req
    {| rv_cmd := RAFT_CMD_REQUEST_VOTE; rv_candidate_id := s_id s; rv_term := s_term s;
       rv_log_index := index l; rv_log_term := term l |});;
  set_conn_io h RAFT_CONN_STATE_REQUEST_VOTE_OUT 32;;
  state_request_vote_out h.

(** ** Receiving entries *)

Definition state_recv_entry_out (h : Z) : M unit :=
  ok ← full_write_buffer h true 16;
  if ok : bool then change_to_in_cmd h else skip.

Definition server_warmed_up : M bool :=
  l ← my_log;
  if bool_decide (type l <> LOG_TYPE_GROW_TRANSFORM) then mret true
  else a ← pop; mret (match a with Warm b => b | _ => false end).

Definition change_to_recv_entry_out (h : Z) : M unit :=
  s ← get_srv;
  applied ← server_warmed_up;
  mod_buf h (put_append_entry_res {| ae_term := s_term s; ae_applied := applied |});;
  set_conn_io h RAFT_CONN_STATE_RECV_ENTRY_OUT 16;;
  state_recv_entry_out h.

Definition return_conn_log (h : Z) : M unit := lift (fun r => raft_conn_return_log r h).

Definition change_to_recv_log_out (h : Z) : M unit :=
  return_conn_log h;; change_to_recv_entry_out h.

Definition get_conn (h : Z) : M raft_conn := r ← get_net; from (conns r !! h).

(** The log a follower builds from the request and the machines it received. *)
Definition received_log (l : log) (req : append_log_req) : log :=
  {| refcount := refcount l; index := al_log_index req; term := al_log_term req;
     log_version := al_version req; next_machine_version := al_next_machine_version req;
     next_machine_id := al_next_machine_id req; type := al_type req;
     old_n := u32 (al_machines_size req / MACHINE_SIZE - al_new_machine_nr req);
     new_n := al_new_machine_nr req;
     distinct_machines_n := al_distinct_machines_n req; machines := machines l |}.

Definition state_recv_log_in (h : Z) : M unit :=
  b ← get_buf h; c ← get_conn h;
  let req := get_append_log_req b in
  let readed := u64 (al_machines_size req - unio c) in
  ok ← full_read_to_log h true readed;
  if ok : bool then
    s ← get_srv;
    if al_term req <? s_term s then change_to_recv_log_out h
    else
      l ← my_log;
      (if index l =? 0 then set_timer (al_follower_id req) else skip);;
      (if s_term s <? al_term req then server_increase_term (al_term req)
       else if negb (is_follower s) then convert_to_follower else skip);;
      s ← get_srv;
      match s_role s with
      | FOLLOWER voted_for _ =>
          mod_srv (fun s => set_s_id s (al_follower_id req));;
          mod_srv (fun s => set_role s (FOLLOWER voted_for (al_leader_id req)));;
          reset_timer;;
          l ← get_log (c_log c);
          put_log (c_log c) (received_log l req);;
          server_replace_log (c_log c);;
          change_to_recv_log_out h
      | _ => fault
      end
  else skip.

Definition conn_free (h : Z) : M unit := lift (fun r => raft_conn_free r h).
Definition conn_clear (h : Z) : M unit := lift (fun r => raft_conn_clear r h).
Definition borrow_log (h log_h st size : Z) : M unit :=
  lift (fun r => raft_conn_borrow_log r h log_h st size).

Definition change_to_recv_log_in (h : Z) : M unit :=
  b ← get_buf h;
  let machines_size := al_machines_size (get_append_log_req b) in
  l ← log_alloc (fun malloc => Some (log_malloc malloc machines_size));
  match l with
  | Some l =>
      borrow_log h l RAFT_CONN_STATE_RECV_LOG_IN machines_size;;
      state_recv_log_in h
  | None => conn_free h
  end.

Definition state_recv_heartbeat_in (h : Z) : M unit :=
  b ← get_buf h; s ← get_srv;
  let term := hb_term (get_heartbeat_req b) in
  assert (term <= s_term s);;
  (if term =? s_term s then assert (is_follower s = true);; reset_timer else skip);;
  change_to_recv_entry_out h.

(** ** Approving the authority of clients *)

(** The loop of [read]s of at most 1024 bytes; [None] is a failed [read].  The
    answers that are left over follow. *)
Fixpoint authority_read (answers : list answer) (k : Z) : option Z * list answer :=
  match answers with
  | [] => (Some k, [])
  | Got bs :: answers' =>
      let n := Z.of_nat (length bs) in
      let k := u64 (k + foldr Z.add 0 bs) in
      if n <? 1024 then (Some k, answers')
      else if n =? 1024 then authority_read answers' k
      else (None, answers')
  | Again :: answers' => (Some k, answers')
  | _ :: answers' => (None, answers')
  end.

Definition sys_read_all : M (option Z) := fun w =>
  let '(k, rest) := authority_read (input w) 0 in Ret k (set_input w rest).

(** [s->leader.replicate_entry] lies outside the other members of the union. *)
Definition state_authority_in (h : Z) : M bool :=
  c ← get_conn h;
  k ← sys_read_all;
  match k with
  | None => conn_free h;; mret false
  | Some k =>
      x ← get_nrs h;
      put_nrs h {| pending_nr := u64 (pending_nr x + k); processing_nr := processing_nr x;
                   succeed_nr := succeed_nr x |};;
      mod_srv (fun s => set_replicate_entry s true);;
      mret true
  end.

Definition change_to_authority_pending (h : Z) : M unit :=
  set_conn_state h RAFT_CONN_STATE_AUTHORITY_PENDING.

Definition state_authority_out (h : Z) : M unit :=
  ok ← full_write_buffer h true 16;
  if ok : bool then change_to_authority_pending h else skip.

Definition change_to_authority_out (h : Z) : M unit :=
  l ← my_log; x ← get_nrs h;
  mod_buf h (put_authority_approval {| aa_version := log_version l; aa_count := succeed_nr x |});;
  put_nrs h {| pending_nr := pending_nr x; processing_nr := processing_nr x; succeed_nr := 0 |};;
  set_conn_io h RAFT_CONN_STATE_AUTHORITY_OUT 16;;
  state_authority_out h.

Definition conn_authority_approved (h : Z) : M unit :=
  x ← get_nrs h; c ← get_conn h;
  let succeed := u64 (succeed_nr x + processing_nr x) in
  put_nrs h {| pending_nr := pending_nr x; processing_nr := 0; succeed_nr := succeed |};;
  if (state c =? RAFT_CONN_STATE_AUTHORITY_PENDING) && (0 <? succeed)
  then change_to_authority_out h else skip.

Definition server_authority_approved : M unit :=
  r ← get_net; iter conn_authority_approved (authority r).

Definition authority_process (h : Z) : M unit :=
  x ← get_nrs h; c ← get_conn h;
  put_nrs h {| pending_nr := 0; processing_nr := u64 (processing_nr x + pending_nr x);
               succeed_nr := succeed_nr x |}.
Definition server_authority_process : M unit :=
  r ← get_net; iter authority_process (authority r).

(** ** Replicating the log *)

(** [false] makes the leader step down. *)
Definition member_commited_log (p : mref) : M bool :=
  m ← get_member p;
  if match_index m =? u64 (next_index m - 1) then mret true
  else
    mod_member p (fun m => set_indexes m (next_index m) (u64 (next_index m - 1)));;
    s ← get_srv; l ← my_log; c ← my_cluster; m ← get_member p;
    if negb (match_index m =? index l) || negb (leader_log_commited c l) then mret true
    else if type l =? LOG_TYPE_OLD then
      if old_n l =? members_n c then exit else mret true
    else
      new ← (if type l =? LOG_TYPE_GROW_TRANSFORM then
               log_alloc (fun malloc => Some (log_malloc_grow_complete malloc l (s_term s)))
             else
               assert (Z.land (type l) LOG_TYPE_UNSTABLE_MASK <> 0);;
               assert (s_term s = term l);;
               log_alloc (fun malloc => Some (log_malloc_stable malloc l)));
      match new with
      | None => mret false
      | Some new =>
          if Z.land (type l) LOG_TYPE_JOINT_MASK =? 0 then server_replace_log new;; mret true
          else
            ok ← leader_replace_log new;
            if ok : bool then mret true else log_free new;; mret false
      end.

Definition change_to_append_log_in (h : Z) : M unit :=
  return_conn_log h;;
  set_conn_io h RAFT_CONN_STATE_APPEND_LOG_IN 16.

(** The [iovec] of a header of [head] bytes in the buffer and [machines_size]
    bytes of machines behind it, when [unio] bytes are left. *)
Definition log_iov (head machines_size unio : Z) (b ms : list Z) : list (list Z) :=
  if unio <=? machines_size then
    let written := u64 (machines_size - unio) in
    [take (Z.to_nat unio) (drop (Z.to_nat written) ms)]
  else
    let written := u64 (head + machines_size - unio) in
    [take (Z.to_nat (u64 (unio - machines_size))) (drop (Z.to_nat written) b);
     take (Z.to_nat machines_size) ms].

Definition state_append_log_out (h : Z) : M unit :=
  b ← get_buf h; c ← get_conn h; l ← get_log (c_log c);
  let machines_size := al_machines_size (get_append_log_req b) in
  ok ← full_write_msg h false (log_iov 80 machines_size (unio c) b (machines_bytes (machines l)));
  if ok : bool then change_to_append_log_in h else skip.

Definition change_to_append_log_out (p : mref) : M unit :=
  s ← get_srv; l ← my_log; m ← get_member p;
  let h := conn_of p in
  let machines_size := u64 (MACHINE_SIZE * u32 (old_n l + new_n l)) in
  mod_buf h (put_append_log_req
    {| al_cmd := RAFT_CMD_APPEND_LOG; al_type := type l; al_machines_size := machines_size;
       al_term := s_term s; al_leader_id := s_id s; al_follower_id := m_id m;
       al_log_index := index l; al_log_term := term l; al_version := log_version l;
       al_next_machine_version := next_machine_version l;
       al_next_machine_id := next_machine_id l; al_new_machine_nr := new_n l;
       al_distinct_machines_n := distinct_machines_n l |});;
  borrow_log h (s_log s) RAFT_CONN_STATE_APPEND_LOG_OUT (u64 (80 + machines_size));;
  mod_member p (fun m => set_indexes m (index l) (match_index m));;
  state_append_log_out h.

Definition change_to_heartbeat_in (h : Z) : M unit :=
  set_conn_io h RAFT_CONN_STATE_HEARTBEAT_IN 16.

Definition state_heartbeat_out (h : Z) : M unit :=
  ok ← full_write_buffer h false 16;
  if ok : bool then change_to_heartbeat_in h else skip.

Definition change_to_heartbeat_out (h : Z) : M unit :=
  s ← get_srv;
  mod_buf h (put_heartbeat_req {| hb_cmd := RAFT_CMD_HEARTBEAT; hb_term := s_term s |});;
  set_conn_io h RAFT_CONN_STATE_HEARTBEAT_OUT 16;;
  state_heartbeat_out h.

Definition change_to_append_entry_out (p : mref) : M unit :=
  s ← get_srv;
  match s_role s with
  | LEADER round =>
      mod_member p (fun m => set_round m round);;
      m ← get_member p; l ← my_log;
      if next_index m <=? index l then change_to_append_log_out p
      else change_to_heartbeat_out (conn_of p)
  | _ => fault
  end.

Definition state_append_entry_in (h : Z) : M unit :=
  c ← get_conn h;
  ok ← full_read_to_buffer h false 16;
  if ok : bool then
    b ← get_buf h;
    let res := get_append_entry_res b in
    change_to_ready h;;
    s ← get_srv;
    if s_term s <? ae_term res then server_increase_term (ae_term res)
    else
      assert (ae_term res = s_term s /\ is_leader s = true);;
      p ← member_of h;
      mod_member p (fun m => set_responded m true);;
      (if state c =? RAFT_CONN_STATE_APPEND_LOG_IN then
         mod_member p (fun m => set_indexes m (u64 (next_index m + 1)) (match_index m))
       else skip);;
      remain ← (if ae_applied res then member_commited_log p else mret true);
      if negb remain then convert_to_follower
      else
        s ← get_srv; m ← get_member p;
        match s_role s with
        | LEADER round =>
            if append_entry_round m =? round then
              mod_srv (fun s => set_commit_votes s
                (commit_entry_required_old_votes s - MEMBER_IN_OLD (m_type m))
                (commit_entry_required_new_votes s - MEMBER_IN_NEW (m_type m)))
            else change_to_append_entry_out p
        | _ => fault
        end
  else skip.

(** ** Requests of the administrator and of clients *)

Definition state_change_cluster_out (h : Z) : M unit :=
  ok ← write_byte_zero h true;
  if ok : bool then change_to_in_cmd h else skip.

Definition change_to_change_cluster_out (h : Z) : M unit :=
  return_conn_log h;;
  set_conn_state h RAFT_CONN_STATE_CHANGE_CLUSTER_OUT;;
  state_change_cluster_out h.

Definition change_to_init_cluster_out (h : Z) : M unit := change_to_change_cluster_out h.

Definition state_init_cluster_in (h : Z) : M unit :=
  c ← get_conn h; b ← get_buf h;
  let machines_size := cc_machines_size (get_change_cluster_req b) in
  let readed := u64 (machines_size - unio c) in
  ok ← full_read_to_log h true readed;
  if ok : bool then
    mine ← my_log;
    (if index mine =? 0 then
       l ← get_log (c_log c);
       let '(complete, l) := log_complete_init l in
       put_log (c_log c) l;;
       if complete : bool then
         s ← get_srv;
         assert (s_cluster s = 0);;
         cl ← cluster_alloc l 1;
         mod_srv (fun s => set_s_cluster s (stale_cluster s) cl);;
         if bool_decide (cl = 0) then exit
         else
           mod_srv (fun s => set_s_id s 1);;
           mod_srv (fun s => set_s_term s 1);;
           assert (1 = term l);;
           set_timer 1;;
           mod_srv (fun s => set_role s (LEADER 0));;
           mod_srv (fun s => set_entry_commited s true);;
           mod_srv (fun s => set_replicate_entry s true);;
           mod_srv (fun s => set_leader_available s true);;
           server_replace_log (c_log c)
       else skip
     else skip);;
    change_to_init_cluster_out h
  else skip.

(** Copies the machines that arrived with the request behind byte [off]. *)
Definition preread_machines (log_h off : Z) (b : list Z) : M unit :=
  l ← get_log log_h;
  put_log log_h (set_machines l (machines_fill (Z.to_nat off) (drop 16 b) (machines l))).

Definition change_to_init_cluster_in (h : Z) : M unit :=
  b ← get_buf h;
  let machines_size := cc_machines_size (get_change_cluster_req b) in
  if machines_size_valid machines_size then
    l ← log_alloc (fun malloc => log_malloc_init malloc machines_size);
    match l with
    | Some l =>
        let preread := RAFT_CONN_BUFFER_SIZE - 16 in
        preread_machines l 0 b;;
        borrow_log h l RAFT_CONN_STATE_INIT_CLUSTER_IN (u64 (machines_size - preread));;
        state_init_cluster_in h
    | None => conn_free h
    end
  else conn_free h.

Definition state_change_cluster_in (h : Z) : M unit :=
  c ← get_conn h; b ← get_buf h; l ← get_log (c_log c);
  let machines_size := cc_machines_size (get_change_cluster_req b) in
  let readed := u64 (machines_size - unio c) in
  ok ← full_read_to_log h true (MACHINE_SIZE * old_n l + readed);
  if ok : bool then
    s ← get_srv; mine ← my_log;
    (if is_leader s && (type mine =? LOG_TYPE_OLD) && (old_n mine =? old_n l) then
       l ← get_log (c_log c);
       '(complete, l) ← from (log_complete_change l mine (s_term s));
       put_log (c_log c) l;;
       if complete : bool then leader_replace_log (c_log c);; skip else skip
     else skip);;
    change_to_change_cluster_out h
  else skip.

Definition change_to_change_cluster_in (h : Z) : M unit :=
  b ← get_buf h; mine ← my_log;
  let machines_size := cc_machines_size (get_change_cluster_req b) in
  if machines_size_valid machines_size then
    let n := u32 (machines_size / MACHINE_SIZE) in
    l ← log_alloc (fun malloc => Some (log_malloc_unstable malloc (old_n mine) n));
    match l with
    | Some l =>
        let preread := RAFT_CONN_BUFFER_SIZE - 16 in
        preread_machines l (MACHINE_SIZE * old_n mine) b;;
        borrow_log h l RAFT_CONN_STATE_CHANGE_CLUSTER_IN (u64 (machines_size - preread));;
        state_change_cluster_in h
    | None => conn_free h
    end
  else conn_free h.

Definition state_leader_out (h : Z) : M unit :=
  ok ← full_write_buffer h true 20;
  if ok : bool then change_to_in_cmd h else skip.

Definition change_to_leader_out (h : Z) : M unit :=
  s ← get_srv; l ← my_log;
  let leader := match s_role s with
                | LEADER _ => s_id s
                | FOLLOWER _ leader => leader
                | CANDIDATE _ _ => 0
                end in
  mod_buf h (put_bool 18 true);;
  (if 0 <? leader then
     match log_machines_find l leader with
     | Some m => mod_buf h (put_leader_res {| lr_sin6_addr := sin6_addr m;
                                              lr_sin6_port := sin6_port m; lr_lost := false |})
     | None => skip
     end
   else skip);;
  set_conn_io h RAFT_CONN_STATE_LEADER_OUT 20;;
  state_leader_out h.

Definition state_cluster_out (h : Z) : M unit :=
  b ← get_buf h; c ← get_conn h; l ← get_log (c_log c);
  let machines_size := cl_machines_size (get_cluster_res b) in
  ok ← full_write_msg h true (log_iov 24 machines_size (unio c) b (machines_bytes (machines l)));
  if ok : bool then return_conn_log h;; change_to_in_cmd h else skip.

Definition change_to_cluster_out (h : Z) : M unit :=
  s ← get_srv; l ← my_log;
  let machines_size := u64 (MACHINE_SIZE * old_n l) in
  mod_buf h (put_cluster_res {| cl_type := type l; cl_machines_size := machines_size;
                                cl_version := log_version l |});;
  borrow_log h (s_log s) RAFT_CONN_STATE_CLUSTER_OUT (u64 (24 + machines_size));;
  state_cluster_out h.

(** The connection leaves the server without being closed. *)
Definition state_connect_in (h : Z) : M unit :=
  b ← get_buf h; c ← get_conn h;
  let thread_id := co_thread_id (get_connect_req b) in
  if CONFIG_THREAD_NR <=? thread_id then conn_free h
  else
    emit (Dispatched thread_id (fd c));;
    lift (fun r => Some (set_conns r (delete h (conns r)))).

(** [list_add] and zeroed counters. *)
Definition authority_join (h : Z) : M unit :=
  lift (fun r => Some (set_authority r (h :: authority r)));;
  put_nrs h {| pending_nr := 0; processing_nr := 0; succeed_nr := 0 |};;
  change_to_authority_out h.

(** The read that [state_in_cmd] starts with; how many bytes of the command are
    there afterwards. *)
Definition read_cmd (h : Z) : M (option Z) :=
  c ← get_conn h;
  let readed := u64 (RAFT_CONN_BUFFER_SIZE - unio c) in
  '(n, wouldblock, bs) ← sys_read;
  r ← get_net;
  '(ok, r) ← from (raft_conn_read r true h n wouldblock);
  put_net r;;
  if ok : bool then
    mod_buf h (fill (Z.to_nat readed) bs);;
    c ← get_conn h;
    mret (Some (u64 (RAFT_CONN_BUFFER_SIZE - unio c)))
  else mret None.

Definition state_in_cmd (h : Z) : M unit :=
  readed ← read_cmd h;
  match readed with
  | None => skip
  | Some readed =>
      b ← get_buf h; c ← get_conn h;
      let cmd := get 0 1 b in
      if negb (admin c) && (cmd <? RAFT_CMD_ADMIN_DIVIDER) then conn_free h
      else if cmd =? RAFT_CMD_REQUEST_VOTE then
        if readed =? 32 then state_vote_in h else skip
      else if cmd =? RAFT_CMD_APPEND_LOG then
        if readed =? RAFT_CONN_BUFFER_SIZE then change_to_recv_log_in h else skip
      else if cmd =? RAFT_CMD_HEARTBEAT then
        if readed =? 16 then state_recv_heartbeat_in h else skip
      else if cmd =? RAFT_CMD_INIT_CLUSTER then
        if readed =? RAFT_CONN_BUFFER_SIZE then change_to_init_cluster_in h else skip
      else if cmd =? RAFT_CMD_CHANGE_CLUSTER then
        if readed =? RAFT_CONN_BUFFER_SIZE then change_to_change_cluster_in h else skip
      else if cmd =? RAFT_CMD_LEADER then
        assert (readed = 1);; change_to_leader_out h
      else if cmd =? RAFT_CMD_CLUSTER then
        assert (readed = 1);; change_to_cluster_out h
      else if cmd =? RAFT_CMD_CONNECT then
        if readed =? 8 then state_connect_in h else skip
      else if cmd =? RAFT_CMD_AUTHORITY then
        assert (readed = 1);; authority_join h
      else fault
  end.

(** ** Connecting to the members *)

Definition change_to_ready_for_use (h : Z) : M unit :=
  s ← get_srv;
  match s_role s with
  | LEADER _ =>
      p ← member_of h; m ← get_member p;
      if responded_append_entry m then skip else change_to_append_entry_out p
  | CANDIDATE _ _ => change_to_request_vote_out h
  | FOLLOWER _ _ => skip
  end.

(** [tls_handshake] on the session of the connection.  When there is no answer
    the handshake waits to read. *)
Definition handshake (h : Z) : M handshake_answer :=
  a ← pop; r ← get_net;
  from (tls_handshake (match a with
                       | Handshake x => x
                       | Again => GNUTLS_E_AGAIN false
                       | _ => GNUTLS_E_OTHER
                       end) h (sessions r)).

Definition require_write (h : Z) (to_write : bool) : M bool :=
  r ← get_net; from (tls_record_require_write to_write h (sessions r)).

Definition deinit (h : Z) : M unit := lift (fun r => session_deinit r h).

(** What [tls_session_init] gets; the session's bytes overlay the buffer. *)
Definition session_answer (h : Z) : M tls_answer :=
  a ← pop;
  match a with
  | Session x raw => mod_buf h (fun _ => raw);; mret x
  | _ => mret {| g_init := false; g_priority := false; g_credentials := false |}
  end.

Definition state_tls_server_handshake (h : Z) : M unit :=
  ret ← handshake h;
  match ret with
  | GNUTLS_E_SUCCESS _ => deinit h;; change_to_in_cmd h;; state_in_cmd h
  | GNUTLS_E_OTHER => conn_free h
  | GNUTLS_E_AGAIN to_write =>
      wr ← require_write h to_write;
      set_conn_state h (if wr : bool then RAFT_CONN_STATE_TLS_SERVER_HANDSHAKE_OUT
                        else RAFT_CONN_STATE_TLS_SERVER_HANDSHAKE_IN)
  end.

Definition state_tls_client_handshake (h : Z) : M unit :=
  ret ← handshake h;
  match ret with
  | GNUTLS_E_SUCCESS _ => deinit h;; change_to_ready_for_use h
  | GNUTLS_E_OTHER => conn_clear h
  | GNUTLS_E_AGAIN to_write =>
      wr ← require_write h to_write;
      set_conn_state h (if wr : bool then RAFT_CONN_STATE_TLS_CLIENT_HANDSHAKE_OUT
                        else RAFT_CONN_STATE_TLS_CLIENT_HANDSHAKE_IN)
  end.

(** [tls_init_client] on the session of the connection. *)
Definition init_client (h : Z) : M bool :=
  a ← session_answer h; r ← get_net;
  '(ok, r) ← from (session_init_client r h a);
  put_net r;; mret ok.

Definition change_to_conn_established (h : Z) : M unit :=
  r ← get_net;
  if with_tls r then
    c ← get_conn h;
    assert (state c = RAFT_CONN_STATE_IN_PROGRESS);;
    ok ← init_client h;
    if ok : bool then
      set_conn_state h RAFT_CONN_STATE_TLS_CLIENT_HANDSHAKE_OUT;;
      state_tls_client_handshake h
    else conn_clear h
  else change_to_ready_for_use h.

Definition state_in_progress (h : Z) : M unit :=
  a ← pop;
  match a with
  | No_error => change_to_conn_established h
  | _ => conn_clear h
  end.

Definition set_conn_fd (h sock : Z) : M unit :=
  lift (fun r => c ← conns r !! h;
    Some (set_conns r (<[h := {| c_log := c_log c; unio := unio c; fd := sock;
                                 admin := admin c; state := state c |}]> (conns r)))).

(** [Refused]: [connect] failed; any other answer: there is no socket. *)
Definition member_connect (p : mref) : M unit :=
  let h := conn_of p in
  c ← get_conn h;
  assert (state c = RAFT_CONN_STATE_NOT_CONNECTED);;
  a ← pop;
  match a with
  | Connected sock =>
      set_conn_fd h sock;;
      set_conn_state h RAFT_CONN_STATE_IN_PROGRESS;;
      change_to_conn_established h
  | Connecting sock =>
      set_conn_fd h sock;;
      set_conn_state h RAFT_CONN_STATE_IN_PROGRESS
  | Refused sock => set_conn_fd h sock
  | _ => skip
  end.

(** The [struct member *]s of the current cluster. *)
Definition my_members : M (list mref) :=
  s ← get_srv; c ← my_cluster;
  mret ((fun i => (s_cluster s, i)) <$> seq 0 (Z.to_nat (members_n c))).

Definition replicate_to (p : mref) : M unit :=
  mod_member p (fun m => set_responded m false);;
  c ← get_conn (conn_of p);
  if state c =? RAFT_CONN_STATE_READY_FOR_USE then change_to_append_entry_out p
  else if state c =? RAFT_CONN_STATE_NOT_CONNECTED then member_connect p
  else skip.

(** A 32-bit unsigned value stored in an [int32_t]. *)
Definition s32 (x : Z) : Z := if wrap 32 x <? 2 ^ 31 then wrap 32 x else wrap 32 x - 2 ^ 32.

Definition replicate_entry : M unit :=
  s ← get_srv;
  match s_role s with
  | LEADER round =>
      if negb (entry_commited s) && ((0 <? commit_entry_required_old_votes s) ||
                                     (0 <? commit_entry_required_new_votes s))
      then skip
      else
        (if negb (entry_commited s) then
           mod_srv (fun s => set_entry_commited s true);;
           server_authority_approved
         else skip);;
        if negb (replicate_entry_flag s) then skip
        else
          server_authority_process;;
          c ← my_cluster;
          mod_srv (fun s => set_role s (LEADER (u64 (round + 1))));;
          mod_srv (fun s => set_commit_votes s (s32 (require_old_votes c))
                                               (s32 (require_new_votes c)));;
          mod_srv (fun s => set_entry_commited s false);;
          mod_srv (fun s => set_replicate_entry s false);;
          ps ← my_members;
          iter replicate_to ps
  | _ => fault
  end.

(** ** Elections and timers *)

Definition request_vote_of (p : mref) : M unit :=
  c ← get_conn (conn_of p);
  if state c =? RAFT_CONN_STATE_READY_FOR_USE then change_to_request_vote_out (conn_of p)
  else if state c =? RAFT_CONN_STATE_NOT_CONNECTED then member_connect p
  else skip.

(** The election a candidate of the cluster [c] starts. *)
Definition campaign : M unit :=
  s ← get_srv;
  assert (is_candidate s = true);;
  c ← my_cluster;
  mod_srv (fun s => set_s_term s (u64 (s_term s + 1)));;
  mod_srv (fun s => set_role s (CANDIDATE (s32 (require_old_votes c)) (s32 (require_new_votes c))));;
  reset_timer_hard;;
  ps ← my_members;
  iter request_vote_of ps.

(** The votes still required are set when the election starts. *)
Definition convert_to_candidate : M unit :=
  s ← get_srv;
  if is_follower s then
    l ← my_log;
    cl ← cluster_alloc l (s_id s);
    if bool_decide (cl = 0) then skip
    else
      mod_srv (fun s => set_role s (CANDIDATE 0 0));;
      s ← get_srv;
      assert (s_cluster s = 0);;
      mod_srv (fun s => set_s_cluster s (stale_cluster s) cl);;
      campaign
  else campaign.

Definition start_election : M unit := convert_to_candidate.

(** The first loop of [leader_timer_ticked]: the members, whether one changed,
    and how many are available. *)
Fixpoint check_available (ms : list member) (changed : bool) (old new : Z)
    : list member * bool * Z * Z :=
  match ms with
  | [] => ([], changed, old, new)
  | m :: ms' =>
      let '(m, changed) :=
        if eqb (responded_append_entry m) (m_available m) then (set_stable m 0 (m_available m), changed)
        else
          let round := unstable_round m + 1 in
          if 10 <=? round then (set_stable m 0 (negb (m_available m)), true)
          else (set_stable m round (m_available m), changed) in
      let '(old, new) := if m_available m
                         then (u32 (old + MEMBER_IN_OLD (m_type m)), u32 (new + MEMBER_IN_NEW (m_type m)))
                         else (old, new) in
      let '(ms', changed, old, new) := check_available ms' changed old new in
      (m :: ms', changed, old, new)
  end.

Definition connect_if_not (p : mref) : M unit :=
  c ← get_conn (conn_of p);
  if state c =? RAFT_CONN_STATE_NOT_CONNECTED then member_connect p else skip.

Definition leader_timer_ticked : M bool :=
  s ← get_srv; c ← my_cluster; cls ← get_clusters;
  let '(ms, changed, old_available, new_available) :=
    check_available (members c) (negb (leader_available s)) 0 0 in
  put_clusters (<[s_cluster s := set_members c ms]> cls);;
  if (old_available <? require_old_votes c) || (new_available <? require_new_votes c)
  then mret false
  else
    ps ← my_members;
    iter connect_if_not ps;;
    l ← my_log;
    if (Z.land (type l) LOG_TYPE_UNSTABLE_MASK =? 0) && changed then
      mod_srv (fun s => set_leader_available s true);;
      leader_change_available
    else mret true.

Definition process_timer_event : M unit :=
  mod_srv (fun s => set_timer_ticks s (u8 (timer_ticks s + 1)));;
  s ← get_srv;
  if is_leader s then
    remain ← leader_timer_ticked;
    if remain : bool then mod_srv (fun s => set_replicate_entry s true) else convert_to_follower
  else if election_timeout s then start_election
  else skip.

(** ** The event loop *)

Definition process (h : Z) : M unit :=
  c ← get_conn h;
  let st := state c in
  if st =? RAFT_CONN_STATE_IN_PROGRESS then state_in_progress h
  else if (st =? RAFT_CONN_STATE_TLS_CLIENT_HANDSHAKE_IN) ||
          (st =? RAFT_CONN_STATE_TLS_CLIENT_HANDSHAKE_OUT) then state_tls_client_handshake h
  else if (st =? RAFT_CONN_STATE_TLS_SERVER_HANDSHAKE_IN) ||
          (st =? RAFT_CONN_STATE_TLS_SERVER_HANDSHAKE_OUT) then state_tls_server_handshake h
  else if st =? RAFT_CONN_STATE_IN_CMD then state_in_cmd h
  else if st =? RAFT_CONN_STATE_REQUEST_VOTE_OUT then state_request_vote_out h
  else if st =? RAFT_CONN_STATE_REQUEST_VOTE_IN then state_request_vote_in h
  else if st =? RAFT_CONN_STATE_VOTE_OUT then state_vote_out h
  else if st =? RAFT_CONN_STATE_APPEND_LOG_OUT then state_append_log_out h
  else if st =? RAFT_CONN_STATE_HEARTBEAT_OUT then state_heartbeat_out h
  else if (st =? RAFT_CONN_STATE_APPEND_LOG_IN) || (st =? RAFT_CONN_STATE_HEARTBEAT_IN)
       then state_append_entry_in h
  else if st =? RAFT_CONN_STATE_RECV_LOG_IN then state_recv_log_in h
  else if st =? RAFT_CONN_STATE_RECV_ENTRY_OUT then state_recv_entry_out h
  else if st =? RAFT_CONN_STATE_INIT_CLUSTER_IN then state_init_cluster_in h
  else if st =? RAFT_CONN_STATE_CHANGE_CLUSTER_IN then state_change_cluster_in h
  else if st =? RAFT_CONN_STATE_LEADER_OUT then state_leader_out h
  else if st =? RAFT_CONN_STATE_CLUSTER_OUT then state_cluster_out h
  else if st =? RAFT_CONN_STATE_CHANGE_CLUSTER_OUT then state_change_cluster_out h
  else if st =? RAFT_CONN_STATE_AUTHORITY_OUT then
    ok ← state_authority_in h;
    if ok : bool then state_authority_out h else skip
  else if st =? RAFT_CONN_STATE_AUTHORITY_PENDING then state_authority_in h;; skip
  else fault.

(** One round of [_accept]: [Some] is what it returns, [None] goes on.  [malloc]
    does not return a block in use; a socket that gets no connection is closed
    again. *)
Definition accept_one (is_admin : bool) : M (option bool) :=
  a ← pop;
  match a with
  | Accepted sock h added =>
      r ← get_net;
      let ptr := if bool_decide (h <> 0 /\ conns r !! h = None) then Some h else None in
      x ← (if with_tls r && bool_decide (is_Some ptr) then session_answer h
           else mret {| g_init := false; g_priority := false; g_credentials := false |});
      '(conn, r) ← from (raft_in_conn_malloc r ptr sock is_admin x);
      put_net r;;
      match conn with
      | Some h => if added : bool then mret None else conn_free h;; mret None
      | None => mret None
      end
  | Again => mret (Some true)
  | _ => mret (Some false)
  end.

(** The batch of accepted connections is as long as the answers last. *)
Fixpoint accept_loop (fuel : nat) (is_admin : bool) : M bool :=
  match fuel with
  | O => mret true
  | S fuel' =>
      ret ← accept_one is_admin;
      match ret with Some b => mret b | None => accept_loop fuel' is_admin end
  end.

Definition _accept (is_admin : bool) : M bool := fun w =>
  accept_loop (S (length (input w))) is_admin w.

(** An event of [epoll_wait]. *)
Inductive ready :=
  | Timer
  | Accept (is_admin : bool)
  | Out_conn (h events : Z)
  | In_conn (h events : Z).

Definition TIMER_EVENT_U64 : Z := 0.
Definition ACCEPT_EVENT_U64 : Z := 1.
Definition ACCEPT_ADMIN_EVENT_U64 : Z := 2.

(** The data of an event: a constant, or the address of a connection, with the
    lowest bit set for an outgoing one. *)
Definition ready_of (data events : Z) : ready :=
  if data =? TIMER_EVENT_U64 then Timer
  else if data =? ACCEPT_EVENT_U64 then Accept false
  else if data =? ACCEPT_ADMIN_EVENT_U64 then Accept true
  else if bool_decide (Z.land data 1 <> 0) then Out_conn (Z.ldiff data 1) events
  else In_conn data events.

(** The data [_accept] and [member_connect] register a connection with. *)
Definition in_conn_data (h : Z) : Z := h.
Definition out_conn_data (h : Z) : Z := Z.lor h 1.

Definition conn_event (h events : Z) : M unit :=
  c ← get_conn h;
  if bool_decide (Z.land events (Z.lnot (EPOLLIN + EPOLLOUT)) <> 0) then
    if raft_conn_outgoing c then conn_clear h else conn_free h
  else if bool_decide (Z.land events (state c) <> 0) then process h
  else skip.

Definition dispatch (e : ready) : M unit :=
  match e with
  | Timer => process_timer_event
  | Accept is_admin =>
      ok ← _accept is_admin;
      '(user, admin) ← get_fds;
      if ok : bool then skip else if is_admin then put_fds user (-1) else put_fds (-1) admin
  | Out_conn h events =>
      s ← get_srv; cls ← get_clusters;
      let cl := if s_cluster s =? 0 then None
                else c ← cls !! s_cluster s; Some (s_cluster s, c) in
      if cluster_has_conn cl h then conn_event h events else skip
  | In_conn h events => conn_event h events
  end.

(** [cluster_free]: the connections are cleared and the block is freed. *)
Definition free_cluster (a : Z) : M unit :=
  cls ← get_clusters; c ← from (cls !! a);
  lift (fun r => cluster_free r a c);;
  r ← get_net;
  put_net (set_conns r (foldr delete (conns r) (fst <$> cluster_conns a c)));;
  put_clusters (delete a cls).

Definition free_stale_clusters : M unit :=
  s ← get_srv;
  iter free_cluster (stale_cluster s);;
  mod_srv (fun s => set_s_cluster s [] (s_cluster s)).

(** [listen_port]; the port is truncated to 16 bits by [htons]. *)
Definition listen (port data : Z) : M Z :=
  a ← pop;
  match a with
  | Listening sock => emit (Listened sock (wrap 16 port) data);; mret sock
  | _ => mret (-1)
  end.

(** [port] is an [in_port_t]. *)
Definition listen_user (port : Z) : M Z := listen (wrap 16 port) ACCEPT_EVENT_U64.
Definition listen_admin (port : Z) : M Z := listen (wrap 16 port + 1) ACCEPT_ADMIN_EVENT_U64.

(** A listening socket that was closed is opened again. *)
Definition relisten (port : Z) : M unit :=
  '(user, admin) ← get_fds;
  if bool_decide (user <> -1 /\ admin <> -1) then skip
  else
    user ← (if user =? -1 then listen_user port else mret user);
    admin ← (if admin =? -1 then listen_admin port else mret admin);
    put_fds user admin.

(** One round of [loop_forever]; [events] are the data and the events of
    [epoll_wait]. *)
Definition loop_round (port : Z) (events : list (Z * Z)) : M unit :=
  relisten port;;
  iter (fun e => dispatch (ready_of e.1 e.2)) events;;
  s ← get_srv;
  (if is_leader s then replicate_entry
   else r ← get_net; iter conn_free (authority r));;
  free_stale_clusters.

Definition loop_forever (port : Z) (rounds : list (list (Z * Z))) : M unit :=
  iter (loop_round port) rounds.

(** [threads_run] is part of thread.c. *)
Definition must_service_run (port : Z) (rounds : list (list (Z * Z))) : M unit :=
  must_succeed;;
  must_server_init;;
  user ← listen_user port;
  if user =? -1 then exit
  else
    admin ← listen_admin port;
    if admin =? -1 then exit
    else
      put_fds user admin;;
      loop_forever port rounds.
