(* ===== verification/Election.v ===== *)
(** * Terms, votes and elections (service_raft.c)

    What the handlers of Server.v do to the part of the state that decides
    elections: the term, the role and the votes a candidate still needs. *)

From S2P Require Import Prelude Machine Log LogInv Tls RaftConn Proto Cluster Server.

(** ** Reasoning about handlers *)

(** [keeps R m]: whenever [m] returns, the worlds before and after are related. *)
Definition keeps {A} (R : world -> world -> Prop) (m : M A) : Prop :=
  forall w a w', m w = Ret a w' -> R w w'.

Section keeps.
Context (R : world -> world -> Prop) `{!PreOrder R}.

Lemma keeps_ret {A} (a : A) : keeps R (mret a).
Proof. intros w b w' [= _ <-]. reflexivity. Qed.

Lemma keeps_bind {A B} (m : M A) (f : A -> M B) :
  keeps R m -> (forall a, keeps R (f a)) -> keeps R (m ≫= f).
Proof.
  intros Hm Hf w b w'. unfold mbind, M_bind. destruct (m w) as [a w1| |] eqn:E; try done.
  intros Hb. transitivity w1; [by eapply Hm|by eapply Hf].
Qed.

Lemma keeps_skip : keeps R skip.
Proof. apply keeps_ret. Qed.
Lemma keeps_fault {A} : keeps R (@fault A).
Proof. by intros ???. Qed.
Lemma keeps_exit {A} : keeps R (@exit A).
Proof. by intros ???. Qed.
Lemma keeps_assert P `{!Decision P} : keeps R (assert P).
Proof. unfold assert. case_decide; [apply keeps_ret|apply keeps_fault]. Qed.
Lemma keeps_from {A} (x : option A) : keeps R (from x).
Proof. destruct x; [apply keeps_ret|apply keeps_fault]. Qed.
Lemma keeps_get_srv : keeps R get_srv.
Proof. by intros w a w' [= _ <-]. Qed.
Lemma keeps_get_net : keeps R get_net.
Proof. by intros w a w' [= _ <-]. Qed.
Lemma keeps_get_buf h : keeps R (get_buf h).
Proof. by intros w a w' [= _ <-]. Qed.
Lemma keeps_get_nrs h : keeps R (get_nrs h).
Proof. by intros w a w' [= _ <-]. Qed.
Lemma keeps_get_clusters : keeps R get_clusters.
Proof. by intros w a w' [= _ <-]. Qed.
Lemma keeps_get_fds : keeps R get_fds.
Proof. by intros w a w' [= _ <-]. Qed.

Lemma keeps_iter {A} (f : A -> M unit) l : (forall x, keeps R (f x)) -> keeps R (iter f l).
Proof.
  intros Hf. induction l as [|x l IH]; cbn; [apply keeps_ret|].
  apply keeps_bind; [apply Hf|done].
Qed.

End keeps.

(** Composing runs. *)
Lemma bind_run {A B} (m : M A) (f : A -> M B) w a w1 :
  m w = Ret a w1 -> (m ≫= f) w = f a w1.
Proof. unfold mbind, M_bind. by intros ->. Qed.

(** Inverting a run. *)
Lemma bind_Ret {A B} (m : M A) (f : A -> M B) w b w' :
  (m ≫= f) w = Ret b w' -> exists a w1, m w = Ret a w1 /\ f a w1 = Ret b w'.
Proof. unfold mbind, M_bind. destruct (m w) as [a w1| |]; try done. eauto. Qed.

Lemma assert_Ret P `{!Decision P} w a w' : assert P w = Ret a w' -> P /\ w' = w.
Proof. unfold assert. case_decide; [|done]. by intros [= _ <-]. Qed.

Lemma from_Ret {A} (x : option A) w a w' : from x w = Ret a w' -> x = Some a /\ w' = w.
Proof. destruct x; [|done]. by intros [= -> <-]. Qed.

Create HintDb server.
#[export] Hint Resolve keeps_ret keeps_skip keeps_fault keeps_exit keeps_assert keeps_from keeps_get_srv
  keeps_get_net keeps_get_buf keeps_get_nrs keeps_get_clusters keeps_get_fds : server.

Ltac head_of t := match t with ?f _ => head_of f | _ => t end.

(** Walks through a handler: its binds and branches, the primitives and handlers
    with a known lemma, and the definitions of the others. *)
Ltac walk :=
  repeat first
    [ progress intros
    | progress cbv zeta
    | solve [eauto with server typeclass_instances]
    | apply keeps_bind; [apply _| |]
    | apply keeps_iter; [apply _|]
    | match goal with |- keeps _ (match ?x with _ => _ end) => destruct x end
    | match goal with |- keeps _ ?m => let f := head_of m in unfold f end ].

(** ** Handlers that leave term and role alone *)

Definition quiet (w w' : world) : Prop :=
  s_term (srv w') = s_term (srv w) /\ s_role (srv w') = s_role (srv w) /\
  s_id (srv w') = s_id (srv w).

#[global] Instance quiet_preorder : PreOrder quiet.
Proof. split; [done|]. intros w1 w2 w3 (? & ? & ?) (? & ? & ?). repeat split; congruence. Qed.

(** A computation that does not touch the [struct server] at all. *)
Definition srv_same (w w' : world) : Prop := srv w' = srv w.
#[global] Instance srv_same_preorder : PreOrder srv_same.
Proof. split; [done|]. unfold srv_same. intros w1 w2 w3; congruence. Qed.

Lemma keeps_mono {A} (R R' : world -> world -> Prop) (m : M A) :
  (forall w w', R w w' -> R' w w') -> keeps R m -> keeps R' m.
Proof. intros HR Hm w a w' E. apply HR. by eapply Hm. Qed.

Lemma srv_quiet {A} (m : M A) : keeps srv_same m -> keeps quiet m.
Proof. apply keeps_mono. unfold srv_same, quiet. by intros w w' ->. Qed.

Lemma same_put_net r : keeps srv_same (put_net r).
Proof. by intros w a w' [= _ <-]. Qed.
Lemma same_mod_buf h f : keeps srv_same (mod_buf h f).
Proof. by intros w a w' [= _ <-]. Qed.
Lemma same_put_nrs h x : keeps srv_same (put_nrs h x).
Proof. by intros w a w' [= _ <-]. Qed.
Lemma same_put_clusters x : keeps srv_same (put_clusters x).
Proof. by intros w a w' [= _ <-]. Qed.
Lemma same_put_fds x y : keeps srv_same (put_fds x y).
Proof. by intros w a w' [= _ <-]. Qed.
Lemma same_emit e : keeps srv_same (emit e).
Proof. by intros w a w' [= _ <-]. Qed.
Lemma same_pop : keeps srv_same pop.
Proof. intros w a w'. unfold pop. by destruct (input w) as [|x l]; intros [= _ <-]. Qed.
Lemma same_read_all : keeps srv_same sys_read_all.
Proof. intros w a w'. unfold sys_read_all. by destruct (authority_read _ _); intros [= _ <-]. Qed.
#[export] Hint Resolve same_put_net same_mod_buf same_put_nrs same_put_clusters same_put_fds same_emit
  same_pop same_read_all : server.


Lemma quiet_mod_srv f :
  (forall s, s_term (f s) = s_term s /\ s_role (f s) = s_role s /\ s_id (f s) = s_id s) -> keeps quiet (mod_srv f).
Proof. intros Hf w a w' [= _ <-]. apply Hf. Qed.

#[export] Hint Extern 2 (keeps quiet _) => (apply srv_quiet; solve [eauto with server nocore]) : server.
#[export] Hint Extern 1 (keeps quiet (mod_srv _)) => (apply quiet_mod_srv; done) : server.


(** Splits the first computation off a run [E]. *)
Ltac unbind E :=
  let a := fresh "a" in let w := fresh "w" in let E1 := fresh "E" in
  apply bind_Ret in E as (a & w & E1 & E);
  match type of E1 with
  | get_srv _ = _ => injection E1 as <- <-
  | get_net _ = _ => injection E1 as <- <-
  | get_buf _ _ = _ => injection E1 as <- <-
  | mod_srv _ _ = _ => injection E1 as <- <-
  | mret _ _ = _ => injection E1 as <- <-
  | put_net _ _ = _ => injection E1 as <- <-
  | mod_buf _ _ _ = _ => injection E1 as <- <-
  | skip _ = _ => injection E1 as <- <-
  | reset_timer _ = _ => injection E1 as <- <-
  | assert _ _ = _ => apply assert_Ret in E1 as [? ->]
  | from _ _ = _ => apply from_Ret in E1 as [? ->]
  | _ => idtac
  end.

(** What a run of a quiet handler leaves alone. *)
Ltac quietly E :=
  let H := fresh "Hq" in
  match type of E with
  | ?m ?w = Ret _ ?w' => assert (quiet w w') as H by (refine ((_ : keeps quiet m) w _ w' E); walk)
  end.

(** ** Changing the role *)

Lemma reset_follower_run w a w' :
  reset_follower w = Ret a w' -> w' = set_srv w (set_role (srv w) (FOLLOWER 0 0)).
Proof. unfold reset_follower. intros E. do 2 unbind E. by injection E as _ <-. Qed.

Lemma convert_to_follower_run w a w' :
  convert_to_follower w = Ret a w' ->
  is_follower (srv w) = false /\ s_term (srv w') = s_term (srv w) /\
  s_role (srv w') = FOLLOWER 0 0.
Proof.
  unfold convert_to_follower. intros E. do 4 unbind E. apply reset_follower_run in E0 as ->.
  unbind E. unfold server_replace_cluster in E. do 2 unbind E. by injection E as _ <-.
Qed.

Lemma server_increase_term_run t w a w' :
  server_increase_term t w = Ret a w' ->
  s_term (srv w) < t /\ s_term (srv w') = t /\ s_role (srv w') = FOLLOWER 0 0.
Proof.
  unfold server_increase_term. intros E. do 3 unbind E.
  destruct (is_follower (srv w)).
  - apply reset_follower_run in E as ->. done.
  - apply convert_to_follower_run in E as (_ & Ht & Hr). done.
Qed.

(** ** What a server has committed itself to in its term *)

(** A follower that knows a leader grants no vote; a candidate or leader has
    voted for itself. *)
Inductive stance := Open | Voted (candidate : Z) | Closed.

Definition stance_of (s : server) : stance :=
  match s_role s with
  | FOLLOWER voted_for leader =>
      if leader =? 0 then if voted_for =? 0 then Open else Voted voted_for else Closed
  | _ => Voted (s_id s)
  end.

Definition stance_le (a b : stance) : Prop := a = Open \/ b = Closed \/ a = b.

#[global] Instance stance_le_preorder : PreOrder stance_le.
Proof.
  split; [by right; right|]. unfold stance_le. intros a b c Hab Hbc.
  destruct Hab as [->|[-> | ->]]; [by left|destruct Hbc as [?|[-> | <-]]; [done|..]; by right; left|done].
Qed.

(** Terms grow, and within a term a commitment is kept. *)
Definition progress_from (w w' : world) : Prop :=
  s_term (srv w) < s_term (srv w') \/
  s_term (srv w) = s_term (srv w') /\ stance_le (stance_of (srv w)) (stance_of (srv w')).

#[global] Instance progress_preorder : PreOrder progress_from.
Proof.
  split.
  - intros w. right. done.
  - unfold progress_from. intros w1 w2 w3 [?|[? H1]] [?|[? H2]]; [left; lia..|].
    right. split; [lia|]. by etrans.
Qed.

(** What else a handler can do: a leader gives up, a cluster is founded, or [N]:
    an entry whose sender calls itself machine 0. *)
Definition gave_up (w w' : world) : Prop :=
  is_leader (srv w) = true /\ s_term (srv w') = s_term (srv w) /\
  s_role (srv w') = FOLLOWER 0 0.
Definition founded (w' : world) : Prop :=
  s_term (srv w') = 1 /\ s_role (srv w') = LEADER 0 /\ s_id (srv w') = 1.
Definition regular (N : Prop) (w w' : world) : Prop :=
  progress_from w w' \/ gave_up w w' \/ N \/ founded w'.

Lemma quiet_progress w w' : quiet w w' -> progress_from w w'.
Proof.
  intros (Ht & Hr & Hi). right. split; [done|]. unfold stance_of. rewrite Hr, Hi. reflexivity.
Qed.

Lemma quiet_regular N w w' : quiet w w' -> regular N w w'.
Proof. left. by apply quiet_progress. Qed.

Lemma regular_after N w w1 w' : quiet w w1 -> regular N w1 w' -> regular N w w'.
Proof.
  intros Hq [Hp|[Hg|Hx]].
  - left. etrans; [by apply quiet_progress|done].
  - right. left. destruct Hq as (Ht & Hr & Hi), Hg as (Hl & Ht' & Hr').
    unfold gave_up, is_leader in *. rewrite Hr in Hl. split; [done|]. split; [congruence|done].
  - by right; right.
Qed.

(** ** The handlers that change the role *)

Lemma recv_log_regular h w a w' :
  state_recv_log_in h w = Ret a w' ->
  regular (al_leader_id (get_append_log_req (bufs w h)) = 0) w w'.
Proof.
  intros E.
  unfold state_recv_log_in in E. do 3 unbind E. quietly E0. quietly E1.
  destruct a1; [|injection E as _ <-; apply quiet_regular; by etrans].
  unbind E. destruct (Z.ltb_spec (al_term (get_append_log_req (bufs w h))) (s_term (srv w1))) as [Hlt|Hge].
  { quietly E. apply quiet_regular. by do 2 (etrans; [done|]). }
  do 2 unbind E. quietly E2. quietly E3.
  assert (quiet w w3) as Hq3 by (by repeat (etrans; [done|])).
  apply (regular_after _ w w3 w' Hq3). clear Hq3.
  unbind E. assert (s_term (srv w3) <= s_term (srv w4)) as Ht.
  { destruct (_ <? _); [apply server_increase_term_run in E4 as (? & ? & _); destruct Hq1, Hq2; lia|].
    destruct (negb _); [apply convert_to_follower_run in E4 as (_ & ? & _); lia|].
    injection E4 as _ <-. done. }
  unbind E. destruct (s_role (srv w4)) as [| |v l] eqn:Hr; try done. do 3 unbind E.
  quietly E. destruct Hq3 as (Ht' & Hr' & _). cbn in Ht', Hr'.
  destruct (decide (al_leader_id (get_append_log_req (bufs w h)) = 0)) as [H0|H0].
  { by right; right; left. }
  left. unfold progress_from, stance_of. rewrite Ht', Hr'.
  change (get 24 4 (bufs w h) <> 0) in H0.
  rewrite (proj2 (Z.eqb_neq _ _) H0). destruct (decide (s_term (srv w3) < s_term (srv w4))) as [|Hn].
  - by left.
  - right. split; [lia|]. by right; left.
Qed.

Lemma request_vote_in_progress h w a w' :
  state_request_vote_in h w = Ret a w' -> progress_from w w'.
Proof.
  unfold state_request_vote_in. intros E. unbind E. quietly E0. apply quiet_progress in Hq.
  destruct a0; [|by injection E as _ <-].
  do 3 unbind E. quietly E1. apply quiet_progress in Hq0.
  etrans; [apply Hq|]. etrans; [apply Hq0|]. clear Hq Hq0.
  destruct (_ <? _).
  { apply server_increase_term_run in E as (? & ? & _). left. lia. }
  destruct (s_role (srv w1)) as [|old new|] eqn:Hr; try by injection E as _ <-.
  destruct (_ && _); [|by injection E as _ <-].
  do 3 unbind E. quietly E2. quietly E3.
  assert (forall w2, s_term (srv w2) = s_term (srv w1) -> s_id (srv w2) = s_id (srv w1) ->
    is_follower (srv w2) = false -> progress_from w1 w2) as Hgo.
  { intros w4 Ht Hi Hf. right. split; [done|]. right. right. unfold stance_of, is_follower in *.
    rewrite Hr, Hi. by destruct (s_role (srv w4)). }
  destruct Hq as (Ht & Hr' & Hi), Hq0 as (Ht' & Hr'' & Hi').
  destruct (_ && _).
  - unfold win_election, convert_to_leader in E. do 4 unbind E. quietly E4.
    unbind E. quietly E5. do 2 unbind E. injection E as _ <-.
    destruct Hq as (?&Hra&?), Hq0 as (?&Hrb&?). cbn in *. unfold is_follower in *.
    apply Hgo; cbn; [congruence..|]. unfold is_follower. cbn. by rewrite Hrb, Hra.
  - injection E as _ <-. apply Hgo; cbn; [congruence..|done].
Qed.

Lemma quiet_in N w a w' (m : M unit) : keeps quiet m -> m w = Ret a w' -> regular N w w'.
Proof. intros Hm E. apply quiet_regular. by eapply Hm. Qed.

Lemma append_entry_in_regular N h w a w' :
  state_append_entry_in h w = Ret a w' -> regular N w w'.
Proof.
  unfold state_append_entry_in. intros E. do 2 unbind E. quietly E0. quietly E1.
  assert (quiet w w1) as Hq1 by (by etrans). apply (regular_after N w w1 w' Hq1).
  clear Hq Hq0 Hq1 E0 E1.
  destruct a1; [|injection E as _ <-; by apply quiet_regular].
  do 2 unbind E. quietly E0. apply (regular_after N w1 w2 w' Hq). clear Hq.
  unbind E. destruct (_ <? _).
  { apply server_increase_term_run in E as (? & ? & _). do 2 left. lia. }
  unbind E. do 4 unbind E. quietly E1. quietly E2. quietly E3. quietly E4.
  assert (quiet w2 w6) as Hq3 by (by repeat (etrans; [done|])).
  destruct a6; [eapply quiet_in in E; [by apply (regular_after N w2 w6)|walk]|].
  apply convert_to_follower_run in E as (Hf & Ht & Hr).
  right. left. destruct Hq3 as (Ht3 & Hr3 & _). unfold gave_up. intuition congruence.
Qed.

Lemma init_cluster_in_regular N h w a w' :
  state_init_cluster_in h w = Ret a w' -> regular N w w'.
Proof.
  unfold state_init_cluster_in. intros E. do 3 unbind E. quietly E0. quietly E1.
  assert (quiet w w1) as Hq1 by (by etrans). apply (regular_after N w w1 w' Hq1).
  clear Hq Hq0 Hq1 E0 E1.
  destruct a1; [|injection E as _ <-; by apply quiet_regular].
  do 2 unbind E. quietly E0. apply (regular_after N w1 w2 w' Hq). clear Hq.
  assert (quiet w2 w3 \/ founded w3) as Hf.
  { destruct (_ =? 0); [|injection E1 as _ <-; by left].
    unbind E1. quietly E2. destruct (log_complete_init _) as [complete l].
    unbind E1. quietly E3. destruct complete; [|injection E1 as _ <-; left; by etrans].
    do 4 unbind E1. quietly E4.
    destruct (bool_decide _); [done|]. do 4 unbind E1. quietly E5. do 4 unbind E1. quietly E1.
    right. destruct Hq2 as (Ht2 & _ & Hi2), Hq3 as (Ht & Hr & Hi). unfold founded. cbn in *.
    rewrite Ht, Ht2, Hi, Hi2. done. }
  quietly E. destruct Hf as [Hf|(Ht & Hr & Hi)].
  - apply quiet_regular. by etrans.
  - right; right; right. destruct Hq as (Ht' & Hr' & Hi'). unfold founded. intuition congruence.
Qed.

(** An election starts in the next term. *)
Lemma campaign_run w a w' :
  campaign w = Ret a w' ->
  is_candidate (srv w) = true /\ s_term (srv w') = u64 (s_term (srv w) + 1) /\
  is_candidate (srv w') = true /\ s_id (srv w') = s_id (srv w).
Proof.
  unfold campaign. intros E. do 3 unbind E. quietly E0. do 3 unbind E. quietly E1. quietly E.
  destruct Hq as (Ht & Hr & Hi), Hq0 as (Ht1 & Hr1 & Hi1), Hq1 as (Ht' & Hr' & Hi'). cbn in *.
  unfold is_candidate in *. rewrite Hr', Ht', Hi', Hr1, Ht1, Hi1. intuition congruence.
Qed.

Lemma start_election_run w a w' :
  start_election w = Ret a w' -> quiet w w' \/ s_term (srv w') = u64 (s_term (srv w) + 1).
Proof.
  unfold start_election, convert_to_candidate. intros E. unbind E.
  destruct (is_follower (srv w)).
  - do 2 unbind E. quietly E0. quietly E1. destruct (bool_decide _).
    { injection E as _ <-. left. by etrans. }
    do 4 unbind E. apply campaign_run in E as (_ & Ht & _). right.
    destruct Hq as (Hq & _), Hq0 as (Hq0 & _). cbn in *. congruence.
  - apply campaign_run in E as (_ & Ht & _). by right.
Qed.

Lemma timer_regular N w a w' :
  s_term (srv w) < 2 ^ 64 - 1 -> process_timer_event w = Ret a w' -> regular N w w'.
Proof.
  intros Hmax. unfold process_timer_event. intros E. do 2 unbind E.
  match type of E with _ ?x = _ => remember x as w1 eqn:Hw1 end.
  assert (quiet w w1) as Hq1 by (by subst w1). apply (regular_after N w w1 w' Hq1).
  destruct (is_leader _) eqn:Hl.
  - unbind E. quietly E0. destruct a0; [eapply quiet_in in E; [by apply (regular_after N w1 w0)|walk]|].
    apply convert_to_follower_run in E as (Hf & Ht & Hr). right. left.
    destruct Hq as (Ht' & Hr' & _). unfold gave_up. subst w1. intuition congruence.
  - destruct (election_timeout _); [|eapply quiet_in; [|done]; walk].
    apply start_election_run in E as [Hq|Ht]; [by apply quiet_regular|].
    do 2 left. rewrite Ht. destruct Hq1 as (-> & _).
    destruct (Z.lt_ge_cases (s_term (srv w)) (-1)).
    + pose proof (wrap_range 64 (s_term (srv w) + 1)). lia.
    + rewrite wrap_small; lia.
Qed.

(** ** Answering a request to vote *)

Lemma vote_in_progress h w a w' : state_vote_in h w = Ret a w' -> progress_from w w'.
Proof.
  unfold state_vote_in. intros E. unbind E.
  destruct (hears_leader (srv w)) eqn:Hh; [quietly E; by apply quiet_progress|].
  do 2 unbind E. remember (get_request_vote_req (bufs w h)) as req.
  assert (s_term (srv w) < s_term (srv w0) \/ w0 = w) as Hw.
  { destruct (_ <? _).
    - apply server_increase_term_run in E0 as (? & -> & _). by left.
    - injection E0 as _ <-. by right. }
  do 2 unbind E. quietly E1.
  destruct Hw as [Hlt| ->].
  - left. enough (s_term (srv w') = s_term (srv w0)) by lia.
    destruct (s_role (srv w0)); try (quietly E; destruct Hq, Hq0; congruence).
    destruct (_ && _); [|quietly E; destruct Hq, Hq0; congruence].
    do 3 unbind E. quietly E. destruct Hq, Hq0. cbn in *. congruence.
  - clear E0.
    assert (forall m : M unit, keeps quiet m -> m w1 = Ret a w' -> progress_from w w') as Hgo.
    { intros m Hm Em. apply quiet_progress. etrans; [done|]. by eapply Hm. }
    destruct (s_role (srv w)) as [| |v l] eqn:Hr; [eapply Hgo, E; walk..|].
    destruct (_ && _) eqn:Hc; [|eapply Hgo, E; walk].
    do 3 unbind E. quietly E. destruct Hq as (Ht & _), Hq0 as (Ht' & Hr' & _). cbn in Ht', Hr'.
    subst l.
    right. split; [congruence|]. unfold stance_of. rewrite Hr, Hr'. cbn.
    destruct (Z.eqb_spec v 0); [by left|]. right. right.
    rewrite !andb_true_iff in Hc. destruct Hc as [[_ ->%Z.eqb_eq] _]. subst req.
    by rewrite (proj2 (Z.eqb_neq _ _) n).
Qed.

(** ** Every event *)

(** What the [read] of [state_in_cmd] leaves in the buffer [b] when [unio] bytes
    are still to come. *)
Definition request (unio : Z) (inp : list answer) (b : list Z) : list Z :=
  match inp with
  | Got bs :: _ => fill (Z.to_nat (u64 (RAFT_CONN_BUFFER_SIZE - unio))) bs b
  | _ => b
  end.

(** A request with a log whose sender calls itself machine 0. *)
Definition nobodys_log (b : list Z) : Prop :=
  get 0 1 b = RAFT_CMD_APPEND_LOG /\ al_leader_id (get_append_log_req b) = 0.

Definition in_server_handshake (st : Z) : Prop :=
  st = RAFT_CONN_STATE_TLS_SERVER_HANDSHAKE_IN \/ st = RAFT_CONN_STATE_TLS_SERVER_HANDSHAKE_OUT.

(** The connection [h] brings such a log: in a request, in its last piece, or in
    a request right behind the handshake. *)
Definition from_nobody (h : Z) (w : world) : Prop :=
  exists c, conns (net w) !! h = Some c /\
    (state c = RAFT_CONN_STATE_IN_CMD /\ nobodys_log (request (unio c) (input w) (bufs w h)) \/
     state c = RAFT_CONN_STATE_RECV_LOG_IN /\
       al_leader_id (get_append_log_req (bufs w h)) = 0 \/
     in_server_handshake (state c) /\ exists ktls rest,
       input w = Handshake (GNUTLS_E_SUCCESS ktls) :: rest /\
       nobodys_log (request RAFT_CONN_BUFFER_SIZE rest (bufs w h))).

Lemma regular_mono (N N' : Prop) w w' : (N -> N') -> regular N w w' -> regular N' w w'.
Proof. unfold regular. tauto. Qed.

Lemma init_in_regular N h w a w' : change_to_init_cluster_in h w = Ret a w' -> regular N w w'.
Proof.
  unfold change_to_init_cluster_in. intros E. unbind E.
  destruct (machines_size_valid _); [|eapply quiet_in, E; walk].
  unbind E. quietly E0. apply (regular_after N w w0 w' Hq).
  destruct a0; [|eapply quiet_in, E; walk].
  do 2 unbind E. quietly E1. quietly E2. apply (init_cluster_in_regular N) in E.
  apply (regular_after N w0 w1 w' Hq0). by apply (regular_after N w1 w2 w').
Qed.

(** A computation that does not touch the buffers. *)
Definition bufs_same (w w' : world) : Prop := bufs w' = bufs w.
#[global] Instance bufs_same_preorder : PreOrder bufs_same.
Proof. split; [done|]. unfold bufs_same. intros w1 w2 w3; congruence. Qed.

Lemma bufs_put_net r : keeps bufs_same (put_net r).
Proof. by intros w a w' [= _ <-]. Qed.
Lemma bufs_pop : keeps bufs_same pop.
Proof. intros w a w'. unfold pop. by destruct (input w) as [|x l]; intros [= _ <-]. Qed.
#[export] Hint Resolve bufs_put_net bufs_pop : server.

Lemma get_conn_run h w c w' : get_conn h w = Ret c w' -> conns (net w) !! h = Some c /\ w' = w.
Proof. unfold get_conn. intros E. unbind E. by apply from_Ret in E. Qed.

Lemma recv_log_in_regular h w a w' :
  change_to_recv_log_in h w = Ret a w' ->
  regular (al_leader_id (get_append_log_req (bufs w h)) = 0) w w'.
Proof.
  intros E. unfold change_to_recv_log_in in E. do 2 unbind E. quietly E0.
  assert (bufs_same w w0) as Hb by (refine ((_ : keeps bufs_same (log_alloc _)) w _ w0 E0); walk).
  apply (regular_after _ w w0 w' Hq). destruct a0; [|eapply quiet_in, E; walk].
  unbind E. quietly E1. apply (regular_after _ w0 w1 w' Hq0).
  assert (bufs_same w0 w1) as Hb' by (refine ((_ : keeps bufs_same (borrow_log _ _ _ _)) w0 _ w1 E1); walk).
  rewrite <-Hb, <-Hb'. by eapply recv_log_regular.
Qed.

Lemma raft_conn_read_pos r i h n wb r' : raft_conn_read r i h n wb = Some (true, r') -> 0 < n.
Proof.
  unfold raft_conn_read, conn_check_read. intros (c & Hc & E)%bind_Some.
  apply bind_Some in E as (? & _ & E). rewrite Hc in E. cbn in E.
  case_bool_decide; [done|]. destruct (_ || _); [|done]. by apply bind_Some in E as (? & _ & E).
Qed.

Lemma read_cmd_run h w readed w' :
  read_cmd h w = Ret (Some readed) w' ->
  exists c, conns (net w) !! h = Some c /\ bufs w' h = request (unio c) (input w) (bufs w h).
Proof.
  unfold read_cmd. intros E. unbind E. apply get_conn_run in E0 as [Hc ->].
  exists a. split; [done|]. unbind E. destruct a0 as [[n wb] bs]. do 2 unbind E.
  destruct a0 as [ok r]. unbind E. destruct ok; [|done].
  apply raft_conn_read_pos in H. do 2 unbind E. injection E as _ <-.
  apply get_conn_run in E1 as [_ ->]. cbn. rewrite Z.eqb_refl.
  unfold sys_read in E0. unbind E0. injection E0 as Ha <-. unfold request, pop in *.
  destruct (input w) as [|x rest]; injection E as <- <-; [injection Ha as <-; lia|].
  destruct x; injection Ha as <- _ <-; try lia. done.
Qed.

(** Splits the tests an event goes through. *)
Ltac branches E :=
  repeat match type of E with
  | (if ?x =? ?y then _ else _) _ = _ => destruct (Z.eqb_spec x y)
  | (if ?b then _ else _) _ = _ => destruct b
  end.

Lemma in_cmd_regular h c w a w' :
  conns (net w) !! h = Some c -> state_in_cmd h w = Ret a w' ->
  regular (nobodys_log (request (unio c) (input w) (bufs w h))) w w'.
Proof.
  intros Hc E. unfold state_in_cmd in E. unbind E. quietly E0.
  apply (regular_after _ w w0 w' Hq).
  destruct a0 as [readed|]; [|eapply quiet_in, E; walk].
  apply read_cmd_run in E0 as (c' & Hc' & Hb). rewrite Hc in Hc'. injection Hc' as <-.
  do 2 unbind E. apply get_conn_run in E0 as [_ ->].
  branches E;
  first [ discriminate E | by eapply init_in_regular
        | left; by eapply vote_in_progress | eapply quiet_in, E; solve [walk] | idtac ].
  apply recv_log_in_regular in E. revert E. apply regular_mono. intros H0. by rewrite <-Hb.
Qed.

(** What a run of [handshake] tells. *)
Lemma conn_handshake_run h w x w' :
  handshake h w = Ret x w' ->
  h ∈ sessions (net w) /\ srv w' = srv w /\ net w' = net w /\ bufs w' = bufs w /\
  clusters w' = clusters w /\
  (forall ktls, x = GNUTLS_E_SUCCESS ktls -> input w = Handshake x :: input w').
Proof.
  unfold handshake. intros E. do 2 unbind E. apply from_Ret in E as [E ->].
  apply tls_handshake_Some in E as (-> & Hs & _). unfold pop in E0.
  destruct (input w) as [|y rest] eqn:Ei; injection E0 as <- <-; cbn in *; split_and!; try done.
  by intros ktls; destruct y; try done; intros ->.
Qed.

Lemma server_handshake_regular h c w a w' :
  conns (net w) !! h = Some c -> state_tls_server_handshake h w = Ret a w' ->
  regular (exists ktls rest, input w = Handshake (GNUTLS_E_SUCCESS ktls) :: rest /\
             nobodys_log (request RAFT_CONN_BUFFER_SIZE rest (bufs w h))) w w'.
Proof.
  intros Hc E. unfold state_tls_server_handshake in E. unbind E.
  apply conn_handshake_run in E0 as (Hs & Es & En & Eb & Ec & Hin).
  assert (quiet w w0) as Hq by (unfold quiet; by rewrite Es).
  apply (regular_after _ w w0 w' Hq). destruct a0 as [ktls|wr|]; [|eapply quiet_in, E; walk..].
  do 2 unbind E. quietly E0. quietly E1. apply (regular_after _ w0 w1 w' Hq0).
  apply (regular_after _ w1 w2 w' Hq1). unfold deinit, lift, session_deinit in E0.
  do 2 unbind E0. apply bind_Some in H as (live & _ & [= <-]). injection E0 as _ <-.
  unfold change_to_in_cmd, set_conn_io, lift, raft_conn_set_io in E1. do 2 unbind E1.
  cbn in H. rewrite En, Hc in H. injection H as <-. injection E1 as _ <-.
  eapply in_cmd_regular in E; [|apply lookup_insert_eq]. revert E. apply regular_mono.
  cbn. rewrite Eb. intros Hn. exists ktls, (input w0). split; [by eapply Hin|done].
Qed.

Lemma process_regular h w a w' : process h w = Ret a w' -> regular (from_nobody h w) w w'.
Proof.
  intros E. unfold process in E. unbind E. apply get_conn_run in E0 as [Hc ->].
  destruct (_ =? _); [eapply quiet_in, E; walk|].
  destruct (_ || _); [eapply quiet_in, E; walk|].
  destruct (_ || _) eqn:Hst.
  { eapply server_handshake_regular in E; [|done]. revert E. apply regular_mono. intros Hn.
    exists a0. split; [done|]. right. right. split; [|done].
    by apply orb_true_iff in Hst as [?%Z.eqb_eq|?%Z.eqb_eq]; [left|right]. }
  branches E;
  first [ discriminate E | by eapply append_entry_in_regular | by eapply init_cluster_in_regular
        | left; by eapply request_vote_in_progress | eapply quiet_in, E; solve [walk] | idtac ].
  - eapply in_cmd_regular in E; [|done]. revert E. apply regular_mono. exists a0. auto.
  - apply recv_log_regular in E. revert E. apply regular_mono. exists a0. auto.
Qed.

Lemma quiet_accept_loop n b : keeps quiet (accept_loop n b).
Proof. induction n as [|n IH]; cbn; walk. Qed.
#[export] Hint Resolve quiet_accept_loop : server.

Lemma quiet_accept b : keeps quiet (_accept b).
Proof. intros w a w' E. by eapply quiet_accept_loop. Qed.
#[export] Hint Resolve quiet_accept : server.


Lemma conn_event_regular h ev w a w' :
  conn_event h ev w = Ret a w' -> regular (from_nobody h w) w w'.
Proof.
  intros E. unfold conn_event in E. unbind E. apply get_conn_run in E0 as [_ ->].
  destruct (bool_decide _); [eapply quiet_in, E; walk|].
  destruct (bool_decide _); [|eapply quiet_in, E; walk]. by eapply process_regular.
Qed.

(** The sender of the log an event brings calls itself machine 0. *)
Definition nobody (e : ready) (w : world) : Prop :=
  match e with Out_conn h _ | In_conn h _ => from_nobody h w | _ => False end.

Lemma dispatch_regular e w a w' :
  (e = Timer -> s_term (srv w) < 2 ^ 64 - 1) -> dispatch e w = Ret a w' -> regular (nobody e w) w w'.
Proof.
  intros Ht E. destruct e as [|adm|h ev|h ev]; unfold dispatch in E.
  - eapply timer_regular; [by apply Ht|done].
  - eapply quiet_in, E. walk.
  - do 2 unbind E. injection E0 as <- <-.
    cbv zeta in E. destruct (cluster_has_conn _ _); [|injection E as _ <-; by apply quiet_regular].
    by eapply conn_event_regular.
  - by eapply conn_event_regular.
Qed.

(** ** Runs *)

(** A step of the event loop: an event, or one of the actions that end a round. *)
Inductive server_step : option ready -> world -> world -> Prop :=
  | step_event e w w' : dispatch e w = Ret tt w' -> server_step (Some e) w w'
  | step_replicate w w' : replicate_entry w = Ret tt w' -> server_step None w w'
  | step_authority w w' :
      (r ← get_net; iter conn_free (authority r)) w = Ret tt w' -> server_step None w w'
  | step_stale w w' : free_stale_clusters w = Ret tt w' -> server_step None w w'.

Lemma replicate_progress w a w' : replicate_entry w = Ret a w' -> progress_from w w'.
Proof.
  unfold replicate_entry. intros E. unbind E.
  destruct (s_role (srv w)) as [round| |] eqn:Hr; try done.
  destruct (_ && _); [by injection E as _ <-|]. unbind E. quietly E0.
  etrans; [by apply quiet_progress|]. destruct Hq as (Ht & Hr' & Hi). rewrite Hr in Hr'.
  destruct (negb (replicate_entry_flag _)); [by injection E as _ <-|].
  do 2 unbind E. quietly E1. quietly E2.
  do 4 unbind E. quietly E. destruct Hq as (?&Hra&?), Hq0 as (?&Hrb&?), Hq1 as (?&Hrc&?). cbn in *.
  right. split; [congruence|]. right. right. unfold stance_of. rewrite Hrc, Hr'. congruence.
Qed.

(** The run of the event loop: any events, in any order. *)
Definition loop_step (w w' : world) : Prop := exists e, server_step e w w'.

(** The steps that can undo a vote: a leader gives up, a machine that has been in
    a term founds a cluster, a log arrives whose sender calls itself machine 0,
    or an election starts in the last term of 64 bits. *)
Definition lapse (e : option ready) (w w' : world) : Prop :=
  gave_up w w' \/ (founded w' /\ 1 <= s_term (srv w)) \/
  (exists x, e = Some x /\ nobody x w) \/ (e = Some Timer /\ 2 ^ 64 - 1 <= s_term (srv w)).

(** The run from [w] to [w'] has such a step. *)
Definition lapsed (w w' : world) : Prop := exists e w1 w2,
  rtc loop_step w w1 /\ server_step e w1 w2 /\ lapse e w1 w2 /\ rtc loop_step w2 w'.

Lemma step_progress e w w' : server_step e w w' -> progress_from w w' \/ lapse e w w'.
Proof.
  intros Hs. destruct Hs as [e w w' E|w w' E|w w' E|w w' E].
  - destruct (decide (2 ^ 64 - 1 <= s_term (srv w))) as [Hmax|Hmax].
    + destruct e as [|adm|h ev|h ev]; [by right; right; right; right|..];
        (edestruct dispatch_regular as [?|[?|[?|?]]]; [|exact E|..]; [done|by left|by right; left|..]);
        try (right; right; right; left; eauto; fail); right; right; left; (split; [done|lia]).
    + destruct (dispatch_regular e w tt w' ltac:(lia) E) as [?|[?|[?|Hf]]];
        [by left|by right; left|right; right; right; left; eauto|].
      destruct (Z.le_gt_cases 1 (s_term (srv w))); [by right; right; left|].
      left. left. destruct Hf. lia.
  - left. by eapply replicate_progress.
  - left. quietly E. by apply quiet_progress.
  - left. quietly E. by apply quiet_progress.
Qed.

Lemma run_progress w w' : rtc loop_step w w' -> progress_from w w' \/ lapsed w w'.
Proof.
  induction 1 as [w|w1 w2 w3 [e H12] H23 IH]; [by left|].
  destruct (step_progress e w1 w2 H12) as [Hp|Hl].
  - destruct IH as [IH|(x & wa & wb & Hr & Hx)]; [left; by etrans|].
    right. exists x, wa, wb. split; [|done]. eapply rtc_l; [by exists e|done].
  - right. exists e, w1, w2. by split.
Qed.

(** ** One vote per term *)

(** C2: over any run of the event loop, unless one of its steps is a lapse (a
    leader gives up, a machine that has been in a term founds a cluster, a log
    arrives from a sender that calls itself machine 0, or the 64-bit term
    overflows), the term of a machine never decreases, and if it has granted its
    vote of a term to one candidate then, at every later point of the run in the
    same term, it either has still voted for that candidate or has recognised a
    leader; in particular it never grants the vote of the term to another one,
    and it does not run for the leadership in that term unless it is the
    candidate. *)
Theorem one_vote_per_term w w' c
  (Hrun : rtc loop_step w w')
  (Hvote : s_role (srv w) = FOLLOWER c 0) (Hc : c <> 0) :
  lapsed w w' \/
  (s_term (srv w) <= s_term (srv w') /\
   (s_term (srv w') = s_term (srv w) ->
    match s_role (srv w') with
    | FOLLOWER c' 0 => c' = c
    | FOLLOWER _ _ => True
    | _ => s_id (srv w') = c
    end)).
Proof.
  apply run_progress in Hrun as [[Hlt|[Heq Hs]]|Hl]; [right; split; lia| |by left].
  right. split; [lia|]. intros _.
  unfold stance_of in Hs. rewrite Hvote in Hs. cbn in Hs. rewrite (proj2 (Z.eqb_neq _ _) Hc) in Hs.
  destruct (s_role (srv w')) as [| |v l]; [by destruct Hs as [?|[?|[= ->]]]..|].
  destruct l; [|done..]. cbn in Hs. destruct (Z.eqb_spec v 0); by destruct Hs as [?|[?|[= ->]]].
Qed.

(** ** The answer to a request to vote *)

(** The rule of RAFT's figure 2, with the restriction of its section 6: a
    server that hears from a leader does not vote. *)
Definition may_vote (s : server) (req : request_vote_req) (l : log) : bool :=
  negb (hears_leader s) &&
  log_at_least_up_to_date l (rv_log_index req) (rv_log_term req) &&
  (if s_term s <? rv_term req then true
   else (rv_term req =? s_term s) &&
     match s_role s with
     | FOLLOWER voted_for _ => (voted_for =? 0) || (voted_for =? rv_candidate_id req)
     | _ => false
     end).

(** The role after the request. *)
Definition voted_role (s : server) (req : request_vote_req) (l : log) : role :=
  if may_vote s req l then FOLLOWER (rv_candidate_id req) 0
  else if hears_leader s || (rv_term req <=? s_term s) then s_role s
  else FOLLOWER 0 0.

(** What [send] may answer when it is given [n] bytes. *)
Definition send_ok (n : Z) (w : world) : Prop :=
  match input w with Wrote k :: _ => 0 < k <= n | _ => True end.

Lemma sys_write_run n w :
  send_ok n w -> exists k wb w', sys_write w = Ret (k, wb) w' /\
    (0 < k <= n \/ k = -1) /\ srv w' = srv w /\ net w' = net w /\ bufs w' = bufs w.
Proof.
  unfold send_ok, sys_write, pop, mbind, M_bind, mret, M_ret. intros H.
  destruct (input w) as [|a l]; [by eexists _, _, _; split; [done|]; auto|].
  destruct a; eexists _, _, _; (split; [done|]); auto.
Qed.

(** Sending from the buffer of a connection without a log that is on no list. *)
Lemma full_write_run h c size w :
  conns (net w) !! h = Some c -> raft_conn_outgoing c = false -> conn_borrowed_log c = false ->
  RAFT_CONN_STATE_TLS_SERVER_DIVIDER <= state c <= RAFT_CONN_STATE_AUTHORITY_DIVIDER ->
  0 < unio c -> send_ok (unio c) w ->
  exists ok w', full_write_buffer h true size w = Ret ok w' /\ srv w' = srv w /\
    bufs w' = bufs w /\ (ok = true -> is_Some (conns (net w') !! h)).
Proof.
  intros Hc Ho Hb Hst Hu Hs. destruct (sys_write_run _ w Hs) as (k & wb & w1 & E & Hk & Es & En & Eb).
  unfold full_write_buffer, mbind, M_bind. rewrite E. cbn. unfold raft_conn_full_write_buffer.
  rewrite En, Hc. cbn. unfold conn_full_write, conn_write. rewrite Hc. cbn.
  rewrite option_guard_True by done. cbn. unfold conn_check_write. rewrite Hc. cbn.
  destruct Hk as [Hk| ->].
  - rewrite bool_decide_eq_true_2 by lia. rewrite option_guard_True by lia. cbn.
    rewrite lookup_insert_eq. cbn. unfold sent. rewrite bool_decide_eq_true_2 by lia. cbn.
    eexists _, _. split; [done|]. cbn. rewrite lookup_insert_eq. eauto.
  - rewrite bool_decide_eq_false_2 by lia. rewrite option_guard_True by done. cbn.
    destruct wb; cbn; [by eexists _, _; split_and!|].
    unfold raft_conn_free. rewrite Hc. cbn. rewrite option_guard_True by done. cbn.
    rewrite Hb, !(proj2 (Z.ltb_ge _ _)), andb_false_r by lia. cbn. by eexists _, _; split_and!.
Qed.

Lemma vote_out_run h c g w :
  conns (net w) !! h = Some c -> send_ok 16 w ->
  exists w', change_to_vote_out h g w = Ret tt w' /\ srv w' = srv w /\
    bufs w' h = put_request_vote_res {| rvr_term := s_term (srv w); rvr_granted := g |} (bufs w h).
Proof.
  intros Hc Hs. unfold change_to_vote_out, mbind, M_bind.
  cbv beta iota delta [get_srv mod_buf]. unfold set_conn_io, lift, mbind, M_bind.
  cbv beta iota delta [get_net]. cbn [net set_bufs]. unfold raft_conn_set_io. rewrite Hc.
  cbn [mbind option_bind from]. cbv beta iota delta [mret M_ret put_net].
  match goal with |- context [state_vote_out h ?x] => set (w1 := x) end.
  set (c1 := set_io c RAFT_CONN_STATE_VOTE_OUT 16) in *.
  destruct (full_write_run h c1 16 w1) as (ok & w2 & E & Es & Eb & Hok);
    [apply lookup_insert_eq|done|done|done|done|done|].
  unfold state_vote_out, mbind, M_bind. rewrite E.
  assert (srv w2 = srv w /\ bufs w2 h =
    put_request_vote_res {| rvr_term := s_term (srv w); rvr_granted := g |} (bufs w h)) as [Hsrv Hbuf].
  { rewrite Es, Eb. split; [done|]. unfold w1. cbn -[put_request_vote_res]. by rewrite Z.eqb_refl. }
  destruct ok; [|by eexists].
  destruct (Hok eq_refl) as [c2 Hc2]. unfold change_to_in_cmd, set_conn_io, lift, mbind, M_bind.
  cbv beta iota delta [get_net]. unfold raft_conn_set_io. rewrite Hc2. cbn -[put_request_vote_res].
  by eexists.
Qed.

Lemma increase_term_total t w :
  s_term (srv w) < t -> (is_follower (srv w) = false -> s_cluster (srv w) <> 0) ->
  exists w', server_increase_term t w = Ret tt w' /\ s_term (srv w') = t /\
    s_role (srv w') = FOLLOWER 0 0 /\ s_log (srv w') = s_log (srv w) /\
    net w' = net w /\ bufs w' = bufs w /\ input w' = input w.
Proof.
  intros Ht Hcl. unfold server_increase_term, mbind, M_bind. cbv beta iota delta [get_srv mod_srv].
  unfold assert. rewrite decide_True by done. cbv beta iota delta [mret M_ret].
  destruct (is_follower (srv w)) eqn:Hf.
  - unfold reset_follower, assert, mbind, M_bind. cbv beta iota delta [get_srv].
    cbn [srv set_srv]. change (is_follower (set_s_term (srv w) t)) with (is_follower (srv w)).
    rewrite decide_True by done. cbn. eexists. by split_and!.
  - unfold convert_to_follower, reset_follower, server_replace_cluster, assert, mbind, M_bind.
    cbv beta iota delta [get_srv mod_srv reset_timer mret M_ret]. cbn [srv set_srv].
    change (is_follower (set_s_term (srv w) t)) with (is_follower (srv w)).
    rewrite !decide_True by (done || by apply Hcl). eexists. by split_and!.
Qed.

(** The decision, once the term is settled. *)
Lemma vote_core h c l req w :
  conns (net w) !! h = Some c -> logs (net w) !! s_log (srv w) = Some l -> send_ok 16 w ->
  hears_leader (srv w) = false -> req = get_request_vote_req (bufs w h) ->
  rv_term req <= s_term (srv w) ->
  exists w', state_vote_in h w = Ret tt w' /\ s_term (srv w') = s_term (srv w) /\
    s_role (srv w') = voted_role (srv w) req l /\
    bufs w' h = put_request_vote_res
      {| rvr_term := s_term (srv w); rvr_granted := may_vote (srv w) req l |} (bufs w h).
Proof.
  intros Hc Hl Hs Hh Hreq Ht. unfold state_vote_in, mbind, M_bind. cbv beta iota delta [get_srv get_buf].
  rewrite Hh, <-Hreq. rewrite (proj2 (Z.ltb_ge (s_term (srv w)) (rv_term req))) by done.
  cbv beta iota delta [skip mret M_ret]. unfold my_log, get_log, mbind, M_bind.
  cbv beta iota delta [get_srv get_net]. rewrite Hl. cbv beta iota delta [from mret M_ret].
  unfold voted_role, may_vote.
  rewrite Hh, (proj2 (Z.ltb_ge (s_term (srv w)) (rv_term req))),
    (proj2 (Z.leb_le (rv_term req) (s_term (srv w)))) by done.
  cbn [negb andb orb]. unfold hears_leader in Hh.
  destruct (s_role (srv w)) as [|o n|v lead] eqn:Hr; [done| |].
  - rewrite !andb_false_r. destruct (vote_out_run h c false w Hc Hs) as (w' & -> & Es & Eb).
    exists w'. rewrite Es, Hr. by split_and!.
  - apply negb_false_iff, Z.eqb_eq in Hh as ->.
    replace (s_term (srv w) <=? rv_term req) with (rv_term req =? s_term (srv w))
      by (destruct (Z.eqb_spec (rv_term req) (s_term (srv w))), (Z.leb_spec (s_term (srv w)) (rv_term req)); lia).
    rewrite andb_comm. destruct (_ && (_ && _)).
    + unfold assert. rewrite decide_True by done. cbv beta iota delta [reset_timer mod_srv mret M_ret].
      match goal with |- context [change_to_vote_out h true ?x] => set (w1 := x) end.
      destruct (vote_out_run h c true w1) as (w' & -> & Es & Eb); [done..|].
      exists w'. by rewrite Es.
    + destruct (vote_out_run h c false w Hc Hs) as (w' & -> & Es & Eb).
      exists w'. rewrite Es, Hr. by split_and!.
Qed.

Lemma vote_in_increase h w w1 :
  hears_leader (srv w) = false -> s_term (srv w) < rv_term (get_request_vote_req (bufs w h)) ->
  server_increase_term (rv_term (get_request_vote_req (bufs w h))) w = Ret tt w1 ->
  bufs w1 = bufs w -> state_vote_in h w = state_vote_in h w1.
Proof.
  intros Hh Ht E Eb. pose proof (server_increase_term_run _ _ _ _ E) as (_ & Ht1 & Hr1).
  unfold state_vote_in, mbind, M_bind. cbv beta iota delta [get_srv get_buf].
  assert (hears_leader (srv w1) = false) as Hh1 by (unfold hears_leader; by rewrite Hr1).
  assert (s_term (srv w1) <? rv_term (get_request_vote_req (bufs w h)) = false) as Ht2
    by (rewrite Ht1; apply Z.ltb_irrefl).
  by rewrite Hh, (proj2 (Z.ltb_lt _ _) Ht), E, Hh1, Eb, Ht2.
Qed.

(** C20: the handler of a request to vote always returns, and does what RAFT
    prescribes: the server's term becomes the larger one of its own and the
    candidate's (unless it hears from a leader); it votes exactly if it hears
    from no leader, the candidate's log is at least as up to date as its own,
    and the request is of a later term, or of its term while it is a follower
    that has not voted for anyone else; a vote is remembered; and the reply
    carries the resulting term and the decision. *)
Theorem state_vote_in_correct h w c l
  (Hc : conns (net w) !! h = Some c)
  (Hl : logs (net w) !! s_log (srv w) = Some l)
  (Hcl : is_follower (srv w) = false -> s_cluster (srv w) <> 0)
  (Hs : send_ok 16 w) :
  let req := get_request_vote_req (bufs w h) in
  exists w', state_vote_in h w = Ret tt w' /\
    s_term (srv w') = (if hears_leader (srv w) then s_term (srv w)
                       else Z.max (s_term (srv w)) (rv_term req)) /\
    s_role (srv w') = voted_role (srv w) req l /\
    bufs w' h = put_request_vote_res
      {| rvr_term := s_term (srv w'); rvr_granted := may_vote (srv w) req l |} (bufs w h).
Proof.
  intros req. destruct (hears_leader (srv w)) eqn:Hh.
  - unfold state_vote_in, mbind, M_bind. cbv beta iota delta [get_srv]. rewrite Hh.
    unfold voted_role, may_vote. rewrite Hh. cbn [negb andb orb].
    destruct (vote_out_run h c false w Hc Hs) as (w' & -> & Es & Eb). exists w'.
    rewrite Es. by split_and!.
  - destruct (Z.lt_ge_cases (s_term (srv w)) (rv_term req)) as [Hlt|Hge].
    + destruct (increase_term_total (rv_term req) w) as (w1 & E & Ht & Hr & El & En & Eb & Ei); [done..|].
      rewrite (vote_in_increase h w w1) by done.
      assert (hears_leader (srv w1) = false) as Hh1 by (unfold hears_leader; by rewrite Hr).
      destruct (vote_core h c l req w1) as (w' & E' & Ht' & Hr' & Eb'); rewrite ?En, ?El; try done.
      { unfold send_ok. by rewrite Ei. }
      { by rewrite Eb. }
      { lia. }
      assert (may_vote (srv w1) req l = may_vote (srv w) req l) as Hm.
      { unfold may_vote. rewrite Hh1, Hr, Hh, Ht, Z.ltb_irrefl, Z.eqb_refl.
        by rewrite (proj2 (Z.ltb_lt _ _) Hlt). }
      exists w'. split; [done|]. split; [lia|].
      rewrite Hr', Eb', Ht', Ht, Hm, Eb. split; [|done]. unfold voted_role. rewrite Hm, Hh, Ht, Hr.
      by rewrite Hh1, Z.leb_refl, (proj2 (Z.leb_gt _ _) Hlt).
    + destruct (vote_core h c l req w) as (w' & E' & Ht' & Hr' & Eb'); try done.
      exists w'. split; [done|]. split; [lia|]. by rewrite Hr', Ht'.
Qed.

(** ** Sample worlds *)

(** Machine 3 of a cluster of four, in term 5, with one connection of a peer. *)
Definition sample_srv (r : role) (cl : Z) : server :=
  {| s_id := 3; s_term := 5; timer_ticks := 0; s_role := r;
     commit_entry_required_old_votes := 0; commit_entry_required_new_votes := 0;
     entry_commited := true; replicate_entry_flag := false; leader_available := true;
     s_log := 4096; stale_cluster := []; s_cluster := cl |}.

Definition sample_conn : raft_conn :=
  {| c_log := 0; unio := RAFT_CONN_BUFFER_SIZE; fd := 7; admin := true;
     state := RAFT_CONN_STATE_IN_CMD |}.

(** The bytes of a request of candidate [c] for a vote in term [t]. *)
Definition vote_request (c t : Z) : list Z :=
  take 32 (put_request_vote_req
    {| rv_cmd := RAFT_CMD_REQUEST_VOTE; rv_candidate_id := c; rv_term := t;
       rv_log_index := index sample_log; rv_log_term := term sample_log |} (replicate 80 0)).

Definition sample_world (r : role) (cl : option (Z * cluster)) (inp : list answer) : world :=
  {| srv := sample_srv r (match cl with Some (a, _) => a | None => 0 end);
     net := {| with_tls := false; conns := <[200 := sample_conn]>
                 (match cl with Some (a, c) => list_to_map (cluster_conns a c) | None => ∅ end);
               logs := {[4096 := set_refcount sample_log 1]}; authority := []; sessions := ∅ |};
     bufs := fun _ => replicate 80 0;
     nrs := fun _ => {| pending_nr := 0; processing_nr := 0; succeed_nr := 0 |};
     clusters := match cl with Some (a, c) => {[a := c]} | None => ∅ end;
     input := inp; output := []; user_fd := 3; admin_fd := 4 |}.

(** The world an event leads to. *)
Definition after (e : ready) (w : world) : world :=
  match dispatch e w with Ret _ w' => w' | _ => w end.
Definition returns (e : ready) (w : world) : bool :=
  match dispatch e w with Ret _ _ => true | _ => false end.

Lemma after_step e w : returns e w = true -> server_step (Some e) w (after e w).
Proof.
  unfold returns, after. intros H. constructor. by destruct (dispatch e w) as [[] ?| |].
Qed.

(** A follower that voted for machine 2 refuses machine 1. *)
Definition voter : world := sample_world (FOLLOWER 2 0) None [Got (vote_request 1 5); Wrote 16].

Lemma voter_step : loop_step voter (after (In_conn 200 EPOLLIN) voter).
Proof. exists (Some (In_conn 200 EPOLLIN)). apply after_step. by vm_compute. Qed.

Lemma one_vote_per_term_witness :
  let w' := after (In_conn 200 EPOLLIN) voter in
  s_term (srv w') = 5 /\ (lapsed voter w' \/ s_role (srv w') = FOLLOWER 2 0).
Proof.
  intros w'. split; [by vm_compute|].
  destruct (one_vote_per_term voter w' 2 (rtc_once _ _ voter_step) eq_refl ltac:(discriminate))
    as [Hl|[_ H]]; [by left|right]. specialize (H eq_refl).
  remember (s_role (srv w')) as r eqn:Hr. vm_compute in Hr. by subst r.
Defined.

Lemma state_vote_in_correct_witness :
  exists w', state_vote_in 200
      (set_bufs (sample_world (FOLLOWER 0 0) None [Wrote 16])
        (fun _ => vote_request 2 6 ++ replicate 48 0)) = Ret tt w' /\
    s_term (srv w') = 6 /\ s_role (srv w') = FOLLOWER 2 0.
Proof.
  destruct (state_vote_in_correct 200
    (set_bufs (sample_world (FOLLOWER 0 0) None [Wrote 16])
       (fun _ => vote_request 2 6 ++ replicate 48 0)) sample_conn (set_refcount sample_log 1))
    as (w' & E & Ht & Hr & _); [by vm_compute..|].
  exists w'. split; [exact E|]. split; [rewrite Ht|rewrite Hr]; by vm_compute.
Defined.

(** ** A leader that gives up *)

(** A leader all of whose members did not answer nine times in a row. *)
Definition lonely_leader : world :=
  let c := match cluster_malloc exact_malloc sample_log 3 with
           | Some (Some c) => set_members c ((fun m => set_stable m 9 true) <$> members c)
           | _ => {| require_old_votes := 0; require_new_votes := 0; members_n := 0; members := [] |}
           end in
  sample_world (LEADER 1) (Some (8192, c)) [Got (vote_request 2 5); Wrote 16].

(** C37: a leader, which has the vote of its term from itself, gives up at a
    timer event and then grants the vote of the same term to another machine:
    [convert_to_follower] forgets the vote although the term stays the same. *)
Theorem abdicated_leader_votes_again :
  let w1 := after Timer lonely_leader in
  let w2 := after (In_conn 200 EPOLLIN) w1 in
  server_step (Some Timer) lonely_leader w1 /\ server_step (Some (In_conn 200 EPOLLIN)) w1 w2 /\
  is_leader (srv lonely_leader) = true /\ s_id (srv lonely_leader) = 3 /\
  s_term (srv lonely_leader) = 5 /\ gave_up lonely_leader w1 /\
  s_term (srv w2) = 5 /\ s_role (srv w2) = FOLLOWER 2 0 /\
  output w2 = [Sent 200 (take 16 (put_request_vote_res
                 {| rvr_term := 5; rvr_granted := true |} (vote_request 2 5)))].
Proof.
  intros w1 w2. split; [apply after_step; by vm_compute|].
  split; [apply after_step; by vm_compute|]. unfold gave_up. repeat split; by vm_compute.
Qed.
