(* ===== verification/Votes.v ===== *)
(** * Winning an election (service_raft.c)

    A candidate counts down the votes it requires when a member's answer
    arrives.  The theorem of this file is that the votes behind a victory come
    from different members, all in the candidate's term, and with the candidate
    itself are a majority of every configuration of its log.

    The reason no member is counted twice is in the state machine of its
    connection: once its answer is read the connection is ready for use, or it
    breaks; and a candidate asks such a member again only in its next term. *)

From S2P Require Import Prelude Machine Log LogInv Tls RaftConn Proto Cluster Server Election.

(** ** Handlers that touch one connection *)

(** Only the connection [h] changes; the clusters stay. *)
Definition touch (h : Z) (w w' : world) : Prop :=
  (forall a, a <> h -> conns (net w') !! a = conns (net w) !! a) /\
  clusters w' = clusters w /\ s_cluster (srv w') = s_cluster (srv w) /\
  stale_cluster (srv w') = stale_cluster (srv w).

#[global] Instance touch_preorder h : PreOrder (touch h).
Proof.
  split; [done|]. intros w1 w2 w3 (HA & ? & ? & ?) (HB & ? & ? & ?).
  split; [|split_and!; congruence]. intros a Ha. by rewrite HB, HA.
Qed.

(** The same of an operation of raft_conn.c. *)
Definition conn_op (h : Z) (f : raft -> option raft) : Prop :=
  forall r r', f r = Some r' -> forall a, a <> h -> conns r' !! a = conns r !! a.

Lemma touch_put_net h r w a w' :
  (forall a, a <> h -> conns r !! a = conns (net w) !! a) -> put_net r w = Ret a w' -> touch h w w'.
Proof. intros Hr [= _ <-]. by split_and!. Qed.

Lemma touch_lift h f : conn_op h f -> keeps (touch h) (lift f).
Proof.
  intros Hf w a w' E. unfold lift in E. do 2 unbind E. eapply touch_put_net, E. by apply Hf.
Qed.

Lemma op_set_io h st n : conn_op h (fun r => raft_conn_set_io r h st n).
Proof.
  intros r r' E a Ha. unfold raft_conn_set_io in E. apply bind_Some in E as (c & _ & [= <-]).
  cbn. by rewrite lookup_insert_ne.
Qed.

Lemma op_return_log h k : conn_op h (fun r => return_log r k).
Proof.
  intros r r' E a Ha. unfold return_log in E. apply bind_Some in E as (l & _ & E).
  by apply bind_Some in E as (x & _ & [= <-]).
Qed.

Lemma op_return h h' : conn_op h (fun r => raft_conn_return_log r h').
Proof.
  intros r r' E a Ha. unfold raft_conn_return_log in E. apply bind_Some in E as (c & _ & E).
  apply bind_Some in E as (x & _ & E). by eapply op_return_log.
Qed.

Lemma op_deinit h h' : conn_op h (fun r => session_deinit r h').
Proof. intros r r' E a Ha. by apply bind_Some in E as (live & _ & [= <-]). Qed.

Lemma op_free h : conn_op h (fun r => raft_conn_free r h).
Proof.
  intros r r' E a Ha. unfold raft_conn_free in E. apply bind_Some in E as (c & _ & E).
  apply bind_Some in E as (_ & _ & E). apply bind_Some in E as (r1 & E & [= <-]).
  cbn. rewrite lookup_delete_ne by done. destruct (conn_borrowed_log c); [by eapply op_return|].
  destruct (_ <? _); [by apply bind_Some in E as (_ & _ & [= <-])|].
  destruct (_ && _); [by eapply op_deinit|by injection E as <-].
Qed.

Lemma op_clear h : conn_op h (fun r => raft_conn_clear r h).
Proof.
  intros r r' E a Ha. unfold raft_conn_clear in E. apply bind_Some in E as (c & _ & E).
  apply bind_Some in E as (_ & _ & E). apply bind_Some in E as (_ & _ & E).
  apply bind_Some in E as (r1 & E & [= <-]). cbn. rewrite lookup_insert_ne by done.
  destruct (conn_borrowed_log c); [by eapply op_return|].
  destruct (_ && _); [by eapply op_deinit|by injection E as <-].
Qed.

Lemma op_borrow h l st n : conn_op h (fun r => raft_conn_borrow_log r h l st n).
Proof.
  intros r r' E a Ha. unfold raft_conn_borrow_log in E. apply bind_Some in E as (c & _ & E).
  apply bind_Some in E as (_ & _ & E). apply bind_Some in E as (x & _ & E).
  apply bind_Some in E as (_ & _ & [= <-]). cbn. by rewrite lookup_insert_ne.
Qed.

Lemma op_ready h : conn_op h (fun r => raft_conn_change_to_ready_for_use r h).
Proof.
  intros r r' E a Ha. unfold raft_conn_change_to_ready_for_use in E.
  apply bind_Some in E as (c & _ & [= <-]). cbn. by rewrite lookup_insert_ne.
Qed.

(** Transfers. *)
Lemma op_close h i r r' a : close_conn r i h = Some r' -> a <> h -> conns r' !! a = conns r !! a.
Proof. destruct i; cbn; intros E Ha; [by eapply op_free|by eapply op_clear]. Qed.

Lemma op_check_read h i n wb r ok r' a :
  conn_check_read r i h n wb = Some (ok, r') -> a <> h -> conns r' !! a = conns r !! a.
Proof.
  unfold conn_check_read. intros (c & _ & E)%bind_Some Ha. case_bool_decide.
  - apply bind_Some in E as (_ & _ & [= _ <-]). cbn. by rewrite lookup_insert_ne.
  - destruct (_ || _); [|by injection E as _ <-].
    apply bind_Some in E as (r1 & E & [= _ <-]). by eapply op_close.
Qed.

Lemma op_check_write h i n wb r ok r' a :
  conn_check_write r i h n wb = Some (ok, r') -> a <> h -> conns r' !! a = conns r !! a.
Proof.
  unfold conn_check_write. intros (c & _ & E)%bind_Some Ha. case_bool_decide.
  - apply bind_Some in E as (_ & _ & [= _ <-]). cbn. by rewrite lookup_insert_ne.
  - apply bind_Some in E as (_ & _ & E). destruct wb; [by injection E as _ <-|].
    apply bind_Some in E as (r1 & E & [= _ <-]). by eapply op_close.
Qed.

Lemma op_and_done h r ok r' b : and_done h (b, r) = Some (ok, r') -> r' = r.
Proof. unfold and_done. destruct b; [|by intros [= _ <-]]. by intros (c & _ & [= _ <-])%bind_Some. Qed.

Lemma op_full_read h i n wb r ok r' a :
  raft_conn_full_read r i h n wb = Some (ok, r') -> a <> h -> conns r' !! a = conns r !! a.
Proof.
  unfold raft_conn_full_read. intros ([b r1] & E & Hd)%bind_Some Ha.
  apply op_and_done in Hd as ->. unfold raft_conn_read in E. apply bind_Some in E as (c & _ & E).
  apply bind_Some in E as (_ & _ & E). by eapply op_check_read.
Qed.

Lemma op_full_write h i n wb r ok r' a :
  conn_full_write r i h n wb = Some (ok, r') -> a <> h -> conns r' !! a = conns r !! a.
Proof.
  unfold conn_full_write. intros ([b r1] & E & Hd)%bind_Some Ha.
  apply op_and_done in Hd as ->. unfold conn_write in E. apply bind_Some in E as (c & _ & E).
  apply bind_Some in E as (_ & _ & E). by eapply op_check_write.
Qed.

(** ** Primitives *)

(** Neither the connections nor the clusters change. *)
Definition calm (w w' : world) : Prop :=
  conns (net w') = conns (net w) /\ clusters w' = clusters w /\
  s_cluster (srv w') = s_cluster (srv w) /\ stale_cluster (srv w') = stale_cluster (srv w).
#[global] Instance calm_preorder : PreOrder calm.
Proof. split; [done|]. intros w1 w2 w3 (?&?&?&?) (?&?&?&?). split_and!; congruence. Qed.

Lemma calm_touch {A} h (m : M A) : keeps calm m -> keeps (touch h) m.
Proof. apply keeps_mono. intros w w' (Hc & ? & ? & ?). split_and!; try done. by rewrite Hc. Qed.

Lemma calm_mod_buf h f : keeps calm (mod_buf h f).
Proof. by intros w a w' [= _ <-]. Qed.
Lemma calm_put_nrs h x : keeps calm (put_nrs h x).
Proof. by intros w a w' [= _ <-]. Qed.
Lemma calm_emit e : keeps calm (emit e).
Proof. by intros w a w' [= _ <-]. Qed.
Lemma calm_pop : keeps calm pop.
Proof. intros w a w'. unfold pop. by destruct (input w) as [|x l]; intros [= _ <-]. Qed.
Lemma calm_read_all : keeps calm sys_read_all.
Proof. intros w a w'. unfold sys_read_all. by destruct (authority_read _ _); intros [= _ <-]. Qed.
Lemma calm_put_fds x y : keeps calm (put_fds x y).
Proof. by intros w a w' [= _ <-]. Qed.
Lemma calm_mod_srv f :
  (forall s, s_cluster (f s) = s_cluster s /\ stale_cluster (f s) = stale_cluster s) ->
  keeps calm (mod_srv f).
Proof. intros Hf w a w' [= _ <-]. split_and!; [done..| |]; apply Hf. Qed.
Lemma calm_put_log h l : keeps calm (put_log h l).
Proof. intros w a w' E. unfold put_log in E. unbind E. by injection E as _ <-. Qed.
#[export] Hint Resolve calm_mod_buf calm_put_nrs calm_emit calm_put_fds calm_pop calm_read_all calm_put_log
  : server.
#[export] Hint Extern 1 (keeps calm (mod_srv _)) => (apply calm_mod_srv; done) : server.
#[export] Hint Extern 1 (keeps (touch _) (mod_srv _)) =>
  (apply calm_touch, calm_mod_srv; done) : server.
#[export] Hint Extern 2 (keeps (touch _) _) =>
  (apply calm_touch; solve [eauto with server nocore]) : server.

Lemma calm_log_alloc f : keeps calm (log_alloc f).
Proof. unfold log_alloc. walk. Qed.
Lemma calm_sys_write : keeps calm sys_write.
Proof. unfold sys_write. walk. Qed.
Lemma calm_sys_read : keeps calm sys_read.
Proof. unfold sys_read. walk. Qed.
#[export] Hint Resolve calm_log_alloc calm_sys_write calm_sys_read : server.

#[export] Hint Resolve touch_lift op_set_io op_return_log op_return op_deinit op_free op_clear op_borrow
  op_ready : server.

Lemma touch_set_state h st : keeps (touch h) (set_conn_state h st).
Proof.
  apply touch_lift. intros r r' (c & _ & [= <-])%bind_Some a Ha. cbn. by rewrite lookup_insert_ne.
Qed.
Lemma touch_authority h f : keeps (touch h) (lift (fun r => Some (set_authority r (f r)))).
Proof. apply touch_lift. by intros r r' [= <-] a Ha. Qed.
Lemma touch_delete h : keeps (touch h) (lift (fun r => Some (set_conns r (delete h (conns r))))).
Proof. apply touch_lift. intros r r' [= <-] a Ha. cbn. by rewrite lookup_delete_ne. Qed.
#[export] Hint Resolve touch_set_state touch_authority touch_delete : server.

(** What a run [E] of a handler built from the primitives touches. *)
Ltac touching h E :=
  let H := fresh "Ht" in
  match type of E with
  | ?m ?w = Ret _ ?w' => assert (touch h w w') as H by (refine ((_ : keeps (touch h) m) w _ w' E); walk)
  end.

Lemma op_full_read_to_buffer h i n k wb r p ok r' a :
  raft_conn_full_read_to_buffer r i h n k wb = Some (p, (ok, r')) -> a <> h ->
  conns r' !! a = conns r !! a.
Proof.
  unfold raft_conn_full_read_to_buffer. intros (c & _ & H)%bind_Some.
  apply bind_Some in H as ([ok' r1] & H & [= _ <- <-]). by eapply op_full_read.
Qed.

Lemma op_full_write_buffer h i n k wb r p ok r' a :
  raft_conn_full_write_buffer r i h n k wb = Some (p, (ok, r')) -> a <> h ->
  conns r' !! a = conns r !! a.
Proof.
  unfold raft_conn_full_write_buffer. intros (c & _ & H)%bind_Some.
  apply bind_Some in H as ([ok' r1] & H & [= _ <- <-]). by eapply op_full_write.
Qed.

Lemma op_write_byte h i n wb r ok r' a :
  raft_conn_write_byte_zero r i h n wb = Some (ok, r') -> a <> h -> conns r' !! a = conns r !! a.
Proof.
  unfold raft_conn_write_byte_zero. case_bool_decide; [by intros [= _ <-]|].
  intros (_ & _ & E)%bind_Some Ha. destruct wb; [by injection E as _ <-|].
  apply bind_Some in E as (r1 & E & [= _ <-]). by eapply op_close.
Qed.

Lemma touch_full_read_to_buffer h i n : keeps (touch h) (full_read_to_buffer h i n).
Proof.
  intros w a w' E. unfold full_read_to_buffer in E. unbind E. touching h E0.
  destruct a0 as [[k wb] bs]. do 2 unbind E. destruct a0 as [pos [ok r]]. unbind E.
  touching h E. etrans; [done|]. etrans; [|done]. eapply touch_put_net; [|reflexivity].
  intros. by eapply op_full_read_to_buffer.
Qed.

Lemma touch_full_write_buffer h i n : keeps (touch h) (full_write_buffer h i n).
Proof.
  intros w a w' E. unfold full_write_buffer in E. unbind E. touching h E0.
  destruct a0 as [k wb]. do 2 unbind E. destruct a0 as [pos [ok r]]. unbind E.
  touching h E. etrans; [done|]. etrans; [|done]. eapply touch_put_net; [|reflexivity].
  intros. by eapply op_full_write_buffer.
Qed.

Lemma touch_full_write_msg h i iov : keeps (touch h) (full_write_msg h i iov).
Proof.
  intros w a w' E. unfold full_write_msg in E. unbind E. touching h E0.
  destruct a0 as [k wb]. do 2 unbind E. destruct a0 as [ok r]. unbind E.
  touching h E. etrans; [done|]. etrans; [|done]. eapply touch_put_net; [|reflexivity].
  intros. by eapply op_full_write.
Qed.

Lemma touch_write_byte_zero h i : keeps (touch h) (write_byte_zero h i).
Proof.
  intros w a w' E. unfold write_byte_zero in E. unbind E. touching h E0.
  destruct a0 as [k wb]. do 2 unbind E. destruct a0 as [ok r]. unbind E.
  touching h E. etrans; [done|]. etrans; [|done]. eapply touch_put_net; [|reflexivity].
  intros. by eapply op_write_byte.
Qed.

Lemma touch_read_cmd h : keeps (touch h) (read_cmd h).
Proof.
  intros w a w' E. unfold read_cmd in E. unbind E. touching h E0. unbind E. touching h E1.
  destruct a1 as [[k wb] bs]. do 2 unbind E. destruct a1 as [ok r]. unbind E.
  touching h E. etrans; [done|]. etrans; [done|]. etrans; [|done].
  eapply touch_put_net; [|reflexivity]. intros x Hx.
  unfold raft_conn_read in H. apply bind_Some in H as (c & _ & H).
  apply bind_Some in H as (_ & _ & H). by eapply op_check_read.
Qed.

Lemma touch_full_read_to_log h i n : keeps (touch h) (full_read_to_log h i n).
Proof.
  intros w a w' E. unfold full_read_to_log in E. unbind E. touching h E0.
  destruct a0 as [[k wb] bs]. do 3 unbind E. destruct a1 as [ok r]. unbind E.
  etrans; [done|].
  assert (forall a, a <> h -> conns r !! a = conns (net w0) !! a) as Hr
    by (intros; by eapply op_full_read).
  destruct (bool_decide _).
  - unbind E. injection E as _ <-. do 2 unbind E1. injection E1 as _ <-. by split_and!.
  - unbind E. injection E as _ <-. by split_and!.
Qed.
#[export] Hint Resolve touch_full_read_to_buffer touch_full_write_buffer touch_full_write_msg
  touch_write_byte_zero touch_read_cmd touch_full_read_to_log : server.

(** ** What a candidate does with an event *)

(** It becomes a follower (or founds a cluster), or at most the event's
    connection changes. *)
Definition still (h : Z) (w w' : world) : Prop := touch h w w' /\ quiet w w'.
Definition stopped (w' : world) : Prop := is_follower (srv w') = true \/ founded w'.
Definition bystander (h : Z) (w w' : world) : Prop := stopped w' \/ still h w w'.

#[global] Instance still_preorder h : PreOrder (still h).
Proof.
  split; [done|]. intros w1 w2 w3 [H1 H2] [H3 H4]. split; [by transitivity w2|by transitivity w2].
Qed.

Lemma bystander_after h w w1 w' : still h w w1 -> bystander h w1 w' -> bystander h w w'.
Proof. intros Hs [?|?]; [by left|right; by transitivity w1]. Qed.

Lemma is_candidate_quiet w w' : quiet w w' -> is_candidate (srv w') = is_candidate (srv w).
Proof. intros (_ & Hr & _). unfold is_candidate. by rewrite Hr. Qed.

Lemma follower_after w w' v l : s_role (srv w) = FOLLOWER v l -> quiet w w' -> stopped w'.
Proof. intros Hr (_ & Hq & _). left. unfold is_follower. by rewrite Hq, Hr. Qed.

Lemma stopped_after w w' : stopped w -> quiet w w' -> stopped w'.
Proof.
  intros Hs (Ht & Hr & Hi). unfold stopped, founded, is_follower in *. by rewrite Ht, Hr, Hi.
Qed.

Ltac stilly h E := (* the run [E] of a quiet handler on [h] *)
  let H := fresh "Hs" in
  match type of E with
  | ?m ?w = Ret _ ?w' =>
      assert (still h w w') as H
        by (split; [refine ((_ : keeps (touch h) m) w _ w' E); walk
                   |refine ((_ : keeps quiet m) w _ w' E); walk])
  end.

Lemma cand_vote_in h w a w' : state_vote_in h w = Ret a w' -> bystander h w w'.
Proof.
  unfold state_vote_in. intros E. unbind E.
  destruct (hears_leader (srv w)); [stilly h E; by right|].
  do 2 unbind E. do 2 unbind E. quietly E1. destruct (_ <? _).
  - apply server_increase_term_run in E0 as (_ & _ & Hr). left. rewrite Hr in E.
    destruct (_ && _); [|quietly E; eapply follower_after; [done|by etrans]].
    do 3 unbind E. quietly E. by eapply follower_after, Hq0.
  - injection E0 as _ <-. stilly h E1.
    destruct (s_role (srv w)) as [| |v l] eqn:Hr; [stilly h E; right; by etrans..|].
    left. destruct (_ && _); [|quietly E; eapply follower_after; [done|by etrans]].
    do 3 unbind E. quietly E. by eapply follower_after, Hq0.
Qed.

Lemma cand_recv_log_in h w a w' : state_recv_log_in h w = Ret a w' -> bystander h w w'.
Proof.
  unfold state_recv_log_in. intros E. do 3 unbind E. stilly h E0. stilly h E1.
  destruct a1; [|injection E as _ <-; right; by etrans].
  unbind E. destruct (_ <? _); [stilly h E; right; by repeat (etrans; [done|])|].
  do 3 unbind E. unbind E. left. destruct (s_role (srv w4)) eqn:Hr; try done.
  do 3 unbind E. quietly E. by eapply follower_after, Hq.
Qed.

Lemma cand_recv_log h w a w' : change_to_recv_log_in h w = Ret a w' -> bystander h w w'.
Proof.
  unfold change_to_recv_log_in. intros E. do 2 unbind E. stilly h E0. apply (bystander_after h w w0 w' Hs).
  destruct a0; [|stilly h E; by right]. unbind E. stilly h E1.
  apply (bystander_after h w0 w1 w' Hs0). by eapply cand_recv_log_in.
Qed.

Lemma cand_init_cluster_in h w a w' : state_init_cluster_in h w = Ret a w' -> bystander h w w'.
Proof.
  unfold state_init_cluster_in. intros E. do 3 unbind E. stilly h E0. stilly h E1.
  apply (bystander_after h w w0 w' Hs), (bystander_after h w0 w1 w' Hs0).
  destruct a1; [|injection E as _ <-; by right]. do 2 unbind E. stilly h E2.
  apply (bystander_after h w1 w2 w' Hs1). quietly E.
  enough (bystander h w2 w3) as [Hn|Hn].
  - left. by eapply stopped_after, Hq.
  - right. stilly h E. by etrans.
  - destruct (_ =? 0); [|injection E3 as _ <-; by right].
    unbind E3. stilly h E4. destruct (log_complete_init _) as [complete l].
    unbind E3. stilly h E5. destruct complete; [|injection E3 as _ <-; right; by etrans].
    do 4 unbind E3. destruct (bool_decide _); [done|]. do 4 unbind E3. quietly E7.
    do 4 unbind E3. quietly E3. left. refine (stopped_after _ _ _ Hq1). right.
    destruct Hq0 as (Ht & _ & Hi). unfold founded. cbn in *. by rewrite Ht, Hi.
Qed.

Lemma cand_init h w a w' : change_to_init_cluster_in h w = Ret a w' -> bystander h w w'.
Proof.
  unfold change_to_init_cluster_in. intros E. unbind E.
  destruct (machines_size_valid _); [|stilly h E; by right].
  unbind E. stilly h E0. apply (bystander_after h w w0 w' Hs).
  destruct a0; [|stilly h E; by right]. do 2 unbind E. stilly h E1. stilly h E2.
  apply (bystander_after h w0 w1 w' Hs0), (bystander_after h w1 w2 w' Hs1).
  by eapply cand_init_cluster_in.
Qed.

Lemma candidate_not_leader s : is_candidate s = true -> is_leader s = false.
Proof. unfold is_candidate, is_leader. by destruct (s_role s). Qed.

Lemma cand_change_cluster_in h w a w' :
  is_candidate (srv w) = true -> state_change_cluster_in h w = Ret a w' -> still h w w'.
Proof.
  unfold state_change_cluster_in. intros Hc E. do 4 unbind E. stilly h E0. stilly h E1. stilly h E2.
  assert (still h w w2) as Hs2 by (by repeat (etrans; [done|])).
  destruct a2; [|by injection E as _ <-]. do 2 unbind E. stilly h E3.
  destruct Hs2 as [Ht2 Hq2]. rewrite (candidate_not_leader (srv w2)) in E
    by (by rewrite (is_candidate_quiet _ _ Hq2)).
  cbn [andb] in E. stilly h E. by repeat (etrans; [done|]).
Qed.

Lemma cand_change_cluster h w a w' :
  is_candidate (srv w) = true -> change_to_change_cluster_in h w = Ret a w' -> still h w w'.
Proof.
  unfold change_to_change_cluster_in. intros Hc E. do 2 unbind E. stilly h E0.
  destruct (machines_size_valid _); [|stilly h E; by etrans].
  unbind E. stilly h E1. destruct a1; [|stilly h E; by repeat (etrans; [done|])].
  do 2 unbind E. stilly h E2. stilly h E3.
  assert (still h w w3) as Hs3 by (by repeat (etrans; [done|])).
  etrans; [exact Hs3|]. eapply cand_change_cluster_in, E.
  destruct Hs3 as [_ Hq]. by rewrite (is_candidate_quiet _ _ Hq).
Qed.

Lemma cand_ready h w a w' :
  is_candidate (srv w) = true -> change_to_ready_for_use h w = Ret a w' -> still h w w'.
Proof.
  unfold change_to_ready_for_use. intros Hc E. unbind E. unfold is_candidate in Hc.
  destruct (s_role (srv w)); [done| |done]. by stilly h E.
Qed.

Lemma calm_init_client h : keeps calm (init_client h).
Proof.
  intros w a w' E. unfold init_client in E. unbind E.
  assert (calm w w0) as Hc by (refine ((_ : keeps calm (session_answer h)) w _ w0 E0); walk).
  etrans; [exact Hc|]. do 2 unbind E. destruct a1 as [ok r]. unbind E. injection E as _ <-.
  apply bind_Some in H as ([ok' live] & _ & [= _ <-]). done.
Qed.
#[export] Hint Resolve calm_init_client : server.

Lemma still_candidate h w w' : is_candidate (srv w) = true -> still h w w' -> is_candidate (srv w') = true.
Proof. intros Hc [_ Hq]. by rewrite (is_candidate_quiet _ _ Hq). Qed.

Lemma cand_client_handshake h w a w' :
  is_candidate (srv w) = true -> state_tls_client_handshake h w = Ret a w' -> still h w w'.
Proof.
  unfold state_tls_client_handshake. intros Hc E. unbind E. stilly h E0.
  etrans; [exact Hs|]. destruct a0; [|by stilly h E..]. unbind E. stilly h E1.
  etrans; [exact Hs0|]. eapply cand_ready, E. by do 2 (eapply still_candidate; [|done]).
Qed.

Lemma cand_established h w a w' :
  is_candidate (srv w) = true -> change_to_conn_established h w = Ret a w' -> still h w w'.
Proof.
  unfold change_to_conn_established. intros Hc E. unbind E.
  destruct (with_tls _); [|by eapply cand_ready]. do 3 unbind E. stilly h E0. stilly h E1.
  assert (still h w w1) as Hs1 by (by etrans). etrans; [exact Hs1|].
  destruct a2; [|by stilly h E]. unbind E. stilly h E2. etrans; [exact Hs2|].
  eapply cand_client_handshake, E. by do 2 (eapply still_candidate; [|done]).
Qed.

Lemma cand_in_progress h w a w' :
  is_candidate (srv w) = true -> state_in_progress h w = Ret a w' -> still h w w'.
Proof.
  unfold state_in_progress. intros Hc E. unbind E. stilly h E0.
  assert (is_candidate (srv w0) = true) as Hc0.
  { destruct Hs as [_ Hq]. by rewrite (is_candidate_quiet _ _ Hq). }
  etrans; [exact Hs|]. destruct a0; first [by eapply cand_established | by stilly h E].
Qed.

Lemma cand_append_entry_in h w a w' :
  is_candidate (srv w) = true -> state_append_entry_in h w = Ret a w' -> bystander h w w'.
Proof.
  unfold state_append_entry_in. intros Hc E. do 2 unbind E. stilly h E0. stilly h E1.
  assert (still h w w1) as Hs1 by (by etrans).
  destruct a1; [|injection E as _ <-; by right].
  do 3 unbind E. stilly h E2. destruct (_ <? _).
  - apply server_increase_term_run in E as (_ & _ & Hr). left. left. unfold is_follower. by rewrite Hr.
  - unbind E. exfalso. destruct H as [_ H]. rewrite candidate_not_leader in H; [done|].
    assert (still h w w2) as [_ Hq] by (by etrans). by rewrite (is_candidate_quiet _ _ Hq).
Qed.

Lemma cand_in_cmd h w a w' :
  is_candidate (srv w) = true -> state_in_cmd h w = Ret a w' -> bystander h w w'.
Proof.
  unfold state_in_cmd. intros Hc E. unbind E. stilly h E0. apply (bystander_after h w w0 w' Hs).
  destruct a0; [|injection E as _ <-; by right]. do 2 unbind E. stilly h E1.
  apply (bystander_after h w0 w1 w' Hs0).
  assert (is_candidate (srv w1) = true) as Hc1.
  { assert (still h w w1) as [_ Hq] by (by etrans). by rewrite (is_candidate_quiet _ _ Hq). }
  branches E;
  first [ discriminate E | by eapply cand_vote_in | by eapply cand_recv_log | by eapply cand_init
        | right; by eapply cand_change_cluster | stilly h E; by right ].
Qed.

Lemma cand_server_handshake h w a w' :
  is_candidate (srv w) = true -> state_tls_server_handshake h w = Ret a w' -> bystander h w w'.
Proof.
  unfold state_tls_server_handshake. intros Hc E. unbind E. stilly h E0.
  apply (bystander_after h w w0 w' Hs). destruct a0; [|stilly h E; by right..].
  do 2 unbind E. stilly h E1. stilly h E2. assert (still h w0 w2) as Hs2 by (by etrans).
  apply (bystander_after h w0 w2 w' Hs2). eapply cand_in_cmd, E.
  by do 2 (eapply still_candidate; [|done]).
Qed.

Lemma cand_process h c w a w' :
  is_candidate (srv w) = true -> conns (net w) !! h = Some c ->
  state c <> RAFT_CONN_STATE_REQUEST_VOTE_IN -> process h w = Ret a w' -> bystander h w w'.
Proof.
  unfold process. intros Hcand Hc Hst E. unbind E. apply get_conn_run in E0 as [Hc' ->].
  rewrite Hc in Hc'. injection Hc' as <-.
  branches E;
  first [ discriminate E | done | right; by eapply cand_in_progress | by eapply cand_in_cmd
        | right; by eapply cand_client_handshake | by eapply cand_server_handshake
        | by eapply cand_append_entry_in | by eapply cand_recv_log_in
        | by eapply cand_init_cluster_in | right; by eapply cand_change_cluster_in
        | stilly h E; by right ].
Qed.

(** ** Counting a vote *)

(** The answer the next [read] on [h] completes. *)
Definition vote_answer (h : Z) (c : raft_conn) (bs : list Z) (w : world) : request_vote_res :=
  get_request_vote_res (fill (Z.to_nat (u64 (16 - unio c))) bs (bufs w h)).

(** The event completes an answer that grants a vote of the server's term. *)
Definition vote_read (h : Z) (w : world) : bool :=
  match conns (net w) !! h, input w with
  | Some c, Got bs :: _ =>
      (state c =? RAFT_CONN_STATE_REQUEST_VOTE_IN) && (0 <? Z.of_nat (length bs)) &&
      (u64 (unio c - Z.of_nat (length bs)) =? 0) &&
      (rvr_term (vote_answer h c bs w) =? s_term (srv w)) && rvr_granted (vote_answer h c bs w)
  | _, _ => false
  end.

Lemma full_read_run h c n w ok w' :
  conns (net w) !! h = Some c -> full_read_to_buffer h false n w = Ret ok w' ->
  match input w with
  | Got bs :: _ =>
      ok = (0 <? Z.of_nat (length bs)) && (u64 (unio c - Z.of_nat (length bs)) =? 0) /\
      (ok = true -> bufs w' h = fill (Z.to_nat (u64 (n - unio c))) bs (bufs w h))
  | _ => ok = false
  end.
Proof.
  intros Hc E. unfold full_read_to_buffer in E. unbind E. destruct a as [[k wb] bs].
  do 2 unbind E. destruct a as [pos [ok' r]]. unbind E. unbind E. injection E as -> <-.
  unfold sys_read in E0. unbind E0. injection E0 as Ha <-. unfold pop in E.
  assert (net w2 = net w /\ bufs w2 = bufs w) as [En Eb] by (destruct (input w); injection E as _ <-; by split).
  rewrite En in H. unfold raft_conn_full_read_to_buffer, raft_conn_full_read, raft_conn_read,
    conn_check_read in H. rewrite Hc in H. cbn [mbind option_bind] in H.
  apply bind_Some in H as ([b r1] & H & [= <- -> ->]). apply bind_Some in H as ([b' r2] & H & Hd).
  apply bind_Some in H as (_ & _ & H).
  destruct (Z.lt_ge_cases 0 k) as [Hk|Hk].
  - rewrite bool_decide_eq_true_2 in H, E1 by done. apply bind_Some in H as (_ & _ & [= <- <-]).
    cbn in Hd. rewrite lookup_insert_eq in Hd. cbn in Hd. injection Hd as <- <-.
    injection E1 as _ <-. cbn. rewrite Z.eqb_refl.
    destruct (input w) as [|x rest]; injection E as <- <-; [injection Ha as <-; lia|].
    destruct x; injection Ha as <- <- <-; try lia.
    split; [|done]. by rewrite (proj2 (Z.ltb_lt _ _) Hk).
  - rewrite bool_decide_eq_false_2 in H by lia.
    assert (ok = false) as ->.
    { destruct (_ || _); [apply bind_Some in H as (r3 & _ & [= <- <-])|injection H as <- <-];
        by injection Hd. }
    destruct (input w) as [|x rest]; [done|]. injection E as <- <-. destruct x; try done.
    injection Ha as <- <- <-. split; [|done]. by rewrite (proj2 (Z.ltb_ge _ _) Hk).
Qed.

Lemma member_of_run h w p w' :
  member_of h w = Ret p w' -> w' = w /\ p.1 = s_cluster (srv w) /\ conn_of p = h /\
  exists c, clusters w !! s_cluster (srv w) = Some c /\ (p.2 < length (members c))%nat.
Proof.
  unfold member_of, my_cluster. intros E. unbind E. unbind E. unbind E0. unbind E0.
  injection E1 as <- <-. apply from_Ret in E0 as [Hc ->]. unbind E. injection E as <- <-.
  destruct (list_find _ _) as [[k j]|] eqn:Hf; [|done]. cbn in H. injection H as ->.
  apply list_find_Some in Hf as (Hk & Hj & _). split_and!; [done..|].
  apply lookup_seq in Hk as [-> Hk]. by eexists.
Qed.

Lemma get_member_run p w m w' :
  get_member p w = Ret m w' ->
  w' = w /\ exists c, clusters w !! p.1 = Some c /\ members c !! p.2 = Some m.
Proof.
  unfold get_member. intros E. unbind E. injection E0 as <- <-. unbind E.
  apply from_Ret in E as [Hm ->]. split; [done|]. by eexists.
Qed.

(** The member [i] of the candidate's cluster. *)
Definition member_at (w : world) (i : nat) (m : member) : Prop :=
  exists c, clusters w !! s_cluster (srv w) = Some c /\ members c !! i = Some m.

Lemma win_election_run w a w' :
  win_election w = Ret a w' -> is_leader (srv w') = true /\ s_term (srv w') = s_term (srv w).
Proof.
  unfold win_election, convert_to_leader. intros E. do 4 unbind E. quietly E0. unbind E. quietly E1.
  do 2 unbind E. injection E as _ <-. destruct Hq as (Ht & Hr & _), Hq0 as (Ht' & Hr' & _).
  cbn in *. unfold is_leader. cbn. rewrite Hr', Hr. split; [done|congruence].
Qed.

Lemma change_to_ready_run h w a w' :
  change_to_ready h w = Ret a w' ->
  exists c', conns (net w') !! h = Some c' /\ state c' = RAFT_CONN_STATE_READY_FOR_USE.
Proof.
  unfold change_to_ready, lift, raft_conn_change_to_ready_for_use. intros E. do 2 unbind E.
  apply bind_Some in H as (c & _ & [= <-]). injection E as _ <-. cbn.
  rewrite lookup_insert_eq. by eexists.
Qed.

(** A candidate that reads an answer counts the member's vote, and wins when no
    more votes are required; any other answer it ignores or stops for. *)
Lemma cand_request_vote_in h c old new w a w' :
  s_role (srv w) = CANDIDATE old new -> conns (net w) !! h = Some c ->
  state c = RAFT_CONN_STATE_REQUEST_VOTE_IN -> state_request_vote_in h w = Ret a w' ->
  if vote_read h w then
    exists i m, member_conn (s_cluster (srv w)) i = h /\ member_at w i m /\
      let old' := old - MEMBER_IN_OLD (m_type m) in
      let new' := new - MEMBER_IN_NEW (m_type m) in
      if (old' <=? 0) && (new' <=? 0) then is_leader (srv w') = true
      else touch h w w' /\ s_role (srv w') = CANDIDATE old' new' /\
           exists c', conns (net w') !! h = Some c' /\ state c' = RAFT_CONN_STATE_READY_FOR_USE
  else is_leader (srv w') = false /\ bystander h w w'.
Proof.
  intros Hr Hc Hst E. unfold state_request_vote_in in E. unbind E. stilly h E0.
  pose proof (full_read_run h c 16 w a0 w0 Hc E0) as Hin.
  assert (is_leader (srv w) = false) as Hnl by (unfold is_leader; by rewrite Hr).
  assert (forall w2, still h w w2 -> is_leader (srv w2) = false /\ bystander h w w2) as Hgo.
  { intros w2 Hs2. split; [|by right]. destruct Hs2 as [_ (_ & Hr2 & _)]. unfold is_leader. by rewrite Hr2, Hr. }
  unfold vote_read. rewrite Hc.
  destruct a0.
  - assert (exists bs rest, input w = Got bs :: rest /\
      (0 <? Z.of_nat (length bs)) && (u64 (unio c - Z.of_nat (length bs)) =? 0) = true /\
      bufs w0 h = fill (Z.to_nat (u64 (16 - unio c))) bs (bufs w h)) as (bs & rest & Ei & Hfull & Hb).
    { destruct (input w) as [|[bs| | | | | | | | | | | | | | |] rest]; try done. destruct Hin as [Hf Hb].
      exists bs, rest. split; [done|]. split; [done|by apply Hb]. }
    rewrite Ei, Hst, Z.eqb_refl. apply andb_true_iff in Hfull as [-> ->]. cbn [andb].
    unfold vote_answer. rewrite <-Hb. clear Hin Hb.
    do 2 unbind E. stilly h E1. pose proof (change_to_ready_run h w0 _ w1 E1) as Hready.
    assert (still h w w1) as Hs1 by (by etrans). unbind E.
    pose proof Hs1 as [Ht1 (Et & Er & _)]. rewrite Hr in Er.
    destruct (Z.ltb_spec (s_term (srv w1)) (rvr_term (get_request_vote_res (bufs w0 h)))) as [Hlt|Hge].
    { apply server_increase_term_run in E as (_ & _ & Hf). rewrite (proj2 (Z.eqb_neq _ _)) by lia. cbn [andb].
      unfold bystander, stopped, is_leader, is_follower. rewrite Hf. auto. }
    rewrite Er in E. rewrite (Z.eqb_sym (rvr_term _)), <-Et.
    destruct (_ && _); [|injection E as _ <-; by apply Hgo].
    do 2 unbind E. apply member_of_run in E2 as (-> & Hp1 & Hp2 & _).
    apply get_member_run in E3 as (-> & cl & Hcl & Hm). unbind E.
    exists a1.2, a2. rewrite Hp1 in Hcl. destruct Ht1 as (Hconn & Ecl & Esc & Est).
    split; [rewrite <-Hp2; unfold conn_of; by rewrite Hp1, Esc|].
    split; [exists cl; by rewrite <-Ecl, <-Esc|]. cbv zeta.
    destruct (_ && _); [by apply win_election_run in E as [? _]|].
    injection E as _ <-. split; [by split_and!|]. by split.
  - injection E as _ <-. rewrite Hst.
    assert (match input w with
            | Got bs :: _ => (0 <? Z.of_nat (length bs)) && (u64 (unio c - Z.of_nat (length bs)) =? 0) = false
            | _ => True end) as Hno by (destruct (input w) as [|[bs| | | | | | | | | | | | | | |] rest]; try done; by destruct Hin).
    destruct (input w) as [|[bs| | | | | | | | | | | | | | |] rest]; try by apply Hgo.
    rewrite Z.eqb_refl. cbn [andb]. rewrite Hno. by apply Hgo.
Qed.

(** ** The votes counted so far *)

Definition finished (c : raft_conn) : Prop :=
  state c = RAFT_CONN_STATE_READY_FOR_USE \/ state c = RAFT_CONN_STATE_NOT_CONNECTED.

(** How much the members [V] count, in the configuration [f] selects. *)
Definition weight (f : Z -> Z) (cl : cluster) (V : list nat) : Z :=
  foldr (fun i acc => (match members cl !! i with Some m => f (m_type m) | None => 0 end) + acc) 0 V.

(** The invariant of a candidate that has counted the votes of [V]. *)
Record counted (V : list nat) (w : world) : Prop := {
  cv_nodup : NoDup V;
  cv_stale : stale_cluster (srv w) = [];
  cv_conn : forall i, i ∈ V -> exists c,
    conns (net w) !! member_conn (s_cluster (srv w)) i = Some c /\ finished c;
  cv_sum : exists cl old new, clusters w !! s_cluster (srv w) = Some cl /\
    s_role (srv w) = CANDIDATE old new /\ (forall i, i ∈ V -> is_Some (members cl !! i)) /\
    old = s32 (require_old_votes cl) - weight MEMBER_IN_OLD cl V /\
    new = s32 (require_new_votes cl) - weight MEMBER_IN_NEW cl V
}.

Lemma counted_same V w w' :
  counted V w -> clusters w' = clusters w -> s_cluster (srv w') = s_cluster (srv w) ->
  stale_cluster (srv w') = stale_cluster (srv w) -> s_role (srv w') = s_role (srv w) ->
  (forall i, i ∈ V -> exists c,
    conns (net w') !! member_conn (s_cluster (srv w)) i = Some c /\ finished c) ->
  counted V w'.
Proof.
  intros [Hnd Hst _ (cl & old & new & Hcl & Hr & Hm & Ho & Hn)] E1 E2 E3 E4 Hc.
  split; [done|by rewrite E3|by rewrite E2|]. exists cl, old, new.
  by rewrite E1, E2, E4.
Qed.

Lemma member_conn_inj a i j : member_conn a i = member_conn a j -> i = j.
Proof. unfold member_conn, sizeof_member. lia. Qed.

(** A connection that no counted member uses may change. *)
Lemma counted_touch V h w w' :
  counted V w -> still h w w' ->
  (forall i, i ∈ V -> member_conn (s_cluster (srv w)) i = h -> exists c,
     conns (net w') !! h = Some c /\ finished c) -> counted V w'.
Proof.
  intros Hv [(Ht & Hcl & Hsc & Hst) (_ & Hr & _)] Hh. apply (counted_same V w w'); try done.
  intros i Hi. destruct (decide (member_conn (s_cluster (srv w)) i = h)) as [<-|Hne]; [by apply (Hh i)|].
  rewrite Ht by done. by apply Hv.
Qed.

(** Connections to members, clusters and the role survive. *)
Definition kept (w w' : world) : Prop :=
  (forall a c, conns (net w) !! a = Some c -> raft_conn_outgoing c = true ->
     conns (net w') !! a = Some c) /\
  clusters w' = clusters w /\ s_cluster (srv w') = s_cluster (srv w) /\
  stale_cluster (srv w') = stale_cluster (srv w) /\ s_role (srv w') = s_role (srv w).

#[global] Instance kept_preorder : PreOrder kept.
Proof.
  split; [done|]. intros w1 w2 w3 (HA & ? & ? & ? & ?) (HB & ? & ? & ? & ?).
  split; [auto|]. split_and!; congruence.
Qed.

Lemma counted_kept V w w' : counted V w -> kept w w' -> counted V w'.
Proof.
  intros Hv (Hc & ? & ? & ? & ?). apply (counted_same V w w'); try done.
  intros i Hi. destruct (cv_conn _ _ Hv i Hi) as (c & Hci & Hf). exists c. split; [|done].
  apply Hc; [done|]. unfold raft_conn_outgoing. by destruct Hf as [-> | ->].
Qed.

Lemma kept_conn_free h : keeps kept (conn_free h).
Proof.
  intros w a w' E. pose proof (touch_lift h _ (op_free h) w a w' E) as (Ht & ? & ? & ?).
  quietly E. split; [|split_and!; try done; by apply Hq]. intros x c Hx Ho.
  destruct (decide (x = h)) as [->|Hne]; [|by rewrite Ht].
  unfold conn_free, lift in E. do 2 unbind E. unfold raft_conn_free in H2.
  rewrite Hx in H2. cbn in H2. apply bind_Some in H2 as (Hno & _ & _). congruence.
Qed.

(** What leaves connections, clusters and roles alone. *)
Lemma kept_still {A} (m : M A) : keeps calm m -> keeps quiet m -> keeps kept m.
Proof.
  intros Hc Hq w a w' E. destruct (Hc w a w' E) as (Ec & ? & ? & ?), (Hq w a w' E) as (_ & ? & _).
  split; [by rewrite Ec|by split_and!].
Qed.

(** The block of a new connection was not in use. *)
Lemma kept_put_accepted r ptr sock b x conn r' w a w' :
  raft_in_conn_malloc r ptr sock b x = Some (conn, r') ->
  (forall h, ptr = Some h -> conns r !! h = None) -> net w = r ->
  put_net r' w = Ret a w' -> kept w w'.
Proof.
  intros E Hptr <- [= _ <-].
  assert (conns r' = conns (net w) \/
    exists h c, ptr = Some h /\ conns r' = <[h := c]> (conns (net w))) as [Hc|(h & c & -> & Hc)].
  { destruct ptr as [h|]; cbn in E; [|injection E as _ <-; by left].
    destruct (with_tls (net w)); [|injection E as _ <-; right; by eexists _, _].
    apply bind_Some in E as ([ok r1] & E1 & E). apply bind_Some in E1 as ([ok' live] & _ & [= _ <-]).
    destruct ok; injection E as _ <-; [right; by eexists _, _|by left]. }
  - split; [cbn; by rewrite Hc|by split_and!].
  - split; [|by split_and!]. cbn. rewrite Hc. intros y d Hy _. rewrite lookup_insert_ne; [done|].
    intros <-. rewrite Hptr in Hy; done.
Qed.

Lemma kept_accept_one b : keeps kept (accept_one b).
Proof.
  intros w a w' E. unfold accept_one in E. unbind E.
  assert (kept w w0) as Hk by (refine (kept_still _ _ _ _ _ _ E0); walk).
  etrans; [exact Hk|]. destruct a0; try (by injection E as _ <-). do 2 unbind E.
  assert (calm w0 w1 /\ quiet w0 w1) as [Hc1 Hq1].
  { split; [refine ((_ : keeps calm _) _ _ _ E1); walk|refine ((_ : keeps quiet _) _ _ _ E1); walk]. }
  assert (net w1 = net w0) as Hn.
  { destruct (_ && _); [|by injection E1 as _ <-]. unfold session_answer in E1. unbind E1.
    assert (net w2 = net w0) as <-
      by (unfold pop in E2; by destruct (input w0); injection E2 as _ <-).
    destruct a1; by injection E1 as _ <-. }
  unbind E. destruct a1 as [conn r']. unbind E.
  assert (kept w1 (set_net w1 r')) as Hk1.
  { eapply kept_put_accepted; [done| |done|reflexivity]. intros x. case_bool_decide as Hf; [|done].
    intros [= <-]. apply Hf. }
  etrans; [split; [by rewrite (proj1 Hc1)|]; split_and!; [apply Hc1..|apply Hq1]|].
  etrans; [exact Hk1|]. destruct conn as [x|]; [|by injection E as _ <-].
  destruct added; [by injection E as _ <-|]. unbind E. injection E as _ <-. by eapply kept_conn_free.
Qed.

Lemma kept_accept_loop n b : keeps kept (accept_loop n b).
Proof.
  induction n as [|n IH]; cbn; [by intros w a w' [= _ <-]|].
  apply keeps_bind; [apply _|apply kept_accept_one|].
  intros [ret|]; [by intros w a w' [= _ <-]|apply IH].
Qed.

Lemma kept_dispatch_accept b : keeps kept (dispatch (Accept b)).
Proof.
  apply keeps_bind; [apply _|intros w a w' E; by eapply kept_accept_loop|].
  intros ok. apply kept_still; walk.
Qed.

(** ** Events *)

(** The event on [h] makes the candidate count a vote. *)
Definition vote_event (h ev : Z) (w : world) : bool :=
  match conns (net w) !! h with
  | Some c => bool_decide (Z.land ev (Z.lnot (EPOLLIN + EPOLLOUT)) = 0) &&
              bool_decide (Z.land ev (state c) <> 0) && vote_read h w
  | None => false
  end.

(** The index of the member whose connection is at [h]. *)
Definition member_no (w : world) (h : Z) : nat :=
  Z.to_nat ((h - s_cluster (srv w) - sizeof_cluster - 32) / sizeof_member).

Definition new_votes (h ev : Z) (w : world) : list nat :=
  if vote_event h ev w then [member_no w h] else [].

Lemma member_no_conn w i : member_no w (member_conn (s_cluster (srv w)) i) = i.
Proof.
  unfold member_no, member_conn.
  replace (_ - _ - _ - 32) with (Z.of_nat i * sizeof_member) by lia.
  rewrite Z.div_mul by done. lia.
Qed.

(** A connection whose vote is counted waits for no event. *)
Lemma finished_no_event c ev :
  finished c -> Z.land ev (Z.lnot (EPOLLIN + EPOLLOUT)) = 0 -> Z.land ev (state c) = 0.
Proof.
  intros Hf Hev. assert (Z.land ev (state c) = Z.land (Z.land ev (Z.lnot 5)) (state c)) as ->.
  { rewrite <-Z.land_assoc. f_equal. by destruct Hf as [-> | ->]. }
  change (Z.lnot 5) with (Z.lnot (EPOLLIN + EPOLLOUT)). by rewrite Hev.
Qed.

Lemma cleared_run h w a w' :
  conn_clear h w = Ret a w' -> exists c, conns (net w') !! h = Some c /\ finished c.
Proof.
  unfold conn_clear, lift. intros E. do 2 unbind E. injection E as _ <-.
  unfold raft_conn_clear in H. apply bind_Some in H as (c & _ & H).
  apply bind_Some in H as (_ & _ & H). apply bind_Some in H as (_ & _ & H).
  apply bind_Some in H as (r1 & _ & [= <-]). cbn. rewrite lookup_insert_eq. eexists. split; [done|].
  by right.
Qed.

(** The majority the candidate asked for. *)
Definition won (V : list nat) (w : world) : Prop :=
  NoDup V /\ exists cl, clusters w !! s_cluster (srv w) = Some cl /\
    (forall i, i ∈ V -> is_Some (members cl !! i)) /\
    s32 (require_old_votes cl) <= weight MEMBER_IN_OLD cl V /\
    s32 (require_new_votes cl) <= weight MEMBER_IN_NEW cl V.

(** What an event of a connection does to a candidate with the votes [V]. *)
Definition counts (V V' : list nat) (w w' : world) : Prop :=
  stopped w' \/ counted (V' ++ V) w' \/ is_leader (srv w') = true /\ won (V' ++ V) w.

Lemma counted_candidate V w : counted V w -> is_candidate (srv w) = true.
Proof. intros [_ _ _ (cl & o & n & _ & Hr & _)]. unfold is_candidate. by rewrite Hr. Qed.

Lemma request_vote_in_counts V h c ev w a w' :
  counted V w -> conns (net w) !! h = Some c -> state c = RAFT_CONN_STATE_REQUEST_VOTE_IN ->
  Z.land ev (Z.lnot (EPOLLIN + EPOLLOUT)) = 0 -> Z.land ev (state c) <> 0 ->
  state_request_vote_in h w = Ret a w' -> counts V (new_votes h ev w) w w'.
Proof.
  intros Hv Hc Hst Hev1 Hev2 E. pose proof Hv as [Hnd Hstale Hconn (cl & old & new & Hcl & Hr & Hm & Ho & Hn)].
  pose proof (cand_request_vote_in h c old new w a w' Hr Hc Hst E) as H.
  unfold new_votes, vote_event. rewrite Hc, !bool_decide_eq_true_2 by done. cbn [andb].
  assert (forall i, i ∈ V -> member_conn (s_cluster (srv w)) i <> h) as Hnot.
  { intros i Hi Heq. destruct (Hconn i Hi) as (c' & Hc' & Hf). rewrite Heq, Hc in Hc'.
    injection Hc' as <-. unfold finished in Hf. rewrite Hst in Hf. by destruct Hf. }
  destruct (vote_read h w).
  - destruct H as (i & m & <- & (cl' & Hcl' & Hi) & H). rewrite member_no_conn.
    rewrite Hcl in Hcl'. injection Hcl' as <-.
    assert (NoDup (i :: V)) as Hnd' by (constructor; [intros Hin; by apply (Hnot i)|done]).
    assert (forall j, j ∈ i :: V -> is_Some (members cl !! j)) as Hm'
      by (intros j [->|Hj]%elem_of_cons; [by eexists|by apply Hm]).
    cbn [app]. assert (forall f, weight f cl (i :: V) = f (m_type m) + weight f cl V) as Hw
      by (intros f; cbn; by rewrite Hi).
    cbv zeta in H. destruct (_ && _) eqn:Hwin.
    + right. right. split; [done|]. split; [done|]. exists cl.
      apply andb_true_iff in Hwin as [?%Z.leb_le ?%Z.leb_le]. rewrite !Hw. split_and!; try done; lia.
    + right. left. destruct H as ((Ht & Ecl & Esc & Est) & Hr' & Hready).
      split; [done|by rewrite Est| |].
      * rewrite Esc. intros j [->|Hj]%elem_of_cons.
        -- destruct Hready as (c' & ? & ?). exists c'. split; [done|]. by left.
        -- rewrite Ht by (by apply Hnot). by apply Hconn.
      * rewrite Ecl, Esc. exists cl. eexists _, _. split; [done|]. split; [done|].
        split; [done|]. rewrite !Hw. lia.
  - destruct H as [_ [Hs|Hs]]; [by left|]. right. left. apply (counted_touch V h w w' Hv Hs).
    intros i Hi Heq. by destruct (Hnot i).
Qed.

Lemma conn_event_counts V h ev w a w' :
  counted V w -> conn_event h ev w = Ret a w' -> counts V (new_votes h ev w) w w'.
Proof.
  intros Hv E. unfold conn_event in E. unbind E. apply get_conn_run in E0 as [Hc ->].
  case_bool_decide as Hev.
  - unfold new_votes, vote_event. rewrite Hc, bool_decide_eq_false_2 by done. right. left. cbn [app andb].
    destruct (raft_conn_outgoing a0) eqn:Ho.
    + stilly h E. apply (counted_touch V h w w' Hv Hs). intros _ _ _. by eapply cleared_run.
    + apply (counted_kept V w w' Hv). by eapply kept_conn_free.
  - case_bool_decide as Hev2.
    + destruct (decide (state a0 = RAFT_CONN_STATE_REQUEST_VOTE_IN)) as [Hst|Hst].
      { assert (process h w = state_request_vote_in h w) as Hp.
        { unfold process, get_conn, mbind, M_bind. cbv beta iota delta [get_net]. rewrite Hc. cbn.
          rewrite Hst. reflexivity. }
        rewrite Hp in E. by eapply request_vote_in_counts. }
      pose proof (cand_process h a0 w a w' (counted_candidate _ _ Hv) Hc Hst E) as Hb.
      assert (vote_event h ev w = false) as Hno.
      { unfold vote_event, vote_read. rewrite Hc, (proj2 (Z.eqb_neq _ _) Hst). cbn [andb].
        by destruct (input w) as [|[] ?]; rewrite ?andb_false_r. }
      unfold new_votes. rewrite Hno. cbn [app]. destruct Hb as [Hb|Hs]; [by left|]. right. left.
      apply (counted_touch V h w w' Hv Hs). intros i Hi Heq.
      destruct (cv_conn _ _ Hv i Hi) as (c' & Hc' & Hf). rewrite Heq, Hc in Hc'. injection Hc' as <-.
      destruct Hev2. by apply finished_no_event.
    + injection E as _ <-. unfold new_votes, vote_event.
      rewrite Hc, (bool_decide_eq_false_2 (_ <> 0)) by (by intros H).
      rewrite andb_false_r. right. by left.
Qed.

(** ** Starting an election *)

Lemma touch_set_fd h n : keeps (touch h) (set_conn_fd h n).
Proof.
  apply touch_lift. intros r r' (c & _ & [= <-])%bind_Some a Ha. cbn. by rewrite lookup_insert_ne.
Qed.
#[export] Hint Resolve touch_set_fd : server.

Lemma cand_connect p w a w' :
  is_candidate (srv w) = true -> member_connect p w = Ret a w' -> still (conn_of p) w w'.
Proof.
  intros Hc E. unfold member_connect in E. do 2 unbind E. stilly (conn_of p) E0. unbind E.
  stilly (conn_of p) E1. assert (still (conn_of p) w w1) as Hs1 by (by etrans).
  etrans; [exact Hs1|]. apply (still_candidate _ _ _ Hc) in Hs1.
  destruct a2; try (by stilly (conn_of p) E).
  do 2 unbind E. stilly (conn_of p) E2. stilly (conn_of p) E3.
  assert (still (conn_of p) w1 w3) as Hs13 by (by etrans). etrans; [exact Hs13|].
  eapply cand_established, E. by eapply still_candidate.
Qed.

Lemma cand_request_vote_of p w a w' :
  is_candidate (srv w) = true -> request_vote_of p w = Ret a w' -> still (conn_of p) w w'.
Proof.
  intros Hc E. unfold request_vote_of in E. unbind E. apply get_conn_run in E0 as [_ ->].
  destruct (_ =? _); [by stilly (conn_of p) E|].
  destruct (_ =? _); [by eapply cand_connect|by injection E as _ <-].
Qed.

Lemma cand_request_votes ps w a w' :
  is_candidate (srv w) = true -> iter request_vote_of ps w = Ret a w' ->
  quiet w w' /\ clusters w' = clusters w /\ s_cluster (srv w') = s_cluster (srv w) /\
  stale_cluster (srv w') = stale_cluster (srv w).
Proof.
  revert w. induction ps as [|p ps IH]; intros w Hc E; cbn in E; [by injection E as _ <-|].
  unbind E. pose proof (cand_request_vote_of p w _ w0 Hc E0) as Hs.
  pose proof (still_candidate _ _ _ Hc Hs) as Hc0. destruct Hs as [(_ & E1 & E2 & E3) Hq].
  destruct (IH w0 Hc0 E) as (Hq' & E1' & E2' & E3'). split; [by etrans|]. split_and!; congruence.
Qed.

Lemma campaign_counted w a w' :
  campaign w = Ret a w' -> stale_cluster (srv w) = [] -> counted [] w'.
Proof.
  intros E Hst. unfold campaign in E. do 2 unbind E. unbind E.
  unfold my_cluster in E0. do 2 unbind E0. injection E1 as <- <-. apply from_Ret in E0 as [Hcl ->].
  do 2 unbind E. unbind E. quietly E0.
  assert (calm (set_srv (set_srv w (set_s_term (srv w) (u64 (s_term (srv w) + 1))))
                 (set_role (set_s_term (srv w) (u64 (s_term (srv w) + 1)))
                    (CANDIDATE (s32 (require_old_votes a1)) (s32 (require_new_votes a1))))) w0) as Hm
    by (refine ((_ : keeps calm reset_timer_hard) _ _ _ E0); walk).
  destruct Hq as (_ & Hr0 & _), Hm as (_ & Hm1 & Hm2 & Hm3). cbn in Hr0, Hm1, Hm2, Hm3.
  unbind E. unfold my_members in E1. do 2 unbind E1. injection E1 as _ <-.
  unfold my_cluster in E2. do 2 unbind E2. injection E1 as <- <-. apply from_Ret in E2 as [Hcl' ->].
  apply cand_request_votes in E as ((_ & Hr & _) & E1 & E2 & E3);
    [|unfold is_candidate; by rewrite Hr0].
  split; [constructor|congruence|intros i Hi; set_solver|].
  exists a1. eexists _, _. rewrite E1, E2, Hr, Hr0, Hm1, Hm2. split; [done|]. split; [done|].
  split; [intros i Hi; set_solver|]. cbn. lia.
Qed.

(** ** Elections *)

Definition current_cluster (w : world) : option (Z * cluster) :=
  if s_cluster (srv w) =? 0 then None
  else c ← clusters w !! s_cluster (srv w); Some (s_cluster (srv w), c).

(** The member whose vote a step counts, if any. *)
Definition votes_of (e : option ready) (w : world) : list nat :=
  match e with
  | Some (In_conn h ev) => new_votes h ev w
  | Some (Out_conn h ev) =>
      if cluster_has_conn (current_cluster w) h then new_votes h ev w else []
  | _ => []
  end.

(** A candidate in the course of one election, and the members whose granting
    answers of its term it has read. *)
Inductive election : list nat -> world -> Prop :=
  | election_start w w' :
      campaign w = Ret tt w' -> stale_cluster (srv w) = [] -> election [] w'
  | election_step V e w w' :
      election V w -> server_step e w w' ->
      is_candidate (srv w') = true -> s_term (srv w') = s_term (srv w) ->
      election (votes_of e w ++ V) w'.

Lemma u64_succ_ne x : u64 (x + 1) <> x.
Proof.
  intros H. pose proof (wrap_range 64 (x + 1) ltac:(lia)). unfold wrap in *.
  pose proof (Z.div_mod (x + 1) (2 ^ 64) ltac:(lia)). lia.
Qed.

Lemma event_counts V e w w' :
  counted V w -> dispatch e w = Ret tt w' ->
  (s_term (srv w') <> s_term (srv w) /\ is_candidate (srv w') = true) \/
  counts V (votes_of (Some e) w) w w'.
Proof.
  intros Hv E. pose proof (counted_candidate _ _ Hv) as Hc.
  destruct e as [|adm|h ev|h ev]; cbn [votes_of]; unfold dispatch in E.
  - unfold process_timer_event in E. do 2 unbind E.
    rewrite candidate_not_leader in E by done. destruct (election_timeout _).
    + unfold start_election, convert_to_candidate in E. unbind E.
      match type of E with context [is_follower ?s] => assert (is_follower s = false) as Hf end.
      { unfold is_candidate, is_follower in *. cbn. by destruct (s_role (srv w)). }
      rewrite Hf in E. apply campaign_run in E as (_ & Ht & Hc' & _). left. split; [|done].
      rewrite Ht. apply u64_succ_ne.
    + injection E as <-. right. right. left. apply (counted_same V w); try done. apply Hv.
  - right. right. left. apply (counted_kept V w w' Hv). by eapply (kept_dispatch_accept adm).
  - right. do 2 unbind E. injection E0 as <- <-. cbv zeta in E. change (if s_cluster (srv w) =? 0 then _ else _)
      with (current_cluster w) in E.
    destruct (cluster_has_conn _ _); [by eapply conn_event_counts|].
    injection E as <-. right. by left.
  - right. by eapply conn_event_counts.
Qed.

Lemma step_counts V e w w' :
  counted V w -> server_step e w w' ->
  (s_term (srv w') <> s_term (srv w) /\ is_candidate (srv w') = true) \/
  counts V (votes_of e w) w w'.
Proof.
  intros Hv Hs. pose proof (counted_candidate _ _ Hv) as Hc.
  destruct Hs as [e w w' E|w w' E|w w' E|w w' E]; [by apply event_counts|..]; right.
  - unfold replicate_entry in E. unbind E. unfold is_candidate in Hc. by destruct (s_role (srv w)).
  - right. left. apply (counted_kept V w w' Hv). unbind E.
    refine ((_ : keeps kept (iter conn_free _)) _ _ _ E). apply keeps_iter; [apply _|]. apply kept_conn_free.
  - right. left. unfold free_stale_clusters in E. unbind E. rewrite (cv_stale _ _ Hv) in E.
    unbind E. injection E as <-. injection E0 as _ <-.
    apply (counted_same V w); try done; [|apply Hv]. cbn. by rewrite (cv_stale _ _ Hv).
Qed.

Lemma election_counted V w : election V w -> counted V w.
Proof.
  induction 1 as [w w' E Hst|V e w w' _ IH Hs Hc Ht]; [by eapply campaign_counted|].
  destruct (step_counts V e w w' IH Hs) as [[? _]|[[Hf|(_ & Hr & _)]|[?|[Hl _]]]]; try done.
  - unfold is_follower, is_candidate in *. by destruct (s_role (srv w')).
  - unfold is_candidate in Hc. by rewrite Hr in Hc.
  - unfold is_leader, is_candidate in *. by destruct (s_role (srv w')).
Qed.

Lemma election_won_core V e w w' :
  election V w -> server_step e w w' -> is_leader (srv w') = true -> ~ founded w' ->
  won (votes_of e w ++ V) w.
Proof.
  intros Hel Hs Hl Hf. apply election_counted in Hel as Hv.
  destruct (step_counts V e w w' Hv Hs) as [[_ Hc]|[[Hx|Hx]|[Hx|[_ Hx]]]]; try done.
  - apply candidate_not_leader in Hc. congruence.
  - unfold is_leader, is_follower in *. by destruct (s_role (srv w')).
  - apply counted_candidate, candidate_not_leader in Hx. congruence.
Qed.

(** ** Majorities *)

(** The members [V] of [cl]. *)
Definition voters (cl : cluster) (V : list nat) : list member := omap (fun i => members cl !! i) V.
Definition voted (cl : cluster) (V : list nat) (m : member) : bool :=
  bool_decide (m_id m ∈ m_id <$> voters cl V).

Lemma s32_small x : 0 <= x < 2 ^ 31 -> s32 x = x.
Proof. intros Hx. unfold s32. rewrite wrap_small by lia. destruct (Z.ltb_spec x (2 ^ 31)); lia. Qed.

Lemma elem_of_voters cl V m : m ∈ voters cl V <-> exists i, i ∈ V /\ members cl !! i = Some m.
Proof. apply list_elem_of_omap. Qed.

Lemma voters_ids cl V :
  NoDup (m_id <$> members cl) -> NoDup V -> NoDup (m_id <$> voters cl V).
Proof.
  intros Hnd. induction 1 as [|i V Hi _ IH]; [constructor|]. cbn.
  destruct (members cl !! i) as [m|] eqn:Em; [|exact IH]. rewrite fmap_cons. constructor; [|exact IH].
  intros (x & Hid & (j & Hj & Ex)%elem_of_voters)%list_elem_of_fmap.
  assert (i = j) as ->; [|done].
  eapply (NoDup_lookup _ _ _ (m_id m) Hnd); rewrite list_lookup_fmap; [by rewrite Em|].
  rewrite Ex. cbn. congruence.
Qed.

Lemma weight_voters f cl V :
  weight f cl V = foldr Z.add 0 ((fun m => f (m_type m)) <$> voters cl V).
Proof.
  induction V as [|i V IH]; [done|]. unfold weight, voters in *. cbn. rewrite IH.
  by destruct (members cl !! i).
Qed.

(** The weight of the voters is at most the number of members of the
    configuration that voted. *)
Lemma weight_count f cfg cl V :
  NoDup (m_id <$> members cl) -> NoDup V ->
  (forall m, m ∈ members cl -> f (m_type m) = if decide (m_id m ∈ cfg) then 1 else 0) ->
  weight f cl V <= count (voted cl V) cfg (members cl).
Proof.
  intros Hnd HV Hf. rewrite weight_voters.
  assert (foldr Z.add 0 ((fun m => f (m_type m)) <$> voters cl V) =
          Z.of_nat (length (filter (fun m => m_id m ∈ cfg) (voters cl V)))) as ->.
  { assert (Forall (fun m => m ∈ members cl) (voters cl V)) as Hin.
    { apply Forall_forall. intros m (i & _ & Hi)%elem_of_voters. by eapply list_elem_of_lookup_2. }
    induction Hin as [|m L Hm _ IH]; [done|]. rewrite fmap_cons, filter_cons. cbn [foldr].
    rewrite (Hf m Hm), IH. case_decide; cbn [length]; lia. }
  unfold count. apply inj_le. rewrite <-(length_fmap m_id), <-(length_fmap m_id (filter _ (members cl))).
  apply submseteq_length, NoDup_submseteq.
  { by apply NoDup_fmap_filter, voters_ids. }
  intros x (m & -> & Hm)%list_elem_of_fmap. apply list_elem_of_filter in Hm as [Hc Hm].
  apply list_elem_of_fmap_2, list_elem_of_filter. split.
  - split; [|done]. apply bool_decide_eq_true. by apply list_elem_of_fmap_2.
  - apply elem_of_voters in Hm as (i & _ & Hi). by eapply list_elem_of_lookup_2.
Qed.

(** The votes behind a victory. *)
Lemma election_majority V e w w' l cl
    (Hel : election V w) (Hs : server_step e w w')
    (Hlead : is_leader (srv w') = true) (Hf : ~ founded w')
    (Hcl : clusters w !! s_cluster (srv w) = Some cl)
    (Hlog : electable l) (Hof : cluster_of l (s_id (srv w)) cl) :
  let V' := votes_of e w ++ V in
  NoDup V' /\ (forall i, i ∈ V' -> is_Some (members cl !! i)) /\
  old_n l < 2 * Z.of_nat (size (supporters (voted cl V') (machine_id <$> old_machines l)
                                  (s_id (srv w)) (members cl))) /\
  (new_n l <> 0 ->
   new_n l < 2 * Z.of_nat (size (supporters (voted cl V') (machine_id <$> new_machines l)
                                  (s_id (srv w)) (members cl)))).
Proof.
  intros V'. destruct (election_won_core V e w w' Hel Hs Hlead Hf) as (Hnd & cl' & Hcl' & Hm & Ho & Hn).
  rewrite Hcl in Hcl'. injection Hcl' as <-. split; [done|]. split; [done|].
  destruct Hof as [Hok _ _ Hro Hrn]. pose proof Hlog as (_ & _ & _ & Hon & Hnn).
  assert (s_id (srv w) ∉ m_id <$> members cl) as Hl
    by (intros Hin; apply (mo_ids _ _ _ _ Hok) in Hin; tauto).
  assert (forall m, m ∈ members cl ->
    MEMBER_IN_OLD (m_type m) = (if decide (m_id m ∈ machine_id <$> old_machines l) then 1 else 0) /\
    MEMBER_IN_NEW (m_type m) = (if decide (m_id m ∈ machine_id <$> new_machines l) then 1 else 0)) as Hk.
  { intros m Hin. pose proof (mo_kind _ _ _ _ Hok) as Hall. rewrite Forall_forall in Hall.
    rewrite (Hall m Hin). apply kind_in. }
  rewrite !supporters_size by (done || apply Hok).
  pose proof (weight_count MEMBER_IN_OLD (machine_id <$> old_machines l) cl V' (mo_nodup _ _ _ _ Hok) Hnd
    (fun m Hm => proj1 (Hk m Hm))) as Ho'.
  pose proof (weight_count MEMBER_IN_NEW (machine_id <$> new_machines l) cl V' (mo_nodup _ _ _ _ Hok) Hnd
    (fun m Hm => proj2 (Hk m Hm))) as Hn'.
  pose proof (Z.div_mod (old_n l) 2 ltac:(lia)). pose proof (Z.mod_pos_bound (old_n l) 2 ltac:(lia)).
  pose proof (Z.div_mod (new_n l) 2 ltac:(lia)). pose proof (Z.mod_pos_bound (new_n l) 2 ltac:(lia)).
  fold V' in Ho, Hn. unfold indicator in *. split.
  - destruct (decide (s_id (srv w) ∈ machine_id <$> old_machines l)); rewrite s32_small in Ho; lia.
  - intros Hne. rewrite (proj2 (Z.eqb_neq _ _) Hne) in Hrn.
    destruct (decide (s_id (srv w) ∈ machine_id <$> new_machines l)); rewrite s32_small in Hn; lia.
Qed.

(** C3: when a candidate becomes leader, the votes it has counted come from
    different members of its cluster, each of which answered it with a vote of
    the candidate's current term on that member's own connection; together with
    the candidate they are more than half of the machines of the old
    configuration of its log and, during a change, of the new one. *)
Theorem election_won_by_majority V e w w' l cl
    (Hel : election V w) (Hs : server_step e w w')
    (Hlead : is_leader (srv w') = true) (Hf : ~ founded w')
    (Hcl : clusters w !! s_cluster (srv w) = Some cl)
    (Hlog : electable l) (Hof : cluster_of l (s_id (srv w)) cl) :
  let V' := votes_of e w ++ V in
  NoDup V' /\ (forall i, i ∈ V' -> is_Some (members cl !! i)) /\
  old_n l < 2 * Z.of_nat (size (supporters (voted cl V') (machine_id <$> old_machines l)
                                  (s_id (srv w)) (members cl))) /\
  (new_n l <> 0 ->
   new_n l < 2 * Z.of_nat (size (supporters (voted cl V') (machine_id <$> new_machines l)
                                  (s_id (srv w)) (members cl)))).
Proof. by eapply election_majority. Qed.

(** ** A sample election *)

Definition sample_cluster : cluster :=
  match cluster_malloc exact_malloc sample_log 3 with
  | Some (Some c) => c
  | _ => {| require_old_votes := 0; require_new_votes := 0; members_n := 0; members := [] |}
  end.

Lemma sample_cluster_of : cluster_of sample_log 3 sample_cluster.
Proof.
  destruct (cluster_malloc_core exact_malloc sample_log 3 sample_electable exact_malloc_ok)
    as (res & E & H).
  assert (match cluster_malloc exact_malloc sample_log 3 with Some (Some _) => true | _ => false end = true)
    as E' by (vm_compute; reflexivity).
  unfold sample_cluster. rewrite E in *. destruct res as [c|]; [exact H|discriminate E'].
Qed.

(** The answer that grants a vote of term [t]. *)
Definition grant (t : Z) : list Z :=
  take 16 (put_request_vote_res {| rvr_term := t; rvr_granted := true |} (replicate 80 0)).

(** Machine 3 connects to its three members, asks them, and two of them vote. *)
Definition before_election : world :=
  sample_world (CANDIDATE 0 0) (Some (8192, sample_cluster))
    [Random 0; Connected 10; Wrote 32; Connected 11; Wrote 32; Connected 12; Wrote 32;
     Got (grant 6); Got (grant 6)].
Definition in_election : world :=
  match campaign before_election with Ret _ w => w | _ => before_election end.
Definition answer_of (i : nat) : ready := Out_conn (member_conn 8192 i) EPOLLIN.
Definition one_vote : world := after (answer_of 0) in_election.

Lemma sample_election : election [0%nat] one_vote.
Proof.
  apply (election_step [] (Some (answer_of 0)) in_election one_vote).
  - apply (election_start before_election in_election); [|by vm_compute].
    unfold in_election. assert (match campaign before_election with Ret _ _ => true | _ => false end = true)
      as E by (by vm_compute).
    by destruct (campaign before_election) as [[] ?| |].
  - apply after_step. by vm_compute.
  - by vm_compute.
  - by vm_compute.
Qed.

Lemma election_won_by_majority_witness :
  is_leader (srv (after (answer_of 1) one_vote)) = true /\
  NoDup [1%nat; 0%nat] /\
  old_n sample_log < 2 * Z.of_nat (size (supporters (voted sample_cluster [1%nat; 0%nat])
    (machine_id <$> old_machines sample_log) 3 (members sample_cluster))).
Proof.
  assert (votes_of (Some (answer_of 1)) one_vote = [1%nat]) as Ev by (by vm_compute).
  pose proof (election_won_by_majority [0%nat] (Some (answer_of 1)) one_vote
    (after (answer_of 1) one_vote) sample_log sample_cluster sample_election) as H.
  rewrite Ev in H. cbv zeta in H. cbn [app] in H.
  split; [by vm_compute|].
  destruct H as (H1 & _ & H2 & _); [apply after_step; by vm_compute|by vm_compute| |by vm_compute|
    exact sample_electable|exact sample_cluster_of|by split].
  intros (H & _). by vm_compute in H.
Defined.
