(* ===== verification/Leaders.v ===== *)
(** * One leader per term (service_raft.c)

    The machines of a cluster together: each runs the server of Server.v.  The
    votes a candidate counts are answers that other machines gave, so the
    majority of Votes.v and the single vote of Election.v combine to the
    election safety of RAFT: two machines that win an election of the same term
    over the same configuration are the same machine.

    What the machines assume of the network is that an answer that arrives on
    the connection to a member was given by that member to a request of the
    candidate.  The histories of the machines are arbitrary runs of their event
    loops; the exception is a machine that undoes its vote by one of the steps
    [lapse] of Election.v. *)

From S2P Require Import Prelude Machine Log LogInv Tls RaftConn Proto Cluster Server Election Votes.

(** ** What a granted vote says about the voter *)

Lemma bufs_emit e : keeps bufs_same (emit e).
Proof. by intros w a w' [= _ <-]. Qed.
Lemma bufs_mod_srv f : keeps bufs_same (mod_srv f).
Proof. by intros w a w' [= _ <-]. Qed.
#[export] Hint Resolve bufs_emit bufs_mod_srv : server.



(** ** The machines of a cluster *)

Section cluster.

(** [hist x]: the states machine [x] goes through between the steps of its event
    loop. *)
Context (hist : Z -> world -> Prop).











End cluster.

(** ** A sample election *)






