(* ===== verification/Delivery.v ===== *)
(** * Messages between two machines (service_raft.c, raft_conn.c, raft_proto.h)

    One machine writes the fields of a message to the buffer of a connection and
    sends the buffer with [raft_conn_full_write_buffer], in as many events as
    [send] takes; another machine reads it, a request with the [read] of
    [state_in_cmd], a reply with [raft_conn_full_read_to_buffer], in as many
    events as the bytes arrive in; then it takes the fields from its buffer. *)

From S2P Require Import Prelude Machine Log LogInv Tls RaftConn Proto Cluster Server Election.

(** ** Transfers that take several events *)

(** [m] in up to [n] events, until it reports that the transfer is complete. *)
Fixpoint until (n : nat) (m : M bool) : M bool :=
  match n with
  | O => mret false
  | S n => ok ← m; if ok : bool then mret true else until n m
  end.

(** The bytes that leave on connection [h]. *)
Definition sent_on (h : Z) (es : list event) : list Z :=
  concat ((fun e => match e with Sent k bs => if k =? h then bs else [] | _ => [] end) <$> es).

(** The bytes that [read] brings. *)
Definition arrived (l : list answer) : list Z :=
  concat ((fun a => match a with Got bs => bs | _ => [] end) <$> l).

(** How many bytes [send] takes. *)
Definition taken (l : list answer) : Z :=
  foldr (fun a n => match a with Wrote k => k | _ => 0 end + n) 0 l.

(** Answers without a failure: the socket may have no room, or nothing to read. *)
Definition writes (a : answer) : Prop := match a with Wrote k => 0 < k | Again => True | _ => False end.
Definition reads (a : answer) : Prop := match a with Got bs => bs <> [] | Again => True | _ => False end.

(** The read of a request, complete when [size] bytes are there, and of a reply. *)
Definition request_in (h size : Z) : M bool :=
  readed ← read_cmd h; mret (bool_decide (readed = Some size)).
Definition reply_in (h size : Z) : M bool := full_read_to_buffer h false size.

(** ** Sending *)

Lemma wrote_run h i size c k l w :
  input w = Wrote k :: l -> conns (net w) !! h = Some c ->
  0 < k <= unio c -> unio c <= size -> size <= RAFT_CONN_BUFFER_SIZE ->
  exists w', full_write_buffer h i size w = Ret (unio c =? k) w' /\ input w' = l /\
    bufs w' = bufs w /\ conns (net w') !! h = Some (set_io c (state c) (unio c - k)) /\
    output w' = output w ++ [Sent h (field (Z.to_nat (size - unio c)) (Z.to_nat k) (bufs w h))].
Proof.
  intros Hin Hc Hk Hu Hs. unfold RAFT_CONN_BUFFER_SIZE in *.
  unfold full_write_buffer, sys_write, pop, mbind, M_bind, mret, M_ret. rewrite Hin.
  cbv beta iota delta [get_net]. cbn [net set_input].
  unfold raft_conn_full_write_buffer, conn_full_write, conn_write, conn_check_write. rewrite !Hc.
  cbn [mbind option_bind]. rewrite option_guard_True by lia. cbn [mbind option_bind].
  rewrite bool_decide_eq_true_2 by lia. rewrite option_guard_True by lia. cbn.
  rewrite lookup_insert_eq. cbn.
  unfold sent. rewrite bool_decide_eq_true_2 by lia. rewrite !wrap_small by lia. cbn.
  replace (unio c - k =? 0) with (unio c =? k)
    by (destruct (Z.eqb_spec (unio c - k) 0), (Z.eqb_spec (unio c) k); lia || done).
  eexists. split_and!; [done|done|done|apply lookup_insert_eq|done].
Qed.

Lemma send_again_run h i size c l w :
  input w = Again :: l -> conns (net w) !! h = Some c -> 0 < unio c ->
  full_write_buffer h i size w = Ret false (set_input w l).
Proof.
  intros Hin Hc Hu. unfold full_write_buffer, sys_write, pop, mbind, M_bind, mret, M_ret. rewrite Hin.
  cbv beta iota delta [get_net]. cbn [net set_input].
  unfold raft_conn_full_write_buffer, conn_full_write, conn_write, conn_check_write. rewrite !Hc.
  cbn [mbind option_bind]. rewrite option_guard_True by lia. done.
Qed.

(** The rest of a buffer of which [size - unio c] bytes have left. *)
Lemma send_all h i size l : forall c w,
  input w = l -> Forall writes l -> taken l = unio c ->
  conns (net w) !! h = Some c -> 0 < unio c <= size -> size <= RAFT_CONN_BUFFER_SIZE ->
  length (bufs w h) = Z.to_nat RAFT_CONN_BUFFER_SIZE ->
  exists w' es, until (length l) (full_write_buffer h i size) w = Ret true w' /\
    output w' = output w ++ es /\
    sent_on h es = field (Z.to_nat (size - unio c)) (Z.to_nat (unio c)) (bufs w h).
Proof.
  induction l as [|a l IH]; intros c w Hin Hl Ht Hc Hu Hs Hb; [cbn in Ht; lia|].
  apply Forall_cons in Hl as [Ha Hl].
  assert (0 <= taken l) as Hpos.
  { clear -Hl. induction Hl as [|x l Hx _ IH]; cbn [taken foldr]; [lia|].
    destruct x; cbn in *; fold (taken l); lia || done. }
  change (taken (a :: l)) with (match a with Wrote k => k | _ => 0 end + taken l) in Ht.
  cbn [length until]. destruct a; try done; cbn [writes] in Ha.
  - destruct (wrote_run h i size c n l w) as (w1 & E & Hi1 & Hb1 & Hc1 & Ho1); try done; try lia.
    rewrite (bind_run _ _ _ _ _ E). destruct (Z.eqb_spec (unio c) n) as [<-|Hn].
    + eexists w1, _. split; [done|]. split; [done|]. cbn. by rewrite Z.eqb_refl, app_nil_r.
    + destruct (IH (set_io c (state c) (unio c - n)) w1) as (w' & es & E' & Ho & Hes);
        try done; cbn [unio set_io]; rewrite ?Hb1; try done; try lia.
      eexists w', (Sent h _ :: es). split; [done|]. rewrite Ho, Ho1, <-app_assoc. split; [done|].
      cbn [sent_on fmap list_fmap concat]. rewrite Z.eqb_refl. fold (sent_on h es).
      rewrite Hes, Hb1. cbn [unio set_io]. unfold field.
      replace (Z.to_nat (unio c)) with (Z.to_nat n + Z.to_nat (unio c - n))%nat by lia.
      rewrite <-take_take_drop, drop_drop. do 3 f_equal. lia.
  - rewrite (bind_run _ _ _ _ _ (send_again_run h i size c l w Hin Hc ltac:(lia))).
    by apply (IH c (set_input w l)).
Qed.

(** ** Receiving *)

(** A connection that has [off] bytes of a message of [size] in its buffer. *)
Section receive.
Context (h size start : Z) (rd : M bool).

(** What one read does to it, where [start] bytes were to come at first. *)
Hypothesis rd_got : forall w c bs l,
  input w = Got bs :: l -> conns (net w) !! h = Some c -> bs <> [] ->
  Z.of_nat (length bs) <= unio c -> unio c <= start ->
  exists w', rd w = Ret (start - (unio c - Z.of_nat (length bs)) =? size) w' /\ input w' = l /\
    bufs w' h = fill (Z.to_nat (start - unio c)) bs (bufs w h) /\
    conns (net w') !! h = Some (set_io c (state c) (unio c - Z.of_nat (length bs))).
Hypothesis rd_again : forall w c l,
  input w = Again :: l -> conns (net w) !! h = Some c -> 0 < unio c ->
  rd w = Ret false (set_input w l).

Lemma receive_all l : forall c w,
  input w = l -> Forall reads l -> conns (net w) !! h = Some c ->
  0 < unio c <= start -> 0 < size <= start -> start <= Z.of_nat (length (bufs w h)) ->
  start - unio c < size ->
  start - unio c + Z.of_nat (length (arrived l)) = size ->
  exists w', until (length l) rd w = Ret true w' /\
    bufs w' h = fill (Z.to_nat (start - unio c)) (arrived l) (bufs w h).
Proof.
  induction l as [|a l IH]; intros c w Hin Hl Hc Hu Hs Hb Ho Ht; [cbn in Ht; lia|].
  apply Forall_cons in Hl as [Ha Hl]. cbn [length until].
  change (arrived (a :: l)) with ((match a with Got bs => bs | _ => [] end) ++ arrived l) in *.
  rewrite length_app in Ht. destruct a; try done; cbn [reads] in Ha.
  - assert (0 < length bs)%nat by (destruct bs; [done|cbn; lia]).
    destruct (rd_got w c bs l) as (w1 & E & Hi1 & Hb1 & Hc1); try done; try lia.
    rewrite (bind_run _ _ _ _ _ E). destruct (Z.eqb_spec (start - (unio c - Z.of_nat (length bs))) size).
    + exists w1. split; [done|]. rewrite (nil_length_inv (arrived l)) by lia. by rewrite app_nil_r.
    + destruct (IH (set_io c (state c) (unio c - Z.of_nat (length bs))) w1) as (w' & E' & Hb');
        try done; cbn [unio set_io]; try lia.
      { rewrite Hb1, length_fill; lia. }
      exists w'. split; [done|]. rewrite Hb', Hb1. cbn [unio set_io].
      replace (Z.to_nat (start - (unio c - Z.of_nat (length bs))))
        with (Z.to_nat (start - unio c) + length bs)%nat by lia.
      apply fill_fill. lia.
  - rewrite (bind_run _ _ _ _ _ (rd_again w c l Hin Hc ltac:(lia))). cbn [app length] in *.
    apply (IH c (set_input w l)); try done; lia.
Qed.

End receive.

Lemma reply_got h size w c bs l :
  size <= RAFT_CONN_BUFFER_SIZE ->
  input w = Got bs :: l -> conns (net w) !! h = Some c -> bs <> [] ->
  Z.of_nat (length bs) <= unio c -> unio c <= size ->
  exists w', reply_in h size w = Ret (size - (unio c - Z.of_nat (length bs)) =? size) w' /\ input w' = l /\
    bufs w' h = fill (Z.to_nat (size - unio c)) bs (bufs w h) /\
    conns (net w') !! h = Some (set_io c (state c) (unio c - Z.of_nat (length bs))).
Proof.
  intros Hs Hin Hc Hne Hn Hu. assert (0 < length bs)%nat by (destruct bs; [done|cbn; lia]).
  unfold RAFT_CONN_BUFFER_SIZE in Hs.
  unfold reply_in, full_read_to_buffer, sys_read, pop, mbind, M_bind, mret, M_ret. rewrite Hin.
  cbv beta iota delta [get_net]. cbn [net set_input].
  unfold raft_conn_full_read_to_buffer, raft_conn_full_read, raft_conn_read, conn_check_read. rewrite !Hc.
  cbn [mbind option_bind]. rewrite option_guard_True by lia. cbn [mbind option_bind].
  rewrite bool_decide_eq_true_2 by lia. rewrite option_guard_True by lia. cbn -[bool_decide].
  rewrite lookup_insert_eq. cbn. rewrite !wrap_small by lia.
  replace (unio c - Z.of_nat (length bs) =? 0) with (size - (unio c - Z.of_nat (length bs)) =? size)
    by (destruct (Z.eqb_spec (unio c - Z.of_nat (length bs)) 0),
      (Z.eqb_spec (size - (unio c - Z.of_nat (length bs))) size); lia || done).
  eexists. split_and!; [done|done|by cbn; rewrite Z.eqb_refl|apply lookup_insert_eq].
Qed.

Lemma reply_again h size w c l :
  input w = Again :: l -> conns (net w) !! h = Some c -> 0 < unio c ->
  reply_in h size w = Ret false (set_input w l).
Proof.
  intros Hin Hc Hu. unfold reply_in, full_read_to_buffer, sys_read, pop, mbind, M_bind, mret, M_ret.
  rewrite Hin. cbv beta iota delta [get_net]. cbn [net set_input].
  unfold raft_conn_full_read_to_buffer, raft_conn_full_read, raft_conn_read, conn_check_read. rewrite !Hc.
  cbn [mbind option_bind]. rewrite option_guard_True by lia. done.
Qed.

Lemma request_got h size w c bs l :
  input w = Got bs :: l -> conns (net w) !! h = Some c -> bs <> [] ->
  Z.of_nat (length bs) <= unio c -> unio c <= RAFT_CONN_BUFFER_SIZE ->
  exists w', request_in h size w =
      Ret (RAFT_CONN_BUFFER_SIZE - (unio c - Z.of_nat (length bs)) =? size) w' /\ input w' = l /\
    bufs w' h = fill (Z.to_nat (RAFT_CONN_BUFFER_SIZE - unio c)) bs (bufs w h) /\
    conns (net w') !! h = Some (set_io c (state c) (unio c - Z.of_nat (length bs))).
Proof.
  intros Hin Hc Hne Hn Hu. assert (0 < length bs)%nat by (destruct bs; [done|cbn; lia]).
  unfold RAFT_CONN_BUFFER_SIZE in Hu.
  unfold request_in, read_cmd, get_conn, sys_read, pop, mbind, M_bind, mret, M_ret.
  cbv beta iota delta [get_net]. rewrite Hc. cbv beta iota delta [from mret M_ret]. rewrite Hin.
  cbn [net set_input]. unfold raft_conn_read, conn_check_read. rewrite !Hc.
  cbn [mbind option_bind]. rewrite option_guard_True by lia. cbn [mbind option_bind].
  rewrite bool_decide_eq_true_2 by lia. rewrite option_guard_True by lia. cbn -[RAFT_CONN_BUFFER_SIZE].
  rewrite lookup_insert_eq. cbn -[RAFT_CONN_BUFFER_SIZE]. unfold RAFT_CONN_BUFFER_SIZE.
  rewrite (wrap_small 64 (unio c - Z.of_nat (length bs))) by lia. rewrite !wrap_small by lia.
  replace (bool_decide (Some (80 - (unio c - Z.of_nat (length bs))) = Some size))
    with (80 - (unio c - Z.of_nat (length bs)) =? size)
    by (case_bool_decide as Hx; [injection Hx as <-; apply Z.eqb_refl|];
        apply Z.eqb_neq; congruence).
  eexists. split_and!; [done|done|by cbn; rewrite Z.eqb_refl|apply lookup_insert_eq].
Qed.

Lemma request_again h size w c l :
  input w = Again :: l -> conns (net w) !! h = Some c -> 0 < unio c ->
  request_in h size w = Ret false (set_input w l).
Proof.
  intros Hin Hc Hu. unfold request_in, read_cmd, get_conn, sys_read, pop, mbind, M_bind, mret, M_ret.
  cbv beta iota delta [get_net]. rewrite Hc. cbv beta iota delta [from mret M_ret]. rewrite Hin.
  cbn [net set_input]. unfold raft_conn_read, conn_check_read. rewrite !Hc. cbn [mbind option_bind].
  rewrite option_guard_True by lia. done.
Qed.

(** ** Delivery *)

(** A message that is written with [put], sent as [size] bytes, read with [rd]
    on a connection on which [start] bytes are to come, and taken from the buffer
    with [get] is the message that was written; the transfer is complete once
    the system has taken and delivered the bytes, in any pieces. *)
Definition exchanged {A} (put : A -> list Z -> list Z) (get : list Z -> A) (ok : A -> Prop)
    (size start : Z) (rd : Z -> Z -> M bool) : Prop :=
  forall (m : A) (i : bool) ws hs cs b wr hr cr,
    ok m -> Z.of_nat (length b) = RAFT_CONN_BUFFER_SIZE -> bufs ws hs = put m b ->
    conns (net ws) !! hs = Some cs -> unio cs = size ->
    Forall writes (input ws) -> taken (input ws) = size ->
    Z.of_nat (length (bufs wr hr)) = RAFT_CONN_BUFFER_SIZE ->
    conns (net wr) !! hr = Some cr -> unio cr = start -> Forall reads (input wr) ->
    exists ws' es,
      until (length (input ws)) (full_write_buffer hs i size) ws = Ret true ws' /\
      output ws' = output ws ++ es /\
      (arrived (input wr) = sent_on hs es -> exists wr',
         until (length (input wr)) (rd hr size) wr = Ret true wr' /\ get (bufs wr' hr) = m).

Lemma exchange {A} (W : Wire A) start rd :
  (forall h w c bs l, input w = Got bs :: l -> conns (net w) !! h = Some c -> bs <> [] ->
     Z.of_nat (length bs) <= unio c -> unio c <= start ->
     exists w', rd h (Z.of_nat msg_size) w =
         Ret (start - (unio c - Z.of_nat (length bs)) =? Z.of_nat msg_size) w' /\ input w' = l /\
       bufs w' h = fill (Z.to_nat (start - unio c)) bs (bufs w h) /\
       conns (net w') !! h = Some (set_io c (state c) (unio c - Z.of_nat (length bs)))) ->
  (forall h w c l, input w = Again :: l -> conns (net w) !! h = Some c -> 0 < unio c ->
     rd h (Z.of_nat msg_size) w = Ret false (set_input w l)) ->
  (0 < msg_size)%nat -> Z.of_nat msg_size <= start <= RAFT_CONN_BUFFER_SIZE ->
  exchanged put_msg get_msg msg_ok (Z.of_nat msg_size) start rd.
Proof.
  intros Hgot Hagain H0 Hst m i ws hs cs b wr hr cr Hok Hb Ebs Hcs Hus Hw Ht Hbr Hcr Hur Hr.
  pose proof (length_put_msg m b ltac:(lia)) as Hlp.
  destruct (send_all hs i (Z.of_nat msg_size) (input ws) cs ws) as (ws' & es & E & Ho & Hes);
    rewrite ?Ebs, ?Hlp; try done; try lia.
  exists ws', es. split; [done|]. split; [done|]. intros Ha.
  rewrite Hus, Z.sub_diag, Nat2Z.id, Ebs in Hes. unfold field in Hes. rewrite drop_0 in Hes.
  rewrite Hes in Ha.
  assert (length (arrived (input wr)) = msg_size) as Hla by (rewrite Ha, length_take; lia).
  destruct (receive_all hr (Z.of_nat msg_size) start (rd hr (Z.of_nat msg_size)) (Hgot hr) (Hagain hr)
    (input wr) cr wr) as (wr' & E' & Hb'); try done; try lia.
  exists wr'. split; [done|]. rewrite Hb', Hur, Z.sub_diag, <-get_msg_take. unfold fill.
  rewrite take_0, Hla. cbn [app]. rewrite take_app_length' by lia. rewrite Ha, get_msg_take.
  by apply get_put_msg; [lia|].
Qed.

(** C34: the messages two machines exchange survive the network: a vote request,
    a heartbeat, the reply to a vote request and the reply to an entry, written
    field by field to the buffer of the sender's connection, sent by
    [raft_conn_full_write_buffer] in any number of pieces and read by the reader
    the program uses for it, in any other pieces, leave the sender's fields in
    the receiver's buffer, whatever the two buffers held before; both transfers
    report completion.  *)
Theorem message_delivered :
  exchanged put_request_vote_req get_request_vote_req request_vote_req_ok 32 RAFT_CONN_BUFFER_SIZE request_in /\
  exchanged put_heartbeat_req get_heartbeat_req heartbeat_req_ok 16 RAFT_CONN_BUFFER_SIZE request_in /\
  exchanged put_request_vote_res get_request_vote_res request_vote_res_ok 16 16 reply_in /\
  exchanged put_append_entry_res get_append_entry_res append_entry_res_ok 16 16 reply_in.
Proof.
  split_and!.
  1: apply (exchange wire_request_vote_req RAFT_CONN_BUFFER_SIZE request_in).
  5: apply (exchange wire_heartbeat_req RAFT_CONN_BUFFER_SIZE request_in).
  9: apply (exchange wire_request_vote_res 16 reply_in).
  13: apply (exchange wire_append_entry_res 16 reply_in).
  all: first [ by intros; apply request_got | by intros; eapply request_again
             | by intros; apply reply_got | by intros; eapply reply_again
             | cbv; lia | split; by vm_compute ].
Qed.

(** A candidate's request for a vote leaves in two pieces and arrives in two
    others. *)
Definition sample_request : request_vote_req :=
  {| rv_cmd := RAFT_CMD_REQUEST_VOTE; rv_candidate_id := 3; rv_term := 2 ^ 40 + 7;
     rv_log_index := 12; rv_log_term := 258 |}.
Definition sample_sender : world :=
  let w := sample_world (FOLLOWER 0 0) None [Wrote 5; Again; Wrote 27] in
  set_bufs (set_net w (set_conns (net w) (<[200 := set_io sample_conn RAFT_CONN_STATE_REQUEST_VOTE_OUT 32]>
    (conns (net w))))) (fun _ => put_request_vote_req sample_request (replicate 80 170)).
Definition sample_receiver : world :=
  let bs := take 32 (put_request_vote_req sample_request (replicate 80 170)) in
  sample_world (FOLLOWER 0 0) None [Got (take 9 bs); Again; Got (drop 9 bs)].

Lemma message_delivered_witness : exists w',
  until 3 (request_in 200 32) sample_receiver = Ret true w' /\
  get_request_vote_req (bufs w' 200) = sample_request.
Proof.
  destruct (proj1 message_delivered sample_request false sample_sender 200
    (set_io sample_conn RAFT_CONN_STATE_REQUEST_VOTE_OUT 32) (replicate 80 170) sample_receiver 200
    sample_conn) as (ws' & es & E & Ho & H).
  - unfold request_vote_req_ok, u8_ok, u32_ok, u64_ok. vm_compute. intuition discriminate.
  - reflexivity.
  - reflexivity.
  - reflexivity.
  - reflexivity.
  - repeat constructor.
  - reflexivity.
  - reflexivity.
  - reflexivity.
  - reflexivity.
  - vm_compute. repeat constructor; discriminate.
  - apply H. clear H. vm_compute in E. injection E as <-. vm_compute in Ho. subst es. vm_compute. reflexivity.
Defined.
