(* ===== verification/Sessions.v ===== *)
(** * The TLS sessions of the raft server (service_raft.c, raft_conn.c, tls.c)

    A connection owns a TLS session while it is in one of the handshake states;
    [tls_deinit] releases it when the handshake is over, and [raft_conn_free] and
    [raft_conn_clear] when the connection is closed before.  The theorems of this
    file: whatever the peers do, no session outlives its handshake or its
    connection, and the session of an incoming connection in its handshake
    exists.  For outgoing connections the latter is false: a leader leaves the
    connection to a member that has already answered in the handshake state
    after it has released the session. *)

From S2P Require Import Prelude Machine Log LogInv Tls RaftConn Proto Cluster Server Election Votes.

Definition in_client_handshake (st : Z) : Prop :=
  st = RAFT_CONN_STATE_TLS_CLIENT_HANDSHAKE_IN \/ st = RAFT_CONN_STATE_TLS_CLIENT_HANDSHAKE_OUT.
Definition in_handshake (st : Z) : Prop := in_client_handshake st \/ in_server_handshake st.

#[global] Instance in_handshake_dec st : Decision (in_handshake st).
Proof. unfold in_handshake, in_client_handshake, in_server_handshake. apply _. Defined.

(** Who owns the sessions. *)
Record sess (r : raft) : Prop := {
  se_build : with_tls r = false -> sessions r = ∅;
  se_owned : forall h, h ∈ sessions r -> exists c, conns r !! h = Some c /\ in_handshake (state c);
  se_held : forall h c, conns r !! h = Some c -> in_server_handshake (state c) -> h ∈ sessions r
}.

Definition clusters_ok (w : world) : Prop :=
  forall a cl, clusters w !! a = Some cl -> members_n cl = Z.of_nat (length (members cl)).

(** ** Connections *)

Lemma sess_same r r' :
  with_tls r' = with_tls r -> conns r' = conns r -> sessions r' = sessions r -> sess r -> sess r'.
Proof. intros Et Ec Es [??]. split; rewrite ?Et, ?Ec, ?Es; done. Qed.

(** A connection without a session changes, or disappears. *)
Lemma sess_set r h c :
  sess r -> h ∉ sessions r -> ~ in_server_handshake (state c) ->
  sess (set_conns r (<[h := c]> (conns r))).
Proof.
  intros [Hb Ho Hh] Hn Hst. split; cbn; [done| |].
  - intros a Ha. rewrite lookup_insert_ne by set_solver. by apply Ho.
  - intros a d [[<- <-]|[_ Ha]]%lookup_insert_Some; [done|by apply Hh].
Qed.

Lemma sess_delete r h :
  sess r -> h ∉ sessions r -> sess (set_conns r (delete h (conns r))).
Proof.
  intros [Hb Ho Hh] Hn. split; cbn; [done| |].
  - intros a Ha. rewrite lookup_delete_ne by set_solver. by apply Ho.
  - intros a d [_ Ha]%lookup_delete_Some. by apply Hh.
Qed.

(** The state of a connection without a session is no handshake of ours. *)
Lemma sess_state r h c :
  sess r -> h ∉ sessions r -> conns r !! h = Some c -> ~ in_server_handshake (state c).
Proof. intros Hs Hn Hc Hst. exact (Hn (se_held _ Hs h c Hc Hst)). Qed.

Lemma sess_keep r h c n :
  sess r -> h ∉ sessions r -> conns r !! h = Some c ->
  sess (set_conns r (<[h := set_io c (state c) n]> (conns r))).
Proof. intros Hs Hn Hc. apply sess_set; [done..|]. exact (sess_state r h c Hs Hn Hc). Qed.

Lemma not_handshake r h c :
  sess r -> conns r !! h = Some c -> ~ in_handshake (state c) -> h ∉ sessions r.
Proof. intros Hs Hc Hst Hin. destruct (se_owned _ Hs h Hin) as (d & Hd & ?). congruence. Qed.

(** [f] works on the connection [h], which has no session before or after. *)
Definition away_op (h : Z) (r r' : raft) : Prop :=
  sess r -> h ∉ sessions r -> sess r' /\ h ∉ sessions r'.

#[global] Instance away_op_preorder h : PreOrder (away_op h).
Proof. split; [done|]. unfold away_op. intros r1 r2 r3 H12 H23 Hs Hn. by destruct (H12 Hs Hn); auto. Qed.

Lemma away_same h r r' :
  with_tls r' = with_tls r -> conns r' = conns r -> sessions r' = sessions r -> away_op h r r'.
Proof. intros ? ? Es Hs Hn. split; [by eapply sess_same|by rewrite Es]. Qed.

Lemma return_log_fields r k r' :
  return_log r k = Some r' ->
  with_tls r' = with_tls r /\ conns r' = conns r /\ sessions r' = sessions r.
Proof.
  unfold return_log. intros (l & _ & E)%bind_Some. by apply bind_Some in E as (x & _ & [= <-]).
Qed.

Lemma conn_return_fields r h r' :
  raft_conn_return_log r h = Some r' ->
  with_tls r' = with_tls r /\ conns r' = conns r /\ sessions r' = sessions r.
Proof.
  unfold raft_conn_return_log. intros (c & _ & E)%bind_Some. apply bind_Some in E as (_ & _ & E).
  by eapply return_log_fields.
Qed.

Lemma away_return h k r r' : raft_conn_return_log r k = Some r' -> away_op h r r'.
Proof. intros (? & ? & ?)%conn_return_fields. by apply away_same. Qed.

Lemma away_close h i r r' : close_conn r i h = Some r' -> away_op h r r'.
Proof.
  destruct i; cbn [close_conn]; intros E Hs Hn.
  - unfold raft_conn_free in E. apply bind_Some in E as (c & Hc & E).
    apply bind_Some in E as (_ & _ & E). apply bind_Some in E as (r1 & E & [= <-]).
    assert (away_op h r r1) as Ha.
    { destruct (conn_borrowed_log c); [by eapply away_return|].
      destruct (_ <? _); [apply bind_Some in E as (_ & _ & [= <-]); by apply away_same|].
      destruct (_ && _); [by apply session_deinit_live in E|by injection E as <-]. }
    destruct (Ha Hs Hn). split; [by apply sess_delete|done].
  - unfold raft_conn_clear in E. apply bind_Some in E as (c & Hc & E).
    apply bind_Some in E as (_ & _ & E). apply bind_Some in E as (_ & _ & E).
    apply bind_Some in E as (r1 & E & [= <-]).
    assert (away_op h r r1) as Ha.
    { destruct (conn_borrowed_log c); [by eapply away_return|].
      destruct (_ && _); [by apply session_deinit_live in E|by injection E as <-]. }
    destruct (Ha Hs Hn). split; [apply sess_set; [done..|]|done]. intros [H'|H']; by vm_compute in H'.
Qed.

Lemma away_check_read h i n wb r ok r' :
  conn_check_read r i h n wb = Some (ok, r') -> away_op h r r'.
Proof.
  unfold conn_check_read. intros (c & Hc & E)%bind_Some. case_bool_decide.
  - apply bind_Some in E as (_ & _ & [= _ <-]). intros Hs Hn. split; [by apply sess_keep|done].
  - destruct (_ || _); [|by injection E as _ <-].
    apply bind_Some in E as (r1 & E & [= _ <-]). by eapply away_close.
Qed.

Lemma away_check_write h i n wb r ok r' :
  conn_check_write r i h n wb = Some (ok, r') -> away_op h r r'.
Proof.
  unfold conn_check_write. intros (c & Hc & E)%bind_Some. case_bool_decide.
  - apply bind_Some in E as (_ & _ & [= _ <-]). intros Hs Hn. split; [by apply sess_keep|done].
  - apply bind_Some in E as (_ & _ & E). destruct wb; [by injection E as _ <-|].
    apply bind_Some in E as (r1 & E & [= _ <-]). by eapply away_close.
Qed.

Lemma away_read h i n wb r ok r' : raft_conn_read r i h n wb = Some (ok, r') -> away_op h r r'.
Proof.
  unfold raft_conn_read. intros (c & _ & E)%bind_Some. apply bind_Some in E as (_ & _ & E).
  by eapply away_check_read.
Qed.

Lemma away_full_read h i n wb r ok r' :
  raft_conn_full_read r i h n wb = Some (ok, r') -> away_op h r r'.
Proof.
  unfold raft_conn_full_read. intros ([b r1] & E & Hd)%bind_Some.
  apply op_and_done in Hd as ->. by eapply away_read.
Qed.

Lemma away_full_write h i n wb r ok r' :
  conn_full_write r i h n wb = Some (ok, r') -> away_op h r r'.
Proof.
  unfold conn_full_write, conn_write. intros ([b r1] & E & Hd)%bind_Some.
  apply op_and_done in Hd as ->. apply bind_Some in E as (c & _ & E).
  apply bind_Some in E as (_ & _ & E). by eapply away_check_write.
Qed.

Lemma away_write_byte h i n wb r ok r' :
  raft_conn_write_byte_zero r i h n wb = Some (ok, r') -> away_op h r r'.
Proof.
  unfold raft_conn_write_byte_zero. case_bool_decide; [by intros [= _ <-]|].
  intros (_ & _ & E)%bind_Some. destruct wb; [by injection E as _ <-|].
  apply bind_Some in E as (r1 & E & [= _ <-]). by eapply away_close.
Qed.

(** The states a connection without a session may move to. *)
Definition plain_state (st : Z) : Prop := ~ in_server_handshake st.
#[export] Hint Extern 1 (plain_state _) => (let H := fresh in intros [H|H]; by vm_compute in H) : server.

Lemma away_set_io h st n r r' :
  plain_state st -> raft_conn_set_io r h st n = Some r' -> away_op h r r'.
Proof.
  intros Hst (c & Hc & [= <-])%bind_Some Hs Hn. split; [by apply sess_set|done].
Qed.

Lemma away_borrow h l st n r r' :
  plain_state st -> raft_conn_borrow_log r h l st n = Some r' -> away_op h r r'.
Proof.
  unfold raft_conn_borrow_log. intros Hst (c & Hc & E)%bind_Some.
  apply bind_Some in E as (_ & _ & E). apply bind_Some in E as (x & _ & E).
  apply bind_Some in E as (_ & _ & [= <-]). intros Hs Hn. split; [|done].
  match goal with |- context [<[h := ?c']> (conns r)] =>
    by apply (sess_same (set_conns r (<[h := c']> (conns r)))); [..|apply sess_set] end.
Qed.

(** ** Handlers *)

(** A computation on the connection [h], which has no session: it does not get
    one, and what is said about sessions and clusters stays true. *)
Definition away (h : Z) (w w' : world) : Prop :=
  away_op h (net w) (net w') /\ (clusters_ok w -> clusters_ok w').

#[global] Instance away_preorder h : PreOrder (away h).
Proof.
  split; [by split|]. intros w1 w2 w3 [HA HB] [HC HD]. split; [by transitivity (net w2)|auto].
Qed.

(** Neither the connections nor the clusters are touched. *)
Definition idle (w w' : world) : Prop := net w' = net w /\ clusters w' = clusters w.
#[global] Instance idle_preorder : PreOrder idle.
Proof. split; [done|]. intros w1 w2 w3 [??] [??]. split; congruence. Qed.

Lemma idle_away {A} h (m : M A) : keeps idle m -> keeps (away h) m.
Proof.
  apply keeps_mono. intros w w' [En Ec]. split; [rewrite En; reflexivity|].
  unfold clusters_ok. by rewrite Ec.
Qed.

Lemma idle_mod_srv f : keeps idle (mod_srv f).
Proof. by intros w a w' [= _ <-]. Qed.
Lemma idle_mod_buf h f : keeps idle (mod_buf h f).
Proof. by intros w a w' [= _ <-]. Qed.
Lemma idle_put_nrs h x : keeps idle (put_nrs h x).
Proof. by intros w a w' [= _ <-]. Qed.
Lemma idle_put_fds x y : keeps idle (put_fds x y).
Proof. by intros w a w' [= _ <-]. Qed.
Lemma idle_emit e : keeps idle (emit e).
Proof. by intros w a w' [= _ <-]. Qed.
Lemma idle_pop : keeps idle pop.
Proof. intros w a w'. unfold pop. by destruct (input w) as [|x l]; intros [= _ <-]. Qed.
Lemma idle_read_all : keeps idle sys_read_all.
Proof. intros w a w'. unfold sys_read_all. by destruct (authority_read _ _); intros [= _ <-]. Qed.
#[export] Hint Resolve idle_mod_srv idle_mod_buf idle_put_nrs idle_put_fds idle_emit idle_pop
  idle_read_all : server.

Lemma idle_sys_read : keeps idle sys_read.
Proof. unfold sys_read. walk. Qed.
Lemma idle_sys_write : keeps idle sys_write.
Proof. unfold sys_write. walk. Qed.
Lemma idle_session_answer h : keeps idle (session_answer h).
Proof. unfold session_answer. walk. Qed.
Lemma idle_handshake h : keeps idle (handshake h).
Proof. unfold handshake. walk. Qed.
#[export] Hint Resolve idle_sys_read idle_sys_write idle_session_answer idle_handshake : server.
#[export] Hint Extern 2 (keeps (away _) _) =>
  (apply idle_away; solve [eauto with server nocore]) : server.

Lemma away_put_net h r w a w' :
  away_op h (net w) r -> put_net r w = Ret a w' -> away h w w'.
Proof. by intros Hr [= _ <-]. Qed.

Lemma away_lift h f :
  (forall r r', f r = Some r' -> away_op h r r') -> keeps (away h) (lift f).
Proof.
  intros Hf w a w' E. unfold lift in E. do 2 unbind E. eapply away_put_net, E. by apply Hf.
Qed.

Lemma away_put_log h k l : keeps (away h) (put_log k l).
Proof.
  intros w a w' E. unfold put_log in E. unbind E. eapply away_put_net, E. by apply away_same.
Qed.
Lemma away_return_log h k : keeps (away h) (lift (fun r => return_log r k)).
Proof. apply away_lift. intros r r' (?&?&?)%return_log_fields. by apply away_same. Qed.
Lemma away_return_conn_log h k : keeps (away h) (return_conn_log k).
Proof. apply away_lift. intros r r'. apply away_return. Qed.
Lemma away_conn_free h : keeps (away h) (conn_free h).
Proof. apply away_lift. intros r r'. apply (away_close h true). Qed.
Lemma away_conn_clear h : keeps (away h) (conn_clear h).
Proof. apply away_lift. intros r r'. apply (away_close h false). Qed.
Lemma away_set_conn_io h st n : plain_state st -> keeps (away h) (set_conn_io h st n).
Proof. intros Hst. apply away_lift. intros r r'. by apply away_set_io. Qed.
Lemma away_borrow_log h l st n : plain_state st -> keeps (away h) (borrow_log h l st n).
Proof. intros Hst. apply away_lift. intros r r'. by apply away_borrow. Qed.
Lemma away_set_conn_state h st : plain_state st -> keeps (away h) (set_conn_state h st).
Proof.
  intros Hst. apply away_lift. intros r r' (c & Hc & [= <-])%bind_Some Hs Hn.
  split; [by apply sess_set|done].
Qed.
Lemma away_change_to_ready h : keeps (away h) (change_to_ready h).
Proof.
  apply away_lift. intros r r' (c & Hc & [= <-])%bind_Some Hs Hn.
  split; [apply sess_set; [done..|]|done]. intros [H|H]; by vm_compute in H.
Qed.
Lemma away_authority h f : keeps (away h) (lift (fun r => Some (set_authority r (f r)))).
Proof. apply away_lift. intros r r' [= <-]. by apply away_same. Qed.
Lemma away_forget h : keeps (away h) (lift (fun r => Some (set_conns r (delete h (conns r))))).
Proof. apply away_lift. intros r r' [= <-] Hs Hn. split; [by apply sess_delete|done]. Qed.
Lemma away_log_free h k : keeps (away h) (log_free k).
Proof. apply away_lift. intros r r' (l & _ & [= <-])%bind_Some. by apply away_same. Qed.
Lemma away_set_fd h n : keeps (away h) (set_conn_fd h n).
Proof.
  apply away_lift. intros r r' (c & Hc & [= <-])%bind_Some Hs Hn.
  split; [|done]. apply sess_set; [done..|]. exact (sess_state r h c Hs Hn Hc).
Qed.
#[export] Hint Resolve away_put_log away_return_log away_return_conn_log away_conn_free
  away_conn_clear away_set_conn_io away_borrow_log away_set_conn_state away_change_to_ready
  away_authority away_forget away_log_free away_set_fd : server.

(** What a run [E] of a computation on [h] does. *)
Ltac awaying h E :=
  let H := fresh "Ha" in
  match type of E with
  | ?m ?w = Ret _ ?w' => assert (away h w w') as H by (refine ((_ : keeps (away h) m) w _ w' E); walk)
  end.

Lemma away_sent h k n bs : keeps (away h) (sent k n bs).
Proof. unfold sent. walk. Qed.
#[export] Hint Resolve away_sent : server.

Lemma away_full_read_to_buffer h i n : keeps (away h) (full_read_to_buffer h i n).
Proof.
  intros w a w' E. unfold full_read_to_buffer in E. unbind E. awaying h E0.
  destruct a0 as [[k wb] bs]. do 2 unbind E. destruct a0 as [pos [ok r]]. unbind E.
  awaying h E. etrans; [done|]. etrans; [|done]. eapply away_put_net; [|reflexivity].
  apply bind_Some in H as (c & _ & H). apply bind_Some in H as ([ok' r1] & H & [= _ <- <-]).
  by eapply away_full_read.
Qed.

Lemma away_full_write_buffer h i n : keeps (away h) (full_write_buffer h i n).
Proof.
  intros w a w' E. unfold full_write_buffer in E. unbind E. awaying h E0.
  destruct a0 as [k wb]. do 2 unbind E. destruct a0 as [pos [ok r]]. unbind E.
  awaying h E. etrans; [done|]. etrans; [|done]. eapply away_put_net; [|reflexivity].
  apply bind_Some in H as (c & _ & H). apply bind_Some in H as ([ok' r1] & H & [= _ <- <-]).
  by eapply away_full_write.
Qed.

Lemma away_full_write_msg h i iov : keeps (away h) (full_write_msg h i iov).
Proof.
  intros w a w' E. unfold full_write_msg in E. unbind E. awaying h E0.
  destruct a0 as [k wb]. do 2 unbind E. destruct a0 as [ok r]. unbind E.
  awaying h E. etrans; [done|]. etrans; [|done]. eapply away_put_net; [|reflexivity].
  by eapply away_full_write.
Qed.

Lemma away_write_byte_zero h i : keeps (away h) (write_byte_zero h i).
Proof.
  intros w a w' E. unfold write_byte_zero in E. unbind E. awaying h E0.
  destruct a0 as [k wb]. do 2 unbind E. destruct a0 as [ok r]. unbind E.
  awaying h E. etrans; [done|]. etrans; [|done]. eapply away_put_net; [|reflexivity].
  by eapply away_write_byte.
Qed.

Lemma away_read_cmd h : keeps (away h) (read_cmd h).
Proof.
  intros w a w' E. unfold read_cmd in E. unbind E. awaying h E0. unbind E. awaying h E1.
  destruct a1 as [[k wb] bs]. do 2 unbind E. destruct a1 as [ok r]. unbind E.
  awaying h E. etrans; [done|]. etrans; [done|]. etrans; [|done].
  eapply away_put_net; [|reflexivity]. by eapply away_read.
Qed.

Lemma away_full_read_to_log h i n : keeps (away h) (full_read_to_log h i n).
Proof.
  intros w a w' E. unfold full_read_to_log in E. unbind E. awaying h E0.
  destruct a0 as [[k wb] bs]. do 3 unbind E. destruct a1 as [ok r]. unbind E.
  etrans; [done|]. apply away_full_read in H0.
  unbind E. injection E as _ <-. destruct (bool_decide _).
  - do 2 unbind E1. injection E1 as _ <-. split; [|done].
    transitivity r; [done|by apply away_same].
  - by injection E1 as _ <-.
Qed.
#[export] Hint Resolve away_full_read_to_buffer away_full_write_buffer away_full_write_msg
  away_write_byte_zero away_read_cmd away_full_read_to_log : server.

Lemma away_log_alloc h f : keeps (away h) (log_alloc f).
Proof. unfold log_alloc. walk. Qed.
#[export] Hint Resolve away_log_alloc : server.

(** ** Clusters *)

Definition unconnected (m : member) : Prop := state (m_conn m) = RAFT_CONN_STATE_NOT_CONNECTED.

(** [members_init] takes what it needs from the array and connects nobody. *)
Definition carved (raw ms rest : list member) : Prop :=
  Forall unconnected ms /\ (length ms + length rest)%nat = length raw.

Lemma init_members_carved raw t ms leader l rest :
  init_members raw t ms leader = Some (l, rest) -> carved raw l rest.
Proof.
  revert raw l rest. induction ms as [|m ms IH]; intros raw l rest; cbn.
  { intros [= <- <-]. by split. }
  destruct (_ =? _); [apply IH|]. destruct raw as [|x raw]; [done|].
  intros ([l' rest'] & [Hf Hl]%IH & [= <- <-])%bind_Some. split; [by constructor|cbn; lia].
Qed.

Lemma init_adjust_carved olds news raw ms leader l rest :
  Forall unconnected olds -> Forall unconnected news ->
  init_adjust_loop olds news raw ms leader = Some (l, rest) ->
  Forall unconnected l /\ (length l + length rest)%nat = (length olds + length news + length raw)%nat.
Proof.
  revert olds news raw. induction ms as [|m ms IH]; intros olds news raw Ho Hn; cbn [init_adjust_loop].
  { intros [= <- <-]. rewrite length_app. split; [by apply Forall_app|lia]. }
  destruct (_ =? _); [by apply IH|].
  destruct (members_search_id olds (machine_id m)) as [[i x]|] eqn:Es.
  - intros [Hf Hl]%IH; [split; [done|by rewrite length_insert in Hl]| |done].
    apply bsearch_loop_some in Es as [Es _]. apply elem_of_imap_pair in Es.
    apply Forall_insert; [done|]. exact (proj1 (Forall_lookup _ _) Ho i x Es).
  - destruct raw as [|x raw]; [done|]. intros [Hf Hl]%IH; [|done|by apply Forall_app; split; [|constructor]].
    split; [done|]. rewrite length_app in Hl. cbn in *. lia.
Qed.

Lemma members_init_carved raw l leader ms rest :
  members_init raw l leader = Some (ms, rest) -> carved raw ms rest.
Proof.
  unfold members_init. intros ([ms' rest'] & E & [= <- <-])%bind_Some.
  enough (carved raw ms' rest') as [Hf Hl].
  { split; [by rewrite members_sort_perm|]. by rewrite (Permutation_length (members_sort_perm ms')). }
  destruct (_ =? _).
  - unfold init_adjust in E. apply bind_Some in E as ([olds raw'] & [Ho Hl]%init_members_carved & E).
    apply init_adjust_carved in E as [Hf Hl'];
      [split; [done|]|by rewrite members_sort_perm|done].
    rewrite (Permutation_length (members_sort_perm olds)) in Hl'. cbn in Hl'. lia.
  - assert (forall ty k n x, init raw leader ty k n x = Some (ms', rest') -> carved raw ms' rest') as Hgo.
    { unfold init. intros ty k n x ([a ra] & [Ha La]%init_members_carved & E')%bind_Some.
      apply bind_Some in E' as ([b rb] & [Hb Lb]%init_members_carved & [= <- <-]).
      split; [by apply Forall_app|]. rewrite length_app. lia. }
    destruct (_ <=? _); by apply Hgo in E.
Qed.

Lemma cluster_malloc_carved malloc l leader c :
  cluster_malloc malloc l leader = Some (Some c) ->
  members_n c = Z.of_nat (length (members c)) /\ Forall unconnected (members c) /\
  exists size raw, malloc size = Some raw /\ (length (members c) <= length raw)%nat.
Proof.
  unfold cluster_malloc. destruct (malloc _) as [raw|] eqn:Em; [|done].
  intros (old & _ & E)%bind_Some. apply bind_Some in E as (new & _ & E).
  apply bind_Some in E as ([ms rest] & [Hf Hl]%members_init_carved & E).
  apply bind_Some in E as (Hn & _ & [= <-]). cbn. split; [done|]. split; [done|].
  eexists _, raw. split; [done|lia].
Qed.

(** The connections of a new cluster lie in memory nobody used. *)
Lemma sess_union r (L : list (Z * raft_conn)) :
  sess r -> Forall (fun p => conns r !! p.1 = None /\ ~ in_server_handshake (state p.2)) L ->
  sess (set_conns r (list_to_map L ∪ conns r)).
Proof.
  intros [Hb Ho Hh] HL. rewrite Forall_forall in HL.
  assert (forall a c, (list_to_map L : gmap Z raft_conn) !! a = Some c ->
    conns r !! a = None /\ ~ in_server_handshake (state c)) as HL'.
  { intros a c Ha%elem_of_list_to_map_2. by apply (HL (a, c)). }
  split; cbn; [done| |].
  - intros a Ha. destruct (Ho a Ha) as (c & Hc & Hst). exists c. split; [|done].
    rewrite lookup_union_r; [done|]. destruct (list_to_map L !! a) as [d|] eqn:E; [|done].
    apply HL' in E as [E _]. congruence.
  - intros a c [Ha|[_ Ha]]%lookup_union_Some_raw Hst; [by apply HL' in Ha as [_ ?]|by eapply Hh].
Qed.

Lemma away_cluster_alloc h l leader : keeps (away h) (cluster_alloc l leader).
Proof.
  intros w a w' E. unfold cluster_alloc in E. unbind E. awaying h E0. etrans; [done|].
  do 2 unbind E. injection E1 as <- <-.
  destruct a0; try (unbind E; by injection E as _ <-).
  unbind E. destruct a0 as [c|]; [|by injection E as _ <-].
  apply cluster_malloc_carved in H as (Hn & Hf & size & raw' & Hm & Hl).
  case_bool_decide as Hfresh; [|done]. injection Hm as <-.
  destruct Hfresh as (_ & _ & _ & Hfresh). unbind E. injection E1 as _ <-. unbind E. injection E as _ <-.
  split; cbn.
  - intros Hs Hh. split; [|done]. apply sess_union; [done|]. apply Forall_lookup. intros i [k c'] Hi.
    apply list_lookup_imap_Some in Hi as (m & Hi & [= -> ->]). cbn. split.
    + rewrite Forall_forall in Hfresh. apply Hfresh, elem_of_seq.
      apply lookup_lt_Some in Hi. lia.
    + rewrite (proj1 (Forall_lookup _ _) Hf i m Hi). intros [H'|H']; by vm_compute in H'.
  - unfold clusters_ok. cbn. intros Hc k cl [[<- <-]|[_ Hk]]%lookup_insert_Some; [done|by eapply Hc].
Qed.
#[export] Hint Resolve away_cluster_alloc : server.

Lemma away_mod_member h p f : keeps (away h) (mod_member p f).
Proof.
  intros w a w' E. unfold mod_member in E. unbind E. injection E0 as <- <-. do 2 unbind E.
  injection E as _ <-. split; [done|].
  unfold clusters_ok. cbn. intros Hc k cl [[<- <-]|[_ Hk]]%lookup_insert_Some.
  - cbn. rewrite length_insert. by eapply Hc.
  - by eapply Hc.
Qed.
#[export] Hint Resolve away_mod_member : server.

(** ** The handlers of a connection without a session *)

Lemma away_convert_to_follower h : keeps (away h) convert_to_follower.
Proof. unfold convert_to_follower. walk. Qed.
Lemma away_increase_term h t : keeps (away h) (server_increase_term t).
Proof. unfold server_increase_term. walk. Qed.
Lemma away_replace_log h l : keeps (away h) (server_replace_log l).
Proof. unfold server_replace_log. walk. Qed.
Lemma away_leader_replace_log h l : keeps (away h) (leader_replace_log l).
Proof. unfold leader_replace_log. walk. Qed.
Lemma away_member_commited_log h p : keeps (away h) (member_commited_log p).
Proof. unfold member_commited_log. walk. Qed.
#[export] Hint Resolve away_convert_to_follower away_increase_term away_replace_log
  away_leader_replace_log away_member_commited_log : server.

Lemma away_in_cmd h : keeps (away h) (state_in_cmd h).
Proof. unfold state_in_cmd. walk. Qed.
Lemma away_append_entry_out p : keeps (away (conn_of p)) (change_to_append_entry_out p).
Proof. unfold change_to_append_entry_out, change_to_append_log_out. walk. Qed.
#[export] Hint Resolve away_in_cmd away_append_entry_out : server.

Lemma away_append_entry_in h : keeps (away h) (state_append_entry_in h).
Proof.
  intros w a w' E. unfold state_append_entry_in in E. do 2 unbind E. awaying h E0. awaying h E1.
  do 2 (etrans; [done|]). destruct a1; [|by injection E as _ <-]. do 2 unbind E.
  awaying h E2. etrans; [done|]. unbind E. destruct (_ <? _); [by awaying h E|].
  do 2 unbind E. apply member_of_run in E3 as (-> & _ & <- & _). awaying (conn_of a3) E. done.
Qed.

Lemma away_ready_for_use h : keeps (away h) (change_to_ready_for_use h).
Proof.
  intros w a w' E. unfold change_to_ready_for_use in E. unbind E. destruct (s_role _).
  - unbind E. apply member_of_run in E0 as (-> & _ & <- & _). by awaying (conn_of a0) E.
  - by awaying h E.
  - by injection E as _ <-.
Qed.
#[export] Hint Resolve away_append_entry_in away_ready_for_use : server.

(** ** Handshakes *)

Definition sessions_ok (w : world) : Prop := sess (net w) /\ clusters_ok w.

(** The sessions stay in order. *)
Definition orderly (w w' : world) : Prop := sessions_ok w -> sessions_ok w'.
#[global] Instance orderly_preorder : PreOrder orderly.
Proof. split; [by intros w Hw|]. unfold orderly. intros w1 w2 w3; auto. Qed.

Lemma away_orderly h w w' : away h w w' -> h ∉ sessions (net w) -> orderly w w'.
Proof. intros [Hn Hc] Hh [Hs Hk]. split; [by apply Hn|auto]. Qed.

Lemma idle_orderly w w' : idle w w' -> orderly w w'.
Proof. intros [En Ec] [Hs Hk]. split; [by rewrite En|]. unfold clusters_ok. by rewrite Ec. Qed.

(** The session of [h] is released. *)
Lemma sess_deinit r h : sess r ->
  (forall c, conns r !! h = Some c -> ~ in_server_handshake (state c)) ->
  sess (set_sessions r (sessions r ∖ {[h]})).
Proof.
  intros [Hb Ho Hh] Hst. split; cbn.
  - intros Ht. rewrite Hb by done. set_solver.
  - intros a [Ha _]%elem_of_difference. by apply Ho.
  - intros a c Ha Hs. apply elem_of_difference. split; [by eapply Hh|].
    intros ->%elem_of_singleton. by eapply Hst.
Qed.

(** The connection in its handshake stays in it. *)
Lemma sess_handshake r h c st :
  sess r -> conns r !! h = Some c -> h ∈ sessions r -> in_handshake st ->
  sess (set_conns r (<[h := with_state c st]> (conns r))).
Proof.
  intros [Hb Ho Hh] Hc Hin Hst. split; cbn; [done| |].
  - intros a Ha. destruct (decide (a = h)) as [->|Hne]; [|rewrite lookup_insert_ne by done; by apply Ho].
    rewrite lookup_insert_eq. by eexists.
  - intros a d [[<- <-]|[_ Ha]]%lookup_insert_Some; [done|by eapply Hh].
Qed.

Lemma set_state_orderly h st w a w' :
  in_handshake st -> h ∈ sessions (net w) -> set_conn_state h st w = Ret a w' -> orderly w w'.
Proof.
  intros Hst Hin E [Hs Hk]. unfold set_conn_state, lift in E. do 2 unbind E.
  apply bind_Some in H as (c & Hc & [= <-]). injection E as _ <-. split; [|done].
  by apply sess_handshake.
Qed.

Lemma client_plain st : in_client_handshake st -> plain_state st.
Proof. intros [-> | ->]; eauto with server. Qed.

Lemma sess_closed r h :
  sess r -> sess (set_conns (set_sessions r (sessions r ∖ {[h]})) (delete h (conns r))).
Proof.
  intros [Hb Ho Hh]. split; cbn.
  - intros Ht. rewrite Hb by done. set_solver.
  - intros a [Ha Hne]%elem_of_difference. rewrite lookup_delete_ne by set_solver. by apply Ho.
  - intros a c [Hne Ha]%lookup_delete_Some Hst. apply elem_of_difference.
    split; [by eapply Hh|]. set_solver.
Qed.

Lemma sess_released r h c :
  sess r -> ~ in_server_handshake (state c) ->
  sess (set_conns (set_sessions r (sessions r ∖ {[h]})) (<[h := c]> (conns r))).
Proof.
  intros Hs Hst. apply (sess_closed r h) in Hs. apply (sess_set _ h c) in Hs; [|cbn; set_solver|done].
  cbn in Hs. by rewrite insert_delete_eq in Hs.
Qed.

Lemma sess_tls r h : sess r -> h ∈ sessions r -> with_tls r = true.
Proof.
  intros Hs Hin. destruct (with_tls r) eqn:E; [done|]. rewrite (se_build _ Hs E) in Hin. set_solver.
Qed.

Lemma handshake_facts st : in_handshake st ->
  Z.land st EPOLLLOG = 0 /\ (RAFT_CONN_STATE_AUTHORITY_DIVIDER <? st) = false /\
  ((st <? RAFT_CONN_OUTGOING_INCOMING_DIVIDER) = false ->
     (st <? RAFT_CONN_STATE_TLS_SERVER_DIVIDER) = true) /\
  ((st <? RAFT_CONN_OUTGOING_INCOMING_DIVIDER) = true ->
     (st <? RAFT_CONN_STATE_TLS_CLIENT_DIVIDER) = true).
Proof. by intros [[-> | ->]|[-> | ->]]; vm_compute. Qed.

(** A connection that is closed gives its session back. *)
Lemma close_session r h i r' :
  sess r -> h ∈ sessions r -> close_conn r i h = Some r' -> sess r' /\ h ∉ sessions r'.
Proof.
  intros Hs Hin E. pose proof (sess_tls r h Hs Hin) as Ht.
  destruct (se_owned _ Hs h Hin) as (c & Hc & Hst).
  destruct (handshake_facts _ Hst) as (Hb & Ha & Hf & Hg).
  assert (conn_borrowed_log c = false) as Hb' by (unfold conn_borrowed_log; by rewrite Hb).
  assert (session_deinit r h = Some (set_sessions r (sessions r ∖ {[h]}))) as Hd
    by (unfold session_deinit; by rewrite tls_deinit_live).
  destruct i; cbn [close_conn] in E; [unfold raft_conn_free in E|unfold raft_conn_clear in E];
    rewrite Hc in E; cbn [mbind option_bind] in E; apply bind_Some in E as (Ho & _ & E);
    unfold raft_conn_outgoing in Ho.
  - rewrite Hb', Ha, Ht, (Hf Ho) in E. cbn [andb] in E. rewrite Hd in E. injection E as <-.
    split; [by apply sess_closed|cbn; set_solver].
  - apply bind_Some in E as (_ & _ & E). rewrite Hb', Ht, (Hg Ho) in E. cbn [andb] in E.
    rewrite Hd in E. injection E as <-. split; [|cbn; set_solver].
    apply sess_released; [done|]. intros [Hx|Hx]; by vm_compute in Hx.
Qed.

Lemma close_sess r h i r' : sess r -> close_conn r i h = Some r' -> sess r' /\ h ∉ sessions r'.
Proof.
  intros Hs E. destruct (decide (h ∈ sessions r)) as [Hin|Hn]; [by eapply close_session|].
  by eapply away_close.
Qed.

Lemma orderly_close h i : keeps orderly (lift (fun r => close_conn r i h)).
Proof.
  intros w a w' E [Hs Hk]. unfold lift in E. do 2 unbind E. injection E as _ <-.
  split; [|done]. by eapply close_sess.
Qed.

Lemma orderly_conn_free h : keeps orderly (conn_free h).
Proof. apply (orderly_close h true). Qed.
Lemma orderly_conn_clear h : keeps orderly (conn_clear h).
Proof. apply (orderly_close h false). Qed.
#[export] Hint Resolve orderly_conn_free orderly_conn_clear : server.
#[export] Hint Extern 2 (keeps orderly _) =>
  (refine (keeps_mono _ _ _ idle_orderly _); solve [eauto with server nocore]) : server.

(** A handshake that goes on. *)
Lemma again_orderly h x st1 st2 w a w' :
  in_handshake st1 -> in_handshake st2 ->
  (wr ← require_write h x; set_conn_state h (if wr : bool then st1 else st2)) w = Ret a w' ->
  orderly w w'.
Proof.
  intros H1 H2 E. unfold require_write in E. unbind E. unbind E0. apply from_Ret in E0 as [Hx ->].
  unfold tls_record_require_write in Hx. apply bind_Some in Hx as (Hin & _ & _).
  eapply set_state_orderly; [|done|done]. by destruct a0.
Qed.

Lemma server_handshake_orderly h : keeps orderly (state_tls_server_handshake h).
Proof.
  intros w a w' E. unfold state_tls_server_handshake in E. unbind E.
  pose proof (conn_handshake_run _ _ _ _ E0) as (Hin & _ & En & _ & Ec & _).
  assert (idle w w0) as Hi by done. etrans; [by apply idle_orderly|]. rewrite <-En in Hin.
  destruct a0; [|eapply again_orderly; [..|done]; right; [by right|by left]|by eapply orderly_conn_free].
  do 2 unbind E. intros [Hs Hk].
  unfold deinit, lift, session_deinit in E1. do 2 unbind E1. rewrite tls_deinit_live in H by done.
  injection H as <-. injection E1 as _ <-.
  unfold change_to_in_cmd, set_conn_io, lift, raft_conn_set_io in E2. do 2 unbind E2.
  apply bind_Some in H as (c & Hc & [= <-]). injection E2 as _ <-. cbn in Hc.
  eapply (away_orderly h); [by eapply away_in_cmd|cbn; set_solver|].
  split; [|done]. cbn. apply sess_released; [done|]. intros [Hx|Hx]; by vm_compute in Hx.
Qed.

Lemma client_handshake_orderly h w c a w' :
  conns (net w) !! h = Some c -> in_client_handshake (state c) ->
  state_tls_client_handshake h w = Ret a w' -> orderly w w'.
Proof.
  intros Hc Hst E. unfold state_tls_client_handshake in E. unbind E.
  pose proof (conn_handshake_run _ _ _ _ E0) as (Hin & _ & En & _ & Ec & _).
  assert (idle w w0) as Hi by done. etrans; [by apply idle_orderly|]. rewrite <-En in Hin, Hc.
  destruct a0; [|eapply again_orderly; [..|done]; left; [by right|by left]|by eapply orderly_conn_clear].
  unbind E. intros [Hs Hk].
  unfold deinit, lift, session_deinit in E1. do 2 unbind E1. rewrite tls_deinit_live in H by done.
  injection H as <-. injection E1 as _ <-.
  eapply (away_orderly h); [by eapply away_ready_for_use|cbn; set_solver|].
  split; [|done]. apply sess_deinit; [done|]. intros d Hd. rewrite Hc in Hd. injection Hd as <-.
  by apply client_plain.
Qed.

(** A new session goes with the handshake it is for. *)
Lemma sess_init_client r h c a ok r' :
  sess r -> h ∉ sessions r -> conns r !! h = Some c -> with_tls r = true ->
  session_init_client r h a = Some (ok, r') ->
  conns r' = conns r /\
  (ok = true -> sess (set_conns r' (<[h := with_state c RAFT_CONN_STATE_TLS_CLIENT_HANDSHAKE_OUT]> (conns r')))) /\
  (ok = false -> r' = r).
Proof.
  intros [Hb Ho Hh] Hn Hc Ht E. unfold session_init_client in E.
  rewrite tls_init_client_eq in E by done. cbn in E. injection E as <- <-.
  split; [done|]. destruct (granted a); [split; [intros _|done]|split; [done|by destruct r]].
  split; cbn.
  - congruence.
  - intros x [->%elem_of_singleton|Hx]%elem_of_union.
    + rewrite lookup_insert_eq. eexists. split; [done|]. by left; right.
    + rewrite lookup_insert_ne by set_solver. by apply Ho.
  - intros x d [[<- <-]|[_ Hx]]%lookup_insert_Some Hst.
    + destruct Hst as [Hst|Hst]; by vm_compute in Hst.
    + apply elem_of_union_r. by eapply Hh.
Qed.

Lemma established_orderly h w a w' :
  h ∉ sessions (net w) -> change_to_conn_established h w = Ret a w' -> orderly w w'.
Proof.
  intros Hn E. unfold change_to_conn_established in E. unbind E.
  destruct (with_tls (net w)) eqn:Ht;
    [|eapply away_orderly; [by eapply away_ready_for_use|done]].
  do 2 unbind E. apply get_conn_run in E0 as [Hc ->]. unbind E.
  unfold init_client in E0. unbind E0. intros [Hs Hk].
  assert (idle w w1) as [En Ec] by (refine ((_ : keeps idle _) _ _ _ E1); walk).
  do 2 unbind E0. destruct a4 as [ok r1]. unbind E0. injection E0 as <- <-.
  rewrite En in H0. destruct (sess_init_client _ _ _ _ _ _ Hs Hn Hc Ht H0) as (Er & Hok & Hno).
  destruct ok.
  - unbind E. unfold set_conn_state, lift in E0. do 2 unbind E0.
    cbn in H1. rewrite Er, Hc in H1. injection H1 as <-. injection E0 as _ <-.
    refine (client_handshake_orderly h _ _ a w' (lookup_insert_eq _ _ _) _ E _); [by right|].
    split; [rewrite <-Er; by apply Hok|]. unfold clusters_ok. cbn. by rewrite Ec.
  - eapply orderly_conn_clear; [done|]. split; [cbn; by rewrite Hno|].
    unfold clusters_ok. cbn. by rewrite Ec.
Qed.

(** ** Events *)

Lemma in_progress_orderly h w a w' :
  h ∉ sessions (net w) -> state_in_progress h w = Ret a w' -> orderly w w'.
Proof.
  intros Hn E. unfold state_in_progress in E. unbind E.
  assert (idle w w0) as Hi by (refine ((_ : keeps idle _) _ _ _ E0); walk).
  etrans; [by apply idle_orderly|]. destruct Hi as [En _]. rewrite <-En in Hn.
  destruct a0; first [by eapply established_orderly | by eapply orderly_conn_clear].
Qed.

Lemma member_connect_orderly p : keeps orderly (member_connect p).
Proof.
  intros w a w' E [Hs Hk]. unfold member_connect in E. unbind E. apply get_conn_run in E0 as [Hc ->].
  do 2 unbind E.
  assert (conn_of p ∉ sessions (net w)) as Hn.
  { apply (not_handshake _ _ _ Hs Hc). rewrite H. intros [[H'|H']|[H'|H']]; by vm_compute in H'. }
  awaying (conn_of p) E0. destruct Ha as [Ha Hb]. destruct (Ha Hs Hn) as [Hs0 Hn0].
  assert (forall w2, away (conn_of p) w0 w2 -> sessions_ok w2 /\ conn_of p ∉ sessions (net w2)) as Hgo.
  { intros w2 [HA HB]. destruct (HA Hs0 Hn0). split; [split; auto|done]. }
  destruct a2; try (apply Hgo; by awaying (conn_of p) E).
  do 2 unbind E. assert (away (conn_of p) w0 w2) as Ha2 by (awaying (conn_of p) E1; awaying (conn_of p) E2; by etrans).
  destruct (Hgo w2 Ha2) as [Hok2 Hn2]. by eapply established_orderly.
Qed.
#[export] Hint Resolve member_connect_orderly : server.

(** A handler that runs on a connection in a state outside the handshakes. *)
Lemma outside_orderly h c (m : M unit) w a w' :
  conns (net w) !! h = Some c -> ~ in_handshake (state c) -> keeps (away h) m ->
  m w = Ret a w' -> orderly w w'.
Proof.
  intros Hc Hst Hm E Hok. eapply (away_orderly h); [by eapply Hm| |done].
  eapply not_handshake; [apply Hok|done..].
Qed.

Lemma process_orderly h : keeps orderly (process h).
Proof.
  intros w a w' E. unfold process in E. unbind E. apply get_conn_run in E0 as [Hc ->].
  destruct (Z.eqb_spec (state a0) RAFT_CONN_STATE_IN_PROGRESS) as [Hst|_].
  { intros Hok. eapply in_progress_orderly; [|done..]. eapply not_handshake; [apply Hok|done|].
    rewrite Hst. intros [[H'|H']|[H'|H']]; by vm_compute in H'. }
  destruct (_ || _) eqn:Hcl.
  { eapply client_handshake_orderly; [done| |done].
    by apply orb_true_iff in Hcl as [?%Z.eqb_eq|?%Z.eqb_eq]; [left|right]. }
  apply orb_false_iff in Hcl as [?%Z.eqb_neq ?%Z.eqb_neq].
  destruct (_ || _) eqn:Hse; [by eapply server_handshake_orderly|].
  assert (~ in_handshake (state a0)) as Hst.
  { apply orb_false_iff in Hse as [?%Z.eqb_neq ?%Z.eqb_neq].
    unfold in_handshake, in_client_handshake, in_server_handshake. tauto. }
  branches E; first [discriminate E | eapply outside_orderly; [done|done| |exact E]; solve [walk]].
Qed.
#[export] Hint Resolve process_orderly : server.

(** A computation that no connection can be affected by. *)
Lemma away_everywhere {A} (m : M A) : (forall h, keeps (away h) m) -> keeps orderly m.
Proof.
  intros Hm w a w' E. eapply (away_orderly (fresh (sessions (net w)))); [by eapply Hm|].
  apply is_fresh.
Qed.
#[export] Hint Extern 3 (keeps orderly _) =>
  (apply away_everywhere; intros; solve [eauto with server nocore]) : server.

Lemma orderly_increase_term t : keeps orderly (server_increase_term t).
Proof. eauto with server. Qed.

Lemma authority_approved_orderly h : keeps orderly (conn_authority_approved h).
Proof.
  intros w a w' E. unfold conn_authority_approved in E. unbind E. injection E0 as <- <-.
  unbind E. apply get_conn_run in E0 as [Hc ->]. unbind E.
  assert (idle w w0) as Hi by (refine ((_ : keeps idle _) _ _ _ E0); walk).
  etrans; [by apply idle_orderly|]. destruct Hi as [En _].
  destruct (_ && _) eqn:Hst; [|by injection E as _ <-].
  apply andb_true_iff in Hst as [Hst%Z.eqb_eq _].
  refine (outside_orderly h a0 _ _ _ _ _ _ _ E); [by rewrite En| |walk].
  rewrite Hst. intros [[H'|H']|[H'|H']]; by vm_compute in H'.
Qed.
#[export] Hint Resolve authority_approved_orderly : server.

(** What is done with a member depends on the state of its connection. *)
Lemma member_orderly p (m : M unit) :
  keeps (away (conn_of p)) m ->
  keeps orderly (c ← get_conn (conn_of p);
    if state c =? RAFT_CONN_STATE_READY_FOR_USE then m
    else if state c =? RAFT_CONN_STATE_NOT_CONNECTED then member_connect p else skip).
Proof.
  intros Hm w a w' E. unbind E. apply get_conn_run in E0 as [Hc ->].
  destruct (Z.eqb_spec (state a0) RAFT_CONN_STATE_READY_FOR_USE) as [Hst|_].
  - eapply outside_orderly; [done| |exact Hm|done].
    rewrite Hst. intros [[H'|H']|[H'|H']]; by vm_compute in H'.
  - destruct (_ =? _); [by eapply member_connect_orderly|by injection E as _ <-].
Qed.

Lemma replicate_to_orderly p : keeps orderly (replicate_to p).
Proof.
  unfold replicate_to. apply keeps_bind; [apply _|walk|]. intros _.
  apply member_orderly. walk.
Qed.

Lemma request_vote_of_orderly p : keeps orderly (request_vote_of p).
Proof. apply member_orderly. walk. Qed.
#[export] Hint Resolve replicate_to_orderly request_vote_of_orderly : server.

Lemma replicate_entry_orderly : keeps orderly replicate_entry.
Proof. unfold replicate_entry. walk. Qed.

Lemma check_available_length ms changed old new ms' changed' old' new' :
  check_available ms changed old new = (ms', changed', old', new') -> length ms' = length ms.
Proof.
  revert changed old new ms' changed' old' new'.
  induction ms as [|m ms IH]; intros changed old new ms' changed' old' new'; cbn; [by intros [= <- _ _ _]|].
  destruct (eqb _ _); [|destruct (_ <=? _)]; cbn;
    destruct (m_available _); cbn; destruct (check_available ms _ _ _) as [[[x y] z] t] eqn:E;
    apply IH in E; intros [= <- _ _ _]; cbn; by rewrite E.
Qed.

Lemma timer_ticked_orderly : keeps orderly leader_timer_ticked.
Proof.
  intros w a w' E. unfold leader_timer_ticked in E. unbind E. unbind E.
  unfold my_cluster in E0. do 2 unbind E0. injection E1 as <- <-. apply from_Ret in E0 as [Hcl ->].
  unbind E. injection E0 as <- <-.
  destruct (check_available _ _ _ _) as [[[ms changed] old] new] eqn:Eav. apply check_available_length in Eav.
  unbind E. injection E0 as <- <-.
  assert (orderly w (set_clusters w (<[s_cluster (srv w) := set_members a0 ms]> (clusters w)))) as Ho.
  { intros [Hs Hk]. split; [done|]. unfold clusters_ok. cbn.
    intros k cl [[<- <-]|[_ Hx]]%lookup_insert_Some; [|by eapply Hk].
    cbn. rewrite Eav. by eapply Hk. }
  etrans; [exact Ho|].
  match type of E with ?m ?x = _ => refine ((_ : keeps orderly m) x _ w' E) end. walk.
Qed.
#[export] Hint Resolve timer_ticked_orderly replicate_entry_orderly : server.

Lemma timer_orderly : keeps orderly process_timer_event.
Proof. unfold process_timer_event, start_election, convert_to_candidate. walk. Qed.
#[export] Hint Resolve timer_orderly : server.

Lemma conn_event_orderly h ev : keeps orderly (conn_event h ev).
Proof. unfold conn_event. walk. Qed.

(** An accepted connection gets a session, or none. *)
Lemma accepted_orderly r ptr sock b x conn r' :
  sess r -> (forall h, ptr = Some h -> conns r !! h = None) ->
  raft_in_conn_malloc r ptr sock b x = Some (conn, r') -> sess r'.
Proof.
  intros Hs Hptr E. destruct ptr as [h|]; cbn in E; [|by injection E as _ <-].
  assert (h ∉ sessions r) as Hn.
  { intros Hin. destruct (se_owned _ Hs h Hin) as (c & Hc & _). rewrite Hptr in Hc; done. }
  destruct (with_tls r) eqn:Ht.
  - unfold session_init_server in E. rewrite tls_init_server_eq in E by done. cbn in E.
    destruct (granted x); injection E as _ <-; [|by destruct r]. destruct Hs as [Hb Ho Hh]. split; cbn.
    + congruence.
    + intros k [->%elem_of_singleton|Hk]%elem_of_union.
      * rewrite lookup_insert_eq. eexists. split; [done|]. by right; left.
      * rewrite lookup_insert_ne by set_solver. by apply Ho.
    + intros k d [[<- <-]|[_ Hk]]%lookup_insert_Some Hst; [set_solver|].
      apply elem_of_union_r. by eapply Hh.
  - injection E as _ <-. apply sess_set; [done..|]. intros [H'|H']; by vm_compute in H'.
Qed.

Lemma accept_one_orderly b : keeps orderly (accept_one b).
Proof.
  intros w a w' E. unfold accept_one in E. unbind E.
  assert (idle w w0) as Hi by (refine ((_ : keeps idle _) _ _ _ E0); walk).
  etrans; [by apply idle_orderly|]. destruct a0; try (by injection E as _ <-). do 2 unbind E.
  assert (idle w0 w1) as [En Ec] by (refine ((_ : keeps idle _) _ _ _ E1); walk).
  unbind E. destruct a1 as [conn r']. unbind E.
  assert (orderly w0 (set_net w1 r')) as Ho.
  { intros [Hs Hk]. split; [|unfold clusters_ok; cbn; by rewrite Ec].
    eapply accepted_orderly; [exact Hs| |exact H]. intros x. case_bool_decide as Hf; [|done].
    intros [= <-]. apply Hf. }
  etrans; [exact Ho|]. destruct conn as [x|]; [|by injection E as _ <-].
  destruct added; [by injection E as _ <-|]. unbind E. injection E as _ <-. by eapply orderly_conn_free.
Qed.

Lemma accept_loop_orderly n b : keeps orderly (accept_loop n b).
Proof.
  induction n as [|n IH]; cbn; [apply keeps_ret; apply _|].
  apply keeps_bind; [apply _|apply accept_one_orderly|].
  intros [ret|]; [apply keeps_ret; apply _|exact IH].
Qed.

Lemma raft_accept_orderly b : keeps orderly (_accept b).
Proof. intros w a w' E. by eapply accept_loop_orderly. Qed.
#[export] Hint Resolve conn_event_orderly raft_accept_orderly : server.

Lemma dispatch_orderly e : keeps orderly (dispatch e).
Proof. destruct e; unfold dispatch; walk. Qed.

(** ** Stale clusters *)

Lemma clear_subset r h r' : raft_conn_clear r h = Some r' -> sessions r' ⊆ sessions r.
Proof.
  unfold raft_conn_clear. intros (c & _ & E)%bind_Some. apply bind_Some in E as (_ & _ & E).
  apply bind_Some in E as (_ & _ & E). apply bind_Some in E as (r1 & E & [= <-]). cbn.
  destruct (conn_borrowed_log c); [apply conn_return_fields in E as (_ & _ & ->); done|].
  destruct (_ && _); [|by injection E as <-]. unfold session_deinit in E.
  apply bind_Some in E as (live & [_ ->]%tls_deinit_Some & [= <-]). cbn. set_solver.
Qed.

Lemma cluster_free_sess r cl i n r' :
  sess r -> cluster_free_loop r cl i n = Some r' ->
  sess r' /\ sessions r' ⊆ sessions r /\
  forall j, (i <= j < i + n)%nat -> member_conn cl j ∉ sessions r'.
Proof.
  revert r i. induction n as [|n IH]; intros r i Hs E; cbn in E.
  { injection E as <-. split; [done|]. split; [done|]. intros. lia. }
  apply bind_Some in E as (c & Hc & E). apply bind_Some in E as (r1 & E1 & E).
  assert (sess r1 /\ member_conn cl i ∉ sessions r1 /\ sessions r1 ⊆ sessions r) as (Hs1 & Hn & Hsub).
  { case_bool_decide as Hst.
    - pose proof (clear_subset _ _ _ E1). by destruct (close_sess r (member_conn cl i) false r1).
    - injection E1 as <-. split; [done|]. split; [|done]. eapply not_handshake; [done..|].
      rewrite Hst. intros [[H'|H']|[H'|H']]; by vm_compute in H'. }
  destruct (IH r1 (S i) Hs1 E) as (Hs' & Hsub' & Hall). split; [done|]. split; [set_solver|].
  intros j Hj. destruct (decide (j = i)) as [->|]; [set_solver|]. apply Hall. lia.
Qed.

Lemma sess_delete_all (L : list Z) r :
  sess r -> Forall (fun h => h ∉ sessions r) L -> sess (set_conns r (foldr delete (conns r) L)).
Proof.
  intros Hs. induction 1 as [|h L Hh _ IH]; cbn; [by apply (sess_same r)|].
  by apply (sess_delete (set_conns r (foldr delete (conns r) L))).
Qed.

Lemma free_cluster_orderly a : keeps orderly (free_cluster a).
Proof.
  intros w x w' E [Hs Hk]. unfold free_cluster in E. unbind E. injection E0 as <- <-. do 2 unbind E.
  unfold lift in E0. do 2 unbind E0. injection E0 as _ <-. do 2 unbind E. injection E as _ <-.
  unfold cluster_free in H0. rewrite (Hk _ _ H), Nat2Z.id in H0.
  destruct (cluster_free_sess _ _ _ _ _ Hs H0) as (Hs1 & _ & Hall).
  split; cbn.
  - apply sess_delete_all; [done|]. apply Forall_forall. intros h ([k c] & -> & Hin)%list_elem_of_fmap.
    apply list_elem_of_lookup in Hin as (i & Hi).
    apply list_lookup_imap_Some in Hi as (m & Hi & [= -> ->]). cbn. apply Hall.
    apply lookup_lt_Some in Hi. lia.
  - unfold clusters_ok. cbn. intros k cl [_ Hcl]%lookup_delete_Some. by eapply Hk.
Qed.
#[export] Hint Resolve free_cluster_orderly : server.

Lemma step_orderly e w w' : server_step e w w' -> orderly w w'.
Proof.
  intros [e' w1 w2 E|w1 w2 E|w1 w2 E|w1 w2 E].
  - by eapply dispatch_orderly.
  - by eapply replicate_entry_orderly.
  - match type of E with ?m ?x = _ => refine ((_ : keeps orderly m) x _ _ E) end. walk.
  - match type of E with ?m ?x = _ => refine ((_ : keeps orderly m) x _ _ E) end.
    unfold free_stale_clusters. walk.
Qed.

(** ** Runs of the service *)

Lemma listen_idle port data : keeps idle (listen port data).
Proof. unfold listen. walk. Qed.
#[export] Hint Resolve listen_idle : server.

Lemma loop_round_orderly port events : keeps orderly (loop_round port events).
Proof.
  unfold loop_round. apply keeps_bind; [apply _|unfold relisten; walk|]. intros _.
  apply keeps_bind; [apply _|apply keeps_iter; [apply _|]; intros; apply dispatch_orderly|]. walk.
Qed.

#[export] Hint Resolve loop_round_orderly : server.

Lemma server_init_orderly : keeps orderly must_server_init.
Proof. unfold must_server_init, must_succeed. walk. Qed.

Lemma service_run_orderly port rounds : keeps orderly (must_service_run port rounds).
Proof.
  unfold must_service_run, loop_forever, must_succeed.
  apply keeps_bind; [apply _|walk|]. intros _. apply keeps_bind; [apply _|apply server_init_orderly|].
  intros _. walk.
Qed.

(** A process that has just been started. *)
Definition just_started (w : world) : Prop :=
  conns (net w) = ∅ /\ sessions (net w) = ∅ /\ clusters w = ∅.

Lemma just_started_ok w : just_started w -> sessions_ok w.
Proof.
  intros (Ec & Es & Ek). split.
  - split; rewrite ?Es, ?Ec; [done|set_solver|]. intros h c H. by rewrite lookup_empty in H.
  - intros a cl H. by rewrite Ek, lookup_empty in H.
Qed.

(** C19: at any point of any run of the service, in either build, a TLS session is
    allocated only while the connection it lies in exists and is in its
    handshake, and the session of an incoming connection in its handshake is
    allocated: no session is leaked, and closing an incoming connection releases
    its session exactly once. *)
Theorem sessions_owned port rounds w w'
    (Hstart : just_started w) (Hrun : must_service_run port rounds w = Ret tt w') :
  (forall h, h ∈ sessions (net w') ->
     exists c, conns (net w') !! h = Some c /\ in_handshake (state c)) /\
  (forall h c, conns (net w') !! h = Some c -> in_server_handshake (state c) ->
     h ∈ sessions (net w')).
Proof.
  apply just_started_ok, (service_run_orderly _ _ _ _ _ Hrun) in Hstart as [Hs _].
  split; [apply (se_owned _ Hs)|apply (se_held _ Hs)].
Qed.

(** ** A sample run *)

(** A process with TLS, and the answers it will get. *)
Definition tls_process (inp : list answer) : world :=
  {| srv := sample_srv (FOLLOWER 0 0) 0;
     net := {| with_tls := true; conns := ∅; logs := ∅; authority := []; sessions := ∅ |};
     bufs := fun _ => replicate 80 0;
     nrs := fun _ => {| pending_nr := 0; processing_nr := 0; succeed_nr := 0 |};
     clusters := ∅; input := inp; output := []; user_fd := -1; admin_fd := -1 |}.

Definition all_granted : tls_answer :=
  {| g_init := true; g_priority := true; g_credentials := true |}.

(** It starts, accepts two clients, and the handshake of the first waits to
    write; the other one gives up. *)
Definition two_clients : list answer :=
  [No_error; No_error; No_error; No_error; Alloc_log 4096 zero_log; Listening 3; Listening 4;
   Accepted 7 200 true; Session all_granted []; Accepted 8 400 true; Session all_granted []; Again;
   Handshake (GNUTLS_E_AGAIN true)].

Definition two_rounds : list (list (Z * Z)) :=
  [[(ACCEPT_EVENT_U64, EPOLLIN)]; [(in_conn_data 200, EPOLLIN); (in_conn_data 400, 16)]].

Definition run_of (port : Z) (rounds : list (list (Z * Z))) (w : world) : world :=
  match must_service_run port rounds w with Ret _ w' => w' | _ => w end.

Lemma sessions_owned_witness :
  let w' := run_of 8080 two_rounds (tls_process two_clients) in
  sessions (net w') = {[200]} /\
  (exists c, conns (net w') !! 200 = Some c /\ in_handshake (state c)) /\
  conns (net w') !! 400 = None.
Proof.
  intros w'.
  assert (must_service_run 8080 two_rounds (tls_process two_clients) = Ret tt w') as E.
  { assert (match must_service_run 8080 two_rounds (tls_process two_clients) with
            | Ret _ _ => true | _ => false end = true) as H by (vm_compute; reflexivity).
    unfold w', run_of. destruct (must_service_run 8080 two_rounds (tls_process two_clients))
      as [[] ?| |]; [reflexivity|discriminate H..]. }
  destruct (sessions_owned 8080 two_rounds (tls_process two_clients) w') as [Ho _];
    [repeat split; reflexivity|exact E|].
  assert (sessions (net w') = {[200]}) as Es by (vm_compute; reflexivity).
  split; [exact Es|]. split; [apply Ho; rewrite Es; apply elem_of_singleton; reflexivity|].
  vm_compute. reflexivity.
Defined.

(** ** A member that has already answered *)

(** A leader does nothing with a new connection to such a member: it does not
    even make the connection ready for use. *)
Lemma ready_for_use_ignored h w p m :
  is_leader (srv w) = true -> member_of h w = Ret p w -> get_member p w = Ret m w ->
  responded_append_entry m = true -> change_to_ready_for_use h w = Ret tt w.
Proof.
  intros Hl Hp Hm Hr. unfold change_to_ready_for_use, mbind, M_bind. cbv beta iota delta [get_srv].
  unfold is_leader in Hl. destruct (s_role (srv w)); [|done..]. by rewrite Hp, Hm, Hr.
Qed.

(** An event on a connection in a client handshake whose session is gone. *)
Lemma gone_session_faults h c w :
  conns (net w) !! h = Some c -> in_client_handshake (state c) -> with_tls (net w) = true ->
  h ∉ sessions (net w) -> forall ev,
  Z.land ev (Z.lnot (EPOLLIN + EPOLLOUT)) <> 0 \/ Z.land ev (state c) <> 0 ->
  conn_event h ev w = Fault.
Proof.
  intros Hc Hst Ht Hn ev Hev. unfold conn_event, get_conn, mbind, M_bind.
  cbv beta iota delta [get_net]. rewrite Hc. cbv beta iota delta [from mret M_ret].
  destruct (handshake_facts (state c)) as (Hb & _ & _ & Hg); [by left|].
  assert (raft_conn_outgoing c = true) as Ho by (unfold raft_conn_outgoing; by destruct Hst as [-> | ->]).
  case_bool_decide as H1.
  - rewrite Ho. unfold conn_clear, lift, mbind, M_bind. cbv beta iota delta [get_net].
    unfold raft_conn_clear. rewrite Hc. cbn [mbind option_bind].
    rewrite !option_guard_True by (done || by destruct Hst as [-> | ->]). cbn [mbind option_bind].
    unfold conn_borrowed_log. rewrite Hb, Ht, (Hg Ho). cbn [negb Z.eqb andb].
    unfold session_deinit, tls_deinit, gnutls_deinit. by rewrite option_guard_False.
  - rewrite bool_decide_eq_true_2 by tauto.
    unfold process, get_conn, mbind, M_bind. cbv beta iota delta [get_net]. rewrite Hc.
    cbv beta iota delta [from mret M_ret].
    assert (state_tls_client_handshake h w = Fault) as Hf.
    { unfold state_tls_client_handshake, handshake, mbind, M_bind.
      destruct (pop w) as [a w1| |] eqn:E; [|by unfold pop in E; destruct (input w)..].
      assert (net w1 = net w) as En by (unfold pop in E; by destruct (input w); injection E as _ <-).
      cbv beta iota delta [get_net]. unfold tls_handshake. rewrite En. by rewrite option_guard_False. }
    by destruct Hst as [-> | ->].
Qed.

(** C38: a leader that completes the TLS handshake with a member which has already
    answered in the current round (its previous connection broke after the
    answer) releases the session but leaves the connection in the handshake
    state, so that every further event on the connection, a hang-up included,
    uses or releases the session a second time. *)
Theorem responded_member_session_reused h c w rest p m
    (Hc : conns (net w) !! h = Some c) (Hst : in_client_handshake (state c))
    (Htls : with_tls (net w) = true) (Hlive : h ∈ sessions (net w))
    (Hans : input w = Handshake (GNUTLS_E_SUCCESS true) :: rest)
    (Hlead : is_leader (srv w) = true)
    (Hp : member_of h w = Ret p w) (Hm : get_member p w = Ret m w)
    (Hresp : responded_append_entry m = true) :
  exists w', process h w = Ret tt w' /\ conns (net w') !! h = Some c /\
    h ∉ sessions (net w') /\
    forall ev, Z.land ev (Z.lnot (EPOLLIN + EPOLLOUT)) <> 0 \/ Z.land ev (state c) <> 0 ->
      conn_event h ev w' = Fault.
Proof.
  set (w1 := set_input w rest).
  set (w2 := set_net w1 (set_sessions (net w) (sessions (net w) ∖ {[h]}))).
  assert (handshake h w = Ret (GNUTLS_E_SUCCESS true) w1) as E1.
  { unfold handshake, pop, mbind, M_bind. rewrite Hans. cbv beta iota delta [get_net]. cbn [net set_input].
    by rewrite tls_handshake_live. }
  assert (deinit h w1 = Ret tt w2) as E2.
  { unfold deinit, lift, mbind, M_bind. cbv beta iota delta [get_net]. cbn [net set_input w1].
    unfold session_deinit. by rewrite tls_deinit_live. }
  assert (change_to_ready_for_use h w2 = Ret tt w2) as E3.
  { apply (ready_for_use_ignored h w2 p m); [done| | |done].
    - revert Hp. unfold member_of, my_cluster, mbind, M_bind. cbv beta iota delta [get_srv get_clusters].
      cbn [srv clusters w2 w1 set_net set_input]. destruct (clusters w !! _); [|done]. cbn.
      destruct (list_find _ _); [|done]. cbn. by intros [= <-].
    - revert Hm. unfold get_member, mbind, M_bind. cbv beta iota delta [get_clusters].
      cbn [clusters w2 w1 set_net set_input]. destruct (clusters w !! _); [|done]. cbn.
      destruct (members _ !! _); [|done]. cbn. by intros [= <-]. }
  assert (state_tls_client_handshake h w = Ret tt w2) as E.
  { unfold state_tls_client_handshake, mbind, M_bind. by rewrite E1, E2. }
  exists w2. split.
  { rewrite <-E. unfold process, get_conn, mbind, M_bind. cbv beta iota delta [get_net]. rewrite Hc.
    cbv beta iota delta [from mret M_ret]. by destruct Hst as [-> | ->]. }
  split; [done|]. assert (h ∉ sessions (net w2)) as Hn by (cbn; set_solver). split; [done|].
  by apply (gone_session_faults h c w2).
Qed.

(** A leader with TLS: it connects to its first member, which answers and hangs
    up; the leader connects again, and the handshake is about to succeed. *)
Definition with_sessions (w : world) : world :=
  set_net w {| with_tls := true; conns := conns (net w); logs := logs (net w);
               authority := authority (net w); sessions := sessions (net w) |}.
Definition first_conn : Z := member_conn 8192 0.
Definition blank_session : answer := Session all_granted (replicate 80 0).
Definition entry_answer : answer :=
  Got (take 16 (put_append_entry_res {| ae_term := 5; ae_applied := true |} (replicate 80 0))).

Definition leading : world :=
  with_sessions (sample_world (LEADER 1) (Some (8192, sample_cluster))
    [Connected 10; blank_session; Handshake (GNUTLS_E_SUCCESS true); Wrote 240; Failed; Failed;
     Failed; Failed;
     entry_answer; Wrote 16;
     entry_answer;
     Connected 11; blank_session; Handshake (GNUTLS_E_AGAIN false); Failed; Failed;
     Handshake (GNUTLS_E_SUCCESS true)]).
Definition history : list (list (Z * Z)) :=
  [[(TIMER_EVENT_U64, EPOLLIN)]; [(out_conn_data first_conn, EPOLLIN)];
   [(out_conn_data first_conn, EPOLLIN)]; [(out_conn_data first_conn, 16)];
   [(TIMER_EVENT_U64, EPOLLIN)]].
Definition reconnecting : world :=
  match loop_forever 8080 history leading with Ret _ w => w | _ => leading end.

Lemma history_returns : loop_forever 8080 history leading = Ret tt reconnecting.
Proof.
  assert (match loop_forever 8080 history leading with Ret _ _ => true | _ => false end = true) as H
    by (by vm_compute).
  unfold reconnecting. by destruct (loop_forever 8080 history leading) as [[] ?| |].
Qed.

Lemma responded_member_session_reused_witness :
  loop_forever 8080 history leading = Ret tt reconnecting /\
  exists w', process first_conn reconnecting = Ret tt w' /\ conn_event first_conn 16 w' = Fault.
Proof.
  split; [exact history_returns|].
  destruct (responded_member_session_reused first_conn
    (default RaftConn.sample_conn (conns (net reconnecting) !! first_conn)) reconnecting []
    (8192, 0%nat) (default raw_member (members (default sample_cluster
      (clusters reconnecting !! 8192)) !! 0%nat))) as (w' & E & _ & _ & H).
  - vm_compute. reflexivity.
  - left. vm_compute. reflexivity.
  - vm_compute. reflexivity.
  - vm_compute. reflexivity.
  - vm_compute. reflexivity.
  - vm_compute. reflexivity.
  - vm_compute. reflexivity.
  - vm_compute. reflexivity.
  - vm_compute. reflexivity.
  - exists w'. split; [exact E|]. apply H. left. vm_compute. congruence.
Defined.
