(* ===== verification/Main.v ===== *)
(** * The start of the program (main.c)

    [main] checks its arguments, loads the TLS credentials in the build with
    [CONFIG_KERNEL_TLS], reads the port with [strtol] and hands it to
    [must_service_run]; where [must] fails the process aborts.  Strings are
    lists of bytes without the terminating zero.  The signal handlers, which
    only end the process, are not modelled. *)

From S2P Require Import Prelude Slab Machine Log LogInv Tls RaftConn Proto Cluster Server Election.

(** ** strtol, with base 10 *)

Definition LONG_MAX : Z := 2 ^ 63 - 1.
Definition LONG_MIN : Z := - 2 ^ 63.

Definition isspace (c : Z) : bool := (c =? 32) || ((9 <=? c) && (c <=? 13)).
Definition isdigit (c : Z) : bool := (48 <=? c) && (c <=? 57).

Fixpoint skip_spaces (s : list Z) : list Z :=
  match s with c :: s' => if isspace c then skip_spaces s' else s | [] => [] end.

(** The sign, and the rest of the string. *)
Definition sign (s : list Z) : bool * list Z :=
  match s with
  | c :: s' => if c =? 45 then (true, s') else if c =? 43 then (false, s') else (false, s)
  | [] => (false, s)
  end.

(** The value of the digits at the front of the string, after those that make up
    [acc], and what follows them. *)
Fixpoint digits (acc : Z) (s : list Z) : Z * list Z :=
  match s with
  | c :: s' => if isdigit c then digits (10 * acc + (c - 48)) s' else (acc, s)
  | [] => (acc, s)
  end.

(** The value and [endptr]; a string without digits is 0, and [endptr] is its
    beginning. *)
Definition strtol (s : list Z) : Z * list Z :=
  let '(negative, body) := sign (skip_spaces s) in
  match body with
  | c :: _ =>
      if isdigit c then
        let '(v, rest) := digits 0 body in
        (Z.max LONG_MIN (Z.min LONG_MAX (if negative then - v else v)), rest)
      else (0, s)
  | [] => (0, s)
  end.

(** ** main *)

Definition must_meet_requirements (pagesize : Z) : bool := pagesize =? Z.shiftl 1 PAGE_SHIFT.

(** The port [main] hands to [must_service_run], [None] when it aborts before;
    [pagesize] is the answer of [sysconf]. *)
Definition main_port (tls : bool) (argv : list (list Z)) (creds : global_answer) (pagesize : Z)
    : option Z :=
  let argc := Z.of_nat (length argv) in
  (if tls then guard (5 <= argc);; guard (tls_global_init creds = true);; Some tt
   else guard (2 <= argc);; Some tt);;
  arg ← argv !! 1%nat;
  let '(n, rest) := strtol arg in
  let port := s32 n in
  guard (arg <> [] /\ rest = []);;
  guard (must_meet_requirements pagesize = true);;
  Some port.

(** The program with the raft service; [rounds] are the events of its loop. *)
Definition main (argv : list (list Z)) (creds : global_answer) (pagesize : Z)
    (rounds : list (list (Z * Z))) : M unit :=
  r ← get_net;
  match main_port (with_tls r) argv creds pagesize with
  | Some port => must_service_run port rounds
  | None => exit
  end.

(** ** Numbers *)

(** The number the digits [ds] denote: each counts ten times the next. *)
Fixpoint value (ds : list Z) : Z :=
  match ds with [] => 0 | d :: ds' => d * 10 ^ Z.of_nat (length ds') + value ds' end.

(** [s] is the decimal representation of [n]. *)
Definition is_number (s : list Z) (n : Z) : Prop :=
  exists ds, ds <> [] /\ Forall (fun d => 0 <= d <= 9) ds /\ s = (Z.add 48) <$> ds /\ value ds = n.

Lemma value_nonneg ds : Forall (fun d => 0 <= d <= 9) ds -> 0 <= value ds.
Proof. induction 1 as [|d ds Hd _ IH]; cbn; [lia|]. pose proof (Z.pow_nonneg 10 (Z.of_nat (length ds))). nia. Qed.

Lemma isdigit_byte d : 0 <= d <= 9 -> isdigit (48 + d) = true.
Proof. intros. unfold isdigit. apply andb_true_iff. split; apply Z.leb_le; lia. Qed.

Lemma digits_value ds acc :
  Forall (fun d => 0 <= d <= 9) ds ->
  digits acc ((Z.add 48) <$> ds) = (acc * 10 ^ Z.of_nat (length ds) + value ds, []).
Proof.
  intros Hds. revert acc. induction Hds as [|d ds Hd _ IH]; intros acc.
  { cbn. f_equal. lia. }
  cbn [digits fmap list_fmap value length]. rewrite isdigit_byte, IH by done. f_equal.
  rewrite Nat2Z.inj_succ, Z.pow_succ_r by lia. lia.
Qed.

Lemma strtol_number s n : is_number s n -> n <= LONG_MAX -> strtol s = (n, []) /\ s <> [] /\ 0 <= n.
Proof.
  intros (ds & Hne & Hds & -> & Hv) Hn. pose proof (value_nonneg ds Hds).
  split; [|split; [by destruct ds|lia]].
  destruct ds as [|d ds]; [done|]. pose proof Hds as [Hd _]%Forall_cons.
  unfold strtol. cbn [fmap list_fmap skip_spaces].
  assert (isspace (48 + d) = false) as ->.
  { unfold isspace. destruct (Z.eqb_spec (48 + d) 32), (Z.leb_spec (48 + d) 13); try lia. }
  assert (sign (48 + d :: ((Z.add 48) <$> ds)) = (false, (Z.add 48) <$> d :: ds)) as ->.
  { cbn. destruct (Z.eqb_spec (48 + d) 45), (Z.eqb_spec (48 + d) 43); try lia. done. }
  cbn [fmap list_fmap]. rewrite isdigit_byte by done.
  pose proof (digits_value (d :: ds) 0 Hds) as E. cbn [fmap list_fmap] in E. rewrite E, Hv. f_equal. unfold LONG_MIN, LONG_MAX in *. lia.
Qed.

(** ** The start of the service *)

(** What the system answers when nothing fails: the threads, the epoll instance,
    the timer and its registration, the first log and the two sockets. *)
Definition startup (h : Z) (raw : log) (user admin : Z) : list answer :=
  [No_error; No_error; No_error; No_error; Alloc_log h raw; Listening user; Listening admin].

Lemma must_succeed_run w rest :
  input w = No_error :: rest -> must_succeed w = Ret tt (set_input w rest).
Proof. unfold must_succeed, pop, mbind, M_bind. by intros ->. Qed.

Lemma raft_listen_run w port data sock rest :
  input w = Listening sock :: rest ->
  listen port data w =
  Ret sock (set_output (set_input w rest) (output w ++ [Listened sock (wrap 16 port) data])).
Proof. unfold listen, pop, mbind, M_bind. by intros ->. Qed.

Lemma log_alloc_run w h raw rest :
  input w = Alloc_log h raw :: rest -> h <> 0 -> logs (net w) !! h = None -> machines raw = [] ->
  log_alloc (fun malloc => Some (log_malloc malloc 0)) w =
  Ret (Some h) (set_net (set_input w rest)
    (set_logs (net w) (<[h := set_refcount raw 0]> (logs (net w))))).
Proof.
  intros Hin Hh Hl Hm. unfold log_alloc, pop, mbind, M_bind. rewrite Hin.
  cbv beta iota delta [get_net from mret M_ret]. cbn [net set_input]. unfold log_malloc.
  rewrite bool_decide_eq_true_2; [done|]. by rewrite Hm.
Qed.

Lemma borrow_run w h l :
  logs (net w) !! h = Some l ->
  server_borrow_log h w = Ret tt (set_srv (set_net w
    (set_logs (net w) (<[h := log_borrow l]> (logs (net w))))) (set_s_log (srv w) h)).
Proof.
  intros Hl. unfold server_borrow_log, get_log, put_log, mbind, M_bind.
  cbv beta iota delta [get_net]. by rewrite Hl.
Qed.

(** The server of a process that has just been started. *)
Record started (h : Z) (w w' : world) : Prop := {
  sd_role : s_role (srv w') = FOLLOWER 0 0;
  sd_term : s_term (srv w') = 0;
  sd_cluster : s_cluster (srv w') = 0;
  sd_log : s_log (srv w') = h;
  sd_logs : logs (net w') !! h = Some (set_refcount zero_log 1);
  sd_conns : conns (net w') = conns (net w)
}.

Lemma server_init_run w h raw rest :
  input w = No_error :: No_error :: No_error :: Alloc_log h raw :: rest ->
  h <> 0 -> logs (net w) !! h = None -> machines raw = [] ->
  exists w', must_server_init w = Ret tt w' /\ started h w w' /\ input w' = rest /\
    output w' = output w.
Proof.
  intros Hin Hh Hl Hm. unfold must_server_init.
  rewrite (bind_run _ _ _ _ _ (must_succeed_run _ _ Hin)).
  erewrite bind_run by reflexivity.
  erewrite bind_run by (apply must_succeed_run; reflexivity).
  erewrite bind_run by (apply must_succeed_run; reflexivity).
  erewrite bind_run by reflexivity. erewrite bind_run by reflexivity.
  erewrite bind_run by (apply (log_alloc_run _ h raw rest); done). cbv beta iota.
  erewrite bind_run by reflexivity.
  erewrite bind_run by (apply borrow_run; apply lookup_insert_eq).
  erewrite bind_run by reflexivity.
  eexists. split; [reflexivity|]. split; [|done]. split; try done.
  cbn -[zero_log]. by rewrite lookup_insert_eq.
Qed.

Lemma raft_service_starts port w h raw user admin rest :
  input w = startup h raw user admin ++ rest -> h <> 0 -> logs (net w) !! h = None ->
  machines raw = [] -> user <> -1 -> admin <> -1 ->
  exists w', must_service_run port [] w = Ret tt w' /\ started h w w' /\
    output w' = output w ++ [Listened user (wrap 16 port) ACCEPT_EVENT_U64;
                             Listened admin (wrap 16 (port + 1)) ACCEPT_ADMIN_EVENT_U64].
Proof.
  intros Hin Hh Hl Hm Hu Ha. unfold must_service_run.
  rewrite (bind_run _ _ _ _ _ (must_succeed_run _ _ Hin)).
  match goal with |- context [set_input w ?x] =>
    destruct (server_init_run (set_input w x) h raw (Listening user :: Listening admin :: rest)
      eq_refl Hh Hl Hm) as (w1 & E1 & Hst & Ei & Eo) end.
  rewrite (bind_run _ _ _ _ _ E1). unfold listen_user, listen_admin.
  rewrite (bind_run _ _ _ _ _ (raft_listen_run _ _ _ _ _ Ei)), (proj2 (Z.eqb_neq user (-1))) by done.
  erewrite bind_run by (apply raft_listen_run; reflexivity). rewrite (proj2 (Z.eqb_neq admin (-1))) by done.
  erewrite bind_run by reflexivity. eexists. split; [reflexivity|].
  destruct Hst as [????? Hcn]. split; [by split|]. cbn [output set_fds set_output set_input].
  rewrite Eo, wrap_wrap, <-app_assoc by done. unfold wrap. by rewrite Zplus_mod_idemp_l.
Qed.

(** C35: started with a decimal number below 2^31 as its port, on a system where
    no call of the start fails, the program listens for clients on that number
    modulo 2^16 and for the administrator on the successor modulo 2^16, and is a
    follower of term 0 that belongs to no cluster and knows no leader.  So for a
    port up to 65534 the two are the port and the next one, for port 65535 the
    administrator's is 0, and a larger number stands for its low 16 bits. *)
Theorem main_starts argv creds pagesize w s port h raw user admin rest
    (Harg : argv !! 1%nat = Some s) (Hport : is_number s port) (Hmax : port < 2 ^ 31)
    (Hargc : with_tls (net w) = true -> 5 <= Z.of_nat (length argv) /\ tls_global_init creds = true)
    (Hpage : pagesize = 4096)
    (Hin : input w = startup h raw user admin ++ rest) (Hh : h <> 0)
    (Hl : logs (net w) !! h = None) (Hraw : machines raw = [])
    (Huser : user <> -1) (Hadmin : admin <> -1) :
  exists w', main argv creds pagesize [] w = Ret tt w' /\ started h w w' /\
    exists user_port admin_port,
      output w' = output w ++ [Listened user user_port ACCEPT_EVENT_U64;
                               Listened admin admin_port ACCEPT_ADMIN_EVENT_U64] /\
      user_port = port mod 2 ^ 16 /\ admin_port = (port + 1) mod 2 ^ 16 /\
      (port < 2 ^ 16 - 1 -> user_port = port /\ admin_port = port + 1) /\
      (port = 2 ^ 16 - 1 -> user_port = port /\ admin_port = 0).
Proof.
  destruct (strtol_number s port Hport) as (Es & Hne & Hpos); [unfold LONG_MAX; lia|].
  assert (main_port (with_tls (net w)) argv creds pagesize = Some port) as Em.
  { unfold main_port. rewrite Harg. cbn [mbind option_bind]. rewrite Es, Hpage.
    rewrite (option_guard_True (s <> [] /\ [] = [])) by done. cbn [mbind option_bind].
    replace (s32 port) with port by (unfold s32; rewrite wrap_small by lia;
      destruct (Z.ltb_spec port (2 ^ 31)); lia).
    destruct (with_tls (net w)).
    - destruct Hargc as [H5 Hc]; [done|]. by rewrite !option_guard_True.
    - apply lookup_lt_Some in Harg. by rewrite !option_guard_True by (done || lia). }
  unfold main. erewrite bind_run by reflexivity. rewrite Em.
  destruct (raft_service_starts port w h raw user admin rest) as (w' & E & Hst & Eo); try done.
  exists w'. split; [done|]. split; [done|]. exists (wrap 16 port), (wrap 16 (port + 1)).
  split_and!; [done|done|done| |by intros ->].
  intros Hsmall. by rewrite !wrap_small by lia.
Qed.

Definition no_credentials : global_answer :=
  {| g_version := false; g_allocate := false; g_key_file := false; g_dh_params := false;
     g_trusted := 0 |}.

(** A machine with nothing in memory, and the arguments [umem-cache 8080]. *)
Definition blank_world (inp : list answer) : world :=
  {| srv := {| s_id := 0; s_term := 0; timer_ticks := 0; s_role := FOLLOWER 0 0;
               commit_entry_required_old_votes := 0; commit_entry_required_new_votes := 0;
               entry_commited := false; replicate_entry_flag := false; leader_available := false;
               s_log := 0; stale_cluster := []; s_cluster := 0 |};
     net := {| with_tls := false; conns := ∅; logs := ∅; authority := []; sessions := ∅ |};
     bufs := fun _ => replicate 80 0;
     nrs := fun _ => {| pending_nr := 0; processing_nr := 0; succeed_nr := 0 |};
     clusters := ∅; input := inp; output := []; user_fd := -1; admin_fd := -1 |}.
Definition sample_argv : list (list Z) := [[117]; [56; 48; 56; 48]].

Lemma main_starts_witness :
  exists w', main sample_argv no_credentials 4096 [] (blank_world (startup 4096 zero_log 3 4)) = Ret tt w' /\
    output w' = [Listened 3 8080 1; Listened 4 8081 2].
Proof.
  destruct (main_starts sample_argv no_credentials 4096 (blank_world (startup 4096 zero_log 3 4))
    [56; 48; 56; 48] 8080 4096 zero_log 3 4 []) as (w' & E & _ & up & ap & Eo & -> & -> & _).
  - reflexivity.
  - exists [8; 0; 8; 0]. split; [discriminate|]. split; [repeat constructor; lia|].
    split; vm_compute; reflexivity.
  - lia.
  - discriminate.
  - reflexivity.
  - reflexivity.
  - discriminate.
  - reflexivity.
  - reflexivity.
  - discriminate.
  - discriminate.
  - exists w'. split; [exact E|]. rewrite Eo. vm_compute. reflexivity.
Defined.
