(* ===== verification/SizeClass.v ===== *)
(** * Size classes of values (thread.c)

    A thread keeps [KV_CACHE_LEN] slab allocators, one per size class.  The
    table [kv_cache_idx] maps a size, in steps of 8 bytes, to the class that
    serves it; the debug build prints the table it should be.  Here: the table
    is the generated one, the initialisation of the classes meets its
    assertions, and [kv_cache_get] finds the smallest class that fits. *)

From S2P Require Import Prelude Slab KvCache.

Definition KV_CACHE_LEN : Z := 75.

(** [size] is a [uint64_t]. *)
Definition SIZE_TO_IDX_IDX (size : Z) : Z :=
  Z.shiftr (u64 (size + 7 - KV_CACHE_OBJ_SIZE_MIN)) 3.
Definition KV_CACHE_IDX_LEN : Z := SIZE_TO_IDX_IDX KV_CACHE_OBJ_SIZE_MAX + 1.

Definition kv_cache_idx : list Z :=
  [
     0;  1;  2;  3;  4;  5;  6;  7;  8;  9; 10; 11; 12; 13; 14; 15; 16; 17;
    18; 19; 20; 21; 22; 23; 24; 25; 25; 26; 26; 27; 27; 28; 28; 29; 29; 30;
    30; 30; 31; 31; 31; 32; 32; 33; 33; 34; 34; 35; 35; 35; 36; 36; 37; 37;
    37; 38; 38; 38; 38; 39; 39; 39; 39; 40; 40; 40; 40; 41; 41; 41; 41; 41;
    42; 42; 42; 42; 42; 43; 43; 43; 44; 44; 44; 44; 45; 45; 45; 45; 46; 46;
    46; 46; 47; 47; 47; 47; 48; 48; 48; 48; 48; 49; 49; 49; 49; 49; 50; 50;
    50; 50; 50; 50; 51; 51; 51; 51; 51; 51; 51; 52; 52; 52; 52; 52; 52; 52;
    52; 53; 53; 53; 53; 53; 53; 53; 53; 54; 54; 54; 54; 54; 55; 55; 55; 55;
    55; 56; 56; 56; 56; 56; 57; 57; 57; 57; 57; 57; 58; 58; 58; 58; 58; 58;
    59; 59; 59; 59; 59; 59; 59; 60; 60; 60; 60; 60; 60; 60; 60; 61; 61; 61;
    61; 61; 61; 61; 61; 62; 62; 62; 62; 62; 62; 62; 62; 62; 63; 63; 63; 63;
    63; 63; 63; 63; 63; 64; 64; 64; 64; 64; 64; 64; 64; 64; 64; 64; 65; 65;
    65; 65; 65; 65; 65; 65; 65; 65; 65; 65; 66; 66; 66; 66; 66; 66; 66; 66;
    66; 66; 66; 66; 66; 67; 67; 67; 67; 67; 67; 67; 67; 67; 67; 67; 67; 67;
    67; 67; 67; 68; 68; 68; 68; 68; 68; 68; 68; 68; 68; 68; 68; 68; 68; 68;
    68; 68; 69; 69; 69; 69; 69; 69; 69; 69; 69; 69; 69; 69; 69; 69; 69; 69;
    69; 69; 69; 70; 70; 70; 70; 70; 70; 70; 70; 70; 70; 70; 70; 70; 70; 70;
    70; 70; 70; 70; 70; 70; 70; 70; 71; 71; 71; 71; 71; 71; 71; 71; 71; 71;
    71; 71; 71; 71; 71; 71; 71; 71; 71; 71; 71; 71; 71; 71; 71; 71; 72; 72;
    72; 72; 72; 72; 72; 72; 72; 72; 72; 72; 72; 72; 72; 72; 72; 72; 72; 72;
    72; 72; 72; 72; 72; 72; 72; 72; 72; 72; 72; 73; 73; 73; 73; 73; 73; 73;
    73; 73; 73; 73; 73; 73; 73; 73; 73; 73; 73; 73; 73; 73; 73; 73; 73; 73;
    73; 73; 73; 73; 73; 73; 73; 73; 73; 73; 73; 73; 74; 74; 74; 74; 74; 74;
    74; 74; 74; 74; 74; 74; 74; 74; 74; 74; 74; 74; 74; 74; 74; 74; 74; 74;
    74; 74; 74; 74; 74; 74; 74; 74; 74; 74; 74; 74; 74; 74; 74; 74; 74; 74;
    74; 74; 74; 74
  ].

(** The numbers [kv_cache_idx_generate_print] prints: [obj_size] is that of the
    class [i] in use, [n] the number of sizes left. *)
Fixpoint idx_generate_loop (cache : kv_cache) (i size : Z) (n : nat) : option (list Z) :=
  match n with
  | O => Some []
  | S n' =>
      '(cache, i) ← (if obj_size cache <? size then
                       temp ← kv_cache_init (u16 size); Some (temp, i + 1)
                     else Some (cache, i));
      rest ← idx_generate_loop cache i (size + 8) n';
      Some (i :: rest)
  end.

Definition kv_cache_idx_generate_print : option (list Z) :=
  cache ← kv_cache_init KV_CACHE_OBJ_SIZE_MIN;
  rest ← idx_generate_loop cache 0 (KV_CACHE_OBJ_SIZE_MIN + 8)
           (Z.to_nat ((KV_CACHE_OBJ_SIZE_MAX - KV_CACHE_OBJ_SIZE_MIN) / 8));
  Some (0 :: rest).

(** An access past an array is a fault. *)
Definition set_cache (l : list kv_cache) (i : Z) (c : kv_cache) : option (list kv_cache) :=
  guard (0 <= i < Z.of_nat (length l));; Some (<[Z.to_nat i := c]> l).

(** The loop of [kv_cache_list_init] from index [i] on, [n] indices left. *)
Fixpoint list_init_loop (l : list kv_cache) (i : Z) (n : nat) : option (list kv_cache) :=
  match n with
  | O => Some l
  | S n' =>
      c ← kv_cache_idx !! Z.to_nat i;
      c' ← kv_cache_idx !! Z.to_nat (i - 1);
      l ← (if c =? c' then Some l
           else
             cache ← kv_cache_init (u16 (KV_CACHE_OBJ_SIZE_MIN + 8 * i));
             set_cache l c cache);
      list_init_loop l (i + 1) n'
  end.

(** [raw] is the array before the initialisation. *)
Definition kv_cache_list_init (raw : list kv_cache) : option (list kv_cache) :=
  top ← kv_cache_idx !! Z.to_nat (KV_CACHE_IDX_LEN - 1);
  guard (KV_CACHE_LEN = top + 1);;
  first ← kv_cache_init KV_CACHE_OBJ_SIZE_MIN;
  l ← set_cache raw 0 first;
  l ← list_init_loop l 1 (Z.to_nat (KV_CACHE_IDX_LEN - 1));
  last ← l !! Z.to_nat (KV_CACHE_LEN - 1);
  guard (obj_size last = KV_CACHE_OBJ_SIZE_MAX);;
  Some l.

(** The index of the class; the pointer is [kv_cache_list + index]. *)
Definition kv_cache_get (l : list kv_cache) (size : Z) : option Z :=
  i ← kv_cache_idx !! Z.to_nat (SIZE_TO_IDX_IDX size);
  cache ← l !! Z.to_nat i;
  guard (size <= obj_size cache);;
  (if i =? 0 then Some tt
   else prev ← l !! Z.to_nat (i - 1); guard (obj_size prev < size);; Some tt);;
  Some i.

(** ** The classes *)

Definition uninit : kv_cache :=
  {| slab_page := 0; obj_size := 0; slab_objects := 0; free_objects := 0;
     next_free_soo := 0 |}.

(** The classes after the initialisation. *)
Definition size_classes : list kv_cache := Eval vm_compute in
  default [] (kv_cache_list_init (replicate (Z.to_nat KV_CACHE_LEN) uninit)).

Lemma kv_cache_list_init_eq raw :
  length raw = Z.to_nat KV_CACHE_LEN -> kv_cache_list_init raw = Some size_classes.
Proof.
  intros H. change (Z.to_nat KV_CACHE_LEN) with 75%nat in H.
  do 75 (destruct raw as [|? raw]; [discriminate|]; cbn in H; apply Nat.succ_inj in H).
  destruct raw; [|discriminate]. vm_compute. reflexivity.
Qed.

(** Two lists of classes with the same geometry. *)
Definition same_sizes (l l' : list kv_cache) : Prop := obj_size <$> l = obj_size <$> l'.

Lemma same_sizes_lookup l l' i :
  same_sizes l l' -> obj_size <$> l !! i = obj_size <$> l' !! i.
Proof. unfold same_sizes. intros H. by rewrite <-!list_lookup_fmap, H. Qed.

(** [kv_cache_get] depends on the sizes of the classes only. *)
Lemma kv_cache_get_sizes l l' size :
  same_sizes l l' -> kv_cache_get l size = kv_cache_get l' size.
Proof.
  intros H. unfold kv_cache_get. destruct (kv_cache_idx !! _) as [i|]; [cbn|done].
  pose proof (same_sizes_lookup _ _ (Z.to_nat i) H) as Hi.
  pose proof (same_sizes_lookup _ _ (Z.to_nat (i - 1)) H) as Hp.
  destruct (l !! Z.to_nat i), (l' !! Z.to_nat i); try done. cbn in *. injection Hi as ->.
  destruct (l !! Z.to_nat (i - 1)), (l' !! Z.to_nat (i - 1)); try done. cbn in *.
  injection Hp as ->. done.
Qed.

Definition get_okb (size : Z) : bool :=
  match kv_cache_get size_classes size with
  | Some i =>
      (0 <=? i) && (i <? KV_CACHE_LEN) &&
      match size_classes !! Z.to_nat i with
      | Some c => (size <=? obj_size c) &&
          forallb (fun c' => obj_size c' <? size) (take (Z.to_nat i) size_classes)
      | None => false
      end
  | None => false
  end.

Lemma kv_cache_get_table size :
  9 <= size <= KV_CACHE_OBJ_SIZE_MAX ->
  exists i c, kv_cache_get size_classes size = Some i /\ 0 <= i < KV_CACHE_LEN /\
    size_classes !! Z.to_nat i = Some c /\ size <= obj_size c /\
    forall j c', (j < Z.to_nat i)%nat -> size_classes !! j = Some c' -> obj_size c' < size.
Proof.
  intros Hs. change KV_CACHE_OBJ_SIZE_MAX with 3640 in Hs.
  assert (forall i, 0 <= i < Z.of_nat 3632 -> get_okb (9 + i) = true) as Ht.
  { apply (forallb_zrange _ (fun i => get_okb (9 + i))); [done|]. vm_compute. reflexivity. }
  specialize (Ht (size - 9) ltac:(lia)). replace (9 + (size - 9)) with size in Ht by lia.
  unfold get_okb in Ht. destruct (kv_cache_get size_classes size) as [i|]; [|done].
  rewrite !andb_true_iff, Z.leb_le, Z.ltb_lt in Ht. destruct Ht as [Hi Ht].
  destruct (size_classes !! Z.to_nat i) as [c|] eqn:Ec; [|done].
  rewrite andb_true_iff, Z.leb_le, forallb_forall in Ht. destruct Ht as [Hle Hall].
  exists i, c. split; [reflexivity|]. split; [exact Hi|]. split; [exact Ec|].
  split; [exact Hle|]. intros j c' Hj Hc'. apply Z.ltb_lt, Hall.
  apply list_elem_of_In, list_elem_of_lookup. exists j. by rewrite lookup_take_lt.
Qed.

(** Every class has the geometry its initialisation promises and starts empty. *)
Lemma size_classes_geom i c :
  size_classes !! i = Some c -> geom c /\ free_objects c = 0 /\ obj_size c <= KV_CACHE_OBJ_SIZE_MAX.
Proof.
  intros Hc. assert (forallb (fun c => geomb c && (free_objects c =? 0) &&
    (obj_size c <=? KV_CACHE_OBJ_SIZE_MAX)) size_classes = true) as Hall by (vm_compute; reflexivity).
  rewrite forallb_forall in Hall. specialize (Hall c).
  rewrite !andb_true_iff, Z.eqb_eq, Z.leb_le in Hall.
  destruct Hall as [[Hg ?] ?]; [by eapply list_elem_of_In, list_elem_of_lookup_2|].
  split; [by apply geomb_ok|done].
Qed.

(** ** Properties *)

(** C25: the initialisation of the size classes meets its assertions whatever the
    memory held before, and for every size a value or the tail of a value can
    have, [kv_cache_get] meets its assertions and finds the smallest class whose
    objects are large enough. *)
Theorem size_class_correct raw size
    (Hraw : length raw = Z.to_nat KV_CACHE_LEN) (Hs : 9 <= size <= KV_CACHE_OBJ_SIZE_MAX) :
  exists l i c, kv_cache_list_init raw = Some l /\ kv_cache_get l size = Some i /\
    l !! Z.to_nat i = Some c /\ geom c /\ size <= obj_size c /\
    forall j c', (j < Z.to_nat i)%nat -> l !! j = Some c' -> obj_size c' < size.
Proof.
  destruct (kv_cache_get_table size Hs) as (i & c & Hg & _ & Hc & Hle & Hmin).
  exists size_classes, i, c.
  exact (conj (kv_cache_list_init_eq raw Hraw) (conj Hg (conj Hc
    (conj (proj1 (size_classes_geom _ _ Hc)) (conj Hle Hmin))))).
Qed.

Lemma size_class_correct_witness :
  exists l i c, kv_cache_list_init (replicate 75 uninit) = Some l /\
    kv_cache_get l 100 = Some i /\ l !! Z.to_nat i = Some c /\ 100 <= obj_size c.
Proof.
  destruct (size_class_correct (replicate 75 uninit) 100) as (l & i & c & ? & ? & ? & _ & ? & _).
  - reflexivity.
  - split; discriminate.
  - exists l, i, c. split_and!; assumption.
Defined.

(** The constant table is the one [kv_cache_idx_generate_print] computes. *)
Theorem kv_cache_idx_generated : kv_cache_idx_generate_print = Some kv_cache_idx.
Proof. vm_compute. reflexivity. Qed.
