(* ===== verification/Thread.v ===== *)
(** * The cache thread (thread.c, conn.h)

    A thread owns its connections, its values, its memory and its hash table,
    and handles the events of its connections one after another; it shares
    nothing with the other threads.

    The objects of a thread are named by handles: a connection by its index in
    [__conns], a value by a number that stays the same when the slab allocator
    moves the value in memory (Lists.[relocate_node] is the repair of the links
    to a moved object).  An intrusive list is the list of the handles on it,
    first node first, as Lists.v represents it in memory; the free list of
    connections is the list FixedMemCache.v keeps.  A node of the hash table is
    the handle of the connection or value it lies in.

    An operation is a state transformer that may fail in two ways.  [Fault] is a
    failed assertion, an access to freed or never written memory, a write past
    the end of a value, or a list operation on an object that is not on the
    list.  [Overrun] is what the bytes of a command cause for which the source
    has no check: a write past [conn->key], or the assertion of [conn_read] that
    there is something left to read.  Answers of the system are taken from [t_input]: an answer that the
    call at hand cannot get counts as a failure, no answer as [EWOULDBLOCK],
    and a call transfers at most the bytes it was asked for; so every list of
    answers is a behaviour of the system.  The build with [CONFIG_RAFT] is
    modelled. *)

From S2P Require Import Prelude Slab Memory HashTable Kv KvCache SizeClass Proto.

(** ** Constants *)

Definition CONFIG_KEY_SIZE_MAX : Z := 255.
Definition CMD_SIZE_MAX : Z := 1 + (1 + CONFIG_KEY_SIZE_MAX).
Definition CMD_SIZE_MIN : Z := 1 + 1.
Definition GET_RES_SIZE : Z := 8 + 1.
Definition SET_REQ_SIZE : Z := 8.
Definition SET_EXTRA_BUFFER : Z := Z.shiftl 16 10.
Definition CACHE_CMD_GET_OR_SET : Z := 0.
Definition CACHE_CMD_DEL : Z := 1.
Definition EPOLLIN : Z := 1.
Definition EPOLLOUT : Z := 4.

(** [CONFIG_MAX_CONN / CONFIG_THREAD_NR] and [CONFIG_MEM_LIMIT /
    CONFIG_THREAD_NR] with the default configuration. *)
Definition THREAD_MAX_CONN : Z := 512 / 4.
Definition THREAD_MAX_MEM : Z := Z.shiftl 100 20 / 4.

(** ** The state *)

Inductive conn_state :=
  | CONN_STATE_IN_CMD
  | CONN_STATE_GET_BLOCKED
  | CONN_STATE_OUT_SUCCESS
  | CONN_STATE_GET_OUT_HIT
  | CONN_STATE_FREE
  | CONN_STATE_GET_OUT_MISS
  | CONN_STATE_SET_IN_VALUE_SIZE
  | CONN_STATE_SET_IN_VALUE.

#[global] Instance conn_state_eq_dec : EqDecision conn_state.
Proof. solve_decision. Defined.

Definition state_code (s : conn_state) : Z :=
  match s with
  | CONN_STATE_IN_CMD => Z.shiftl 0 3 + EPOLLIN
  | CONN_STATE_GET_BLOCKED => Z.shiftl 1 3 + 0
  | CONN_STATE_OUT_SUCCESS => Z.shiftl 2 3 + EPOLLOUT
  | CONN_STATE_GET_OUT_HIT => Z.shiftl 3 3 + EPOLLOUT
  | CONN_STATE_FREE => Z.shiftl 4 3 + EPOLLIN
  | CONN_STATE_GET_OUT_MISS => Z.shiftl 5 3 + EPOLLOUT
  | CONN_STATE_SET_IN_VALUE_SIZE => Z.shiftl 6 3 + EPOLLIN
  | CONN_STATE_SET_IN_VALUE => Z.shiftl 7 3 + EPOLLIN
  end.

(** A value.  [k_bytes] is the room the allocator gave for the header, the key
    and the value together; [k_block] the address of the pages of a large
    value, 0 for a value in a slab object; [k_data] the bytes of the value
    written so far.  [k_enabled] is the union of [enabled] and [lru] read as a
    boolean. *)
Record kv := {
  k_key : key;
  k_val_size : Z;
  k_concat : bool;
  k_block : Z;
  k_bytes : Z;
  k_data : list Z;
  k_borrowers : list Z;
  k_enabled : bool;
  k_on_s_lru : bool
}.

Definition set_k_data (k : kv) (x : list Z) : kv :=
  {| k_key := k_key k; k_val_size := k_val_size k; k_concat := k_concat k;
     k_block := k_block k; k_bytes := k_bytes k; k_data := x; k_borrowers := k_borrowers k;
     k_enabled := k_enabled k; k_on_s_lru := k_on_s_lru k |}.
Definition set_k_borrowers (k : kv) (x : list Z) : kv :=
  {| k_key := k_key k; k_val_size := k_val_size k; k_concat := k_concat k;
     k_block := k_block k; k_bytes := k_bytes k; k_data := k_data k; k_borrowers := x;
     k_enabled := k_enabled k; k_on_s_lru := k_on_s_lru k |}.
Definition set_k_enabled (k : kv) (x : bool) : kv :=
  {| k_key := k_key k; k_val_size := k_val_size k; k_concat := k_concat k;
     k_block := k_block k; k_bytes := k_bytes k; k_data := k_data k;
     k_borrowers := k_borrowers k; k_enabled := x; k_on_s_lru := k_on_s_lru k |}.
Definition set_k_on_s_lru (k : kv) (x : bool) : kv :=
  {| k_key := k_key k; k_val_size := k_val_size k; k_concat := k_concat k;
     k_block := k_block k; k_bytes := k_bytes k; k_data := k_data k;
     k_borrowers := k_borrowers k; k_enabled := k_enabled k; k_on_s_lru := x |}.

(** A connection.  [c_waiting] is the list headed by [interest] while the
    connection holds a lock; [c_cmd] is the byte before [key], which the source
    overlays on [hash_node] while the node is not in the table.  [c_buffer] is
    the union of [buffer] with [size] and [miss]. *)
Record conn := {
  c_state : conn_state;
  c_clock_called : bool;
  c_fd : Z;
  c_buffer : list Z;
  c_kv : option Z;
  c_waiting : list Z;
  c_unio : Z;
  c_cmd : Z;
  c_key : list Z
}.

Definition set_c_state (c : conn) (x : conn_state) : conn :=
  {| c_state := x; c_clock_called := c_clock_called c; c_fd := c_fd c;
     c_buffer := c_buffer c; c_kv := c_kv c; c_waiting := c_waiting c; c_unio := c_unio c;
     c_cmd := c_cmd c; c_key := c_key c |}.
Definition set_c_clock (c : conn) (x : bool) : conn :=
  {| c_state := c_state c; c_clock_called := x; c_fd := c_fd c; c_buffer := c_buffer c;
     c_kv := c_kv c; c_waiting := c_waiting c; c_unio := c_unio c; c_cmd := c_cmd c;
     c_key := c_key c |}.
Definition set_c_buffer (c : conn) (x : list Z) : conn :=
  {| c_state := c_state c; c_clock_called := c_clock_called c; c_fd := c_fd c;
     c_buffer := x; c_kv := c_kv c; c_waiting := c_waiting c; c_unio := c_unio c;
     c_cmd := c_cmd c; c_key := c_key c |}.
Definition set_c_kv (c : conn) (x : option Z) : conn :=
  {| c_state := c_state c; c_clock_called := c_clock_called c; c_fd := c_fd c;
     c_buffer := c_buffer c; c_kv := x; c_waiting := c_waiting c; c_unio := c_unio c;
     c_cmd := c_cmd c; c_key := c_key c |}.
Definition set_c_waiting (c : conn) (x : list Z) : conn :=
  {| c_state := c_state c; c_clock_called := c_clock_called c; c_fd := c_fd c;
     c_buffer := c_buffer c; c_kv := c_kv c; c_waiting := x; c_unio := c_unio c;
     c_cmd := c_cmd c; c_key := c_key c |}.
Definition set_c_unio (c : conn) (x : Z) : conn :=
  {| c_state := c_state c; c_clock_called := c_clock_called c; c_fd := c_fd c;
     c_buffer := c_buffer c; c_kv := c_kv c; c_waiting := c_waiting c; c_unio := x;
     c_cmd := c_cmd c; c_key := c_key c |}.
Definition set_c_cmd (c : conn) (x : Z) : conn :=
  {| c_state := c_state c; c_clock_called := c_clock_called c; c_fd := c_fd c;
     c_buffer := c_buffer c; c_kv := c_kv c; c_waiting := c_waiting c; c_unio := c_unio c;
     c_cmd := x; c_key := c_key c |}.
Definition set_c_key (c : conn) (x : list Z) : conn :=
  {| c_state := c_state c; c_clock_called := c_clock_called c; c_fd := c_fd c;
     c_buffer := c_buffer c; c_kv := c_kv c; c_waiting := c_waiting c; c_unio := c_unio c;
     c_cmd := c_cmd c; c_key := x |}.

Inductive answer :=
  | Got (bs : list Z)      (** [read], [recvmsg]: these bytes, none at the end *)
  | Wrote (n : Z)          (** [send], [sendmsg]: so many bytes *)
  | Again                  (** -1 with [EWOULDBLOCK] *)
  | Failed                 (** -1, [MAP_FAILED] *)
  | Mapped (ptr : Z).      (** [mmap] *)

Inductive event :=
  | Sent (fd : Z) (bs : list Z)
  | Closed (fd : Z)
  | Woken (fd : Z).        (** [epoll_ctl(EPOLL_CTL_MOD)] *)

Record thread := {
  t_memory : memory;
  s_lru_size : Z;
  s_lru : list Z;
  m_lru : list Z;
  t_hash : hash_table;
  clock_probation : list Z;
  clock_death : list Z;
  kv_cache_list : list kv_cache;
  conn_pool : list Z;
  t_conns : gmap Z conn;
  t_kvs : gmap Z kv;
  next_kv : Z;
  warmed_up : bool;
  t_input : list answer;
  t_output : list event
}.

Definition set_memory (t : thread) (x : memory) : thread :=
  {| t_memory := x; s_lru_size := s_lru_size t; s_lru := s_lru t; m_lru := m_lru t;
     t_hash := t_hash t; clock_probation := clock_probation t;
     clock_death := clock_death t; kv_cache_list := kv_cache_list t;
     conn_pool := conn_pool t; t_conns := t_conns t; t_kvs := t_kvs t;
     next_kv := next_kv t; warmed_up := warmed_up t; t_input := t_input t;
     t_output := t_output t |}.
Definition set_s_lru_size (t : thread) (x : Z) : thread :=
  {| t_memory := t_memory t; s_lru_size := x; s_lru := s_lru t; m_lru := m_lru t;
     t_hash := t_hash t; clock_probation := clock_probation t;
     clock_death := clock_death t; kv_cache_list := kv_cache_list t;
     conn_pool := conn_pool t; t_conns := t_conns t; t_kvs := t_kvs t;
     next_kv := next_kv t; warmed_up := warmed_up t; t_input := t_input t;
     t_output := t_output t |}.
Definition set_s_lru (t : thread) (x : list Z) : thread :=
  {| t_memory := t_memory t; s_lru_size := s_lru_size t; s_lru := x; m_lru := m_lru t;
     t_hash := t_hash t; clock_probation := clock_probation t;
     clock_death := clock_death t; kv_cache_list := kv_cache_list t;
     conn_pool := conn_pool t; t_conns := t_conns t; t_kvs := t_kvs t;
     next_kv := next_kv t; warmed_up := warmed_up t; t_input := t_input t;
     t_output := t_output t |}.
Definition set_m_lru (t : thread) (x : list Z) : thread :=
  {| t_memory := t_memory t; s_lru_size := s_lru_size t; s_lru := s_lru t; m_lru := x;
     t_hash := t_hash t; clock_probation := clock_probation t;
     clock_death := clock_death t; kv_cache_list := kv_cache_list t;
     conn_pool := conn_pool t; t_conns := t_conns t; t_kvs := t_kvs t;
     next_kv := next_kv t; warmed_up := warmed_up t; t_input := t_input t;
     t_output := t_output t |}.
Definition set_hash (t : thread) (x : hash_table) : thread :=
  {| t_memory := t_memory t; s_lru_size := s_lru_size t; s_lru := s_lru t;
     m_lru := m_lru t; t_hash := x; clock_probation := clock_probation t;
     clock_death := clock_death t; kv_cache_list := kv_cache_list t;
     conn_pool := conn_pool t; t_conns := t_conns t; t_kvs := t_kvs t;
     next_kv := next_kv t; warmed_up := warmed_up t; t_input := t_input t;
     t_output := t_output t |}.
Definition set_clock_probation (t : thread) (x : list Z) : thread :=
  {| t_memory := t_memory t; s_lru_size := s_lru_size t; s_lru := s_lru t;
     m_lru := m_lru t; t_hash := t_hash t; clock_probation := x;
     clock_death := clock_death t; kv_cache_list := kv_cache_list t;
     conn_pool := conn_pool t; t_conns := t_conns t; t_kvs := t_kvs t;
     next_kv := next_kv t; warmed_up := warmed_up t; t_input := t_input t;
     t_output := t_output t |}.
Definition set_clock_death (t : thread) (x : list Z) : thread :=
  {| t_memory := t_memory t; s_lru_size := s_lru_size t; s_lru := s_lru t;
     m_lru := m_lru t; t_hash := t_hash t; clock_probation := clock_probation t;
     clock_death := x; kv_cache_list := kv_cache_list t; conn_pool := conn_pool t;
     t_conns := t_conns t; t_kvs := t_kvs t; next_kv := next_kv t;
     warmed_up := warmed_up t; t_input := t_input t; t_output := t_output t |}.
Definition set_kv_cache_list (t : thread) (x : list kv_cache) : thread :=
  {| t_memory := t_memory t; s_lru_size := s_lru_size t; s_lru := s_lru t;
     m_lru := m_lru t; t_hash := t_hash t; clock_probation := clock_probation t;
     clock_death := clock_death t; kv_cache_list := x; conn_pool := conn_pool t;
     t_conns := t_conns t; t_kvs := t_kvs t; next_kv := next_kv t;
     warmed_up := warmed_up t; t_input := t_input t; t_output := t_output t |}.
Definition set_conn_pool (t : thread) (x : list Z) : thread :=
  {| t_memory := t_memory t; s_lru_size := s_lru_size t; s_lru := s_lru t;
     m_lru := m_lru t; t_hash := t_hash t; clock_probation := clock_probation t;
     clock_death := clock_death t; kv_cache_list := kv_cache_list t; conn_pool := x;
     t_conns := t_conns t; t_kvs := t_kvs t; next_kv := next_kv t;
     warmed_up := warmed_up t; t_input := t_input t; t_output := t_output t |}.
Definition set_conns (t : thread) (x : gmap Z conn) : thread :=
  {| t_memory := t_memory t; s_lru_size := s_lru_size t; s_lru := s_lru t;
     m_lru := m_lru t; t_hash := t_hash t; clock_probation := clock_probation t;
     clock_death := clock_death t; kv_cache_list := kv_cache_list t;
     conn_pool := conn_pool t; t_conns := x; t_kvs := t_kvs t; next_kv := next_kv t;
     warmed_up := warmed_up t; t_input := t_input t; t_output := t_output t |}.
Definition set_kvs (t : thread) (x : gmap Z kv) : thread :=
  {| t_memory := t_memory t; s_lru_size := s_lru_size t; s_lru := s_lru t;
     m_lru := m_lru t; t_hash := t_hash t; clock_probation := clock_probation t;
     clock_death := clock_death t; kv_cache_list := kv_cache_list t;
     conn_pool := conn_pool t; t_conns := t_conns t; t_kvs := x; next_kv := next_kv t;
     warmed_up := warmed_up t; t_input := t_input t; t_output := t_output t |}.
Definition set_next_kv (t : thread) (x : Z) : thread :=
  {| t_memory := t_memory t; s_lru_size := s_lru_size t; s_lru := s_lru t;
     m_lru := m_lru t; t_hash := t_hash t; clock_probation := clock_probation t;
     clock_death := clock_death t; kv_cache_list := kv_cache_list t;
     conn_pool := conn_pool t; t_conns := t_conns t; t_kvs := t_kvs t; next_kv := x;
     warmed_up := warmed_up t; t_input := t_input t; t_output := t_output t |}.
Definition set_warmed_up (t : thread) (x : bool) : thread :=
  {| t_memory := t_memory t; s_lru_size := s_lru_size t; s_lru := s_lru t;
     m_lru := m_lru t; t_hash := t_hash t; clock_probation := clock_probation t;
     clock_death := clock_death t; kv_cache_list := kv_cache_list t;
     conn_pool := conn_pool t; t_conns := t_conns t; t_kvs := t_kvs t;
     next_kv := next_kv t; warmed_up := x; t_input := t_input t; t_output := t_output t |}.
Definition set_input (t : thread) (x : list answer) : thread :=
  {| t_memory := t_memory t; s_lru_size := s_lru_size t; s_lru := s_lru t;
     m_lru := m_lru t; t_hash := t_hash t; clock_probation := clock_probation t;
     clock_death := clock_death t; kv_cache_list := kv_cache_list t;
     conn_pool := conn_pool t; t_conns := t_conns t; t_kvs := t_kvs t;
     next_kv := next_kv t; warmed_up := warmed_up t; t_input := x;
     t_output := t_output t |}.
Definition set_output (t : thread) (x : list event) : thread :=
  {| t_memory := t_memory t; s_lru_size := s_lru_size t; s_lru := s_lru t;
     m_lru := m_lru t; t_hash := t_hash t; clock_probation := clock_probation t;
     clock_death := clock_death t; kv_cache_list := kv_cache_list t;
     conn_pool := conn_pool t; t_conns := t_conns t; t_kvs := t_kvs t;
     next_kv := next_kv t; warmed_up := warmed_up t; t_input := t_input t; t_output := x |}.

(** ** The monad *)

Inductive outcome (A : Type) :=
  | Ret (a : A) (t : thread)
  | Overrun
  | Fault.
Arguments Ret {A} a t.
Arguments Overrun {A}.
Arguments Fault {A}.

Definition M (A : Type) : Type := thread -> outcome A.

#[global] Instance M_ret : MRet M := fun A a t => Ret a t.
#[global] Instance M_bind : MBind M := fun A B f m t =>
  match m t with Ret a t' => f a t' | Overrun => Overrun | Fault => Fault end.

Definition fault {A} : M A := fun _ => Fault.
Definition assert (P : Prop) `{!Decision P} : M unit := if decide P then mret tt else fault.
(** A bound the source leaves unchecked. *)
Definition within (P : Prop) `{!Decision P} : M unit :=
  if decide P then mret tt else fun _ => Overrun.
Definition from {A} (x : option A) : M A := match x with Some a => mret a | None => fault end.
Definition skip : M unit := mret tt.
Definition get_t : M thread := fun t => Ret t t.
Definition mod_t (f : thread -> thread) : M unit := fun t => Ret tt (f t).
Definition emit (e : event) : M unit := mod_t (fun t => set_output t (t_output t ++ [e])).
Definition pop : M answer := fun t =>
  match t_input t with
  | [] => Ret Again t
  | a :: input => Ret a (set_input t input)
  end.

Definition get_conn (h : Z) : M conn := t ← get_t; from (t_conns t !! h).
Definition put_conn (h : Z) (c : conn) : M unit :=
  mod_t (fun t => set_conns t (<[h := c]> (t_conns t))).
Definition mod_conn (h : Z) (f : conn -> conn) : M unit := c ← get_conn h; put_conn h (f c).
Definition get_kv (h : Z) : M kv := t ← get_t; from (t_kvs t !! h).
Definition put_kv (h : Z) (k : kv) : M unit :=
  mod_t (fun t => set_kvs t (<[h := k]> (t_kvs t))).
Definition mod_kv (h : Z) (f : kv -> kv) : M unit := k ← get_kv h; put_kv h (f k).

Fixpoint iter {A} (f : A -> M unit) (l : list A) : M unit :=
  match l with [] => skip | x :: l' => f x ;; iter f l' end.

(** The first [n] elements of a list, and the others; [n] may be large. *)
Definition ztake {A} (n : Z) (l : list A) : list A :=
  if Z.of_nat (length l) <=? n then l else take (Z.to_nat n) l.
Definition zdrop {A} (n : Z) (l : list A) : list A :=
  if Z.of_nat (length l) <=? n then [] else drop (Z.to_nat n) l.

(** A list of bytes, and an array of [n] of them. *)
Definition bytes (l : list Z) : list Z := (fun b => u8 b) <$> l.
Definition sized (n : nat) (l : list Z) : list Z := bytes (take n (l ++ replicate n 0)).

Definition remove (h : Z) (l : list Z) : list Z := filter (fun x => x <> h) l.

(** ** Memory *)

(** [munmap] of pages the thread has mapped succeeds. *)
Definition munmap (ptr len : Z) : bool := true.

(** [memory_malloc(&t->memory, page)]: [mmap] of no bytes fails. *)
Definition thread_memory_malloc (page : Z) : M (option Z) :=
  t ← get_t;
  if free_pages (t_memory t) <? page then mret None
  else
    a ← pop;
    let mmap len := match a with Mapped p => if len =? 0 then None else Some p | _ => None end in
    let '(ptr, m) := memory_malloc mmap (t_memory t) page in
    mod_t (fun t => set_memory t m);;
    mret ptr.

(** [memory_free(&t->memory, ptr, page)] *)
Definition thread_memory_free (ptr page : Z) : M unit :=
  t ← get_t;
  m ← from (memory_free munmap (t_memory t) ptr page);
  mod_t (fun t => set_memory t m).

Definition get_cache (i : Z) : M kv_cache :=
  t ← get_t; from (kv_cache_list t !! Z.to_nat i).
Definition put_cache (i : Z) (c : kv_cache) : M unit :=
  mod_t (fun t => set_kv_cache_list t (<[Z.to_nat i := c]> (kv_cache_list t))).

(** What [kv_cache_malloc] (KvCache.v) does to the counters of the [i]'th class and
    to the budget; false for a failure.  ThreadCache.v shows that the two agree. *)
Definition cache_malloc (i : Z) : M bool :=
  c ← get_cache i;
  ok ← (if free_objects c =? 0 then
          slab ← thread_memory_malloc (slab_page c);
          match slab with
          | Some _ => put_cache i (set_free c (slab_objects c) (next_free_soo c));; mret true
          | None => mret false
          end
        else mret true);
  if ok : bool then
    c ← get_cache i;
    put_cache i (set_free c (u16 (free_objects c - 1)) (next_free_soo c));;
    mret true
  else mret false.

(** What [kv_cache_free] (KvCache.v) does to the counters and to the budget.  The
    address of the slab it may give back is not known here. *)
Definition cache_free (i : Z) : M unit :=
  c ← get_cache i;
  let c := set_free c (u16 (free_objects c + 1)) (next_free_soo c) in
  if Z.shiftl (slab_objects c) 1 <=? free_objects c then
    thread_memory_free 0 (slab_page c);;
    assert (free_objects c = Z.shiftl (slab_objects c) 1);;
    put_cache i (set_free c (slab_objects c) (next_free_soo c))
  else put_cache i c.

Definition get_class (size : Z) : M Z :=
  t ← get_t; from (kv_cache_get (kv_cache_list t) size).

(** ** Values *)

(** A value object with room for [bytes] bytes, nothing written yet. *)
Definition new_kv (concat : bool) (block bytes : Z) : M Z :=
  t ← get_t;
  let h := next_kv t in
  put_kv h {| k_key := []; k_val_size := 0; k_concat := concat; k_block := block;
              k_bytes := bytes; k_data := []; k_borrowers := []; k_enabled := false;
              k_on_s_lru := false |};;
  mod_t (fun t => set_next_kv t (h + 1));;
  mret h.

Definition kv_size (k : kv) : Z := u64 (sizeof_kv + KEY_SIZE (k_key k) + k_val_size k).

(** [val_size] is a field of 63 bits. *)
Definition kv_init (h : Z) (key : list Z) (val_size : Z) : M unit :=
  k ← get_kv h;
  assert (sizeof_kv + KEY_SIZE key <= k_bytes k);;
  put_kv h {| k_key := take (Z.to_nat (KEY_SIZE key)) key; k_val_size := val_size mod 2 ^ 63;
              k_concat := k_concat k; k_block := k_block k; k_bytes := k_bytes k;
              k_data := []; k_borrowers := []; k_enabled := false;
              k_on_s_lru := k_on_s_lru k |}.

Definition kv_borrow (kv conn : Z) : M unit :=
  mod_kv kv (fun k => set_k_borrowers k (conn :: k_borrowers k));;
  mod_conn conn (fun c => set_c_kv c (Some kv)).

Definition kv_return (kv conn : Z) : M unit :=
  mod_kv kv (fun k => set_k_borrowers k (remove conn (k_borrowers k)));;
  mod_conn conn (fun c => set_c_kv c None).

Definition kv_no_borrower (k : kv) : bool :=
  match k_borrowers k with [] => true | _ => false end.

(** The write of [bs] at offset [off] of the value. *)
Definition kv_write (h off : Z) (bs : list Z) : M unit :=
  k ← get_kv h;
  assert (0 <= off /\
    sizeof_kv + KEY_SIZE (k_key k) + off + Z.of_nat (length bs) <= k_bytes k);;
  put_kv h (set_k_data k (fill (Z.to_nat off) bs (k_data k))).

Definition kv_copy_val (h : Z) (buffer : list Z) (n : Z) : M Z :=
  k ← get_kv h;
  let n := if k_val_size k <? n then k_val_size k else n in
  kv_write h 0 (ztake n buffer);;
  mret n.

(** ** The hash table *)

(** [new->hash_node = old->hash_node; hlist_node_fix(&new->hash_node)]: the node
    of [e] takes the place of the node [old]; the key of an entry is what
    follows its node in memory. *)
Definition replace_in (old : Z) (e : entry) (a : barray) : barray :=
  {| a_ptr := a_ptr a;
     a_heads := map (map (fun x => if e_node x =? old then e else x)) (a_heads a) |}.
Definition hash_replace (ht : hash_table) (old : Z) (e : entry) : hash_table :=
  set_old (replace_in old e <$> old_buckets ht) (migrated ht)
    (set_buckets (replace_in old e (buckets ht)) ht).

Definition thread_hash_get (k : key) : M (option Z) :=
  t ← get_t;
  '(node, ht, m) ← from (hash_get munmap (t_hash t) k (t_memory t));
  mod_t (fun t => set_memory (set_hash t ht) m);;
  mret node.
Definition thread_hash_add (node : Z) (k : key) : M unit :=
  t ← get_t;
  '(ht, m) ← from (hash_add munmap (t_hash t) {| e_node := node; e_key := k |} (t_memory t));
  mod_t (fun t => set_memory (set_hash t ht) m).
Definition thread_hash_del (node : Z) (k : key) : M unit :=
  t ← get_t;
  ht ← from (hash_del (t_hash t) {| e_node := node; e_key := k |});
  mod_t (fun t => set_hash t ht).

(** The key a connection received. *)
Definition conn_key (c : conn) : key := take (Z.to_nat (KEY_SIZE (c_key c))) (c_key c).

(** ** Connections *)

(** The address of a connection lies in the array of threads, that of a value
    does not. *)
Definition thread_range (node : Z) : bool := (0 <=? node) && (node <? THREAD_MAX_CONN).

(** [raw] stands for the bytes the memory of the object held before. *)
Definition conn_malloc (fd : Z) (raw : list Z) : M (option Z) :=
  t ← get_t;
  match conn_pool t with
  | [] => mret None
  | h :: pool =>
      let raw := sized 274 raw in
      mod_t (fun t => set_conn_pool t pool);;
      put_conn h {| c_state := CONN_STATE_OUT_SUCCESS; c_clock_called := false; c_fd := fd;
                    c_buffer := field 0 9 raw; c_kv := None; c_waiting := [];
                    c_unio := get 9 8 raw; c_cmd := get 17 1 raw; c_key := field 18 256 raw |};;
      mret (Some h)
  end.

Definition conn_free (h : Z) : M unit :=
  c ← get_conn h;
  emit (Closed (c_fd c));;
  mod_t (fun t => set_conns (set_conn_pool t (h :: conn_pool t)) (delete h (t_conns t))).

(** ** Values in use *)

Definition kv_enable (conn : Z) : M unit :=
  c ← get_conn conn; h ← from (c_kv c); k ← get_kv h;
  mod_t (fun t => set_hash t
    (hash_replace (t_hash t) conn {| e_node := h; e_key := k_key k |}));;
  t ← get_t;
  hit ← from (hash_ghost (t_hash t) (k_key k));
  mod_kv h (fun k => set_k_enabled (set_k_on_s_lru k (negb hit)) true);;
  if hit : bool then mod_t (fun t => set_m_lru t (h :: m_lru t))
  else
    mod_t (fun t => set_s_lru t (h :: s_lru t));;
    mod_t (fun t => set_s_lru_size t (u64 (s_lru_size t + 1))).

(** [list_lru_del(&kv->lru)] *)
Definition lru_del (h : Z) : M unit :=
  mod_t (fun t => set_m_lru (set_s_lru t (remove h (s_lru t))) (remove h (m_lru t))).

Definition kv_disable (h : Z) : M unit :=
  k ← get_kv h;
  lru_del h;;
  mod_t (fun t => set_s_lru_size t (u64 (s_lru_size t - Z.b2z (k_on_s_lru k))));;
  thread_hash_del h (k_key k);;
  assert (k_enabled k = true);;
  mod_kv h (fun k => set_k_enabled k false).

Definition kv_free (h : Z) : M unit :=
  k ← get_kv h;
  assert (kv_no_borrower k = true /\ k_enabled k = false);;
  let size := kv_size k in
  (if size <=? KV_CACHE_OBJ_SIZE_MAX then
     i ← get_class size; cache_free i
   else if k_concat k then
     i ← get_class (Z.land size PAGE_MASK + 8);
     cache_free i;;
     thread_memory_free (k_block k) (Z.shiftr size PAGE_SHIFT)
   else thread_memory_free (k_block k) (Z.shiftr (u64 (size + PAGE_MASK)) PAGE_SHIFT));;
  mod_t (fun t => set_kvs t (delete h (t_kvs t))).

(** [container_of(list_lru_peek(lru_head))]: the last node of the list. *)
Definition lru_peek (l : list Z) : M Z := from (last l).

Definition reclaim_lru : M bool :=
  mod_t (fun t => set_warmed_up t true);;
  t ← get_t;
  let reclaim l :=
    h ← lru_peek l;
    kv_disable h;;
    k ← get_kv h;
    (if kv_no_borrower k then kv_free h else skip);;
    mret true in
  if n (t_hash t) <? u64 (s_lru_size t * 10) then reclaim (s_lru t)
  else match m_lru t with [] => mret false | _ => reclaim (m_lru t) end.

(** [while (more && reclaim_lru(t)) {}].  Every round takes a value off the
    lists: their length is enough fuel. *)
Fixpoint reclaim_while (more : thread -> bool) (fuel : nat) : M unit :=
  t ← get_t;
  if more t then
    match fuel with
    | O => fault
    | S fuel' =>
        ok ← reclaim_lru;
        if ok : bool then reclaim_while more fuel' else skip
    end
  else skip.

Definition lru_fuel (t : thread) : nat := S (length (s_lru t) + length (m_lru t)).

Definition reserve_page (page : Z) : M unit :=
  t ← get_t; reclaim_while (fun t => free_pages (t_memory t) <? page) (lru_fuel t).

Definition reserve_page_aggressive (page : Z) : M unit :=
  t ← get_t; reserve_page (u64 (free_pages (t_memory t) + page)).

Definition memory_malloc_advance (page : Z) : M (option Z) :=
  reserve_page page;;
  ptr ← thread_memory_malloc page;
  match ptr with
  | Some p => mret (Some p)
  | None => reserve_page_aggressive page;; thread_memory_malloc page
  end.

Definition cache_empty (i : Z) (t : thread) : bool :=
  match kv_cache_list t !! Z.to_nat i with Some c => free_objects c =? 0 | None => false end.

Definition reserve_kv_cache (i : Z) : M unit :=
  c ← get_cache i; t ← get_t;
  reclaim_while (fun t => cache_empty i t && (free_pages (t_memory t) <? slab_page c))
    (lru_fuel t).

Definition reserve_kv_cache_aggressive (i : Z) : M unit :=
  c ← get_cache i; t ← get_t;
  let page := u64 (free_pages (t_memory t) + slab_page c) in
  reclaim_while (fun t => cache_empty i t && (free_pages (t_memory t) <? page)) (lru_fuel t).

(** [kv_cache_malloc_kv_advance], and [kv_cache_malloc_concat_val_advance],
    which differ in what they write to the object. *)
Definition kv_cache_malloc_kv_advance (i : Z) : M bool :=
  reserve_kv_cache i;;
  ok ← cache_malloc i;
  if ok : bool then mret true
  else reserve_kv_cache_aggressive i;; cache_malloc i.

Definition kv_cache_malloc_concat_val_advance (i : Z) : M bool :=
  reserve_kv_cache i;;
  ok ← cache_malloc i;
  if ok : bool then mret true
  else reserve_kv_cache_aggressive i;; cache_malloc i.

Definition kv_malloc (key : list Z) (val_size : Z) : M (option Z) :=
  let size := u64 (sizeof_kv + KEY_SIZE key + val_size) in
  if size <=? KV_CACHE_OBJ_SIZE_MAX then
    i ← get_class size;
    ok ← kv_cache_malloc_kv_advance i;
    if ok : bool then
      c ← get_cache i; h ← new_kv false 0 (obj_size c); mret (Some h)
    else mret None
  else
    let overflow := Z.land size PAGE_MASK in
    if (overflow =? 0) || (KV_CACHE_OBJ_SIZE_MAX <? overflow + 8) then
      let page := Z.shiftr (u64 (size + PAGE_MASK)) PAGE_SHIFT in
      ptr ← memory_malloc_advance page;
      match ptr with
      | Some p => h ← new_kv false p (Z.shiftl page PAGE_SHIFT); mret (Some h)
      | None => mret None
      end
    else
      let page := Z.shiftr size PAGE_SHIFT in
      ptr ← memory_malloc_advance page;
      match ptr with
      | Some p =>
          i ← get_class (overflow + 8);
          ok ← kv_cache_malloc_concat_val_advance i;
          if ok : bool then
            c ← get_cache i;
            h ← new_kv true p (Z.shiftl page PAGE_SHIFT + (obj_size c - off_concat_data));
            mret (Some h)
          else thread_memory_free p page;; mret None
      | None => mret None
      end.

Definition conn_borrow_kv (conn h : Z) : M unit :=
  k ← get_kv h;
  assert (k_enabled k = true);;
  kv_borrow h conn;;
  lru_del h;;
  mod_t (fun t => set_m_lru t (h :: m_lru t));;
  mod_t (fun t => set_s_lru_size t (u64 (s_lru_size t - Z.b2z (k_on_s_lru k))));;
  mod_kv h (fun k => set_k_on_s_lru k false).

Definition conn_return_kv (conn : Z) : M unit :=
  c ← get_conn conn; h ← from (c_kv c);
  kv_return h conn;;
  k ← get_kv h;
  if negb (k_enabled k) && kv_no_borrower k then kv_free h else skip.

(** ** Locks *)

Definition conn_lock_key (h : Z) : M unit :=
  c ← get_conn h;
  thread_hash_add h (conn_key c);;
  mod_conn h (fun c => set_c_waiting c []).

Definition conn_with_key_locked (c : conn) : bool :=
  state_code CONN_STATE_FREE <? state_code (c_state c).

Definition __call_clock (h : Z) : M unit :=
  c ← get_conn h;
  assert (c_clock_called c = false);;
  mod_conn h (fun c => set_c_clock c true);;
  mod_t (fun t => set_clock_probation t (h :: clock_probation t)).

Definition call_clock (h : Z) : M unit :=
  c ← get_conn h; if c_clock_called c then skip else __call_clock h.

Definition cancel_clock (h : Z) : M unit :=
  c ← get_conn h;
  if c_clock_called c then
    mod_conn h (fun c => set_c_clock c false);;
    mod_t (fun t => set_clock_death (set_clock_probation t (remove h (clock_probation t)))
                      (remove h (clock_death t)))
  else skip.

Definition __change_to_get_out_miss (h : Z) : M unit :=
  mod_conn h (fun c => set_c_buffer (set_c_unio (set_c_state c CONN_STATE_GET_OUT_MISS)
                                       GET_RES_SIZE) (put 8 1 1 (c_buffer c))).

Definition epfd_weak_up_conn (h : Z) : M unit := c ← get_conn h; emit (Woken (c_fd c)).

(** [list_del] of the head hands the rest of its ring to the first node. *)
Definition conn_unlock_key_for_failure (h : Z) : M unit :=
  cancel_clock h;;
  c ← get_conn h;
  (match c_kv c with Some _ => conn_return_kv h | None => skip end);;
  c ← get_conn h;
  match c_waiting c with
  | [] => thread_hash_del h (conn_key c)
  | first :: rest =>
      mod_conn h (fun c => set_c_waiting c []);;
      mod_conn first (fun c => set_c_waiting c rest);;
      f ← get_conn first;
      mod_t (fun t => set_hash t
        (hash_replace (t_hash t) h {| e_node := first; e_key := conn_key f |}));;
      __call_clock first;;
      __change_to_get_out_miss first;;
      epfd_weak_up_conn first
  end.

(** [list_del(&conn->interest)] of a blocked connection. *)
Definition interest_del (h : Z) : M unit :=
  mod_t (fun t => set_conns t
    ((fun c => set_c_waiting c (remove h (c_waiting c))) <$> t_conns t)).

Definition free_conn (h : Z) : M unit :=
  c ← get_conn h;
  (if conn_with_key_locked c then conn_unlock_key_for_failure h
   else
     match c_kv c with
     | Some _ => conn_return_kv h
     | None =>
         if decide (c_state c = CONN_STATE_GET_BLOCKED) then interest_del h else skip
     end);;
  conn_free h.

(** ** Reading and writing *)

(** The value of the call, whether [errno] is [EWOULDBLOCK], and the bytes. *)
Definition sys_read (len : Z) : M (Z * bool * list Z) :=
  a ← pop;
  mret match a with
       | Got bs => let bs := ztake len (bytes bs) in (Z.of_nat (length bs), false, bs)
       | Again => (-1, true, [])
       | _ => (-1, false, [])
       end.

Definition sys_write (len : Z) : M (Z * bool) :=
  a ← pop;
  mret match a with
       | Wrote n => if 0 <? n then (Z.min n len, false) else (-1, false)
       | Again => (-1, true)
       | _ => (-1, false)
       end.

Definition conn_check_read (h n : Z) (wouldblock : bool) : M bool :=
  if 0 <? n then
    c ← get_conn h;
    assert (n <= c_unio c);;
    mod_conn h (fun c => set_c_unio c (u64 (c_unio c - n)));;
    mret true
  else
    (if (n =? 0) || negb wouldblock then free_conn h else skip);;
    mret false.

(** The bytes of a command at offset [off] of [conn->key - 1]. *)
Definition store_cmd (h off : Z) (bs : list Z) : M unit :=
  within (0 <= off /\ off + Z.of_nat (length bs) <= CMD_SIZE_MAX);;
  mod_conn h (fun c =>
    let area := fill (Z.to_nat off) bs (c_cmd c :: c_key c) in
    set_c_key (set_c_cmd c (hd 0 area)) (tail area)).

(** [read(conn->fd, conn->key - 1 + off, conn->unio)].  The source asserts that
    [unio] is not 0; a client can make it 0, so the place counts as unchecked. *)
Definition conn_read (h off : Z) : M bool :=
  c ← get_conn h;
  within (0 < c_unio c);;
  '(n, wouldblock, bs) ← sys_read (c_unio c);
  (if 0 <? n then store_cmd h off bs else skip);;
  conn_check_read h n wouldblock.

Definition conn_check_write (h n : Z) (wouldblock : bool) : M bool :=
  if 0 <? n then
    c ← get_conn h;
    assert (n <= c_unio c);;
    mod_conn h (fun c => set_c_unio c (u64 (c_unio c - n)));;
    mret true
  else
    assert (n = -1);;
    (if wouldblock : bool then skip else free_conn h);;
    mret false.

(** [send] and [sendmsg] of the bytes [bs] of the connection's buffers, which
    are as many as [unio] says. *)
Definition conn_write_bytes (h : Z) (bs : list Z) : M bool :=
  c ← get_conn h;
  assert (0 < c_unio c);;
  assert (Z.of_nat (length bs) = c_unio c);;
  '(n, wouldblock) ← sys_write (c_unio c);
  (if 0 <? n then emit (Sent (c_fd c) (ztake n bs)) else skip);;
  conn_check_write h n wouldblock.

Definition conn_full_write_bytes (h : Z) (bs : list Z) : M bool :=
  ok ← conn_write_bytes h bs;
  if ok : bool then c ← get_conn h; mret (c_unio c =? 0) else mret false.

Definition conn_write_byte_zero (h : Z) : M bool :=
  c ← get_conn h;
  '(n, wouldblock) ← sys_write 1;
  if 0 <? n then emit (Sent (c_fd c) [0]);; mret true
  else
    assert (n = -1);;
    (if wouldblock : bool then skip else free_conn h);;
    mret false.

(** ** The states of a connection *)

Definition change_to_in_cmd (h : Z) : M unit :=
  c ← get_conn h;
  assert (c_kv c = None);;
  mod_conn h (fun c => set_c_unio (set_c_state c CONN_STATE_IN_CMD) CMD_SIZE_MAX).

Definition state_out_success (h : Z) : M unit :=
  ok ← conn_write_byte_zero h;
  if ok : bool then change_to_in_cmd h else skip.

Definition change_to_out_success (h : Z) : M unit :=
  mod_conn h (fun c => set_c_state c CONN_STATE_OUT_SUCCESS);;
  state_out_success h.

(** The iovecs of [kv_val_to_iovec] from offset [i] on list the bytes of the
    value from [i] on (Kv.[kv_iovec_covers_value]). *)
Definition state_get_out_hit (h : Z) : M unit :=
  c ← get_conn h; kv ← from (c_kv c); k ← get_kv kv;
  let written := u64 (GET_RES_SIZE + k_val_size k - c_unio c) in
  let iov :=
    if written <? GET_RES_SIZE
    then drop (Z.to_nat written) (take (Z.to_nat GET_RES_SIZE) (c_buffer c)) ++ k_data k
    else zdrop (u64 (k_val_size k - c_unio c)) (k_data k) in
  ok ← conn_full_write_bytes h iov;
  if ok : bool then conn_return_kv h;; change_to_in_cmd h else skip.

Definition change_to_get_out_hit (h : Z) : M unit :=
  c ← get_conn h; kv ← from (c_kv c); k ← get_kv kv;
  mod_conn h (fun c =>
    set_c_buffer (set_c_unio (set_c_state c CONN_STATE_GET_OUT_HIT)
                    (u64 (GET_RES_SIZE + k_val_size k)))
      (put 8 1 0 (put 0 8 (k_val_size k) (c_buffer c))));;
  state_get_out_hit h.

Definition change_to_set_in_value_size (h : Z) : M unit :=
  mod_conn h (fun c => set_c_unio (set_c_state c CONN_STATE_SET_IN_VALUE_SIZE)
                         (SET_REQ_SIZE + SET_EXTRA_BUFFER)).

Definition state_get_out_miss (h : Z) : M unit :=
  c ← get_conn h;
  let written := u64 (GET_RES_SIZE - c_unio c) in
  ok ← conn_full_write_bytes h (drop (Z.to_nat written) (c_buffer c));
  if ok : bool then change_to_set_in_value_size h else skip.

Definition change_to_get_out_miss (h : Z) : M unit :=
  __change_to_get_out_miss h;; state_get_out_miss h.

(** ** Commands *)

Definition cmd_get (h : Z) : M unit :=
  c ← get_conn h;
  node ← thread_hash_get (conn_key c);
  match node with
  | None => conn_lock_key h;; change_to_get_out_miss h
  | Some node =>
      if thread_range node then
        mod_conn h (fun c => set_c_state c CONN_STATE_GET_BLOCKED);;
        mod_conn node (fun c => set_c_waiting c (h :: c_waiting c));;
        call_clock node
      else conn_borrow_kv h node;; change_to_get_out_hit h
  end.

Definition change_locked_to_free (h : Z) : M unit :=
  c ← get_conn h;
  assert (conn_with_key_locked c = true);;
  conn_unlock_key_for_failure h;;
  mod_conn h (fun c => set_c_state c CONN_STATE_FREE).

Definition cmd_del (h : Z) : M unit :=
  c ← get_conn h;
  node ← thread_hash_get (conn_key c);
  (match node with
   | None => skip
   | Some node =>
       if thread_range node then change_locked_to_free node
       else
         kv_disable node;;
         k ← get_kv node;
         if kv_no_borrower k then kv_free node else skip
   end);;
  change_to_out_success h.

Definition cmd_run (h : Z) : M unit :=
  c ← get_conn h;
  if c_cmd c =? CACHE_CMD_GET_OR_SET then cmd_get h
  else if c_cmd c =? CACHE_CMD_DEL then cmd_del h
  else free_conn h.

Definition cmd_full_readed (c : conn) : bool :=
  u64 (CMD_SIZE_MAX - c_unio c) =? CMD_SIZE_MIN + hd 0 (c_key c).

Definition state_in_cmd (h : Z) : M unit :=
  c ← get_conn h;
  assert (c_kv c = None);;
  ok ← conn_read h (u64 (CMD_SIZE_MAX - c_unio c));
  if ok : bool then
    c ← get_conn h;
    if cmd_full_readed c then cmd_run h else skip
  else skip.

(** [list_for_each_entry_safe] over the connections that wait. *)
Definition conn_unlock_key_for_success (h : Z) : M unit :=
  cancel_clock h;;
  kv_enable h;;
  c ← get_conn h; kv ← from (c_kv c);
  iter (fun curr =>
    mod_conn h (fun c => set_c_waiting c (remove curr (c_waiting c)));;
    conn_borrow_kv curr kv;;
    change_to_get_out_hit curr) (c_waiting c);;
  conn_return_kv h;;
  t ← get_t;
  let page := hash_resize_page (t_hash t) in
  if 0 <? page then
    new ← memory_malloc_advance page;
    match new with
    | Some new => mod_t (fun t => set_hash t (hash_resize (t_hash t) page new))
    | None => skip
    end
  else skip.

Definition state_set_in_value (h : Z) : M unit :=
  c ← get_conn h; kv ← from (c_kv c); k ← get_kv kv;
  let readed := u64 (k_val_size k + CMD_SIZE_MAX - c_unio c) in
  let rest := u64 (k_val_size k - readed) in
  assert (0 < c_unio c);;
  '(n, wouldblock, bs) ← sys_read (rest + CMD_SIZE_MAX);
  let extra := zdrop rest bs in
  (if 0 <? n then
     kv_write kv readed (ztake rest bs);;
     mod_conn h (fun c => set_c_key c (fill 0 (tail extra) (c_key c)))
   else skip);;
  ok ← conn_check_read h n wouldblock;
  if ok : bool then
    c ← get_conn h;
    if c_unio c <=? CMD_SIZE_MAX then
      conn_unlock_key_for_success h;;
      mod_conn h (fun c => set_c_cmd (set_c_state c CONN_STATE_IN_CMD) (hd 0 extra));;
      c ← get_conn h;
      if cmd_full_readed c then cmd_run h else skip
    else skip
  else skip.

Definition state_set_in_value_size (h : Z) : M unit :=
  c ← get_conn h;
  let readed := u64 (SET_REQ_SIZE + SET_EXTRA_BUFFER - c_unio c) in
  let rest := u64 (SET_REQ_SIZE - readed) in
  assert (0 < c_unio c);;
  '(n, wouldblock, bs) ← sys_read (rest + SET_EXTRA_BUFFER);
  let buffer := zdrop rest bs in
  (if 0 <? n then
     mod_conn h (fun c => set_c_buffer c (fill (Z.to_nat readed) (ztake rest bs) (c_buffer c)))
   else skip);;
  ok ← conn_check_read h n wouldblock;
  if ok : bool then
    c ← get_conn h;
    if SET_EXTRA_BUFFER <? c_unio c then skip
    else
      let val_size := get 0 8 (c_buffer c) in
      kv ← kv_malloc (c_key c) val_size;
      match kv with
      | None => free_conn h
      | Some kv =>
          kv_init kv (c_key c) val_size;;
          kv_borrow kv h;;
          let buffer_n := u64 (SET_EXTRA_BUFFER - c_unio c) in
          n ← kv_copy_val kv buffer buffer_n;
          if n <? val_size then
            mod_conn h (fun c => set_c_unio (set_c_state c CONN_STATE_SET_IN_VALUE)
                                   (u64 (val_size + CMD_SIZE_MAX - n)));;
            if buffer_n =? SET_EXTRA_BUFFER then state_set_in_value h else skip
          else
            conn_unlock_key_for_success h;;
            mod_conn h (fun c => set_c_unio (set_c_state c CONN_STATE_IN_CMD)
                                   (u64 (CMD_SIZE_MAX - (buffer_n - n))));;
            store_cmd h 0 (zdrop n buffer);;
            c ← get_conn h;
            if cmd_full_readed c then cmd_run h
            else if buffer_n =? SET_EXTRA_BUFFER then state_in_cmd h else skip
      end
  else skip.

(** ** Events *)

Definition process_conn (h : Z) : M unit :=
  c ← get_conn h;
  match c_state c with
  | CONN_STATE_IN_CMD => state_in_cmd h
  | CONN_STATE_OUT_SUCCESS => state_out_success h
  | CONN_STATE_GET_OUT_HIT => state_get_out_hit h
  | CONN_STATE_FREE => conn_free h
  | CONN_STATE_GET_OUT_MISS => state_get_out_miss h
  | CONN_STATE_SET_IN_VALUE_SIZE => state_set_in_value_size h
  | CONN_STATE_SET_IN_VALUE => state_set_in_value h
  | CONN_STATE_GET_BLOCKED => fault
  end.

Definition thread_accept (fd : Z) (raw : list Z) : M unit :=
  conn ← conn_malloc fd raw;
  match conn with Some h => epfd_weak_up_conn h | None => emit (Closed fd) end.

(** [hlist_for_each_safe] over the list of the connections whose time is up. *)
Definition clock_service : M unit :=
  t ← get_t;
  iter change_locked_to_free (clock_death t);;
  t ← get_t;
  match clock_probation t with
  | [] => skip
  | l => mod_t (fun t => set_clock_probation (set_clock_death t l) [])
  end.

(** What [epoll_wait] reports, by the tag of [data]: a socket from the main
    thread, the timer, or a connection. *)
Inductive epoll_event :=
  | Ev_accept (fd : Z) (raw : list Z)
  | Ev_clock
  | Ev_conn (h : Z) (events : Z).

Definition handle_event (e : epoll_event) : M unit :=
  match e with
  | Ev_accept fd raw => thread_accept fd raw
  | Ev_clock => clock_service
  | Ev_conn h events =>
      if negb (Z.land events (Z.lnot (Z.lor EPOLLIN EPOLLOUT)) =? 0) then free_conn h
      else
        c ← get_conn h;
        if negb (Z.land events (state_code (c_state c)) =? 0) then process_conn h else skip
  end.

Definition grab_epoll_events (events : list epoll_event) : M unit := iter handle_event events.

(** ** The start of a thread *)

(** [epfd] and [clock] say whether the epoll instance and the timer could be
    created; the result is [None] where the source returns false. *)
Definition thread_init (raw : list kv_cache) (epfd clock : bool) (mmap : Z -> option Z)
    : option (option thread) :=
  if epfd then
    caches ← kv_cache_list_init raw;
    if clock then
      let memory := memory_init (Z.shiftr THREAD_MAX_MEM PAGE_SHIFT) in
      match hash_table_init mmap memory with
      | (Some ht, m) =>
          Some (Some
            {| t_memory := m; s_lru_size := 0; s_lru := []; m_lru := []; t_hash := ht;
               clock_probation := []; clock_death := []; kv_cache_list := caches;
               conn_pool := reverse (zrange (Z.to_nat THREAD_MAX_CONN));
               t_conns := ∅; t_kvs := ∅; next_kv := THREAD_MAX_CONN; warmed_up := false;
               t_input := []; t_output := [] |})
      | (None, _) => Some None
      end
    else Some None
  else Some None.

Definition thread_warmed_up (t : thread) : bool := warmed_up t.
Definition threads_warmed_up (ts : list thread) : bool := existsb thread_warmed_up ts.
