(* ===== verification/ThreadInv.v ===== *)
(** * The invariant of a cache thread (thread.c)

    What the lists, the hash table, the values and the connections of a thread
    say about each other, and that every operation of thread.c keeps it.

    [inv W X Y] is the invariant in the middle of an operation: the connections
    of [X] are being worked on, so their state tag need not describe them, a
    value of [Y] may be disabled without a borrower, and the lock of a
    connection of [W] has just turned into a value.  Between two events all
    three are empty.  The operations are specified by weakest preconditions: [wp m Q]
    says that [m] does not fault and ends in [Q] unless a client overruns the
    command buffer. *)

From S2P Require Import Prelude Slab Memory HashTable Kv KvCache SizeClass Proto Thread.

(** ** Weakest preconditions *)

Definition wp {A} (m : M A) (Q : A -> thread -> Prop) (t : thread) : Prop :=
  match m t with Ret a t' => Q a t' | Overrun => True | Fault => False end.

#[global] Arguments wp : simpl never.

Lemma wp_mono {A} (m : M A) (P Q : A -> thread -> Prop) t :
  wp m P t -> (forall a t', P a t' -> Q a t') -> wp m Q t.
Proof. unfold wp. destruct (m t); auto. Qed.

Lemma wp_ret {A} (a : A) (Q : A -> thread -> Prop) t : Q a t -> wp (mret a) Q t.
Proof. done. Qed.

Lemma wp_bind {A B} (m : M A) (f : A -> M B) (Q : B -> thread -> Prop) t :
  wp m (fun a => wp (f a) Q) t -> wp (m ≫= f) Q t.
Proof. unfold wp, mbind, M_bind. by destruct (m t). Qed.

Lemma wp_use {A B} (m : M A) (f : A -> M B) (P : A -> thread -> Prop)
    (Q : B -> thread -> Prop) t :
  wp m P t -> (forall a t', P a t' -> wp (f a) Q t') -> wp (m ≫= f) Q t.
Proof. intros Hm Hf. apply wp_bind. by eapply wp_mono. Qed.

Lemma wp_assert P `{!Decision P} (Q : unit -> thread -> Prop) t :
  P -> Q tt t -> wp (assert P) Q t.
Proof. intros HP HQ. unfold wp, assert. by rewrite decide_True. Qed.

Lemma wp_within P `{!Decision P} (Q : unit -> thread -> Prop) t :
  (P -> Q tt t) -> wp (within P) Q t.
Proof. intros HQ. unfold wp, within. case_decide; [by apply HQ|done]. Qed.

Lemma wp_from {A} (x : option A) a (Q : A -> thread -> Prop) t :
  x = Some a -> Q a t -> wp (from x) Q t.
Proof. by intros ->. Qed.

Lemma wp_get_t (Q : thread -> thread -> Prop) t : Q t t -> wp get_t Q t.
Proof. done. Qed.

Lemma wp_get_conn h c (Q : conn -> thread -> Prop) t :
  t_conns t !! h = Some c -> Q c t -> wp (get_conn h) Q t.
Proof. intros E HQ. unfold wp, get_conn, mbind, M_bind, get_t, from. by rewrite E. Qed.

Lemma wp_get_kv h k (Q : kv -> thread -> Prop) t :
  t_kvs t !! h = Some k -> Q k t -> wp (get_kv h) Q t.
Proof. intros E HQ. unfold wp, get_kv, mbind, M_bind, get_t, from. by rewrite E. Qed.

Lemma wp_mod_conn h c f (Q : unit -> thread -> Prop) t :
  t_conns t !! h = Some c -> Q tt (set_conns t (<[h := f c]> (t_conns t))) ->
  wp (mod_conn h f) Q t.
Proof. intros E HQ. unfold mod_conn. apply wp_bind. by eapply wp_get_conn. Qed.

Lemma wp_mod_kv h k f (Q : unit -> thread -> Prop) t :
  t_kvs t !! h = Some k -> Q tt (set_kvs t (<[h := f k]> (t_kvs t))) ->
  wp (mod_kv h f) Q t.
Proof. intros E HQ. unfold mod_kv. apply wp_bind. by eapply wp_get_kv. Qed.

(** One step of a computation: the primitives that always succeed are run,
    lookups are resolved by the hypotheses. *)
Ltac wp_step :=
  match goal with
  | |- wp (mbind _ (mbind _ _)) _ _ => apply wp_bind
  | |- wp (mbind _ _) _ _ => apply wp_bind
  | |- wp (mret _) _ _ => apply wp_ret
  | |- wp skip _ _ => apply wp_ret
  | |- wp get_t _ _ => apply wp_get_t; cbv beta
  | |- wp (mod_t ?f) ?Q ?t => change (Q tt (f t)); cbv beta
  | |- wp (emit ?e) ?Q ?t => change (Q tt (set_output t (t_output t ++ [e]))); cbv beta
  | |- wp (get_conn _) _ _ => eapply wp_get_conn; [cbn; eassumption|]; cbv beta
  | |- wp (get_kv _) _ _ => eapply wp_get_kv; [cbn; eassumption|]; cbv beta
  | |- wp (mod_conn _ _) _ _ => eapply wp_mod_conn; [cbn; eassumption|]; cbv beta
  | |- wp (mod_kv _ _) _ _ => eapply wp_mod_kv; [cbn; eassumption|]; cbv beta
  | |- wp (from _) _ _ => eapply wp_from; [cbn; eassumption|]; cbv beta
  | |- wp (get_cache _) _ _ => unfold get_cache
  | |- wp (put_cache _ _) _ _ => unfold put_cache
  | |- wp (put_conn _ _) _ _ => unfold put_conn
  | |- wp (put_kv _ _) _ _ => unfold put_kv
  end.
Ltac wp_steps := repeat wp_step.

(** ** Running a computation *)

Lemma bind_step {A B} (m : M A) (f : A -> M B) t a t' :
  m t = Ret a t' -> (m ≫= f) t = f a t'.
Proof. intros E. unfold mbind, M_bind. by rewrite E. Qed.

Lemma assert_run P `{!Decision P} t : P -> assert P t = Ret tt t.
Proof. intros HP. unfold assert. by rewrite decide_True. Qed.

Lemma within_run P `{!Decision P} t : P -> within P t = Ret tt t.
Proof. intros HP. unfold within. by rewrite decide_True. Qed.

Lemma mod_conn_run h f c t :
  t_conns t !! h = Some c -> mod_conn h f t = Ret tt (set_conns t (<[h := f c]> (t_conns t))).
Proof. intros Ec. unfold mod_conn, get_conn, mbind, M_bind, get_t, from. by rewrite Ec. Qed.

Lemma bind_get_conn {B} h c (f : conn -> M B) t :
  t_conns t !! h = Some c -> (get_conn h ≫= f) t = f c t.
Proof. intros Ec. unfold get_conn, mbind, M_bind, get_t, from. by rewrite Ec. Qed.

Lemma get_kv_run v k t : t_kvs t !! v = Some k -> get_kv v t = Ret k t.
Proof. intros Ek. unfold get_kv, mbind, M_bind, get_t, from. by rewrite Ek. Qed.

(** ** Replacing a node of the hash table *)

Definition swap (old : Z) (e : entry) (x : entry) : entry := if e_node x =? old then e else x.

Lemma concat_map_map {A B} (f : A -> B) (ls : list (list A)) :
  concat (map (map f) ls) = map f (concat ls).
Proof. induction ls as [|l ls IH]; cbn; [done|]. by rewrite map_app, IH. Qed.

Lemma replace_contents ht old e :
  contents (hash_replace ht old e) = map (swap old e) (contents ht).
Proof.
  unfold contents, old_entries, hash_replace, replace_in. cbn. rewrite map_app.
  destruct (old_buckets ht); cbn; by rewrite !concat_map_map.
Qed.

Section replace.
Context (ht : hash_table) (old : Z) (e : entry).
Hypothesis Hinv : ht_inv ht.
Hypothesis Hold : ht_map ht !! e_key e = Some old.
Hypothesis Hnew : forall k, ht_map ht !! k <> Some (e_node e).

Lemma swap_key x : x ∈ contents ht -> e_key (swap old e x) = e_key x.
Proof.
  intros Hx. unfold swap. destruct (Z.eqb_spec (e_node x) old) as [<-|]; [|done].
  eapply ht_map_inj; [done|exact Hold|]. apply ht_map_lookup; [apply Hinv|eauto].
Qed.

Lemma replace_heads mk a :
  wf_heads mk (a_heads a) -> (forall x, x ∈ concat (a_heads a) -> x ∈ contents ht) ->
  wf_heads mk (a_heads (replace_in old e a)).
Proof.
  intros (Hm & Hl & Hp) Hsub. split_and!; [done|cbn; by rewrite length_map|].
  intros i b x Hb Hx. cbn in Hb. change (map (map ?f)) with (fmap (M := list) (map f)) in Hb.
  rewrite list_lookup_fmap in Hb. apply fmap_Some in Hb as (b' & Hb' & ->).
  apply list_elem_of_In, in_map_iff in Hx as (y & <- & Hy%list_elem_of_In).
  change (e_key (swap old e y)) with (e_key (swap old e y)).
  assert (y ∈ contents ht) as Hc by (apply Hsub, elem_of_concat; eauto).
  fold (swap old e y). rewrite (swap_key y Hc). by eapply Hp.
Qed.

Lemma replace_keys : e_key <$> contents (hash_replace ht old e) = e_key <$> contents ht.
Proof.
  rewrite replace_contents. change (map ?f ?l) with (f <$> l). rewrite <-list_fmap_compose.
  apply list_fmap_ext. intros i x Hx. apply swap_key. by eapply list_elem_of_lookup_2.
Qed.

Lemma replace_lookup k v :
  (exists x, x ∈ contents (hash_replace ht old e) /\ e_key x = k /\ e_node x = v) <->
  <[e_key e := e_node e]> (ht_map ht) !! k = Some v.
Proof.
  rewrite replace_contents. setoid_rewrite list_elem_of_In. setoid_rewrite in_map_iff.
  rewrite lookup_insert_Some, ht_map_lookup by apply Hinv. split.
  - intros (x & (y & <- & Hy%list_elem_of_In) & <- & <-). unfold swap.
    destruct (Z.eqb_spec (e_node y) old) as [Ey|Ey]; [by left|right]. split; [|eauto].
    intros Hk. apply Ey. assert (ht_map ht !! e_key y = Some (e_node y)) as Hl
      by (apply ht_map_lookup; [apply Hinv|eauto]).
    rewrite <-Hk, Hold in Hl. by injection Hl.
  - intros [[<- <-]|(Hk & y & Hy & <- & <-)].
    + apply ht_map_lookup in Hold as (y & Hy & _ & Ey); [|apply Hinv].
      exists e. split_and!; [|done..]. exists y. unfold swap. rewrite Ey, Z.eqb_refl.
      split; [done|by apply list_elem_of_In].
    + exists y. split_and!; [|done..]. exists y. split; [|by apply list_elem_of_In].
      unfold swap. destruct (Z.eqb_spec (e_node y) old) as [Ey|]; [|done].
      destruct Hk. eapply ht_map_inj; [done|exact Hold|]. rewrite <-Ey.
      apply ht_map_lookup; [apply Hinv|eauto].
Qed.

Lemma replace_nodes : NoDup (e_node <$> contents (hash_replace ht old e)).
Proof.
  pose proof (inv_nodes _ (proj1 Hinv)) as Hnd.
  assert (forall x, x ∈ contents ht -> e_node x <> e_node e) as Hfresh.
  { intros x Hx Ex. apply (Hnew (e_key x)). apply ht_map_lookup; [apply Hinv|]. eauto. }
  rewrite replace_contents. revert Hnd Hfresh. generalize (contents ht). clear.
  intros l. induction l as [|x l IH]; cbn; [constructor|].
  rewrite !NoDup_cons. intros [Hx Hnd] Hf. split; [|apply IH; [done|set_solver]].
  intros (y' & Ey & Hy')%list_elem_of_fmap.
  apply list_elem_of_In, in_map_iff in Hy' as (y & <- & Hy%list_elem_of_In). unfold swap in Ey.
  assert (e_node x <> e_node e /\ e_node y <> e_node e) as [? ?] by (split; apply Hf; set_solver).
  assert (e_node y <> e_node x) by (intros E; apply Hx; rewrite <-E; by apply list_elem_of_fmap_2).
  destruct (Z.eqb_spec (e_node x) old), (Z.eqb_spec (e_node y) old); congruence.
Qed.

Lemma hash_replace_ok :
  let ht' := hash_replace ht old e in
  ht_inv ht' /\ ht_map ht' = <[e_key e := e_node e]> (ht_map ht) /\
  mask ht' = mask ht /\ under_migrating ht' = under_migrating ht.
Proof.
  intros ht'. pose proof Hinv as [Hc Hn].
  assert (ht_core ht') as Hc'.
  { split.
    - apply replace_heads; [apply Hc|]. intros x Hx. apply elem_of_app. by left.
    - pose proof (inv_old _ Hc) as Ho. unfold ht', hash_replace. cbn.
      destruct (old_buckets ht) as [o|] eqn:Eo; cbn; [|done].
      destruct Ho as (Hwh & Hmig & Hpre & Hsep). split_and!; cbn; try lia.
      + apply replace_heads; [done|]. intros x Hx. apply elem_of_app. right.
        unfold old_entries. by rewrite Eo.
      + intros i Hi. cbn. change (map (map ?f)) with (fmap (M := list) (map f)).
        by rewrite list_lookup_fmap, Hpre.
      + intros x Hx. cbn in Hx. rewrite concat_map_map in Hx.
        apply list_elem_of_In, in_map_iff in Hx as (y & <- & Hy%list_elem_of_In).
        fold (swap old e y). rewrite swap_key by (apply elem_of_app; by left).
        cbn. change (map (map ?f)) with (fmap (M := list) (map f)).
        by rewrite list_lookup_fmap, Hsep.
    - exact (inv_ghost _ Hc).
    - unfold ht'. rewrite replace_keys. apply Hc.
    - apply replace_nodes.
    - pose proof (inv_wf _ Hc) as Hw. unfold ht'. rewrite replace_contents, Forall_fmap.
      apply list.Forall_forall. intros x Hx. cbn. rewrite swap_key by done.
      rewrite list.Forall_forall in Hw. by apply Hw. }
  split_and!; try done.
  - split; [done|]. unfold ht'. rewrite replace_contents, length_map. exact Hn.
  - apply map_eq. intros k. apply option_eq. intros v.
    rewrite ht_map_lookup by apply Hc'. apply replace_lookup.
  - unfold ht', hash_replace, under_migrating. cbn. by destruct (old_buckets ht).
Qed.
End replace.

(** ** The invariant *)

Definition is_byte (b : Z) : Prop := 0 <= b < 256.

Definition pool_inv (pool : list Z) (C : gmap Z conn) : Prop :=
  NoDup pool /\ (forall h, h ∈ pool -> C !! h = None) /\
  (forall h, h ∈ pool \/ is_Some (C !! h) <-> 0 <= h < THREAD_MAX_CONN).

(** The sizes of a value: it fits its object, its size class is the one
    [kv_malloc] chose, and no more bytes were written than it has. *)
Record kv_ok (k : kv) : Prop := {
  k_wf : wf_key (k_key k);
  k_size : 0 <= k_val_size k < 2 ^ 62;
  k_fits : sizeof_kv + KEY_SIZE (k_key k) + k_val_size k <= k_bytes k;
  k_tail : k_concat k = true ->
    9 <= Z.land (kv_size k) PAGE_MASK + 8 <= KV_CACHE_OBJ_SIZE_MAX;
  k_written : Z.of_nat (length (k_data k)) <= k_val_size k;
  k_complete : k_enabled k = true -> Z.of_nat (length (k_data k)) = k_val_size k;
  k_nodup : NoDup (k_borrowers k)
}.

Definition kvs_inv (next : Z) (K : gmap Z kv) : Prop :=
  THREAD_MAX_CONN <= next <= 2 ^ 49 /\
  forall h k, K !! h = Some k -> THREAD_MAX_CONN <= h < next /\ kv_ok k.

(** A value that clients cannot find any more is still borrowed. *)
Definition used_inv (Y : list Z) (K : gmap Z kv) : Prop :=
  forall h k, K !! h = Some k -> h ∉ Y -> k_enabled k = false -> k_borrowers k <> [].

(** The enabled values are on the list their flag says, once. *)
Definition lru_inv (s m : list Z) (size : Z) (K : gmap Z kv) : Prop :=
  NoDup s /\ NoDup m /\ size = Z.of_nat (length s) /\
  (forall h, h ∈ s <-> exists k, K !! h = Some k /\ k_enabled k = true /\ k_on_s_lru k = true) /\
  (forall h, h ∈ m <-> exists k, K !! h = Some k /\ k_enabled k = true /\ k_on_s_lru k = false).

(** The nodes of the table are connections and the enabled values. *)
Definition index_inv (ht : hash_table) (C : gmap Z conn) (K : gmap Z kv) : Prop :=
  ht_inv ht /\ mask ht + 1 <= 2 ^ 48 /\
  (forall key h, ht_map ht !! key = Some h ->
     is_Some (C !! h) \/ exists k, K !! h = Some k /\ k_enabled k = true /\ k_key k = key) /\
  (forall h k, K !! h = Some k -> k_enabled k = true -> ht_map ht !! k_key k = Some h).

Definition borrow_inv (C : gmap Z conn) (K : gmap Z kv) : Prop :=
  (forall h c v, C !! h = Some c -> c_kv c = Some v ->
     exists k, K !! v = Some k /\ h ∈ k_borrowers k) /\
  (forall h k v, K !! v = Some k -> h ∈ k_borrowers k ->
     exists c, C !! h = Some c /\ c_kv c = Some v).

Definition clock_inv (p d : list Z) (C : gmap Z conn) : Prop :=
  NoDup (p ++ d) /\
  forall h, h ∈ p ++ d <-> exists c, C !! h = Some c /\ c_clock_called c = true.

(** A connection waits for the connection that holds its key; while the lock of
    a connection of [W] turns into a value, for that value. *)
Definition wait_inv (W : list Z) (hm : gmap key Z) (C : gmap Z conn) : Prop :=
  forall g cg, C !! g = Some cg -> NoDup (c_waiting cg) /\
    forall w, w ∈ c_waiting cg -> exists cw x, C !! w = Some cw /\
      c_state cw = CONN_STATE_GET_BLOCKED /\ hm !! conn_key cw = Some x /\
      (x = g \/ g ∈ W /\ THREAD_MAX_CONN <= x).

Definition caches_inv (caches : list kv_cache) : Prop :=
  same_sizes caches size_classes /\
  Forall (fun c => geom c /\ 0 <= free_objects c < 2 * slab_objects c) caches.

(** The arrays of a connection. *)
Record conn_ok (c : conn) : Prop := {
  c_key_bytes : Forall is_byte (c_key c);
  c_key_length : length (c_key c) = 256%nat;
  c_cmd_byte : is_byte (c_cmd c);
  c_buffer_bytes : Forall is_byte (c_buffer c);
  c_buffer_length : length (c_buffer c) = 9%nat;
  c_unio_range : 0 <= c_unio c < 2 ^ 64
}.

Lemma Forall_fill (P : Z -> Prop) o bs b : Forall P bs -> Forall P b -> Forall P (fill o bs b).
Proof.
  intros Hbs Hb. unfold fill. rewrite !Forall_app. split_and!; [by apply Forall_take|done|].
  by apply Forall_drop.
Qed.

Lemma le_split_bytes w v : Forall is_byte (le_split w v).
Proof.
  revert v. induction w as [|w IH]; intros v; [constructor|].
  change (le_split (S w) v) with (v mod 256 :: le_split w (v / 256)).
  constructor; [apply Z.mod_pos_bound; lia|apply IH].
Qed.

Lemma Forall_put o w v b : Forall is_byte b -> Forall is_byte (put o w v b).
Proof. apply Forall_fill, le_split_bytes. Qed.

Definition unlocked (hm : gmap key Z) (h : Z) : Prop := forall key, hm !! key <> Some h.

Definition alone (hm : gmap key Z) (h : Z) (c : conn) : Prop :=
  unlocked hm h /\ c_waiting c = [] /\ c_clock_called c = false.

(** What the state of a connection says about its links. *)
Definition link_ok (hm : gmap key Z) (C : gmap Z conn) (K : gmap Z kv) (h : Z) (c : conn)
    : Prop :=
  match c_state c with
  | CONN_STATE_IN_CMD | CONN_STATE_OUT_SUCCESS | CONN_STATE_FREE =>
      c_kv c = None /\ alone hm h c
  | CONN_STATE_GET_BLOCKED =>
      c_kv c = None /\ alone hm h c /\ exists g cg, C !! g = Some cg /\ h ∈ c_waiting cg
  | CONN_STATE_GET_OUT_HIT => is_Some (c_kv c) /\ alone hm h c
  | CONN_STATE_GET_OUT_MISS | CONN_STATE_SET_IN_VALUE_SIZE =>
      c_kv c = None /\ hm !! conn_key c = Some h
  | CONN_STATE_SET_IN_VALUE =>
      hm !! conn_key c = Some h /\
      exists v k, c_kv c = Some v /\ K !! v = Some k /\ k_key k = conn_key c /\
        k_enabled k = false
  end.

(** What it says about the bytes left. *)
Definition io_ok (K : gmap Z kv) (c : conn) : Prop :=
  match c_state c with
  | CONN_STATE_IN_CMD => c_unio c <= CMD_SIZE_MAX
  | CONN_STATE_GET_OUT_HIT =>
      forall v k, c_kv c = Some v -> K !! v = Some k ->
        Z.of_nat (length (k_data k)) = k_val_size k /\
        0 < c_unio c <= GET_RES_SIZE + k_val_size k /\
        c_buffer c = le_split 8 (k_val_size k) ++ [0]
  | CONN_STATE_GET_OUT_MISS => 0 < c_unio c <= GET_RES_SIZE
  | CONN_STATE_SET_IN_VALUE_SIZE =>
      SET_EXTRA_BUFFER < c_unio c <= SET_REQ_SIZE + SET_EXTRA_BUFFER
  | CONN_STATE_SET_IN_VALUE =>
      forall v k, c_kv c = Some v -> K !! v = Some k ->
        CMD_SIZE_MAX < c_unio c <= CMD_SIZE_MAX + k_val_size k /\
        Z.of_nat (length (k_data k)) = k_val_size k + CMD_SIZE_MAX - c_unio c
  | _ => True
  end.

(** The time of a connection for which others wait is running. *)
Definition timed (c : conn) : Prop := c_waiting c <> [] -> c_clock_called c = true.

Definition conns_inv (X : list Z) (hm : gmap key Z) (C : gmap Z conn) (K : gmap Z kv) : Prop :=
  forall h c, C !! h = Some c ->
    conn_ok c /\ (h ∉ X -> link_ok hm C K h c /\ io_ok K c /\ timed c).

Lemma alone_timed hm h c : alone hm h c -> timed c.
Proof. intros (_ & Hw & _) Hne. congruence. Qed.

Record inv (W X Y : list Z) (t : thread) : Prop := {
  i_pool : pool_inv (conn_pool t) (t_conns t);
  i_kvs : kvs_inv (next_kv t) (t_kvs t);
  i_used : used_inv Y (t_kvs t);
  i_lru : lru_inv (s_lru t) (m_lru t) (s_lru_size t) (t_kvs t);
  i_index : index_inv (t_hash t) (t_conns t) (t_kvs t);
  i_borrow : borrow_inv (t_conns t) (t_kvs t);
  i_clock : clock_inv (clock_probation t) (clock_death t) (t_conns t);
  i_wait : wait_inv W (ht_map (t_hash t)) (t_conns t);
  i_caches : caches_inv (kv_cache_list t);
  i_conns : conns_inv X (ht_map (t_hash t)) (t_conns t) (t_kvs t)
}.
Arguments i_pool {W X Y t}.
Arguments i_kvs {W X Y t}.
Arguments i_used {W X Y t}.
Arguments i_lru {W X Y t}.
Arguments i_index {W X Y t}.
Arguments i_borrow {W X Y t}.
Arguments i_clock {W X Y t}.
Arguments i_wait {W X Y t}.
Arguments i_caches {W X Y t}.
Arguments i_conns {W X Y t}.

(** Project a field out of an updated thread. *)
Ltac t_simpl := cbn [conn_pool t_conns t_kvs next_kv s_lru m_lru s_lru_size t_hash
  clock_probation clock_death kv_cache_list t_memory t_input t_output warmed_up
  set_conn_pool set_conns set_kvs set_next_kv set_s_lru set_m_lru set_s_lru_size set_hash
  set_clock_probation set_clock_death set_kv_cache_list set_memory set_input set_output
  set_warmed_up].

Definition hmap (t : thread) : gmap key Z := ht_map (t_hash t).

(** [t'] differs from [t] at most in the counters of the size classes, the
    budget, the answers and the outputs. *)
Record quiet (t t' : thread) : Prop := {
  q_pool : conn_pool t' = conn_pool t;
  q_conns : t_conns t' = t_conns t;
  q_kvs : t_kvs t' = t_kvs t;
  q_next : next_kv t' = next_kv t;
  q_s : s_lru t' = s_lru t;
  q_m : m_lru t' = m_lru t;
  q_size : s_lru_size t' = s_lru_size t;
  q_hash : t_hash t' = t_hash t;
  q_p : clock_probation t' = clock_probation t;
  q_d : clock_death t' = clock_death t
}.

Lemma quiet_refl t : quiet t t.
Proof. by split. Qed.

Lemma quiet_trans t1 t2 t3 : quiet t1 t2 -> quiet t2 t3 -> quiet t1 t3.
Proof. intros [] []. split; congruence. Qed.

Lemma quiet_inv W X Y t t' :
  quiet t t' -> caches_inv (kv_cache_list t') -> inv W X Y t -> inv W X Y t'.
Proof.
  intros Hq Hc []. split; by rewrite ?(q_pool _ _ Hq), ?(q_conns _ _ Hq), ?(q_kvs _ _ Hq),
    ?(q_next _ _ Hq), ?(q_s _ _ Hq), ?(q_m _ _ Hq), ?(q_size _ _ Hq), ?(q_hash _ _ Hq),
    ?(q_p _ _ Hq), ?(q_d _ _ Hq).
Qed.

Lemma quiet_pop t (Q : answer -> thread -> Prop) :
  (forall a t', quiet t t' -> kv_cache_list t' = kv_cache_list t -> t_memory t' = t_memory t ->
     Q a t') -> wp pop Q t.
Proof.
  intros HQ. unfold wp, pop. destruct (t_input t) as [|a input]; apply HQ; try done; by split.
Qed.

(** ** Memory and size classes *)

Lemma memory_malloc_quiet page t (Q : option Z -> thread -> Prop) :
  (forall p t', quiet t t' -> kv_cache_list t' = kv_cache_list t -> Q p t') ->
  wp (thread_memory_malloc page) Q t.
Proof.
  intros HQ. unfold thread_memory_malloc. wp_steps. case_match; wp_steps.
  { apply HQ; [apply quiet_refl|done]. }
  apply quiet_pop. intros a t' Hq Hc _. destruct (memory_malloc _ _ _) as [p m]. wp_steps.
  apply HQ; [|done]. eapply quiet_trans; [exact Hq|]. by split.
Qed.

Lemma memory_free_quiet ptr page t (Q : unit -> thread -> Prop) :
  (forall t', quiet t t' -> kv_cache_list t' = kv_cache_list t -> Q tt t') ->
  wp (thread_memory_free ptr page) Q t.
Proof.
  intros HQ. unfold thread_memory_free. wp_steps. eapply wp_from; [reflexivity|]. wp_steps.
  apply HQ; [by split|done].
Qed.

Lemma same_sizes_length l l' : same_sizes l l' -> length l = length l'.
Proof. intros H. by rewrite <-(length_fmap obj_size l), H, length_fmap. Qed.

Lemma caches_lookup l i :
  caches_inv l -> 0 <= i < KV_CACHE_LEN ->
  exists c, l !! Z.to_nat i = Some c /\ geom c /\ 0 <= free_objects c < 2 * slab_objects c.
Proof.
  intros [Hs Hf] Hi. destruct (lookup_lt_is_Some_2 l (Z.to_nat i)) as [c Hc].
  { rewrite (same_sizes_length _ _ Hs). change (length size_classes) with 75%nat.
    unfold KV_CACHE_LEN in Hi. lia. }
  exists c. split; [done|]. by eapply Forall_lookup_1 in Hf.
Qed.

Lemma caches_insert l i c n soo :
  caches_inv l -> l !! i = Some c -> 0 <= n < 2 * slab_objects c ->
  caches_inv (<[i := set_free c n soo]> l).
Proof.
  intros [Hs Hf] Hc Hn. split.
  - unfold same_sizes in *. rewrite list_fmap_insert, <-Hs.
    apply list_insert_id. by rewrite list_lookup_fmap, Hc.
  - apply Forall_insert; [done|]. eapply Forall_lookup_1 in Hf as [Hg _]; [|done]. by split.
Qed.

Lemma class_lookup l size :
  caches_inv l -> 9 <= size <= KV_CACHE_OBJ_SIZE_MAX ->
  exists i c, kv_cache_get l size = Some i /\ 0 <= i < KV_CACHE_LEN /\
    l !! Z.to_nat i = Some c /\ size <= obj_size c.
Proof.
  intros Hl Hs. destruct (kv_cache_get_table size Hs) as (i & c & Hg & Hi & Hc & Hle & _).
  destruct (caches_lookup l i Hl Hi) as (c' & Hc' & _). exists i, c'.
  rewrite (kv_cache_get_sizes _ _ size (proj1 Hl)). split_and!; try done; try lia.
  pose proof (same_sizes_lookup _ _ (Z.to_nat i) (proj1 Hl)) as E. rewrite Hc, Hc' in E.
  injection E as ->. done.
Qed.

Lemma cache_malloc_quiet i t (Q : bool -> thread -> Prop) :
  caches_inv (kv_cache_list t) -> 0 <= i < KV_CACHE_LEN ->
  (forall b t', quiet t t' -> caches_inv (kv_cache_list t') -> Q b t') ->
  wp (cache_malloc i) Q t.
Proof.
  intros Hc Hi HQ. destruct (caches_lookup _ _ Hc Hi) as (c & Ec & Hg & Hf).
  unfold cache_malloc. wp_steps. case_match eqn:E0; wp_steps.
  - apply memory_malloc_quiet. intros p t' Hq El. destruct p; wp_steps; [|by apply HQ; [|rewrite El]].
    cbn [kv_cache_list set_kv_cache_list]. rewrite El. eapply wp_from.
    { apply list_lookup_insert_eq. by eapply lookup_lt_Some. }
    wp_steps. apply HQ; [eapply quiet_trans; [exact Hq|by split]|]. cbn.
    rewrite list_insert_insert_eq. destruct Hg as (? & ? & ? & ? & ? & ?).
    rewrite wrap_small by lia. apply (caches_insert _ _ c); [done|done|lia].
  - apply Z.eqb_neq in E0. destruct Hg as (? & ? & ? & ? & ? & ?).
    apply HQ; [by split|]. cbn. rewrite wrap_small by lia.
    apply (caches_insert _ _ c); [done|done|lia].
Qed.

Lemma cache_free_quiet i t (Q : unit -> thread -> Prop) :
  caches_inv (kv_cache_list t) -> 0 <= i < KV_CACHE_LEN ->
  (forall t', quiet t t' -> caches_inv (kv_cache_list t') -> Q tt t') ->
  wp (cache_free i) Q t.
Proof.
  intros Hc Hi HQ. destruct (caches_lookup _ _ Hc Hi) as (c & Ec & Hg & Hf).
  pose proof Hg as (? & ? & ? & ? & ? & ?).
  unfold cache_free. wp_steps. cbn [slab_objects set_free free_objects].
  rewrite Z.shiftl_mul_pow2, wrap_small by lia. change (2 ^ 1) with 2. case_match eqn:E0; wp_steps.
  - apply Z.leb_le in E0. apply memory_free_quiet. intros t' Hq El. wp_steps.
    apply wp_assert; [lia|]. wp_steps. apply HQ; [eapply quiet_trans; [exact Hq|by split]|].
    cbn. rewrite El. apply (caches_insert _ _ c); [done|done|lia].
  - apply Z.leb_gt in E0. apply HQ; [by split|]. cbn. apply (caches_insert _ _ c); [done|done|lia].
Qed.

(** ** Values *)

Lemma remove_in h x l : x ∈ remove h l <-> x <> h /\ x ∈ l.
Proof. unfold remove. by rewrite list_elem_of_filter. Qed.

Lemma remove_nodup h l : NoDup l -> NoDup (remove h l).
Proof. apply NoDup_filter. Qed.

Lemma remove_none h l : h ∉ l -> remove h l = l.
Proof. intros Hh. apply filter_all_true, list.Forall_forall. intros x Hx ->. done. Qed.

Lemma remove_length h l : NoDup l -> h ∈ l -> length l = S (length (remove h l)).
Proof.
  intros Hnd (l1 & l2 & ->)%list_elem_of_split. apply NoDup_middle in Hnd as [Hh _].
  unfold remove. rewrite filter_app, filter_cons_False by (intros Hne; by apply Hne).
  fold (remove h l1). fold (remove h l2).
  rewrite !remove_none by set_solver. rewrite !length_app. cbn. lia.
Qed.

#[global] Arguments remove : simpl never.

Lemma kv_range W X Y t h k : inv W X Y t -> t_kvs t !! h = Some k -> THREAD_MAX_CONN <= h < next_kv t.
Proof. intros Hi Hk. exact (proj1 (proj2 (i_kvs Hi) _ _ Hk)). Qed.

Lemma conn_range W X Y t h : inv W X Y t -> is_Some (t_conns t !! h) -> 0 <= h < THREAD_MAX_CONN.
Proof. intros Hi Hc. apply (i_pool Hi). by right. Qed.

(** Fewer nodes than names. *)
Lemma nodup_bound (l : list Z) N :
  NoDup l -> (forall x, x ∈ l -> 0 <= x < N) -> Z.of_nat (length l) <= Z.max 0 N.
Proof.
  intros Hnd Hr. assert (l ⊆+ zrange (Z.to_nat N)) as Hs.
  { apply NoDup_submseteq; [done|]. intros x Hx%Hr. apply elem_of_zrange. lia. }
  apply submseteq_length in Hs. unfold zrange in Hs. rewrite length_fmap, length_seq in Hs. lia.
Qed.

Lemma nodes_bound W X Y t : inv W X Y t -> 0 <= n (t_hash t) <= 2 ^ 49.
Proof.
  intros Hi. pose proof (i_index Hi) as (Hh & _ & Hn & _).
  pose proof (proj1 (i_kvs Hi)) as Hx. pose proof Hh as [Hc ->].
  rewrite <-(length_fmap e_node).
  assert (Z.of_nat (length (e_node <$> contents (t_hash t))) <= Z.max 0 (next_kv t)).
  { apply nodup_bound; [apply Hc|]. intros x Hx'. apply ht_map_node in Hx' as [key Hk]; [|done].
    apply Hn in Hk as [Hs|(k & Hk & _)].
    - apply (conn_range _ _ _ _ _ Hi) in Hs. lia.
    - apply (kv_range _ _ _ _ _ _ Hi) in Hk. change THREAD_MAX_CONN with 128 in *. lia. }
  change THREAD_MAX_CONN with 128 in *. lia.
Qed.

(** A value changes in its flags or borrowers only: what connections say about
    it stays true. *)
Definition same_bytes (k k' : kv) : Prop :=
  k_key k' = k_key k /\ k_val_size k' = k_val_size k /\ k_data k' = k_data k.

Lemma conns_inv_kvs X hm C K K' :
  conns_inv X hm C K ->
  (forall h c v k, C !! h = Some c -> c_kv c = Some v -> K !! v = Some k ->
     exists k', K' !! v = Some k' /\ same_bytes k k' /\
       (h ∉ X -> c_state c = CONN_STATE_SET_IN_VALUE -> k_enabled k = false ->
        k_enabled k' = false)) ->
  (forall h c v, C !! h = Some c -> c_kv c = Some v -> is_Some (K !! v)) ->
  conns_inv X hm C K'.
Proof.
  intros Hc Hk Hs h c E. destruct (Hc h c E) as [Hok Ht]. split; [done|]. intros Hh.
  destruct (Ht Hh) as (Hl & Hio & Htm). split; [|split; [|done]].
  - unfold link_ok in *. destruct (c_state c) eqn:Es; try done.
    destruct Hl as (Hm & v & k & Ev & Ek & Ekey & Een). split; [done|].
    destruct (Hk _ _ _ _ E Ev Ek) as (k' & Ek' & (Eq & _) & He). exists v, k'.
    split_and!; [done|done|congruence|by apply He].
  - assert (forall v k', c_kv c = Some v -> K' !! v = Some k' ->
      exists k, K !! v = Some k /\ same_bytes k k') as Hback.
    { intros v k' Ev Ek'. destruct (Hs _ _ _ E Ev) as [k Ek]. exists k. split; [done|].
      destruct (Hk _ _ _ _ E Ev Ek) as (k'' & Ek'' & Hb & _). congruence. }
    unfold io_ok in *. destruct (c_state c); try done.
    + intros v k' Ev Ek'. destruct (Hback _ _ Ev Ek') as (k & Ek & _ & -> & ->). by apply (Hio v).
    + intros v k' Ev Ek'. destruct (Hback _ _ Ev Ek') as (k & Ek & _ & -> & ->). by apply (Hio v).
Qed.

Lemma borrow_inv_kv C K v k k' :
  borrow_inv C K -> K !! v = Some k -> k_borrowers k' = k_borrowers k ->
  borrow_inv C (<[v := k']> K).
Proof.
  intros [H1 H2] Ek Eb. split.
  - intros g c v' Ec Ev. destruct (H1 _ _ _ Ec Ev) as (k0 & E0 & Hin).
    destruct (decide (v' = v)) as [->|]; [|exists k0; by rewrite lookup_insert_ne].
    exists k'. rewrite lookup_insert_eq, Eb. assert (k0 = k) as -> by congruence. done.
  - intros g k0 v' [[<- <-]|[Hne E]]%lookup_insert_Some; [|exact (H2 g k0 v' E)].
    rewrite Eb. exact (H2 g k v Ek).
Qed.

(** The same for an update of one value. *)
Lemma conns_inv_kv X hm C K v k k' :
  conns_inv X hm C K -> borrow_inv C K -> K !! v = Some k -> same_bytes k k' ->
  (forall h c, C !! h = Some c -> c_kv c = Some v -> h ∉ X ->
     c_state c = CONN_STATE_SET_IN_VALUE -> k_enabled k = false -> k_enabled k' = false) ->
  conns_inv X hm C (<[v := k']> K).
Proof.
  intros Hc Hb Ek Hsb He. eapply conns_inv_kvs; [done| |].
  - intros h c v' k0 Ec Ev Ek0. destruct (decide (v' = v)) as [->|Hne].
    + rewrite lookup_insert_eq. assert (k0 = k) as -> by congruence. exists k'.
      split_and!; [done|done|]. intros. by eapply He.
    + rewrite lookup_insert_ne by done. exists k0. split_and!; done.
  - intros h c v' Ec Ev. destruct (proj1 Hb _ _ _ Ec Ev) as (k0 & E0 & _). by exists k0.
Qed.

Lemma conns_borrow_some W X Y t h c v :
  inv W X Y t -> t_conns t !! h = Some c -> c_kv c = Some v -> is_Some (t_kvs t !! v).
Proof. intros Hi Ec Ev. destruct (proj1 (i_borrow Hi) _ _ _ Ec Ev) as (k & E & _). by exists k. Qed.

(** Removing a value nobody can find or uses. *)
Lemma inv_delete_kv W X h k t :
  inv W X [h] t -> t_kvs t !! h = Some k -> k_enabled k = false -> k_borrowers k = [] ->
  inv W X [] (set_kvs t (delete h (t_kvs t))).
Proof.
  intros Hi Ek He Hb.
  assert (forall v k', delete h (t_kvs t) !! v = Some k' <-> v <> h /\ t_kvs t !! v = Some k') as Hd.
  { intros v k'. rewrite lookup_delete_Some. naive_solver. }
  assert (forall P : kv -> Prop, (forall x, P x -> k_enabled x = true) -> forall v,
    (exists k', t_kvs t !! v = Some k' /\ P k') <->
    (exists k', delete h (t_kvs t) !! v = Some k' /\ P k')) as Hex.
  { intros P HP v. split; intros (k' & E & HPk); exists k'; (split; [|done]).
    - apply Hd. split; [|done]. intros ->. apply HP in HPk. congruence.
    - by apply Hd in E as [_ E]. }
  destruct Hi. split; cbn; try done.
  - split; [apply i_kvs0|]. intros v k' E%Hd. apply i_kvs0. by apply E.
  - intros v k' [Hne E]%Hd _. apply (i_used0 _ _ E). set_solver.
  - destruct i_lru0 as (? & ? & ? & Hs & Hm). split_and!; try done.
    + intros v. rewrite Hs. apply Hex. tauto.
    + intros v. rewrite Hm. apply Hex. tauto.
  - destruct i_index0 as (? & ? & Hn & Hen). split_and!; try done.
    + intros key v E. destruct (Hn _ _ E) as [?|Hv]; [by left|right]. revert Hv. apply Hex. tauto.
    + intros v k' [_ E]%Hd. by apply Hen.
  - destruct i_borrow0 as [H1 H2]. split.
    + intros g c v Ec Ev. destruct (H1 _ _ _ Ec Ev) as (k' & E & Hin). exists k'.
      split; [|done]. apply Hd. split; [|done]. intros ->. assert (k' = k) as -> by congruence.
      rewrite Hb in Hin. by apply elem_of_nil in Hin.
    + intros g k' v [_ E]%Hd. by apply H2.
  - eapply conns_inv_kvs; [done| |].
    + intros g c v k' Ec Ev E. exists k'. split_and!; try done. apply Hd. split; [|done].
      intros ->. destruct (proj1 i_borrow0 _ _ _ Ec Ev) as (k0 & E0 & Hin).
      assert (k0 = k) as -> by congruence. rewrite Hb in Hin. by apply elem_of_nil in Hin.
    + intros g c v Ec Ev. destruct (proj1 i_borrow0 _ _ _ Ec Ev) as (k0 & E0 & _). by exists k0.
Qed.

Lemma wf_key_size k : wf_key k -> 1 <= KEY_SIZE k <= 256.
Proof.
  intros (Hb & Hne & _). unfold KEY_SIZE. destruct k as [|b k]; [done|]. cbn.
  apply Forall_cons in Hb as [? _]. lia.
Qed.

Lemma kv_size_eq k :
  kv_ok k -> kv_size k = sizeof_kv + KEY_SIZE (k_key k) + k_val_size k /\ 57 <= kv_size k < 2 ^ 63.
Proof.
  intros Hk. pose proof (wf_key_size _ (k_wf _ Hk)). pose proof (k_size _ Hk).
  unfold kv_size, sizeof_kv. rewrite wrap_small by lia. lia.
Qed.

Lemma kv_free_ok W X h k t (Q : unit -> thread -> Prop) :
  inv W X [h] t -> t_kvs t !! h = Some k -> k_enabled k = false -> k_borrowers k = [] ->
  (forall t', inv W X [] t' -> quiet (set_kvs t (delete h (t_kvs t))) t' -> Q tt t') ->
  wp (kv_free h) Q t.
Proof.
  intros Hi Ek He Hb HQ. pose proof (i_caches Hi) as Hc.
  pose proof (proj2 (proj2 (i_kvs Hi) _ _ Ek)) as Hok.
  destruct (kv_size_eq _ Hok) as [_ Hsz].
  unfold kv_free. wp_steps. apply wp_assert; [by unfold kv_no_borrower; rewrite Hb|].
  assert (forall t', quiet t t' -> caches_inv (kv_cache_list t') ->
    Q tt (set_kvs t' (delete h (t_kvs t')))) as Hend.
  { intros t' Hq Hc'. assert (quiet (set_kvs t (delete h (t_kvs t)))
      (set_kvs t' (delete h (t_kvs t')))) as Hq'
      by (destruct Hq; split; cbn; congruence).
    apply HQ; [|done]. eapply quiet_inv; [exact Hq'|done|]. by eapply inv_delete_kv. }
  wp_step. case_match eqn:E1; [|destruct (k_concat k) eqn:E2].
  - apply Z.leb_le in E1. unfold get_class. wp_steps.
    destruct (class_lookup _ (kv_size k) Hc) as (i & c & Hg & Hi' & _); [lia|].
    eapply wp_from; [exact Hg|]. apply cache_free_quiet; [done..|]. intros. wp_steps. by apply Hend.
  - unfold get_class. wp_steps.
    destruct (class_lookup _ _ Hc (k_tail _ Hok E2)) as (i & c & Hg & Hi' & _).
    eapply wp_from; [exact Hg|]. wp_steps. apply cache_free_quiet; [done..|]. intros t' Hq Hc'.
    apply memory_free_quiet. intros t'' Hq' Hl. wp_steps.
    apply Hend; [by eapply quiet_trans|by rewrite Hl].
  - apply memory_free_quiet. intros t'' Hq' Hl. wp_steps. apply Hend; [done|by rewrite Hl].
Qed.

(** ** Taking values out of service *)

(** What operations on values leave alone: the connections, the clocks, and
    which connections hold which keys. *)
Record frame (t t' : thread) : Prop := {
  f_pool : conn_pool t' = conn_pool t;
  f_conns : t_conns t' = t_conns t;
  f_next : next_kv t' = next_kv t;
  f_p : clock_probation t' = clock_probation t;
  f_d : clock_death t' = clock_death t;
  f_mask : mask (t_hash t') = mask (t_hash t);
  f_mig : under_migrating (t_hash t') = under_migrating (t_hash t);
  f_locks : forall key g, is_Some (t_conns t !! g) ->
    hmap t' !! key = Some g <-> hmap t !! key = Some g
}.

Lemma thread_frame_refl t : frame t t.
Proof. by split. Qed.

Lemma thread_frame_trans t1 t2 t3 : frame t1 t2 -> frame t2 t3 -> frame t1 t3.
Proof.
  intros [] []. split; try congruence. intros key g Hg.
  rewrite f_locks1; [by apply f_locks0|]. by rewrite f_conns0.
Qed.

Lemma quiet_frame t t' : quiet t t' -> frame t t'.
Proof. intros []. split; unfold hmap; try congruence. by rewrite q_hash0. Qed.

Lemma frame_set_kvs t K : frame t (set_kvs t K).
Proof. by split. Qed.

Lemma lru_size_bound W X Y t : inv W X Y t -> 0 <= s_lru_size t <= 2 ^ 49.
Proof.
  intros Hi. pose proof (i_lru Hi) as (Hnd & _ & -> & Hs & _).
  pose proof (proj1 (i_kvs Hi)) as Hx.
  assert (Z.of_nat (length (s_lru t)) <= Z.max 0 (next_kv t)).
  { apply nodup_bound; [done|]. intros x (k & Hk & _)%Hs.
    apply (kv_range _ _ _ _ _ _ Hi) in Hk. change THREAD_MAX_CONN with 128 in *. lia. }
  change THREAD_MAX_CONN with 128 in *. lia.
Qed.

(** A value leaves the lists, or the [s] list, when its flags change. *)
Lemma lru_update s m size K h k k' :
  lru_inv s m size K -> K !! h = Some k -> k_enabled k = true ->
  k_enabled k' = false \/ k_enabled k' = true /\ k_on_s_lru k' = false ->
  lru_inv (remove h s) (if k_enabled k' then h :: remove h m else remove h m)
    (size - Z.b2z (k_on_s_lru k)) (<[h := k']> K).
Proof.
  intros (Hns & Hnm & -> & Hs & Hm) Ek He Hk'.
  assert (forall v, (exists k0, <[h := k']> K !! v = Some k0 /\ k_enabled k0 = true /\
    k_on_s_lru k0 = true) <-> v <> h /\ v ∈ s) as Hs'.
  { intros v. rewrite Hs. setoid_rewrite lookup_insert_Some. naive_solver congruence. }
  assert (forall v, (exists k0, <[h := k']> K !! v = Some k0 /\ k_enabled k0 = true /\
    k_on_s_lru k0 = false) <-> v <> h /\ v ∈ m \/ v = h /\ k_enabled k' = true) as Hm'.
  { intros v. rewrite Hm. setoid_rewrite lookup_insert_Some. naive_solver congruence. }
  split_and!.
  - by apply remove_nodup.
  - pose proof (remove_nodup h m Hnm). destruct (k_enabled k'); [|done].
    apply NoDup_cons. split; [|done]. rewrite remove_in. tauto.
  - destruct (k_on_s_lru k) eqn:Eo; cbn.
    + rewrite (remove_length h s) by (try done; apply Hs; eauto). lia.
    + rewrite remove_none; [lia|]. intros (k0 & E0 & _ & E1)%Hs. congruence.
  - intros v. rewrite remove_in. by rewrite Hs'.
  - intros v. rewrite Hm'. destruct (k_enabled k'); rewrite ?elem_of_cons, remove_in;
      naive_solver congruence.
Qed.

Lemma hash_del_wp node key t (Q : unit -> thread -> Prop) :
  ht_inv (t_hash t) -> hmap t !! key = Some node -> n (t_hash t) < 2 ^ 64 ->
  (forall ht, ht_inv ht -> ht_map ht = delete key (hmap t) -> mask ht = mask (t_hash t) ->
     under_migrating ht = under_migrating (t_hash t) -> Q tt (set_hash t ht)) ->
  wp (thread_hash_del node key) Q t.
Proof.
  intros Hi Hm Hn HQ. unfold thread_hash_del. wp_steps.
  destruct (hash_del_ok (t_hash t) {| e_node := node; e_key := key |} Hi)
    as (ht & He & Hi' & Hmap & _ & Hmk & Hmg); [by apply ht_map_entry|done|].
  eapply wp_from; [exact He|]. wp_steps. by apply HQ.
Qed.

(** A key leaves the table: the other connections do not notice. *)
Lemma conns_inv_unindex X hm C K key v :
  conns_inv X hm C K -> hm !! key = Some v -> C !! v = None \/ v ∈ X ->
  conns_inv X (delete key hm) C K.
Proof.
  intros Hc Hk Hv h c E. destruct (Hc h c E) as [Hok Ht]. split; [done|]. intros Hh.
  destruct (Ht Hh) as [Hl Hio]. split; [|done]. unfold link_ok, alone, unlocked in *.
  assert (forall k, hm !! k = Some h -> delete key hm !! k = Some h) as Hkeep.
  { intros k E'. rewrite lookup_delete_ne; [done|]. intros ->.
    destruct Hv as [Hv|Hv]; [congruence|]. assert (h = v) by congruence. congruence. }
  assert ((forall k, hm !! k <> Some h) -> forall k, delete key hm !! k <> Some h) as Hun.
  { intros Hu k [_ E']%lookup_delete_Some. by apply (Hu k). }
  destruct (c_state c); naive_solver.
Qed.

Lemma wait_inv_unindex hm C key v :
  wait_inv [] hm C -> hm !! key = Some v ->
  (forall c, C !! v = Some c -> c_waiting c = []) -> wait_inv [] (delete key hm) C.
Proof.
  intros Hw Hk Hv g cg Eg. destruct (Hw g cg Eg) as [Hnd Hin]. split; [done|].
  intros w Hwg. destruct (Hin w Hwg) as (cw & x & Ew & Es & Hx & Hg). exists cw, x.
  split_and!; try done. destruct Hg as [->|[Hg _]]; [|by apply elem_of_nil in Hg].
  rewrite lookup_delete_ne; [done|]. intros Ekey. rewrite <-Ekey, Hk in Hx.
  assert (v = g) as -> by congruence. rewrite (Hv _ Eg) in Hwg. by apply elem_of_nil in Hwg.
Qed.

Lemma kv_not_conn W X Y t h k : inv W X Y t -> t_kvs t !! h = Some k -> t_conns t !! h = None.
Proof.
  intros Hi Ek. apply (kv_range _ _ _ _ _ _ Hi) in Ek.
  destruct (t_conns t !! h) eqn:E; [|done].
  assert (is_Some (t_conns t !! h)) as Hs by by rewrite E.
  apply (conn_range _ _ _ _ _ Hi) in Hs. lia.
Qed.

Definition lru_length (t : thread) : nat := length (s_lru t) + length (m_lru t).

Lemma kv_disable_ok X h k t (Q : unit -> thread -> Prop) :
  inv [] X [] t -> t_kvs t !! h = Some k -> k_enabled k = true ->
  (forall t', inv [] X [h] t' -> frame t t' ->
     t_kvs t' = <[h := set_k_enabled k false]> (t_kvs t) ->
     lru_length t = S (lru_length t') -> hmap t' = delete (k_key k) (hmap t) -> Q tt t') ->
  wp (kv_disable h) Q t.
Proof.
  intros Hi Ek He HQ. pose proof (kv_not_conn _ _ _ _ _ _ Hi Ek) as Hnc.
  pose proof (i_index Hi) as (Hh & Hmk & Hnod & Hen). pose proof (Hen _ _ Ek He) as Hmap.
  pose proof (nodes_bound _ _ _ _ Hi). pose proof (lru_size_bound _ _ _ _ Hi) as Hsz.
  pose proof (lru_update _ _ _ _ h k (set_k_enabled k false) (i_lru Hi) Ek He (or_introl eq_refl))
    as Hlru. cbn [k_enabled set_k_enabled] in Hlru.
  assert (0 <= s_lru_size t - Z.b2z (k_on_s_lru k)) as Hpos
    by (destruct Hlru as (_ & _ & -> & _); lia).
  unfold kv_disable, lru_del. wp_steps. apply hash_del_wp; [done|done|cbn; lia|].
  intros ht Hht Hm' Hmk' Hmg. wp_steps. apply wp_assert; [done|]. wp_steps.
  change (hmap (set_s_lru_size _ _)) with (hmap t) in Hm'. cbn in Hmk', Hmg.
  cbn. rewrite wrap_small by (destruct (k_on_s_lru k); cbn in *; lia).
  assert (forall v k', <[h := set_k_enabled k false]> (t_kvs t) !! v = Some k' ->
    exists k0, t_kvs t !! v = Some k0 /\ (k' = k0 \/ v = h /\ k' = set_k_enabled k false)) as Hback.
  { intros v k' [[<- <-]|[? ?]]%lookup_insert_Some; eauto. }
  apply HQ; [split; cbn|split; cbn; try done|done| |done].
  - apply Hi.
  - split; [apply Hi|]. intros v k' [[<- <-]|[? E]]%lookup_insert_Some; [|by apply Hi].
    destruct (proj2 (i_kvs Hi) _ _ Ek) as [? []]. split; [done|]. by split.
  - intros v k' [[<- <-]|[? E]]%lookup_insert_Some Hv; [set_solver|].
    apply (i_used Hi _ _ E). set_solver.
  - exact Hlru.
  - split_and!; [done|lia|..].
    + rewrite Hm'. intros key v [Hne E]%lookup_delete_Some.
      destruct (Hnod _ _ E) as [?|(k0 & E0 & E1 & E2)]; [by left|right]. exists k0.
      split; [|done]. rewrite lookup_insert_ne; [done|]. intros <-.
      assert (k0 = k) by congruence. subst k0. congruence.
    + rewrite Hm'. intros v k' [[<- <-]|[Hne E]]%lookup_insert_Some E1; [done|].
      rewrite lookup_delete_ne; [by apply Hen|]. intros Ekey. pose proof (Hen _ _ E E1) as E2.
      rewrite <-Ekey in E2. unfold hmap in Hmap. congruence.
  - eapply borrow_inv_kv; [apply Hi|done|done].
  - apply Hi.
  - rewrite Hm'. eapply wait_inv_unindex; [apply Hi|done|congruence].
  - apply Hi.
  - rewrite Hm'. eapply conns_inv_unindex; [|done|by left].
    eapply conns_inv_kv; [apply Hi|apply Hi|done|done|done].
  - unfold hmap. cbn. rewrite Hm'. intros key g Hg. rewrite lookup_delete_Some.
    split; [tauto|]. intros E. split; [|done]. intros <-. unfold hmap in Hmap.
    destruct Hg as [? Hg]. congruence.
  - unfold lru_length. cbn. destruct (i_lru Hi) as (Hns & Hnm & _ & Hs & Hm).
    destruct (k_on_s_lru k) eqn:Eo.
    + rewrite (remove_length h (s_lru t)) by (try done; apply Hs; eauto).
      rewrite (remove_none h (m_lru t)); [lia|]. intros (k0 & E0 & _ & E1)%Hm. congruence.
    + rewrite (remove_length h (m_lru t)) by (try done; apply Hm; eauto).
      rewrite (remove_none h (s_lru t)); [lia|]. intros (k0 & E0 & _ & E1)%Hs. congruence.
Qed.

Lemma used_all Y K h k :
  used_inv (h :: Y) K -> K !! h = Some k -> (k_enabled k = false -> k_borrowers k <> []) ->
  used_inv Y K.
Proof.
  intros Hu Ek Hb v k' E Hv He. destruct (decide (v = h)) as [->|].
  - assert (k' = k) as -> by congruence. by apply Hb.
  - apply (Hu _ _ E); set_solver.
Qed.

(** A value out of service goes once nobody borrows it. *)
Lemma drop_ok W X h k t (Q : unit -> thread -> Prop) :
  inv W X [h] t -> t_kvs t !! h = Some k -> k_enabled k = false ->
  (forall t', inv W X [] t' -> frame t t' -> t_hash t' = t_hash t ->
     s_lru t' = s_lru t -> m_lru t' = m_lru t -> Q tt t') ->
  wp (if kv_no_borrower k then kv_free h else skip) Q t.
Proof.
  intros Hi Ek He HQ. destruct (kv_no_borrower k) eqn:Eb; unfold kv_no_borrower in Eb.
  - assert (k_borrowers k = []) as Hb by (by destruct (k_borrowers k)).
    eapply kv_free_ok; [done..|]. intros t' Hi' Hq. apply HQ; [done|..].
    + eapply thread_frame_trans; [apply frame_set_kvs|by apply quiet_frame].
    + apply (q_hash _ _ Hq).
    + apply (q_s _ _ Hq).
    + apply (q_m _ _ Hq).
  - wp_steps. apply HQ; try done. destruct Hi. split; try done.
    eapply used_all; [done..|]. intros _. by destruct (k_borrowers k).
Qed.

(** Nothing is left for [reclaim_lru]. *)
Definition exhausted (t : thread) : Prop :=
  m_lru t = [] /\ s_lru_size t * 10 <= n (t_hash t).

Lemma evict_ok {A} X h k (a : A) t (Q : A -> thread -> Prop) :
  inv [] X [] t -> t_kvs t !! h = Some k -> k_enabled k = true ->
  (forall t', inv [] X [] t' -> frame t t' -> lru_length t = S (lru_length t') ->
     hmap t' = delete (k_key k) (hmap t) -> Q a t') ->
  wp (kv_disable h;; k ← get_kv h; (if kv_no_borrower k then kv_free h else skip);; mret a) Q t.
Proof.
  intros Hi Ek He HQ. wp_step. eapply kv_disable_ok; [done..|].
  intros t1 Hi1 Hf1 HK Hl Hm. wp_step. eapply wp_get_kv; [by rewrite HK, lookup_insert_eq|].
  wp_step. eapply drop_ok; [exact Hi1|by rewrite HK, lookup_insert_eq|done|].
  intros t2 Hi2 Hf2 Hh Hs Hm2. wp_steps. apply HQ; [done|by eapply thread_frame_trans|..].
  - unfold lru_length in *. by rewrite Hs, Hm2.
  - unfold hmap in *. by rewrite Hh.
Qed.

Lemma reclaim_lru_ok X t (Q : bool -> thread -> Prop) :
  inv [] X [] t ->
  (forall t', inv [] X [] t' -> frame t t' -> lru_length t = S (lru_length t') -> Q true t') ->
  (forall t', inv [] X [] t' -> quiet t t' -> exhausted t -> Q false t') ->
  wp reclaim_lru Q t.
Proof.
  intros Hi HQ1 HQ2. pose proof (lru_size_bound _ _ _ _ Hi). pose proof (nodes_bound _ _ _ _ Hi).
  unfold reclaim_lru. wp_steps. set (t1 := set_warmed_up t true).
  assert (quiet t t1) as Hq by by split.
  assert (inv [] X [] t1) as Hi1 by (eapply quiet_inv; [exact Hq|apply Hi|done]).
  assert (forall (l : list Z) h, last l = Some h -> h ∈ l) as Hlast
    by (intros l h; rewrite last_Some; intros (l' & ->); set_solver).
  cbv zeta. change (n (t_hash t1)) with (n (t_hash t)). change (s_lru_size t1) with (s_lru_size t).
  rewrite wrap_small by lia. destruct (i_lru Hi) as (_ & _ & Hsz & Hs & Hm).
  case_match eqn:E1.
  - apply Z.ltb_lt in E1. unfold lru_peek. wp_steps. change (s_lru t1) with (s_lru t).
    destruct (last (s_lru t)) as [h|] eqn:El; [|apply last_None in El; rewrite El in Hsz; cbn in Hsz; lia].
    eapply wp_from; [done|]. destruct (proj1 (Hs h) (Hlast _ _ El)) as (k & Ek & He & _).
    eapply evict_ok; [exact Hi1|exact Ek|done|]. intros t2 Hi2 Hf Hl _. apply HQ1; try done.
    eapply thread_frame_trans; [by apply quiet_frame|done].
  - apply Z.ltb_ge in E1. change (m_lru t1) with (m_lru t).
    destruct (m_lru t) as [|x l] eqn:Em.
    { wp_steps. apply HQ2; [done|done|by split]. }
    unfold lru_peek. wp_steps. destruct (last (x :: l)) as [h|] eqn:El.
    2:{ apply last_None in El. done. }
    eapply wp_from; [done|]. destruct (proj1 (Hm h) (Hlast _ _ El)) as (k & Ek & He & _).
    eapply evict_ok; [exact Hi1|exact Ek|done|]. intros t2 Hi2 Hf Hl _. apply HQ1; try done.
    eapply thread_frame_trans; [by apply quiet_frame|done].
Qed.

(** A loop of [reclaim_lru] ends: with its condition false, or with nothing left
    to reclaim. *)
Lemma reclaim_while_ok X more fuel t (Q : unit -> thread -> Prop) :
  inv [] X [] t -> (lru_length t < fuel)%nat ->
  (forall t', inv [] X [] t' -> frame t t' -> more t' = false \/ exhausted t' -> Q tt t') ->
  wp (reclaim_while more fuel) Q t.
Proof.
  revert t. induction fuel as [|fuel IH]; intros t Hi Hl HQ; [lia|].
  cbn [reclaim_while]. wp_steps. destruct (more t) eqn:Em.
  - wp_steps. eapply reclaim_lru_ok; [done|..].
    + intros t' Hi' Hf Hl'. apply IH; [done|lia|]. intros t2 Hi2 Hf2 Hend.
      apply HQ; [done|by eapply thread_frame_trans|done].
    + intros t' Hi' Hq [Hx1 Hx2]. wp_steps. apply HQ; [done|by apply quiet_frame|]. right.
      split; by rewrite ?(q_m _ _ Hq), ?(q_size _ _ Hq), ?(q_hash _ _ Hq).
  - wp_steps. apply HQ; [done|apply thread_frame_refl|by left].
Qed.

(** ** Allocation *)

Definition kept (X : list Z) (t t' : thread) : Prop := inv [] X [] t' /\ frame t t'.

Lemma kept_refl X t : inv [] X [] t -> kept X t t.
Proof. split; [done|apply thread_frame_refl]. Qed.

Lemma kept_trans X t1 t2 t3 : kept X t1 t2 -> kept X t2 t3 -> kept X t1 t3.
Proof. intros [_ ?] [? ?]. split; [done|by eapply thread_frame_trans]. Qed.

Lemma kept_quiet X t t' :
  inv [] X [] t -> quiet t t' -> caches_inv (kv_cache_list t') -> kept X t t'.
Proof. intros Hi Hq Hc. split; [by eapply quiet_inv|by apply quiet_frame]. Qed.

Lemma reclaim_while_kept X more t (Q : unit -> thread -> Prop) :
  inv [] X [] t ->
  (forall t', kept X t t' -> more t' = false \/ exhausted t' -> Q tt t') ->
  wp (reclaim_while more (lru_fuel t)) Q t.
Proof.
  intros Hi HQ. eapply reclaim_while_ok; [done|unfold lru_fuel, lru_length; lia|].
  intros t' Hi' Hf. apply HQ. by split.
Qed.

Lemma memory_malloc_advance_ok X page t (Q : option Z -> thread -> Prop) :
  inv [] X [] t -> (forall p t', kept X t t' -> Q p t') -> wp (memory_malloc_advance page) Q t.
Proof.
  intros Hi HQ. unfold memory_malloc_advance, reserve_page_aggressive, reserve_page. wp_steps.
  eapply reclaim_while_kept; [done|]. intros t1 Hk1 _. wp_steps.
  apply memory_malloc_quiet. intros p t2 Hq2 Hl2.
  assert (kept X t1 t2) as Hk2 by (eapply kept_quiet; [apply Hk1|done|rewrite Hl2; apply Hk1]).
  destruct p; wp_steps; [apply HQ; by eapply kept_trans|].
  eapply reclaim_while_kept; [apply Hk2|]. intros t3 Hk3 _.
  apply memory_malloc_quiet. intros p t4 Hq4 Hl4. apply HQ.
  eapply kept_trans; [exact Hk1|]. eapply kept_trans; [exact Hk2|]. eapply kept_trans; [exact Hk3|].
  eapply kept_quiet; [apply Hk3|done|rewrite Hl4; apply Hk3].
Qed.

Lemma cache_malloc_advance_ok X i t (Q : bool -> thread -> Prop) :
  inv [] X [] t -> 0 <= i < KV_CACHE_LEN -> (forall b t', kept X t t' -> Q b t') ->
  wp (kv_cache_malloc_kv_advance i) Q t.
Proof.
  intros Hi Hr HQ. unfold kv_cache_malloc_kv_advance, reserve_kv_cache, reserve_kv_cache_aggressive.
  destruct (caches_lookup _ _ (i_caches Hi) Hr) as (c & Ec & _). wp_steps.
  eapply reclaim_while_kept; [done|]. intros t1 Hk1 _. wp_steps.
  apply cache_malloc_quiet; [apply Hk1|done|]. intros b t2 Hq2 Hc2.
  assert (kept X t1 t2) as Hk2 by (eapply kept_quiet; [apply Hk1|done|done]).
  destruct b; wp_steps; [apply HQ; by eapply kept_trans|].
  destruct (caches_lookup _ _ (i_caches (proj1 Hk2)) Hr) as (c' & Ec' & _). wp_steps.
  eapply reclaim_while_kept; [apply Hk2|]. intros t3 Hk3 _.
  apply cache_malloc_quiet; [apply Hk3|done|]. intros b t4 Hq4 Hl4. apply HQ.
  eapply kept_trans; [exact Hk1|]. eapply kept_trans; [exact Hk2|]. eapply kept_trans; [exact Hk3|].
  eapply kept_quiet; [apply Hk3|done|done].
Qed.

Lemma same_class l l' i c :
  caches_inv l -> caches_inv l' -> l !! i = Some c ->
  exists c', l' !! i = Some c' /\ obj_size c' = obj_size c.
Proof.
  intros [Hs _] [Hs' _] Hc. assert (same_sizes l l') as H by (unfold same_sizes in *; congruence).
  pose proof (same_sizes_lookup _ _ i H) as E. rewrite Hc in E.
  destruct (l' !! i) as [c'|]; [|done]. exists c'. split; [done|]. by injection E as ->.
Qed.

(** What the allocator promises for a value of [val_size] bytes. *)
Record room_for (key : list Z) (val_size : Z) (k : kv) : Prop := {
  r_bytes : sizeof_kv + KEY_SIZE key + val_size <= k_bytes k;
  r_tail : k_concat k = true ->
    9 <= Z.land (sizeof_kv + KEY_SIZE key + val_size) PAGE_MASK + 8 <= KV_CACHE_OBJ_SIZE_MAX;
  r_borrowers : k_borrowers k = [];
  r_enabled : k_enabled k = false
}.

Definition add_kv (t : thread) (k : kv) : thread :=
  set_next_kv (set_kvs t (<[next_kv t := k]> (t_kvs t))) (next_kv t + 1).

Lemma page_round s : 0 <= s -> s <= Z.shiftl (Z.shiftr (s + 4095) 12) 12 < s + 4096.
Proof.
  intros. rewrite Z.shiftr_div_pow2, Z.shiftl_mul_pow2 by lia. change (2 ^ 12) with 4096.
  pose proof (Z.div_mod (s + 4095) 4096 ltac:(lia)).
  pose proof (Z.mod_pos_bound (s + 4095) 4096 ltac:(lia)). lia.
Qed.

Lemma page_split s : 0 <= s -> s = Z.shiftl (Z.shiftr s 12) 12 + Z.land s PAGE_MASK /\
  0 <= Z.land s PAGE_MASK < 4096.
Proof.
  intros. change PAGE_MASK with (2 ^ 12 - 1). rewrite land_mask by lia.
  rewrite Z.shiftr_div_pow2, Z.shiftl_mul_pow2 by lia. change (2 ^ 12) with 4096.
  pose proof (Z.div_mod s 4096 ltac:(lia)). pose proof (Z.mod_pos_bound s 4096 ltac:(lia)). lia.
Qed.

Lemma kv_malloc_ok X key val_size t (Q : option Z -> thread -> Prop) :
  inv [] X [] t -> 1 <= KEY_SIZE key <= 256 -> 0 <= val_size ->
  sizeof_kv + KEY_SIZE key + val_size + PAGE_MASK < 2 ^ 64 ->
  (forall t', kept X t t' -> Q None t') ->
  (forall t' k, kept X t t' -> room_for key val_size k -> Q (Some (next_kv t')) (add_kv t' k)) ->
  wp (kv_malloc key val_size) Q t.
Proof.
  intros Hi Hk Hv Hsum HQ1 HQ2. unfold kv_malloc. set (size := sizeof_kv + KEY_SIZE key + val_size) in *.
  change PAGE_MASK with 4095 in Hsum.
  assert (57 <= size) as Hs by (unfold size, sizeof_kv; lia).
  rewrite (wrap_small 64 size) by lia. cbv zeta. case_match eqn:E1.
  - apply Z.leb_le in E1. unfold get_class. wp_steps.
    destruct (class_lookup _ size (i_caches Hi)) as (i & c & Hg & Hr & Hc & Hle); [lia|].
    eapply wp_from; [exact Hg|]. wp_steps. eapply cache_malloc_advance_ok; [done..|].
    intros b t1 Hk1. destruct b; wp_steps; [|by apply HQ1].
    destruct (same_class _ _ _ _ (i_caches Hi) (i_caches (proj1 Hk1)) Hc) as (c1 & Hc1 & Es).
    wp_steps. unfold new_kv. wp_steps. apply HQ2; [done|]. split; cbn; [rewrite Es; lia|done..].
  - apply Z.leb_gt in E1. pose proof (page_split size ltac:(lia)) as [Hsp Hov].
    case_match eqn:E2.
    + wp_steps. eapply memory_malloc_advance_ok; [done|]. intros [p|] t1 Hk1; wp_steps; [|by apply HQ1].
      unfold new_kv. wp_steps. apply HQ2; [done|]. split; cbn; [|done..].
      rewrite wrap_small by (change PAGE_MASK with 4095; lia). change PAGE_SHIFT with 12.
      change PAGE_MASK with 4095. pose proof (page_round size ltac:(lia)). lia.
    + apply orb_false_iff in E2 as [E2%Z.eqb_neq E3%Z.ltb_ge].
      wp_steps. eapply memory_malloc_advance_ok; [done|]. intros [p|] t1 Hk1; wp_steps; [|by apply HQ1].
      unfold get_class. wp_steps.
      destruct (class_lookup _ (Z.land size PAGE_MASK + 8) (i_caches (proj1 Hk1)))
        as (i & c & Hg & Hr & Hc & Hle); [lia|].
      eapply wp_from; [exact Hg|]. wp_steps. eapply cache_malloc_advance_ok; [apply Hk1|done|].
      intros b t2 Hk2. pose proof (kept_trans _ _ _ _ Hk1 Hk2) as Hk12. destruct b; wp_steps.
      * destruct (same_class _ _ _ _ (i_caches (proj1 Hk1)) (i_caches (proj1 Hk2)) Hc)
          as (c1 & Hc1 & Es). wp_steps. unfold new_kv. wp_steps. apply HQ2; [done|].
        split; cbn; [|intros _; fold size; lia|done..]. change PAGE_SHIFT with 12.
        unfold off_concat_data. rewrite Es. lia.
      * apply memory_free_quiet. intros t3 Hq3 Hl3. wp_steps. apply HQ1.
        eapply kept_trans; [exact Hk12|]. eapply kept_quiet; [apply Hk2|done|].
        rewrite Hl3. apply Hk2.
Qed.
