(* ===== verification/ThreadConn.v ===== *)
(** * Connections of a cache thread (thread.c)

    Every operation on a connection keeps the invariant of ThreadInv.v; no event
    makes a thread fault. *)

From S2P Require Import Prelude Slab Memory HashTable Kv KvCache SizeClass Proto Thread ThreadInv.

(** ** Working on a connection *)

(** [h] waits for nobody. *)
Definition off_lists (h : Z) (C : gmap Z conn) : Prop :=
  forall g cg, C !! g = Some cg -> h ∉ c_waiting cg.

Lemma waiting_blocked W hm C h c :
  wait_inv W hm C -> C !! h = Some c -> c_state c <> CONN_STATE_GET_BLOCKED -> off_lists h C.
Proof.
  intros Hw Ec Hs g cg Eg Hin. destruct (proj2 (Hw g cg Eg) h Hin) as (cw & x & E & ? & _).
  congruence.
Qed.

Lemma conns_inv_weaken X X' hm C K : X ⊆ X' -> conns_inv X hm C K -> conns_inv X' hm C K.
Proof. intros HX Hc h c E. destruct (Hc h c E) as [? Ht]. split; [done|]. intros. apply Ht. set_solver. Qed.

(** A connection is taken up, and put down when its tag fits again. *)
Lemma inv_take h W X Y t : inv W X Y t -> inv W (h :: X) Y t.
Proof. intros []. split; try done. eapply conns_inv_weaken; [|done]. set_solver. Qed.

Lemma inv_put h c W X Y t :
  inv W (h :: X) Y t -> t_conns t !! h = Some c ->
  link_ok (hmap t) (t_conns t) (t_kvs t) h c -> io_ok (t_kvs t) c -> timed c -> inv W X Y t.
Proof.
  intros [] Ec Hl Hio Htm. split; try done. intros g cg Eg.
  destruct (i_conns g cg Eg) as [Hok Ht]. split; [done|]. intros Hg.
  destruct (decide (g = h)) as [->|Hne]; [assert (cg = c) as -> by congruence; done|].
  apply Ht. set_solver.
Qed.

(** Changes of a connection that its neighbours do not see. *)
Lemma conns_inv_update X hm C K h c c' :
  conns_inv X hm C K -> C !! h = Some c -> h ∈ X -> conn_ok c' -> c_waiting c' = c_waiting c ->
  conns_inv X hm (<[h := c']> C) K.
Proof.
  intros Hc Ec HX Hok Hw g cg [[<- <-]|[Hne Eg]]%lookup_insert_Some; [split; [done|tauto]|].
  destruct (Hc g cg Eg) as [? Ht]. split; [done|]. intros Hg. destruct (Ht Hg) as [Hl Hio].
  split; [|done]. unfold link_ok in *. destruct (c_state cg); try done.
  destruct Hl as (? & ? & g' & cg' & Eg' & Hin). split_and!; try done.
  destruct (decide (g' = h)) as [->|]; [|exists g', cg'; by rewrite lookup_insert_ne].
  exists h, c'. rewrite lookup_insert_eq, Hw. assert (cg' = c) as -> by congruence. done.
Qed.

Lemma off_update h C g cg cg' :
  off_lists h C -> C !! g = Some cg -> c_waiting cg' = c_waiting cg -> off_lists h (<[g := cg']> C).
Proof.
  intros Hoff Eg Hw x cx [[<- <-]|[? E]]%lookup_insert_Some; [rewrite Hw; by apply (Hoff g)|].
  by apply (Hoff x).
Qed.

(** The identity of a waiting connection: its state and its key. *)
Definition same_wait (c c' : conn) : Prop :=
  c_state c' = c_state c /\ conn_key c' = conn_key c.

Lemma wait_inv_update W hm C h c c' :
  wait_inv W hm C -> C !! h = Some c -> c_waiting c' = c_waiting c ->
  off_lists h C \/ same_wait c c' -> wait_inv W hm (<[h := c']> C).
Proof.
  intros Hw Ec Hwt Hid g cg Eg.
  assert (exists cg0, C !! g = Some cg0 /\ c_waiting cg = c_waiting cg0) as (cg0 & Eg0 & Ew).
  { apply lookup_insert_Some in Eg as [[<- <-]|[? ?]]; eauto. }
  rewrite Ew. destruct (Hw g cg0 Eg0) as [Hnd Hin]. split; [done|]. intros w Hw'.
  destruct (Hin w Hw') as (cw & x & E & Es & Hm & Hx).
  destruct (decide (w = h)) as [->|Hne].
  - destruct Hid as [Hoff|[Hs Hk]]; [by destruct (Hoff _ _ Eg0)|].
    assert (cw = c) as -> by congruence. exists c', x. rewrite lookup_insert_eq.
    split_and!; [done|congruence|congruence|done].
  - exists cw, x. by rewrite lookup_insert_ne.
Qed.

Lemma is_Some_insert (C : gmap Z conn) h c c' g :
  C !! h = Some c -> is_Some (<[h := c']> C !! g) <-> is_Some (C !! g).
Proof. intros E. rewrite lookup_insert_is_Some'. split; [intros [<-|]; eauto|auto]. Qed.

Lemma pool_inv_update pool C h c c' :
  pool_inv pool C -> C !! h = Some c -> pool_inv pool (<[h := c']> C).
Proof.
  intros (Hnd & Hp & Hr) Ec. split_and!; [done| |].
  - intros g Hg. rewrite lookup_insert_ne; [by apply Hp|]. intros <-. apply Hp in Hg. congruence.
  - intros g. by rewrite (is_Some_insert _ _ c).
Qed.

Lemma index_inv_update ht C K h c c' :
  index_inv ht C K -> C !! h = Some c -> index_inv ht (<[h := c']> C) K.
Proof.
  intros (? & ? & Hn & ?) Ec. split_and!; try done. intros key g E.
  rewrite (is_Some_insert _ _ c) by done. by apply Hn.
Qed.

Lemma borrow_inv_update C K h c c' :
  borrow_inv C K -> C !! h = Some c -> c_kv c' = c_kv c -> borrow_inv (<[h := c']> C) K.
Proof.
  intros [H1 H2] Ec Ek. split.
  - intros g cg v [[<- <-]|[? E]]%lookup_insert_Some Ev; [|by eapply H1].
    eapply H1; [done|]. by rewrite <-Ek.
  - intros g k v E Hin. destruct (H2 g k v E Hin) as (cg & Eg & Ev).
    destruct (decide (g = h)) as [->|]; [|exists cg; by rewrite lookup_insert_ne].
    exists c'. rewrite lookup_insert_eq, Ek. assert (cg = c) as -> by congruence. done.
Qed.

Lemma clock_inv_update p d C h c c' :
  clock_inv p d C -> C !! h = Some c -> c_clock_called c' = c_clock_called c ->
  clock_inv p d (<[h := c']> C).
Proof.
  intros [Hnd Hin] Ec Ek. split; [done|]. intros g. rewrite Hin.
  setoid_rewrite lookup_insert_Some. split.
  - intros (cg & Eg & Hc). destruct (decide (g = h)) as [->|]; [|eauto].
    exists c'. assert (cg = c) as -> by congruence. split; [by left|congruence].
  - intros (cg & [[<- <-]|[? ?]] & Hc); [exists c; split; [done|congruence]|eauto].
Qed.

Lemma inv_update_conn W X Y t h c c' :
  inv W X Y t -> t_conns t !! h = Some c -> h ∈ X -> conn_ok c' ->
  c_waiting c' = c_waiting c -> c_kv c' = c_kv c -> c_clock_called c' = c_clock_called c ->
  off_lists h (t_conns t) \/ same_wait c c' ->
  inv W X Y (set_conns t (<[h := c']> (t_conns t))).
Proof.
  intros [] Ec HX Hok Hw Hk Hcl Hid. split; cbn; try done.
  - by eapply pool_inv_update.
  - by eapply index_inv_update.
  - by eapply borrow_inv_update.
  - by eapply clock_inv_update.
  - by eapply wait_inv_update.
  - by eapply conns_inv_update.
Qed.

Lemma inv_conn_ok W X Y t h c : inv W X Y t -> t_conns t !! h = Some c -> conn_ok c.
Proof. intros Hi Ec. exact (proj1 (i_conns Hi h c Ec)). Qed.

Lemma inv_tag W X Y t h c :
  inv W X Y t -> t_conns t !! h = Some c -> h ∉ X ->
  link_ok (hmap t) (t_conns t) (t_kvs t) h c /\ io_ok (t_kvs t) c.
Proof. intros Hi Ec Hh. by destruct (proj2 (i_conns Hi h c Ec) Hh) as (? & ? & _). Qed.

Lemma inv_timed W X Y t h c : inv W X Y t -> t_conns t !! h = Some c -> h ∉ X -> timed c.
Proof. intros Hi Ec Hh. by destruct (proj2 (i_conns Hi h c Ec) Hh) as (_ & _ & ?). Qed.

Lemma conn_key_wf c : conn_ok c -> wf_key (conn_key c) /\ KEY_SIZE (c_key c) = KEY_SIZE (conn_key c) /\
  1 <= KEY_SIZE (c_key c) <= 256.
Proof.
  intros Hc. pose proof (c_key_bytes _ Hc) as Hb. pose proof (c_key_length _ Hc) as Hl.
  unfold conn_key, KEY_SIZE. destruct (c_key c) as [|b l] eqn:E; [done|]. cbn [hd].
  pose proof Hb as Hb'. apply Forall_cons in Hb' as [Hb0 _]. unfold is_byte in Hb0. cbn in Hl.
  assert (Z.to_nat (1 + b) = S (Z.to_nat b)) as En by lia. rewrite En. cbn [take hd].
  split_and!; try lia. split_and!; [|done|].
  - rewrite <-firstn_cons. by apply Forall_take.
  - unfold key_size. cbn. rewrite length_take. lia.
Qed.

(** ** Borrowing and returning values *)

Lemma kvs_inv_update next K v k k' :
  kvs_inv next K -> K !! v = Some k -> kv_ok k' -> kvs_inv next (<[v := k']> K).
Proof.
  intros [? HK] Ek Hok. split; [done|]. intros h k0 [[<- <-]|[? E]]%lookup_insert_Some.
  - split; [|done]. by apply (HK _ _ Ek).
  - by apply HK.
Qed.

Lemma lru_inv_same s m size K v k k' :
  lru_inv s m size K -> K !! v = Some k -> k_enabled k' = k_enabled k ->
  k_on_s_lru k' = k_on_s_lru k -> lru_inv s m size (<[v := k']> K).
Proof.
  intros (? & ? & ? & Hs & Hm) Ek E1 E2.
  assert (forall (P : kv -> Prop), (P k <-> P k') -> forall h,
    (exists k0, K !! h = Some k0 /\ P k0) <->
    (exists k0, <[v := k']> K !! h = Some k0 /\ P k0)) as Hex.
  { intros P HP h. setoid_rewrite lookup_insert_Some. split.
    - intros (k0 & E & HPk). destruct (decide (v = h)) as [<-|]; [|eauto].
      assert (k0 = k) as -> by congruence. exists k'. split; [by left|by apply HP].
    - intros (k0 & [[<- <-]|[? E]] & HPk); [exists k; split; [done|by apply HP]|eauto]. }
  split_and!; try done.
  - intros h. rewrite Hs. apply (Hex (fun k => k_enabled k = true /\ k_on_s_lru k = true)).
    by rewrite E1, E2.
  - intros h. rewrite Hm. apply (Hex (fun k => k_enabled k = true /\ k_on_s_lru k = false)).
    by rewrite E1, E2.
Qed.

Lemma index_inv_kv ht C K v k k' :
  index_inv ht C K -> K !! v = Some k -> k_enabled k' = k_enabled k -> k_key k' = k_key k ->
  index_inv ht C (<[v := k']> K).
Proof.
  intros (? & ? & Hn & Hen) Ek E1 E2. split_and!; try done.
  - intros key h E. destruct (Hn _ _ E) as [?|(k0 & E0 & ? & ?)]; [by left|right].
    destruct (decide (h = v)) as [->|]; [|exists k0; by rewrite lookup_insert_ne].
    exists k'. rewrite lookup_insert_eq. assert (k0 = k) as -> by congruence.
    split_and!; congruence.
  - intros h k0 [[<- <-]|[? E]]%lookup_insert_Some He; [|by apply Hen].
    rewrite E2. apply Hen; congruence.
Qed.

(** The state after [kv_return]. *)
Definition returned (t : thread) (h v : Z) (c : conn) (k : kv) : thread :=
  set_conns (set_kvs t (<[v := set_k_borrowers k (remove h (k_borrowers k))]> (t_kvs t)))
    (<[h := set_c_kv c None]> (t_conns t)).

Lemma inv_returned W X t h v c k :
  inv W X [] t -> t_conns t !! h = Some c -> h ∈ X -> c_kv c = Some v ->
  t_kvs t !! v = Some k -> inv W X [v] (returned t h v c k).
Proof.
  intros Hi Ec HX Ev Ek. pose proof (proj2 (proj2 (i_kvs Hi) _ _ Ek)) as Hok.
  set (k' := set_k_borrowers k (remove h (k_borrowers k))).
  assert (kv_ok k') as Hok' by (destruct Hok; split; try done; by apply remove_nodup).
  pose proof (i_borrow Hi) as [H1 H2].
  assert (conns_inv X (hmap t) (t_conns t) (<[v := k']> (t_kvs t))) as Hcv
    by (eapply conns_inv_kv; [apply Hi|apply Hi|done|done|done]).
  destruct Hi. split; cbn; try done.
  - by eapply pool_inv_update.
  - by eapply kvs_inv_update.
  - intros g k0 [[<- <-]|[? E]]%lookup_insert_Some Hg; [set_solver|].
    apply (i_used _ _ E). set_solver.
  - by eapply lru_inv_same.
  - eapply index_inv_update; [|done]. by eapply index_inv_kv.
  - split.
    + intros g cg v' [[<- <-]|[Hne E]]%lookup_insert_Some Ev'; [done|].
      destruct (H1 _ _ _ E Ev') as (k0 & E0 & Hin). destruct (decide (v' = v)) as [->|].
      * exists k'. rewrite lookup_insert_eq. split; [done|]. cbn. apply remove_in.
        assert (k0 = k) as -> by congruence. done.
      * exists k0. by rewrite lookup_insert_ne.
    + intros g k0 v' Ek0 Hin. assert (g ∈ k_borrowers (if decide (v' = v) then k else k0) /\
        t_kvs t !! v' = Some (if decide (v' = v) then k else k0) /\ (v' = v -> g <> h))
        as (Hin' & E0 & Hgh).
      { apply lookup_insert_Some in Ek0 as [[<- <-]|[Hne E]].
        - rewrite decide_True by done. apply remove_in in Hin as [? ?]. done.
        - rewrite decide_False by done. by split_and!. }
      destruct (H2 _ _ _ E0 Hin') as (cg & Eg & Ev'). exists cg.
      rewrite lookup_insert_ne; [done|]. intros <-. apply Hgh; congruence.
  - by eapply clock_inv_update.
  - eapply wait_inv_update; [done|done|done|right; done].
  - eapply conns_inv_update; [exact Hcv|done|done| |done].
    destruct (i_conns h c Ec) as [[] _]. by split.
Qed.

(** What stays the same when a connection gives its value back. *)
Record released (t t' : thread) (h : Z) (c : conn) : Prop := {
  rl_conns : t_conns t' = <[h := c]> (t_conns t);
  rl_pool : conn_pool t' = conn_pool t;
  rl_hash : t_hash t' = t_hash t;
  rl_p : clock_probation t' = clock_probation t;
  rl_d : clock_death t' = clock_death t;
  rl_next : next_kv t' = next_kv t
}.

Lemma conn_return_kv_ok W X t h v c (Q : unit -> thread -> Prop) :
  inv W X [] t -> t_conns t !! h = Some c -> h ∈ X -> c_kv c = Some v ->
  (forall t', inv W X [] t' -> released t t' h (set_c_kv c None) -> Q tt t') ->
  wp (conn_return_kv h) Q t.
Proof.
  intros Hi Ec HX Ev HQ. destruct (proj1 (i_borrow Hi) _ _ _ Ec Ev) as (k & Ek & _).
  pose proof (inv_returned _ _ _ _ _ _ _ Hi Ec HX Ev Ek) as Hr.
  unfold conn_return_kv, kv_return. wp_steps.
  set (k' := set_k_borrowers _ _) in *.
  change (set_conns _ _) with (returned t h v c k).
  assert (t_kvs (returned t h v c k) !! v = Some k') as Ek' by apply lookup_insert_eq.
  wp_steps. destruct (k_enabled k') eqn:Een; cbn [negb andb].
  - wp_steps. apply HQ; [|by split]. destruct Hr. split; try done.
    eapply used_all; [done|done|]. congruence.
  - eapply drop_ok; [exact Hr|done|done|]. intros t' Hi' [] Hh _ _. apply HQ; [done|].
    split; assumption.
Qed.

(** [kv_borrow] by a connection that has no value. *)
Definition borrowed (t : thread) (h v : Z) (c : conn) (k : kv) : thread :=
  set_conns (set_kvs t (<[v := set_k_borrowers k (h :: k_borrowers k)]> (t_kvs t)))
    (<[h := set_c_kv c (Some v)]> (t_conns t)).

Lemma borrow_inv_borrowed C K h v c k k' :
  borrow_inv C K -> C !! h = Some c -> c_kv c = None -> K !! v = Some k ->
  k_borrowers k' = h :: k_borrowers k ->
  borrow_inv (<[h := set_c_kv c (Some v)]> C) (<[v := k']> K).
Proof.
  intros [H1 H2] Ec Ev Ek Eb. split.
  - intros g cg v' [[<- <-]|[Hne E]]%lookup_insert_Some Ev'.
    + injection Ev' as <-. exists k'. rewrite lookup_insert_eq, Eb. split; [done|set_solver].
    + destruct (H1 _ _ _ E Ev') as (k0 & E0 & Hin). destruct (decide (v' = v)) as [->|].
      * exists k'. rewrite lookup_insert_eq, Eb. assert (k0 = k) as -> by congruence.
        split; [done|set_solver].
      * exists k0. by rewrite lookup_insert_ne.
  - intros g k0 v' [[<- <-]|[Hne E]]%lookup_insert_Some Hin.
    + rewrite Eb in Hin. apply elem_of_cons in Hin as [->|Hin].
      * exists (set_c_kv c (Some v)). by rewrite lookup_insert_eq.
      * destruct (H2 _ _ _ Ek Hin) as (cg & Eg & Evg). exists cg.
        rewrite lookup_insert_ne; [done|]. intros <-. congruence.
    + destruct (H2 _ _ _ E Hin) as (cg & Eg & Evg). exists cg.
      rewrite lookup_insert_ne; [done|]. intros <-. congruence.
Qed.

Lemma inv_borrowed W X Y t h v c k :
  inv W X Y t -> t_conns t !! h = Some c -> h ∈ X -> c_kv c = None ->
  t_kvs t !! v = Some k -> inv W X (filter (.≠ v) Y) (borrowed t h v c k).
Proof.
  intros Hi Ec HX Ev Ek. pose proof (proj2 (proj2 (i_kvs Hi) _ _ Ek)) as Hok.
  set (k' := set_k_borrowers k (h :: k_borrowers k)).
  assert (h ∉ k_borrowers k) as Hnew.
  { intros Hin. destruct (proj2 (i_borrow Hi) _ _ _ Ek Hin) as (c0 & E0 & Ev0). congruence. }
  assert (kv_ok k') as Hok' by (destruct Hok; split; try done; by apply NoDup_cons).
  assert (conns_inv X (hmap t) (t_conns t) (<[v := k']> (t_kvs t))) as Hcv
    by (eapply conns_inv_kv; [apply Hi|apply Hi|done|done|done]).
  destruct Hi. split; cbn; try done.
  - by eapply pool_inv_update.
  - by eapply kvs_inv_update.
  - intros g k0 [[<- <-]|[? E]]%lookup_insert_Some Hg He; [done|].
    apply (i_used _ _ E); [|done]. contradict Hg. by apply list_elem_of_filter.
  - by eapply lru_inv_same.
  - eapply index_inv_update; [|done]. by eapply index_inv_kv.
  - by eapply borrow_inv_borrowed.
  - by eapply clock_inv_update.
  - eapply wait_inv_update; [done|done|done|right; done].
  - eapply conns_inv_update; [exact Hcv|done|done| |done].
    destruct (i_conns h c Ec) as [[] _]. by split.
Qed.

(** What stays the same when a connection borrows a value. *)
Lemma conn_borrow_kv_ok W X t h v c k (Q : unit -> thread -> Prop) :
  inv W X [] t -> t_conns t !! h = Some c -> h ∈ X -> c_kv c = None ->
  t_kvs t !! v = Some k -> k_enabled k = true ->
  (forall t' k', inv W X [] t' -> released t t' h (set_c_kv c (Some v)) ->
     t_kvs t' !! v = Some k' -> same_bytes k k' -> k_enabled k' = true -> Q tt t') ->
  wp (conn_borrow_kv h v) Q t.
Proof.
  intros Hi Ec HX Ev Ek He HQ. pose proof (inv_borrowed _ _ _ _ _ _ _ _ Hi Ec HX Ev Ek) as Hb.
  cbn [filter list_filter] in Hb. pose proof (lru_size_bound _ _ _ _ Hi) as Hsz.
  unfold conn_borrow_kv, kv_borrow, lru_del. wp_steps. apply wp_assert; [done|]. wp_steps.
  set (k1 := set_k_borrowers k (h :: k_borrowers k)) in *.
  assert (t_kvs (borrowed t h v c k) !! v = Some k1) as Ek1 by apply lookup_insert_eq.
  pose proof (lru_update _ _ _ _ v k1 (set_k_on_s_lru k1 false) (i_lru Hb) Ek1 He
    (or_intror (conj He eq_refl))) as Hlru.
  cbn [k_enabled set_k_on_s_lru k1 set_k_borrowers] in Hlru. rewrite He in Hlru.
  assert (0 <= s_lru_size t - Z.b2z (k_on_s_lru k)) as Hpos
    by (destruct Hlru as (_ & _ & Hl & _); cbn in Hl; lia).
  eapply wp_mod_kv; [exact Ek1|]. cbn -[remove].
  rewrite wrap_small by (destruct (k_on_s_lru k); cbn in *; lia).
  eapply HQ; [split; cbn -[remove]|by split|apply lookup_insert_eq|done|exact He]; try apply Hb.
  - eapply kvs_inv_update; [apply Hb|exact Ek1|].
    destruct (proj2 (proj2 (i_kvs Hb) _ _ Ek1)). by split.
  - intros g k0 [[<- <-]|[Hne E]]%lookup_insert_Some Hg He0; [|by apply (i_used Hb g k0)].
    change (k_enabled k = false) in He0. congruence.
  - exact Hlru.
  - eapply index_inv_kv; [apply Hb|exact Ek1|done|done].
  - eapply borrow_inv_kv; [apply Hb|exact Ek1|done].
  - eapply conns_inv_kv; [apply Hb|apply Hb|exact Ek1|done|done].
Qed.

(** ** Clocks *)

Lemma clock_inv_cancel p d C h c :
  clock_inv p d C -> C !! h = Some c ->
  clock_inv (remove h p) (remove h d) (<[h := set_c_clock c false]> C).
Proof.
  intros [Hnd Hin] Ec. split.
  - unfold remove. rewrite <-filter_app. by apply NoDup_filter.
  - intros g. rewrite elem_of_app, !remove_in. transitivity (g <> h /\ g ∈ p ++ d).
    { rewrite elem_of_app. tauto. }
    rewrite Hin. setoid_rewrite lookup_insert_Some. naive_solver.
Qed.

Lemma set_c_clock_same c b : c_clock_called c = b -> set_c_clock c b = c.
Proof. destruct c. cbn. by intros ->. Qed.

Lemma cancel_clock_ok W X t h c (Q : unit -> thread -> Prop) :
  inv W X [] t -> t_conns t !! h = Some c -> h ∈ X ->
  (forall t', inv W X [] t' -> t_conns t' = <[h := set_c_clock c false]> (t_conns t) ->
     t_hash t' = t_hash t -> t_kvs t' = t_kvs t -> clock_death t' = remove h (clock_death t) ->
     next_kv t' = next_kv t -> Q tt t') ->
  wp (cancel_clock h) Q t.
Proof.
  intros Hi Ec HX HQ. unfold cancel_clock. wp_steps. destruct (c_clock_called c) eqn:Ecl.
  - wp_steps. apply HQ; try done. pose proof (inv_conn_ok _ _ _ _ _ _ Hi Ec) as [].
    destruct Hi. split; cbn; try done.
    + by eapply pool_inv_update.
    + by eapply index_inv_update.
    + by eapply borrow_inv_update.
    + by apply clock_inv_cancel.
    + eapply wait_inv_update; [done..|by right].
    + by eapply conns_inv_update.
  - wp_steps. rewrite set_c_clock_same in HQ by done. apply HQ; try done.
    + by rewrite insert_id.
    + rewrite remove_none; [done|]. intros Hin.
      destruct (proj1 (proj2 (i_clock Hi) h)) as (c0 & E0 & ?); [set_solver|congruence].
Qed.

(** ** Handing on a lock *)

Section promote.
Context (t : thread) (h first : Z) (rest : list Z) (c f : conn).
Hypothesis Hi : inv [] [h] [] t.
Hypothesis Ec : t_conns t !! h = Some c.
Hypothesis Ef : t_conns t !! first = Some f.
Hypothesis Hkv : c_kv c = None.
Hypothesis Hclock : c_clock_called c = false.
Hypothesis Hw : c_waiting c = first :: rest.
Hypothesis Hst : c_state c <> CONN_STATE_GET_BLOCKED.
Hypothesis Hlock : hmap t !! conn_key c = Some h.

Definition promoted_conn : conn :=
  set_c_buffer (set_c_unio (set_c_state (set_c_clock (set_c_waiting f rest) true)
    CONN_STATE_GET_OUT_MISS) GET_RES_SIZE) (put 8 1 1 (c_buffer f)).

Definition promoted_conns : gmap Z conn :=
  <[first := promoted_conn]> (<[h := set_c_waiting c []]> (t_conns t)).

Definition promoted_hash : hash_table :=
  hash_replace (t_hash t) h {| e_node := first; e_key := conn_key f |}.

Lemma waiter w : w ∈ first :: rest -> exists cw, t_conns t !! w = Some cw /\
  c_state cw = CONN_STATE_GET_BLOCKED /\ conn_key cw = conn_key c /\ w <> h.
Proof.
  intros Hin. pose proof (proj2 (i_wait Hi _ _ Ec) w) as H. rewrite Hw in H.
  destruct (H Hin) as (cw & x & E & Es & Hm & [->|[Hx _]]); [|by apply elem_of_nil in Hx].
  exists cw. split_and!; [done|done| |intros ->; congruence].
  by eapply ht_map_inj; [apply (i_index Hi)|..].
Qed.

Lemma first_facts : first <> h /\ conn_key f = conn_key c /\ c_kv f = None /\
  alone (hmap t) first f /\ first ∉ rest /\ NoDup rest.
Proof.
  destruct (waiter first) as (cw & E & Es & Hk & Hne); [set_solver|].
  assert (cw = f) as -> by congruence.
  destruct (inv_tag _ _ _ _ _ _ Hi E) as [Hl _]; [set_solver|].
  unfold link_ok in Hl. rewrite Es in Hl. destruct Hl as (? & ? & _).
  pose proof (proj1 (i_wait Hi _ _ Ec)) as Hnd. rewrite Hw in Hnd. apply NoDup_cons in Hnd as [? ?].
  by split_and!.
Qed.

Lemma promoted_map : ht_inv promoted_hash /\
  ht_map promoted_hash = <[conn_key c := first]> (hmap t) /\ mask promoted_hash = mask (t_hash t).
Proof.
  destruct first_facts as (_ & Hk & _ & (Hun & _) & _).
  destruct (hash_replace_ok (t_hash t) h {| e_node := first; e_key := conn_key f |})
    as (? & Hm & ? & _); [apply (i_index Hi)|cbn; rewrite Hk; exact Hlock|exact Hun|].
  split_and!; [done|rewrite <-Hk; exact Hm|done].
Qed.

(** Keys of others keep their node. *)
Lemma promoted_other key g : g <> first -> g <> h ->
  <[conn_key c := first]> (hmap t) !! key = Some g <-> hmap t !! key = Some g.
Proof.
  intros H1 H2. rewrite lookup_insert_Some. split; [naive_solver|]. intros E. right.
  split; [|done]. intros <-. congruence.
Qed.

Lemma promoted_unlocked g : g <> first -> g <> h ->
  unlocked (hmap t) g -> unlocked (<[conn_key c := first]> (hmap t)) g.
Proof. intros H1 H2 Hu key. rewrite promoted_other by done. apply Hu. Qed.

Lemma promoted_clock : clock_inv (first :: clock_probation t) (clock_death t) promoted_conns.
Proof.
  destruct first_facts as (Hne & _ & _ & (_ & _ & Hcl) & _).
  destruct (i_clock Hi) as [Hnd Hin]. split.
  - cbn. apply NoDup_cons. split; [|done]. intros (c0 & E0 & ?)%Hin. congruence.
  - intros g. cbn. rewrite elem_of_cons, Hin. unfold promoted_conns.
    setoid_rewrite lookup_insert_Some. setoid_rewrite lookup_insert_Some. split.
    + intros [->|(c0 & E0 & Ecl)]; [exists promoted_conn; split; [by left|done]|].
      exists c0. assert (g <> first /\ g <> h) as [? ?] by (split; intros ->; congruence).
      split; [right; split; [done|right; split; done]|done].
    + intros (c0 & [[<- <-]|(Hg & [[<- <-]|[? E0]])] & Ecl); [by left|cbn in Ecl; congruence|].
      right. eauto.
Qed.

Lemma promoted_wait : wait_inv [] (<[conn_key c := first]> (hmap t)) promoted_conns.
Proof.
  destruct first_facts as (Hne & Hkf & _ & _ & Hnr & Hndr).
  unfold promoted_conns. intros g cg Eg.
  apply lookup_insert_Some in Eg as [[<- <-]|[Hgf Eg]].
  - split; [done|]. intros w Hwr. destruct (waiter w) as (cw & E & Es & Hk & Hwh); [set_solver|].
    exists cw, first. rewrite lookup_insert_ne by (intros <-; done). rewrite lookup_insert_ne by done.
    split_and!; [done|done|by rewrite Hk, lookup_insert_eq|by left].
  - apply lookup_insert_Some in Eg as [[<- <-]|[Hgh Eg]]; [split; [constructor|set_solver]|].
    destruct (i_wait Hi _ _ Eg) as [Hnd Hin]. split; [done|]. intros w Hwg.
    destruct (Hin w Hwg) as (cw & x & E & Es & Hm & [->|[Hx _]]); [|by apply elem_of_nil in Hx].
    assert (w <> first) as Hwf.
    { intros ->. assert (cw = f) as -> by congruence. rewrite Hkf in Hm.
      unfold hmap in Hlock. congruence. }
    assert (w <> h) as Hwh by (intros ->; congruence).
    exists cw, g. rewrite !lookup_insert_ne by done. split_and!; [done|done| |by left].
    by apply promoted_other.
Qed.

Lemma promoted_link g cg :
  g <> first -> g <> h -> link_ok (hmap t) (t_conns t) (t_kvs t) g cg ->
  link_ok (<[conn_key c := first]> (hmap t)) promoted_conns (t_kvs t) g cg.
Proof.
  intros H1 H2 Hl. assert (alone (hmap t) g cg -> alone (<[conn_key c := first]> (hmap t)) g cg) as Ha
    by (intros (Hu & ? & ?); split_and!; [by apply promoted_unlocked|done..]).
  unfold link_ok in *. destruct (c_state cg); rewrite ?promoted_other by done; try naive_solver.
  destruct Hl as (? & ? & g0 & cg0 & E0 & Hin). split_and!; [done|by apply Ha|].
  destruct (decide (g0 = h)) as [->|]; [|destruct (decide (g0 = first)) as [->|]].
  - assert (cg0 = c) as -> by congruence. rewrite Hw in Hin. exists first, promoted_conn.
    unfold promoted_conns. rewrite lookup_insert_eq. split; [done|]. cbn. set_solver.
  - destruct first_facts as (_ & _ & _ & (_ & Hwf & _) & _).
    assert (cg0 = f) as -> by congruence. rewrite Hwf in Hin. set_solver.
  - exists g0, cg0. unfold promoted_conns. by rewrite !lookup_insert_ne.
Qed.

Lemma inv_promoted :
  inv [] [h] [] (set_clock_probation (set_hash (set_conns t promoted_conns) promoted_hash)
                   (first :: clock_probation t)).
Proof.
  destruct first_facts as (Hne & Hkf & Hkvf & _). destruct promoted_map as (Hht & Hm & Hmk).
  pose proof (inv_conn_ok _ _ _ _ _ _ Hi Ec) as Hokc.
  pose proof (inv_conn_ok _ _ _ _ _ _ Hi Ef) as Hokf.
  assert (<[h := set_c_waiting c []]> (t_conns t) !! first = Some f) as Ef1
    by (rewrite lookup_insert_ne by done; exact Ef).
  pose proof promoted_clock. pose proof promoted_wait. pose proof promoted_link as Hlink.
  pose proof Hi as []. split; t_simpl; rewrite ?Hm; try done; unfold promoted_conns.
  - eapply pool_inv_update; [|exact Ef1]. by eapply pool_inv_update.
  - eapply index_inv_update; [|exact Ef1]. eapply index_inv_update; [|exact Ec].
    destruct i_index as (_ & Hmb & Hn & Hen). split_and!; [done|lia|..]; rewrite Hm.
    + intros key g [[<- <-]|[? E]]%lookup_insert_Some; [left; by exists f|by apply Hn].
    + intros v k Ek He. pose proof (Hen _ _ Ek He) as E. rewrite lookup_insert_ne; [done|].
      intros Ekey. rewrite <-Ekey in E. unfold hmap in Hlock.
      pose proof (kv_not_conn _ _ _ _ _ _ Hi Ek). congruence.
  - eapply borrow_inv_update; [|exact Ef1|done]. by eapply borrow_inv_update.
  - intros g cg [[<- <-]|[Hgf Eg]]%lookup_insert_Some.
    { split.
      - destruct Hokf. split; cbn; try done; [by apply Forall_put|]. by rewrite length_put by lia.
      - intros _. split.
        + split; [exact Hkvf|]. change (conn_key promoted_conn) with (conn_key f).
          by rewrite Hkf, lookup_insert_eq.
        + split; [unfold io_ok, promoted_conn; cbn; unfold GET_RES_SIZE; lia|by intros _]. }
    apply lookup_insert_Some in Eg as [[<- <-]|[Hgh Eg]].
    { split; [destruct Hokc; by split|set_solver]. }
    destruct (i_conns g cg Eg) as [? Ht]. split; [done|]. intros Hg. destruct (Ht Hg) as [Hl ?].
    split; [by apply Hlink|done].
Qed.
End promote.

(** ** Giving up a lock *)

Lemma inv_unlocked t h c ht :
  inv [] [h] [] t -> t_conns t !! h = Some c -> c_waiting c = [] ->
  hmap t !! conn_key c = Some h -> ht_inv ht -> ht_map ht = delete (conn_key c) (hmap t) ->
  mask ht = mask (t_hash t) -> inv [] [h] [] (set_hash t ht).
Proof.
  intros Hi Ec Hw Hl Hht Hm Hmk. pose proof Hi as []. split; t_simpl; rewrite ?Hm; try done.
  - destruct i_index as (_ & ? & Hn & Hen). split_and!; [done|lia|..]; rewrite Hm.
    + intros key g [_ E]%lookup_delete_Some. by apply Hn.
    + intros v k Ek He. rewrite lookup_delete_ne; [by apply Hen|]. intros Ekey.
      pose proof (Hen _ _ Ek He) as E. rewrite <-Ekey in E. unfold hmap in Hl.
      pose proof (kv_not_conn _ _ _ _ _ _ Hi Ek). congruence.
  - eapply wait_inv_unindex; [done|done|]. congruence.
  - eapply conns_inv_unindex; [done|done|]. right. set_solver.
Qed.

(** What became of the lock of [h]: the key is free if nobody waits for it, else
    the first connection that waits holds it, heads the others and is woken up. *)
Definition handed_over (t t' : thread) (c : conn) : Prop :=
  match c_waiting c with
  | [] => hmap t' = delete (conn_key c) (hmap t)
  | first :: rest =>
      hmap t' = <[conn_key c := first]> (hmap t) /\
      exists f, t_conns t !! first = Some f /\
        t_conns t' !! first = Some (promoted_conn rest f) /\
        first ∈ clock_probation t' /\
        last (t_output t') = Some (Woken (c_fd f))
  end.

(** [c'] is [c] with its value, its clock and its waiting list gone. *)
Record stripped (t t' : thread) (h : Z) (c c' : conn) : Prop := {
  st_conn : t_conns t' !! h = Some c';
  st_kv : c_kv c' = None;
  st_alone : alone (hmap t') h c';
  st_state : c_state c' = c_state c;
  st_death : clock_death t' = remove h (clock_death t);
  st_next : next_kv t' = next_kv t;
  st_others : forall g cg, g <> h -> t_conns t !! g = Some cg ->
    c_state cg <> CONN_STATE_GET_BLOCKED -> t_conns t' !! g = Some cg;
  st_lock : handed_over t t' c;
  st_rest : forall g cg, g <> h -> head (c_waiting c) <> Some g -> t_conns t !! g = Some cg ->
    t_conns t' !! g = Some cg
}.

(** Without its value and its clock. *)
Definition bare_conn (c : conn) : conn := set_c_kv (set_c_clock c false) None.

Record bared (t t2 : thread) (h : Z) (c : conn) : Prop := {
  br_inv : inv [] [h] [] t2;
  br_conns : t_conns t2 = <[h := bare_conn c]> (t_conns t);
  br_hash : t_hash t2 = t_hash t;
  br_death : clock_death t2 = remove h (clock_death t);
  br_next : next_kv t2 = next_kv t
}.

Lemma bare_ok t h c (m : conn -> M unit) (Q : unit -> thread -> Prop) :
  inv [] [h] [] t -> t_conns t !! h = Some c ->
  (forall t2, bared t t2 h c -> wp (m (bare_conn c)) Q t2) ->
  wp (cancel_clock h;;
      c ← get_conn h;
      (match c_kv c with Some _ => conn_return_kv h | None => skip end);;
      c ← get_conn h; m c) Q t.
Proof.
  intros Hi Ec HQ. wp_step.
  eapply cancel_clock_ok; [done|done|set_solver|]. intros t1 Hi1 Ec1 Hh1 _ Hd1 Hn1. wp_step.
  set (c1 := set_c_clock c false) in *.
  assert (t_conns t1 !! h = Some c1) as Eh1 by (rewrite Ec1; apply lookup_insert_eq).
  wp_steps. apply (wp_mono _ (fun _ t2 => bared t t2 h c)).
  { destruct (c_kv c1) as [v|] eqn:Ev.
    - eapply conn_return_kv_ok; [done|done|set_solver|done|]. intros t2 Hi2 [Hrc].
      split; [done| |congruence..]. rewrite Hrc, Ec1. apply insert_insert_eq.
    - wp_steps. split; [done| |congruence..].
      assert (bare_conn c = c1) as -> by (unfold bare_conn; fold c1; rewrite <-Ev; by destruct c1). done. }
  intros _ t2 Hb. wp_step. eapply wp_get_conn; [rewrite (br_conns _ _ _ _ Hb); apply lookup_insert_eq|].
  by apply HQ.
Qed.

Section unlock.
Context (t t2 : thread) (h : Z) (c : conn).
Let c2 := bare_conn c.
Hypothesis Hb : bared t t2 h c.
Hypothesis Hs : c_state c <> CONN_STATE_GET_BLOCKED.
Hypothesis Hl : hmap t !! conn_key c = Some h.

Lemma bared_facts : inv [] [h] [] t2 /\ t_conns t2 = <[h := c2]> (t_conns t) /\
  t_hash t2 = t_hash t /\ clock_death t2 = remove h (clock_death t) /\ next_kv t2 = next_kv t /\
  t_conns t2 !! h = Some c2 /\ hmap t2 !! conn_key c2 = Some h /\ ht_inv (t_hash t2).
Proof.
  destruct Hb as [Hi Hc Hh Hd Hn]. split_and!; try done.
  - rewrite Hc. apply lookup_insert_eq.
  - unfold hmap. rewrite Hh. exact Hl.
  - apply (i_index Hi).
Qed.

(** Nobody waits: the key becomes free. *)
Lemma unlock_free_ok (Q : unit -> thread -> Prop) :
  c_waiting c2 = [] ->
  (forall t' c', inv [] [h] [] t' -> stripped t t' h c c' -> Q tt t') ->
  wp (thread_hash_del h (conn_key c2)) Q t2.
Proof.
  intros Ew HQ. destruct bared_facts as (Hi2 & Ec2 & Hh2 & Hd2 & Hn2 & Eh2 & Hl2 & Hht2).
  apply hash_del_wp; [done|done|pose proof (nodes_bound _ _ _ _ Hi2); lia|].
  intros ht Hht Hm Hmk _. eapply HQ; [exact (inv_unlocked t2 h c2 ht Hi2 Eh2 Ew Hl2 Hht Hm Hmk)|]. split; t_simpl; try done.
  + split_and!; [|done|done]. unfold hmap. t_simpl. rewrite Hm. intros key [Hne E]%lookup_delete_Some.
    apply Hne. exact (ht_map_inj (t_hash t2) _ _ h Hht2 Hl2 E).
  + intros g cg Hg E _. rewrite Ec2. by rewrite lookup_insert_ne.
  + unfold handed_over. change (c_waiting c) with (c_waiting c2). rewrite Ew. unfold hmap. t_simpl.
    rewrite Hm. unfold hmap. by rewrite Hh2.
  + intros g cg Hg _ E. rewrite Ec2. by rewrite lookup_insert_ne.
Qed.

(** The first connection that waits takes over. *)
Lemma promote_ok first rest (Q : unit -> thread -> Prop) :
  c_waiting c2 = first :: rest ->
  (forall t' c', inv [] [h] [] t' -> stripped t t' h c c' -> Q tt t') ->
  wp (mod_conn h (fun c => set_c_waiting c []);;
      mod_conn first (fun c => set_c_waiting c rest);;
      f ← get_conn first;
      mod_t (fun t => set_hash t
        (hash_replace (t_hash t) h {| e_node := first; e_key := conn_key f |}));;
      __call_clock first;;
      __change_to_get_out_miss first;;
      epfd_weak_up_conn first) Q t2.
Proof.
  intros Ew HQ. destruct bared_facts as (Hi2 & Ec2 & Hh2 & Hd2 & Hn2 & Eh2 & Hl2 & Hht2).
  destruct (waiter t2 h first rest c2 Hi2 Eh2 Ew Hs Hl2 first) as (f & Ef & Esf & _ & Hfh); [set_solver|].
  pose proof (inv_promoted t2 h first rest c2 f Hi2 Eh2 Ef eq_refl eq_refl Ew Hs Hl2) as Hp.
  pose proof (first_facts t2 h first rest c2 f Hi2 Eh2 Ef eq_refl eq_refl Ew Hs Hl2) as (_ & Hkf & _ & (_ & _ & Hclf) & _).
  pose proof (promoted_map t2 h first rest c2 f Hi2 Eh2 Ef eq_refl eq_refl Ew Hs Hl2) as (_ & Hm & _).
  wp_steps. eapply wp_mod_conn; [t_simpl; by rewrite lookup_insert_ne|]. wp_steps.
  eapply wp_get_conn; [t_simpl; apply lookup_insert_eq|]. wp_steps. unfold __call_clock.
  wp_steps. eapply wp_get_conn; [t_simpl; apply lookup_insert_eq|]. wp_steps.
  apply wp_assert; [exact Hclf|]. wp_steps.
  eapply wp_mod_conn; [t_simpl; apply lookup_insert_eq|]. wp_steps.
  unfold __change_to_get_out_miss. eapply wp_mod_conn; [t_simpl; apply lookup_insert_eq|].
  unfold epfd_weak_up_conn. wp_step. eapply wp_get_conn; [t_simpl; apply lookup_insert_eq|].
  wp_steps. match goal with |- Q tt ?tf => set (t3 := tf) end.
  match type of Hp with inv _ _ _ ?tp => assert (quiet tp t3) as Hq end.
  { split; try done. unfold t3. t_simpl. by rewrite !insert_insert_eq. }
  eapply HQ; [eapply quiet_inv; [exact Hq|apply Hi2|exact Hp]|].
  assert (last (t_output t3) = Some (Woken (c_fd f))) as Hwake by apply last_snoc. clearbody t3.
  assert (t_conns t3 !! h = Some (set_c_waiting c2 [])) as Eh3.
  { rewrite (q_conns _ _ Hq). t_simpl. unfold promoted_conns.
    rewrite lookup_insert_ne by done. apply lookup_insert_eq. }
  split; [exact Eh3|done| |done|by rewrite (q_d _ _ Hq)|by rewrite (q_next _ _ Hq)| | |].
  + split_and!; [|done|done]. unfold hmap. rewrite (q_hash _ _ Hq). t_simpl. rewrite Hm.
    intros key [[<- ?]|[Hne E]]%lookup_insert_Some; [done|].
    apply Hne. exact (ht_map_inj (t_hash t2) _ _ h Hht2 Hl2 E).
  + intros g cg Hg E Hbl. rewrite (q_conns _ _ Hq). t_simpl. unfold promoted_conns.
    assert (g <> first).
    { intros ->. rewrite Ec2, lookup_insert_ne in Ef by done. congruence. }
    rewrite lookup_insert_ne by done. rewrite lookup_insert_ne by done.
    rewrite Ec2. by rewrite lookup_insert_ne.
  + unfold handed_over. change (c_waiting c) with (c_waiting c2). rewrite Ew. split.
    * unfold hmap. rewrite (q_hash _ _ Hq). t_simpl. rewrite Hm. unfold hmap. by rewrite Hh2.
    * exists f. split_and!; [by rewrite Ec2, lookup_insert_ne in Ef| | |done].
      -- rewrite (q_conns _ _ Hq). apply lookup_insert_eq.
      -- rewrite (q_p _ _ Hq). set_solver.
  + intros g cg Hg Hf E. rewrite (q_conns _ _ Hq). t_simpl. unfold promoted_conns.
    assert (g <> first) by (intros ->; apply Hf; change (c_waiting c) with (c_waiting c2); by rewrite Ew).
    rewrite !lookup_insert_ne by done. rewrite Ec2. by rewrite lookup_insert_ne.
Qed.
End unlock.

Lemma unlock_failure_ok t h c (Q : unit -> thread -> Prop) :
  inv [] [h] [] t -> t_conns t !! h = Some c -> c_state c <> CONN_STATE_GET_BLOCKED ->
  hmap t !! conn_key c = Some h ->
  (forall t' c', inv [] [h] [] t' -> stripped t t' h c c' -> Q tt t') ->
  wp (conn_unlock_key_for_failure h) Q t.
Proof.
  intros Hi Ec Hs Hl HQ. unfold conn_unlock_key_for_failure. eapply bare_ok; [done|done|].
  intros t2 Hb. destruct (c_waiting (bare_conn c)) as [|first rest] eqn:Ew.
  - by eapply (unlock_free_ok t).
  - by eapply (promote_ok t).
Qed.

(** ** Closing a connection *)

Definition closed (t : thread) (h : Z) : thread :=
  set_conns (set_conn_pool t (h :: conn_pool t)) (delete h (t_conns t)).

Lemma inv_closed W X t h c :
  inv W (h :: X) [] t -> t_conns t !! h = Some c -> c_kv c = None -> alone (hmap t) h c ->
  off_lists h (t_conns t) -> inv W X [] (closed t h).
Proof.
  intros Hi Ec Hkv (Hun & Hw & Hcl) Hoff.
  assert (forall g cg, delete h (t_conns t) !! g = Some cg <-> g <> h /\ t_conns t !! g = Some cg) as Hd.
  { intros g cg. rewrite lookup_delete_Some. naive_solver. }
  pose proof Hi as []. split; unfold closed; t_simpl; try done.
  - destruct i_pool as (Hnd & Hp & Hr). split_and!.
    + apply NoDup_cons. split; [|done]. intros Hin%Hp. congruence.
    + intros g [->|Hg]%elem_of_cons; [apply lookup_delete_eq|]. apply lookup_delete_None.
      right. by apply Hp.
    + intros g. rewrite <-Hr, elem_of_cons, lookup_delete_is_Some.
      destruct (decide (g = h)) as [->|]; [|naive_solver]. rewrite Ec. naive_solver.
  - destruct i_index as (? & ? & Hn & Hen). split_and!; try done. intros key g E.
    destruct (Hn _ _ E) as [?|?]; [left|by right]. apply lookup_delete_is_Some.
    split; [|done]. intros <-. by apply (Hun key).
  - destruct i_borrow as [H1 H2]. split.
    + intros g cg v [_ E]%Hd. by apply H1.
    + intros g k v E Hin. destruct (H2 _ _ _ E Hin) as (cg & Eg & Ev). exists cg.
      split; [|done]. apply Hd. split; [|done]. intros ->. congruence.
  - destruct i_clock as [Hnd Hin]. split; [done|]. intros g. rewrite Hin. setoid_rewrite Hd.
    naive_solver congruence.
  - intros g cg [Hne E]%Hd. destruct (i_wait g cg E) as [Hnd Hin]. split; [done|].
    intros w Hwg. destruct (Hin w Hwg) as (cw & x & Ew & ?). exists cw, x. split; [|done].
    apply Hd. split; [|done]. intros ->. by apply (Hoff g cg).
  - intros g cg [Hne E]%Hd. destruct (i_conns g cg E) as [? Ht]. split; [done|]. intros Hg.
    destruct Ht as [Hl ?]; [set_solver|]. split; [|done]. unfold link_ok in *.
    destruct (c_state cg); try done. destruct Hl as (? & ? & g' & cg' & E' & Hin).
    split_and!; try done. exists g', cg'. split; [|done]. apply Hd. split; [|done].
    intros ->. assert (cg' = c) as -> by congruence. rewrite Hw in Hin. set_solver.
Qed.

Lemma conn_free_ok W X t h c (Q : unit -> thread -> Prop) :
  inv W (h :: X) [] t -> t_conns t !! h = Some c -> c_kv c = None -> alone (hmap t) h c ->
  off_lists h (t_conns t) ->
  (forall t', inv W X [] t' -> quiet (closed t h) t' -> Q tt t') -> wp (conn_free h) Q t.
Proof.
  intros Hi Ec Hkv Ha Hoff HQ. unfold conn_free. wp_steps. apply HQ; [|by split].
  eapply (quiet_inv _ _ _ (closed t h)); [by split|apply Hi|]. by eapply inv_closed.
Qed.

Lemma lookup_unwait (C : gmap Z conn) h g cg :
  ((fun c => set_c_waiting c (remove h (c_waiting c))) <$> C) !! g = Some cg <->
  exists c, C !! g = Some c /\ cg = set_c_waiting c (remove h (c_waiting c)).
Proof. rewrite lookup_fmap, fmap_Some. naive_solver. Qed.

Definition unwaited (t : thread) (h : Z) : thread :=
  set_conns t ((fun c => set_c_waiting c (remove h (c_waiting c))) <$> t_conns t).

Lemma inv_unwaited t h c :
  inv [] [h] [] t -> t_conns t !! h = Some c -> inv [] [h] [] (unwaited t h).
Proof.
  intros Hi Ec. assert (forall g, is_Some (t_conns (unwaited t h) !! g) <-> is_Some (t_conns t !! g)) as Hs.
  { intros g. cbn. by rewrite lookup_fmap, fmap_is_Some. }
  pose proof Hi as []. split; unfold unwaited in *; t_simpl; try done.
  - destruct i_pool as (? & Hp & Hr). split_and!; [done| |].
    + intros g Hg. rewrite lookup_fmap, (Hp g Hg). done.
    + intros g. rewrite <-Hr. split; (intros [?|?]; [by left|right; by apply (Hs g)]).
  - destruct i_index as (? & ? & Hn & Hen). split_and!; try done. intros key g E.
    destruct (Hn _ _ E); [left; by apply Hs|by right].
  - destruct i_borrow as [H1 H2]. split.
    + intros g cg v (c0 & E0 & ->)%lookup_unwait Ev. exact (H1 g c0 v E0 Ev).
    + intros g k v E Hin. destruct (H2 _ _ _ E Hin) as (cg & Eg & Ev). eexists.
      split; [apply lookup_unwait; eauto|done].
  - destruct i_clock as [Hnd Hin]. split; [done|]. intros g. rewrite Hin.
    setoid_rewrite lookup_unwait. split.
    + intros (c0 & E0 & ?). eexists. split; [eauto|done].
    + intros (c1 & (c0 & E0 & ->) & ?). eauto.
  - intros g cg (c0 & E0 & ->)%lookup_unwait. destruct (i_wait g c0 E0) as [Hnd Hin].
    cbn. split; [by apply remove_nodup|]. intros w [_ Hw]%remove_in.
    destruct (Hin w Hw) as (cw & x & Ew & Es & Hm & Hx).
    eexists _, x. split; [apply lookup_unwait; eauto|]. by split_and!.
  - intros g cg (c0 & E0 & ->)%lookup_unwait. destruct (i_conns g c0 E0) as [Hok Ht].
    split; [destruct Hok; by split|]. intros Hg. destruct (Ht Hg) as (Hl & Hio & Htm).
    split; [|split; [done|]].
    2: { intros Hne. apply Htm. intros E. apply Hne. cbn. by rewrite E. }
    unfold link_ok, alone in *. cbn. destruct (c_state c0); try done;
      try (destruct Hl as (? & ? & Hw & ?); split_and!; try done; by rewrite Hw).
    destruct Hl as (? & (? & Hw & ?) & g' & cg' & E' & Hin). split_and!; try done.
    { by rewrite Hw. }
    eexists g', _. split; [apply lookup_unwait; eauto|]. cbn. apply remove_in. set_solver.
Qed.

Lemma off_unwaited t h : off_lists h (t_conns (unwaited t h)).
Proof. intros g cg (c0 & _ & ->)%lookup_unwait. cbn. rewrite remove_in. tauto. Qed.

Lemma locked_states c :
  conn_with_key_locked c = true <->
  c_state c = CONN_STATE_GET_OUT_MISS \/ c_state c = CONN_STATE_SET_IN_VALUE_SIZE \/
  c_state c = CONN_STATE_SET_IN_VALUE.
Proof. unfold conn_with_key_locked. destruct (c_state c); vm_compute; intuition congruence. Qed.

Lemma link_locked hm C K h c :
  link_ok hm C K h c -> conn_with_key_locked c = true -> hm !! conn_key c = Some h.
Proof.
  intros Hl Hc%locked_states. unfold link_ok in Hl.
  destruct Hc as [E|[E|E]]; rewrite E in Hl; apply Hl.
Qed.

(** A connection that sends a value. *)
Lemma free_conn_hit_ok W X t h c (Q : unit -> thread -> Prop) :
  inv W (h :: X) [] t -> t_conns t !! h = Some c -> c_state c = CONN_STATE_GET_OUT_HIT ->
  link_ok (hmap t) (t_conns t) (t_kvs t) h c ->
  (forall t', inv W X [] t' -> t_conns t' = delete h (t_conns t) -> t_hash t' = t_hash t ->
     next_kv t' = next_kv t -> Q tt t') ->
  wp (free_conn h) Q t.
Proof.
  intros Hi Ec Es Hl HQ. unfold link_ok in Hl. rewrite Es in Hl. destruct Hl as [[v Ev] Ha].
  unfold free_conn. wp_steps. unfold conn_with_key_locked. rewrite Es. cbn [state_code].
  change (state_code CONN_STATE_FREE <? Z.shiftl 3 3 + EPOLLOUT) with false. cbv iota. rewrite Ev.
  eapply conn_return_kv_ok; [done|done|set_solver|done|]. intros t1 Hi1 [].
  assert (t_conns t1 !! h = Some (set_c_kv c None)) as E1 by (rewrite rl_conns0; apply lookup_insert_eq).
  eapply conn_free_ok; [done|exact E1|done| | |].
  - unfold hmap. rewrite rl_hash0. exact Ha.
  - eapply waiting_blocked; [apply Hi1|exact E1|]. cbn. congruence.
  - intros t2 Hi2 Hq. apply HQ; [done| |etransitivity; [exact (q_hash _ _ Hq)|exact rl_hash0]|
      etransitivity; [exact (q_next _ _ Hq)|exact rl_next0]].
    rewrite (q_conns _ _ Hq). cbn. rewrite rl_conns0. apply delete_insert_eq.
Qed.

Lemma free_conn_ok t h c (Q : unit -> thread -> Prop) :
  inv [] [h] [] t -> t_conns t !! h = Some c -> link_ok (hmap t) (t_conns t) (t_kvs t) h c ->
  (forall t', inv [] [] [] t' -> t_conns t' !! h = None -> next_kv t' = next_kv t -> Q tt t') ->
  wp (free_conn h) Q t.
Proof.
  intros Hi Ec Hl HQ.
  assert (forall t1 c1, inv [] [h] [] t1 -> t_conns t1 !! h = Some c1 -> c_kv c1 = None ->
    alone (hmap t1) h c1 -> off_lists h (t_conns t1) -> next_kv t1 = next_kv t ->
    wp (conn_free h) Q t1) as Hend.
  { intros t1 c1 Hi1 E1 Hk Ha Hoff Hn. eapply conn_free_ok; [done..|]. intros t2 Hi2 Hq.
    apply HQ; [done| |etransitivity; [exact (q_next _ _ Hq)|done]].
    rewrite (q_conns _ _ Hq). apply lookup_delete_eq. }
  destruct (decide (c_state c = CONN_STATE_GET_OUT_HIT)) as [Es|Hnh].
  { eapply free_conn_hit_ok; [done..|]. intros t1 Hi1 Ec1 _ Hn. apply HQ; try done.
    rewrite Ec1. apply lookup_delete_eq. }
  unfold free_conn. wp_steps. destruct (conn_with_key_locked c) eqn:Elk.
  - assert (c_state c <> CONN_STATE_GET_BLOCKED) as Hnb
      by (apply locked_states in Elk; naive_solver congruence).
    eapply unlock_failure_ok; [done|done|done|by eapply link_locked|].
    intros t1 c1 Hi1 []. eapply Hend; try done.
    eapply waiting_blocked; [apply Hi1|done|congruence].
  - assert (c_kv c = None /\ alone (hmap t) h c) as [Hk Ha].
    { unfold link_ok in Hl. unfold conn_with_key_locked in Elk.
      destruct (c_state c); try done; cbn in Elk; try done; naive_solver. }
    rewrite Hk. case_decide as Eb.
    + unfold interest_del. wp_steps. eapply (Hend (unwaited t h)).
      * by eapply inv_unwaited.
      * cbn. rewrite lookup_fmap, Ec. done.
      * done.
      * destruct Ha as (? & Hw & ?). split_and!; [done|by cbn; rewrite Hw|done].
      * apply off_unwaited.
      * done.
    + wp_steps. eapply Hend; try done. by eapply waiting_blocked; [apply Hi|..].
Qed.
