(* ===== verification/ThreadEvents.v ===== *)
(** * The event loop of a cache thread (thread.c)

    The handlers of the connection states keep the invariant of ThreadInv.v, so
    no run of a thread faults. *)

From S2P Require Import Prelude Slab Memory HashTable Kv KvCache SizeClass Proto.
From S2P Require Import Thread ThreadInv ThreadConn.

(** Between two events; [N] values have been named. *)
Definition settled (N : Z) (t : thread) : Prop := inv [] [] [] t /\ next_kv t = N.

Lemma off_state W X Y t h c :
  inv W X Y t -> t_conns t !! h = Some c -> c_state c <> CONN_STATE_GET_BLOCKED ->
  off_lists h (t_conns t).
Proof. intros Hi. eapply waiting_blocked, Hi. Qed.

(** ** Reading and writing *)

Lemma length_ztake {A} n (l : list A) :
  0 <= n -> Z.of_nat (length (ztake n l)) = Z.min n (Z.of_nat (length l)).
Proof.
  intros. unfold ztake. destruct (Z.leb_spec (Z.of_nat (length l)) n); [lia|].
  rewrite length_take. lia.
Qed.

Lemma length_zdrop {A} n (l : list A) :
  0 <= n -> Z.of_nat (length (zdrop n l)) = Z.max 0 (Z.of_nat (length l) - n).
Proof.
  intros. unfold zdrop. destruct (Z.leb_spec (Z.of_nat (length l)) n); cbn; [lia|].
  rewrite length_drop. lia.
Qed.

Lemma Forall_ztake {A} (P : A -> Prop) n l : Forall P l -> Forall P (ztake n l).
Proof. intros. unfold ztake. case_match; [done|]. by apply Forall_take. Qed.

Lemma Forall_zdrop {A} (P : A -> Prop) n l : Forall P l -> Forall P (zdrop n l).
Proof. intros. unfold zdrop. case_match; [constructor|]. by apply Forall_drop. Qed.

Lemma bytes_ok l : Forall is_byte (bytes l).
Proof.
  unfold bytes. rewrite Forall_fmap. apply list.Forall_forall. intros x _. cbn.
  apply (wrap_range 8). lia.
Qed.

(** What a read of [len] bytes gave. *)
Inductive read_result (t : thread) (len : Z) : Z * bool * list Z -> Prop :=
| read_bytes bs0 input bs :
    t_input t = Got bs0 :: input -> bs = ztake len (bytes bs0) -> 0 < Z.of_nat (length bs) <= len ->
    Forall is_byte bs -> read_result t len (Z.of_nat (length bs), false, bs)
| read_end wouldblock : read_result t len (0, wouldblock, [])
| read_failed wouldblock : read_result t len (-1, wouldblock, []).

Lemma sys_read_ok W X Y len t (Q : Z * bool * list Z -> thread -> Prop) :
  inv W X Y t -> 0 <= len ->
  (forall r t', inv W X Y t' -> quiet t t' -> read_result t len r -> Q r t') ->
  wp (sys_read len) Q t.
Proof.
  intros Hi Hlen HQ. unfold sys_read. wp_steps. unfold wp, pop.
  destruct (t_input t) as [|a input] eqn:Ein.
  { apply HQ; [done|apply quiet_refl|constructor]. }
  assert (quiet t (set_input t input)) as Hq by by split.
  assert (inv W X Y (set_input t input)) as Hi' by (eapply quiet_inv; [exact Hq|apply Hi|done]).
  destruct a as [bs0| | | |]; try (apply HQ; [done|done|constructor]).
  cbv beta. pose proof (length_ztake len (bytes bs0) Hlen) as Hl.
  apply HQ; [done|done|]. destruct (ztake len (bytes bs0)) as [|b bs] eqn:Eb; [constructor|].
  rewrite <-Eb in *. eapply read_bytes; [done|done| |apply Forall_ztake, bytes_ok].
  rewrite Eb in *. cbn in *. lia.
Qed.

Lemma sys_write_ok W X Y len t (Q : Z * bool -> thread -> Prop) :
  inv W X Y t -> 0 < len ->
  (forall n wb t', inv W X Y t' -> quiet t t' -> 0 < n <= len \/ n = -1 -> Q (n, wb) t') ->
  wp (sys_write len) Q t.
Proof.
  intros Hi Hlen HQ. unfold sys_write. wp_steps. unfold wp, pop.
  destruct (t_input t) as [|a input] eqn:Ein.
  { apply HQ; [done|apply quiet_refl|lia]. }
  assert (quiet t (set_input t input)) as Hq by by split.
  assert (inv W X Y (set_input t input)) as Hi' by (eapply quiet_inv; [exact Hq|apply Hi|done]).
  destruct a as [|n| | |]; try (apply HQ; [done|done|lia]).
  destruct (Z.ltb_spec 0 n); apply HQ; try done; lia.
Qed.

(** A read that gave nothing leaves the thread settled. *)
Lemma read_nothing_ok t h c n wb :
  inv [] [] [] t -> t_conns t !! h = Some c -> n <= 0 ->
  wp (conn_check_read h n wb) (fun b t' => b = false /\ settled (next_kv t) t') t.
Proof.
  intros Hi Ec Hn. unfold conn_check_read. destruct (Z.ltb_spec 0 n); [lia|]. wp_step.
  case_match; wp_steps; [|split; [done|by split]].
  destruct (inv_tag _ _ _ _ _ _ Hi Ec) as [Hl _]; [set_solver|].
  eapply free_conn_ok; [by apply inv_take|exact Ec|exact Hl|].
  intros t' Hi' _ Hn'. wp_steps. split; [done|by split].
Qed.

Lemma read_some_ok t h c n (Q : bool -> thread -> Prop) :
  t_conns t !! h = Some c -> 0 < n <= c_unio c -> c_unio c < 2 ^ 64 ->
  Q true (set_conns t (<[h := set_c_unio c (c_unio c - n)]> (t_conns t))) ->
  wp (conn_check_read h n false) Q t.
Proof.
  intros Ec Hn Hu HQ. unfold conn_check_read. destruct (Z.ltb_spec 0 n); [|lia]. wp_steps.
  apply wp_assert; [lia|]. wp_steps. by rewrite wrap_small by lia.
Qed.

(** [unio] counts down. *)
Lemma conn_ok_unio c n : conn_ok c -> 0 <= n < 2 ^ 64 -> conn_ok (set_c_unio c n).
Proof. intros [] ?. by split. Qed.

(** ** Sending a value *)

Lemma buffer_header v b : length b = 9%nat -> put 8 1 0 (put 0 8 v b) = le_split 8 v ++ [0].
Proof.
  intros Hl. unfold put. change (le_split 1 0) with [0].
  assert (fill 0 (le_split 8 v) b = le_split 8 v ++ drop 8 b) as ->.
  { unfold fill. rewrite length_le_split. done. }
  unfold fill. rewrite take_app_length' by (by rewrite length_le_split).
  rewrite drop_ge; [by rewrite app_nil_r|].
  rewrite length_app, length_le_split, length_drop. cbn. lia.
Qed.

(** What else changes when a connection sends a value: nothing. *)
Record only (t t' : thread) (h : Z) : Prop := {
  o_conns : forall g, g <> h -> t_conns t' !! g = t_conns t !! g;
  o_hash : t_hash t' = t_hash t;
  o_next : next_kv t' = next_kv t
}.

Lemma hit_iov k c :
  conn_ok c -> Z.of_nat (length (k_data k)) = k_val_size k -> k_val_size k < 2 ^ 62 ->
  0 < c_unio c <= GET_RES_SIZE + k_val_size k ->
  let written := u64 (GET_RES_SIZE + k_val_size k - c_unio c) in
  Z.of_nat (length
    (if written <? GET_RES_SIZE
     then drop (Z.to_nat written) (take (Z.to_nat GET_RES_SIZE) (c_buffer c)) ++ k_data k
     else zdrop (u64 (k_val_size k - c_unio c)) (k_data k))) = c_unio c.
Proof.
  intros Hok Hd Hv Hu. pose proof (c_buffer_length _ Hok) as Hb. cbv zeta.
  unfold GET_RES_SIZE in *. rewrite wrap_small by lia. destruct (Z.ltb_spec (8 + 1 + k_val_size k - c_unio c) (8 + 1)).
  - rewrite length_app, length_drop, length_take, Hb. lia.
  - rewrite wrap_small by lia. rewrite length_zdrop by lia. lia.
Qed.

Lemma write_bytes_ok W X t h c bs (Q : bool -> thread -> Prop) :
  inv W X [] t -> t_conns t !! h = Some c -> 0 < c_unio c -> Z.of_nat (length bs) = c_unio c ->
  (forall n t', 0 < n <= c_unio c -> inv W X [] t' -> quiet t t' ->
     Q true (set_conns t' (<[h := set_c_unio c (c_unio c - n)]> (t_conns t')))) ->
  (forall t', inv W X [] t' -> quiet t t' -> Q false t') ->
  (forall t', inv W X [] t' -> quiet t t' -> wp (free_conn h) (fun _ => Q false) t') ->
  wp (conn_write_bytes h bs) Q t.
Proof.
  intros Hi Ec Hu Hlen HQ1 HQ2 HQ3. unfold conn_write_bytes. wp_steps.
  apply wp_assert; [done|]. wp_steps. apply wp_assert; [done|]. wp_steps.
  apply sys_write_ok with W X []; [done|lia|]. intros n wb t1 Hi1 Hq1 Hn. cbv beta iota.
  pose proof (c_unio_range _ (inv_conn_ok _ _ _ _ _ _ Hi Ec)) as Hr.
  destruct Hn as [Hn| ->].
  - destruct (Z.ltb_spec 0 n); [|lia]. wp_steps. unfold conn_check_write.
    destruct (Z.ltb_spec 0 n); [|lia]. set (t2 := set_output t1 _).
    assert (quiet t1 t2) as Hq2 by by split.
    assert (t_conns t2 !! h = Some c) as Ec2 by (unfold t2; t_simpl; by rewrite (q_conns _ _ Hq1)).
    wp_steps. apply wp_assert; [lia|]. wp_steps. rewrite wrap_small by lia.
    apply HQ1; [done| |by eapply quiet_trans]. eapply quiet_inv; [exact Hq2|apply Hi1|done].
  - wp_steps. unfold conn_check_write. cbn [Z.ltb Z.compare]. wp_steps. apply wp_assert; [done|].
    destruct wb; wp_steps; [by apply HQ2|]. eapply wp_mono; [by apply HQ3|]. intros. by wp_steps.
Qed.

Lemma change_to_in_cmd_ok W X t h c (Q : unit -> thread -> Prop) :
  inv W (h :: X) [] t -> t_conns t !! h = Some c -> c_kv c = None -> alone (hmap t) h c ->
  off_lists h (t_conns t) ->
  (forall t' c', inv W X [] t' -> t_conns t' = <[h := c']> (t_conns t) -> t_hash t' = t_hash t ->
     next_kv t' = next_kv t -> Q tt t') ->
  wp (change_to_in_cmd h) Q t.
Proof.
  intros Hi Ec Hkv Ha Hoff HQ. unfold change_to_in_cmd. wp_steps. apply wp_assert; [done|]. wp_steps.
  set (c' := set_c_unio _ _).
  assert (inv W (h :: X) [] (set_conns t (<[h := c']> (t_conns t)))) as Hi1.
  { eapply inv_update_conn; [done|done|set_solver| |done|done|done|by left].
    by destruct (inv_conn_ok _ _ _ _ _ _ Hi Ec). }
  eapply HQ; [|done|done|done].
  eapply inv_put; [exact Hi1|apply lookup_insert_eq|by split| |exact (alone_timed _ _ _ Ha)].
  cbn. unfold CMD_SIZE_MAX. cbn. lia.
Qed.

Lemma state_get_out_hit_ok W X t h c (Q : unit -> thread -> Prop) :
  inv W X [] t -> h ∉ X -> t_conns t !! h = Some c -> c_state c = CONN_STATE_GET_OUT_HIT ->
  (forall t', inv W X [] t' -> only t t' h -> Q tt t') ->
  wp (state_get_out_hit h) Q t.
Proof.
  intros Hi HX Ec Es HQ. pose proof (inv_conn_ok _ _ _ _ _ _ Hi Ec) as Hok.
  destruct (inv_tag _ _ _ _ _ _ Hi Ec HX) as [Hl Hio]. pose proof Hl as Hl'.
  unfold link_ok in Hl'. unfold io_ok in Hio. rewrite Es in Hl', Hio.
  destruct Hl' as [[v Ev] Ha]. destruct (proj1 (i_borrow Hi) _ _ _ Ec Ev) as (k & Ek & _).
  destruct (Hio v k Ev Ek) as (Hd & Hu & Hb).
  pose proof (k_size _ (proj2 (proj2 (i_kvs Hi) _ _ Ek))) as Hsz.
  assert (off_lists h (t_conns t)) as Hoff by (eapply off_state; [done|done|congruence]).
  unfold state_get_out_hit, conn_full_write_bytes. wp_steps. eapply write_bytes_ok; [done|done|lia|apply hit_iov; [done|done|lia|done]|..].
  - intros n t1 Hn Hi1 Hq1. pose proof (q_conns _ _ Hq1) as Ecs.
    assert (t_conns t1 !! h = Some c) as Ec1 by congruence.
    set (c1 := set_c_unio c (c_unio c - n)). set (t2 := set_conns t1 _).
    assert (t_conns t2 !! h = Some c1) as Ec2 by apply lookup_insert_eq.
    assert (inv W (h :: X) [] t2) as Hi2.
    { eapply inv_update_conn; [by apply inv_take|done|set_solver| |done|done|done|by right].
      apply conn_ok_unio; [done|]. pose proof (c_unio_range _ Hok). lia. }
    wp_steps. cbn [c_unio c1 set_c_unio]. destruct (Z.eqb_spec (c_unio c - n) 0) as [E0|E0].
    + wp_steps. eapply conn_return_kv_ok; [exact Hi2|exact Ec2|set_solver|exact Ev|].
      intros t3 Hi3 [Hrc _ Hrh _ _ Hrn]. assert (t_conns t3 !! h = Some (set_c_kv c1 None)) as Ec3
        by (rewrite Hrc; apply lookup_insert_eq).
      eapply change_to_in_cmd_ok; [exact Hi3|exact Ec3|done| | |].
      * unfold hmap. rewrite Hrh. unfold t2. t_simpl. rewrite (q_hash _ _ Hq1). exact Ha.
      * eapply off_state; [exact Hi3|exact Ec3|]. cbn. congruence.
      * intros t4 c4 Hi4 Ec4 Hh4 Hn4. apply HQ; [done|]. split.
        -- intros g Hg. rewrite Ec4, lookup_insert_ne, Hrc, lookup_insert_ne by done.
           unfold t2. t_simpl. by rewrite lookup_insert_ne, Ecs.
        -- rewrite Hh4, Hrh. apply (q_hash _ _ Hq1).
        -- rewrite Hn4, Hrn. apply (q_next _ _ Hq1).
    + wp_steps. apply HQ.
      * eapply inv_put; [exact Hi2|exact Ec2| | |exact (alone_timed _ _ _ Ha)].
        -- unfold link_ok. cbn. rewrite Es. split; [by exists v|]. unfold hmap. cbn.
           rewrite (q_hash _ _ Hq1). exact Ha.
        -- unfold io_ok. cbn. rewrite Es. rewrite (q_kvs _ _ Hq1). intros v' k' Ev' Ek'.
           assert (v' = v) as -> by congruence. assert (k' = k) as -> by congruence.
           split_and!; [done|lia|lia|done].
      * split.
        -- intros g Hg. unfold t2. t_simpl. by rewrite lookup_insert_ne, Ecs.
        -- apply (q_hash _ _ Hq1).
        -- apply (q_next _ _ Hq1).
  - intros t1 Hi1 []. wp_steps. apply HQ; [done|]. split; congruence.
  - intros t1 Hi1 Hq1. eapply free_conn_hit_ok;
      [apply inv_take, Hi1|rewrite (q_conns _ _ Hq1); exact Ec|exact Es| |].
    + unfold hmap. rewrite (q_hash _ _ Hq1), (q_conns _ _ Hq1), (q_kvs _ _ Hq1). exact Hl.
    + intros t2 Hi2 Ec2 Hh2 Hn2. wp_steps. apply HQ; [done|]. split.
      * intros g Hg. rewrite Ec2, lookup_delete_ne by done. by rewrite (q_conns _ _ Hq1).
      * rewrite Hh2. apply (q_hash _ _ Hq1).
      * rewrite Hn2. apply (q_next _ _ Hq1).
Qed.

(** The connection that starts to send a value. *)
Definition hit_conn (c : conn) (k : kv) : conn :=
  set_c_buffer (set_c_unio (set_c_state c CONN_STATE_GET_OUT_HIT) (GET_RES_SIZE + k_val_size k))
    (le_split 8 (k_val_size k) ++ [0]).

Section hit.
Context (W X : list Z) (t : thread) (h : Z) (c : conn) (v : Z) (k : kv).
Hypothesis Hi : inv W (h :: X) [] t.
Hypothesis HX : h ∉ X.
Hypothesis Ec : t_conns t !! h = Some c.
Hypothesis Ev : c_kv c = Some v.
Hypothesis Ek : t_kvs t !! v = Some k.
Hypothesis Hd : Z.of_nat (length (k_data k)) = k_val_size k.
Hypothesis Ha : alone (hmap t) h c.
Hypothesis Hoff : off_lists h (t_conns t).

Lemma inv_hit : inv W X [] (set_conns t (<[h := hit_conn c k]> (t_conns t))).
Proof.
  pose proof (inv_conn_ok _ _ _ _ _ _ Hi Ec) as Hok.
  pose proof (k_size _ (proj2 (proj2 (i_kvs Hi) _ _ Ek))) as Hsz.
  assert (inv W (h :: X) [] (set_conns t (<[h := hit_conn c k]> (t_conns t)))) as Hi1.
  { eapply inv_update_conn; [done|done|set_solver| |done|done|done|by left].
    destruct Hok. split; try done; cbn; [|unfold GET_RES_SIZE; lia].
    apply Forall_app. split; [apply le_split_bytes|]. by repeat constructor. }
  eapply inv_put; [exact Hi1|apply lookup_insert_eq|split; [by exists v|exact Ha]| |
    exact (alone_timed _ _ _ Ha)].
  unfold io_ok. cbn. intros v' k' Ev' Ek'. assert (v' = v) as -> by congruence.
  assert (k' = k) as -> by congruence. unfold GET_RES_SIZE. split_and!; [done|lia|lia|done].
Qed.

Lemma change_to_get_out_hit_run :
  change_to_get_out_hit h t =
  state_get_out_hit h (set_conns t (<[h := hit_conn c k]> (t_conns t))).
Proof.
  pose proof (inv_conn_ok _ _ _ _ _ _ Hi Ec) as Hok.
  pose proof (k_size _ (proj2 (proj2 (i_kvs Hi) _ _ Ek))) as Hsz.
  unfold change_to_get_out_hit. rewrite (bind_get_conn h c) by exact Ec. rewrite Ev.
  rewrite (bind_step _ _ _ v t) by done. rewrite (bind_step _ _ _ k t) by by apply get_kv_run.
  erewrite bind_step by (apply mod_conn_run; exact Ec). cbv beta.
  rewrite buffer_header by apply Hok. rewrite wrap_small by (unfold GET_RES_SIZE; lia). done.
Qed.

Lemma change_to_get_out_hit_ok (Q : unit -> thread -> Prop) :
  (forall t', inv W X [] t' -> only t t' h -> Q tt t') -> wp (change_to_get_out_hit h) Q t.
Proof.
  intros HQ. unfold wp. rewrite change_to_get_out_hit_run.
  eapply state_get_out_hit_ok; [exact inv_hit|exact HX|apply lookup_insert_eq|done|].
  intros t2 Hi2 [Ho ? ?]. apply HQ; [done|]. split; [|done..]. intros g Hg. rewrite Ho by done.
  by apply lookup_insert_ne.
Qed.
End hit.

(** ** A value comes into service *)

Lemma lru_add s m size K v k k' :
  lru_inv s m size K -> K !! v = Some k -> k_enabled k = false -> k_enabled k' = true ->
  if k_on_s_lru k' then lru_inv (v :: s) m (size + 1) (<[v := k']> K)
  else lru_inv s (v :: m) size (<[v := k']> K).
Proof.
  intros (Hns & Hnm & -> & Hs & Hm) Ek E1 E2.
  assert (forall b h, (exists k0, <[v := k']> K !! h = Some k0 /\ k_enabled k0 = true /\
    k_on_s_lru k0 = b) <-> h = v /\ k_on_s_lru k' = b \/
    exists k0, K !! h = Some k0 /\ k_enabled k0 = true /\ k_on_s_lru k0 = b) as Hex.
  { intros b h. setoid_rewrite lookup_insert_Some. split.
    - intros (k0 & [[<- <-]|[? E]] & ?); [left; tauto|right; eauto].
    - intros [[-> ?]|(k0 & E & ? & ?)]; [exists k'; tauto|]. exists k0.
      split; [|done]. right. split; [|done]. intros <-. congruence. }
  assert (v ∉ s) as Hvs by (intros (k0 & E & ? & _)%Hs; congruence).
  assert (v ∉ m) as Hvm by (intros (k0 & E & ? & _)%Hm; congruence).
  destruct (k_on_s_lru k') eqn:Eo; split_and!.
  - by apply NoDup_cons.
  - done.
  - cbn. lia.
  - intros h. rewrite Hex, elem_of_cons, Hs. naive_solver.
  - intros h. rewrite Hex, Hm. naive_solver.
  - done.
  - by apply NoDup_cons.
  - done.
  - intros h. rewrite Hex, Hs. naive_solver.
  - intros h. rewrite Hex, elem_of_cons, Hm. naive_solver.
Qed.

Section enable.
Context (t : thread) (h v : Z) (c : conn) (k : kv).
Hypothesis Hi : inv [] [h] [] t.
Hypothesis Ec : t_conns t !! h = Some c.
Hypothesis Ev : c_kv c = Some v.
Hypothesis Ek : t_kvs t !! v = Some k.
Hypothesis Hdis : k_enabled k = false.
Hypothesis Hlock : hmap t !! k_key k = Some h.

Lemma value_unindexed key : hmap t !! key <> Some v.
Proof.
  intros E. destruct (i_index Hi) as (_ & _ & Hn & _).
  destruct (Hn _ _ E) as [[c0 E0]|(k0 & E0 & ? & _)]; [|congruence].
  pose proof (kv_not_conn _ _ _ _ _ _ Hi Ek). congruence.
Qed.

Lemma enabled_index ht k' :
  ht_inv ht -> ht_map ht = <[k_key k := v]> (hmap t) -> mask ht = mask (t_hash t) ->
  k_key k' = k_key k -> k_enabled k' = true ->
  index_inv ht (t_conns t) (<[v := k']> (t_kvs t)).
Proof.
  intros Hht Hm Hmk Hk He. destruct (i_index Hi) as (_ & ? & Hn & Hen).
  split_and!; [done|lia|..]; rewrite Hm.
  - intros key g [[<- <-]|[Hne E]]%lookup_insert_Some.
    + right. exists k'. by rewrite lookup_insert_eq.
    + destruct (Hn _ _ E) as [?|(k0 & E0 & ? & ?)]; [by left|right]. exists k0.
      rewrite lookup_insert_ne; [done|]. intros <-. congruence.
  - intros g k0 [[<- <-]|[Hne E]]%lookup_insert_Some He0; [by rewrite Hk, lookup_insert_eq|].
    rewrite lookup_insert_ne; [by apply Hen|]. intros Ekey. pose proof (Hen _ _ E He0) as E1.
    rewrite <-Ekey in E1. unfold hmap in Hlock. pose proof (kv_not_conn _ _ _ _ _ _ Hi E). congruence.
Qed.

Lemma enabled_wait : wait_inv [h] (<[k_key k := v]> (hmap t)) (t_conns t).
Proof.
  pose proof (kv_range _ _ _ _ _ _ Hi Ek). intros g cg Eg.
  destruct (i_wait Hi g cg Eg) as [Hnd Hin]. split; [done|]. intros w Hw.
  destruct (Hin w Hw) as (cw & x & E & Es & Hm & [->|[Hx _]]); [|by apply elem_of_nil in Hx].
  destruct (decide (conn_key cw = k_key k)) as [Eq|Hne].
  - exists cw, v. rewrite Eq, lookup_insert_eq. split_and!; [done..|]. right.
    rewrite Eq in Hm. unfold hmap in Hlock. split; [|lia]. set_solver.
  - exists cw, g. rewrite lookup_insert_ne by done. split_and!; try done. by left.
Qed.

Lemma enabled_conns K :
  conns_inv [h] (hmap t) (t_conns t) K -> conns_inv [h] (<[k_key k := v]> (hmap t)) (t_conns t) K.
Proof.
  intros Hc g cg Eg. destruct (Hc g cg Eg) as [? Ht]. split; [done|]. intros Hg.
  destruct (Ht Hg) as [Hl ?]. split; [|done].
  assert (forall key, <[k_key k := v]> (hmap t) !! key = Some g <-> hmap t !! key = Some g) as Hsame.
  { intros key. rewrite lookup_insert_Some. split.
    - intros [[_ E]|[_ E]]; [|done]. subst g. pose proof (kv_not_conn _ _ _ _ _ _ Hi Ek). congruence.
    - intros E. right. split; [|done]. intros <-. assert (g = h) by congruence. set_solver. }
  assert (alone (hmap t) g cg -> alone (<[k_key k := v]> (hmap t)) g cg) as Ha.
  { intros (Hu & ? & ?). split_and!; [|done..]. intros key. rewrite Hsame. apply Hu. }
  unfold link_ok in *. destruct (c_state cg); rewrite ?Hsame; naive_solver.
Qed.

Lemma kv_enable_ok (Q : unit -> thread -> Prop) :
  Z.of_nat (length (k_data k)) = k_val_size k ->
  (forall t', inv [h] [h] [] t' -> t_conns t' = t_conns t ->
     hmap t' = <[k_key k := v]> (hmap t) -> next_kv t' = next_kv t -> Q tt t') ->
  wp (kv_enable h) Q t.
Proof.
  intros Hd HQ. unfold kv_enable. wp_steps.
  destruct (hash_replace_ok (t_hash t) h {| e_node := v; e_key := k_key k |})
    as (Hht & Hm & Hmk & _); [apply (i_index Hi)|exact Hlock|exact value_unindexed|].
  cbn [e_key e_node] in Hm. fold (hmap t) in Hm. set (ht := hash_replace _ _ _) in *.
  destruct (hash_ghost_total ht (k_key k) Hht) as [hit Eh]. eapply wp_from; [exact Eh|]. wp_steps.
  set (k' := set_k_enabled (set_k_on_s_lru k (negb hit)) true).
  pose proof (lru_add _ _ _ _ v k k' (i_lru Hi) Ek Hdis eq_refl) as Hlru.
  pose proof (lru_size_bound _ _ _ _ Hi) as Hsz.
  assert (forall s m sz, lru_inv s m sz (<[v := k']> (t_kvs t)) ->
    inv [h] [h] [] (set_s_lru_size (set_m_lru (set_s_lru (set_kvs (set_hash t ht)
      (<[v := k']> (t_kvs t))) s) m) sz)) as Hinv.
  { intros s m sz Hl. pose proof (proj2 (proj2 (i_kvs Hi) _ _ Ek)) as Hok.
    assert (kv_ok k') by (destruct Hok; by split).
    split; t_simpl; rewrite ?Hm; try apply Hi; try done.
    - eapply kvs_inv_update; [apply Hi|done|done].
    - intros g k0 [[<- <-]|[? E]]%lookup_insert_Some; [done|]. by apply (i_used Hi).
    - by apply enabled_index.
    - eapply borrow_inv_kv; [apply Hi|done|done].
    - apply enabled_wait.
    - apply enabled_conns. eapply conns_inv_kv; [apply Hi|apply Hi|done|done|].
      intros g cg Eg Evg Hg Es _. exfalso. apply Hg.
      destruct (inv_tag _ _ _ _ _ _ Hi Eg Hg) as [Hl' _]. unfold link_ok in Hl'. rewrite Es in Hl'.
      destruct Hl' as (Hmg & v' & k0 & Ev' & Ek' & Ekey & _). assert (v' = v) as -> by congruence.
      assert (k0 = k) as -> by congruence. rewrite <-Ekey in Hmg.
      assert (g = h) by congruence. set_solver. }
  destruct hit; cbn [negb] in *; wp_steps; (eapply HQ; [|done|exact Hm|done]).
  - exact (Hinv _ _ _ Hlru).
  - t_simpl. rewrite wrap_small by lia. exact (Hinv _ _ _ Hlru).
Qed.
End enable.

(** ** Serving the connections that waited *)

(** The first waiting connection leaves the list of [h]. *)
Lemma inv_dequeued W t h c w rest :
  inv W [h] [] t -> t_conns t !! h = Some c -> c_waiting c = w :: rest -> w <> h ->
  inv W [w; h] [] (set_conns t (<[h := set_c_waiting c rest]> (t_conns t))).
Proof.
  intros Hi Ec Hw Hne. pose proof (inv_conn_ok _ _ _ _ _ _ Hi Ec) as Hok.
  assert (conn_ok (set_c_waiting c rest)) as Hok' by by destruct Hok.
  pose proof Hi as []. split; t_simpl; try done.
  - by eapply pool_inv_update.
  - by eapply index_inv_update.
  - by eapply borrow_inv_update.
  - by eapply clock_inv_update.
  - intros g cg Eg. assert (exists cg0, t_conns t !! g = Some cg0 /\
      (c_waiting cg = c_waiting cg0 \/ c_waiting cg0 = w :: c_waiting cg)) as (cg0 & Eg0 & Hsub).
    { apply lookup_insert_Some in Eg as [[<- <-]|[? ?]]; eauto. }
    destruct (i_wait g cg0 Eg0) as [Hnd Hin]. split.
    + destruct Hsub as [->|E]; [done|]. rewrite E in Hnd. by apply NoDup_cons in Hnd as [_ ?].
    + intros x Hx. destruct (Hin x) as (cx & y & Ex & Es & Hm & Hy).
      { destruct Hsub as [<- | ->]; set_solver. }
      destruct (decide (x = h)) as [->|].
      * exists (set_c_waiting c rest), y. rewrite lookup_insert_eq.
        assert (cx = c) as -> by congruence. done.
      * exists cx, y. by rewrite lookup_insert_ne.
  - intros g cg [[<- <-]|[Hg Eg]]%lookup_insert_Some; [split; [done|set_solver]|].
    destruct (i_conns g cg Eg) as [? Ht]. split; [done|]. intros Hgx.
    destruct Ht as [Hl ?]; [set_solver|]. split; [|done]. unfold link_ok in *.
    destruct (c_state cg); try done. destruct Hl as (? & ? & g' & cg' & Eg' & Hin).
    split_and!; try done. destruct (decide (g' = h)) as [->|].
    + exists h, (set_c_waiting c rest). rewrite lookup_insert_eq. split; [done|].
      assert (cg' = c) as -> by congruence. rewrite Hw in Hin. cbn. set_solver.
    + exists g', cg'. by rewrite lookup_insert_ne.
Qed.

Lemma dequeued_off t h c w rest :
  inv [h] [h] [] t -> t_conns t !! h = Some c -> c_waiting c = w :: rest ->
  (forall key, hmap t !! key <> Some h) ->
  off_lists w (<[h := set_c_waiting c rest]> (t_conns t)).
Proof.
  intros Hi Ec Hw Hun g cg [[<- <-]|[Hg Eg]]%lookup_insert_Some Hin.
  - pose proof (proj1 (i_wait Hi _ _ Ec)) as Hnd. rewrite Hw in Hnd.
    by apply NoDup_cons in Hnd as [? _].
  - destruct (proj2 (i_wait Hi _ _ Eg) _ Hin) as (cw & x & E & _ & Hm & [->|[? _]]); [|set_solver].
    pose proof (proj2 (i_wait Hi _ _ Ec) w) as Hwh. rewrite Hw in Hwh.
    destruct Hwh as (cw' & x' & E' & _ & Hm' & Hx'); [set_solver|].
    assert (cw' = cw) as -> by congruence. assert (x' = g) as -> by congruence.
    destruct Hx' as [->|[_ Hx']]; [done|].
    assert (is_Some (t_conns t !! g)) as Hs%(conn_range _ _ _ _ _ Hi) by by exists cg.
    lia.
Qed.

(** During the loop: the lock of [h] has become the value [v] of key [key]. *)
Record serving (t : thread) (h v : Z) (key : list Z) (c : conn) (l : list Z) : Prop := {
  sv_inv : inv [h] [h] [] t;
  sv_conn : t_conns t !! h = Some (set_c_waiting c l);
  sv_map : hmap t !! key = Some v;
  sv_value : THREAD_MAX_CONN <= v;
  sv_unlocked : unlocked (hmap t) h;
  sv_kv : c_kv c = Some v
}.

Lemma serve_one t h v key c w rest (Q : unit -> thread -> Prop) :
  serving t h v key c (w :: rest) -> c_state c <> CONN_STATE_GET_BLOCKED ->
  (forall t', serving t' h v key c rest -> t_hash t' = t_hash t -> next_kv t' = next_kv t -> Q tt t') ->
  wp (mod_conn h (fun c => set_c_waiting c (remove w (c_waiting c)));;
      conn_borrow_kv w v;; change_to_get_out_hit w) Q t.
Proof.
  intros [Hi Ec Hm Hv Hun Hkv] Hst HQ. set (c0 := set_c_waiting c (w :: rest)) in *.
  pose proof (i_wait Hi _ _ Ec) as [Hnd Hin].
  destruct (Hin w) as (cw & x & Ew & Es & _); [set_solver|].
  assert (w <> h) as Hwh by (intros ->; assert (cw = c0) as -> by congruence; done).
  destruct (inv_tag _ _ _ _ _ _ Hi Ew) as [Hl _]; [set_solver|].
  unfold link_ok in Hl. rewrite Es in Hl. destruct Hl as (Hkw & Ha & _).
  pose proof (inv_dequeued _ _ _ _ w rest Hi Ec eq_refl Hwh) as Hi1.
  pose proof (dequeued_off _ _ _ w rest Hi Ec eq_refl Hun) as Hoff.
  wp_steps. assert (remove w (c_waiting c0) = rest) as Hrm.
  { change (NoDup (w :: rest)) in Hnd. apply NoDup_cons in Hnd as [? _].
    change (c_waiting c0) with (w :: rest). unfold remove.
    rewrite filter_cons_False by (intros Hne; by apply Hne). by apply remove_none. }
  rewrite Hrm. set (t1 := set_conns t _) in *.
  assert (t_conns t1 !! w = Some cw) as Ew1 by (unfold t1; t_simpl; by rewrite lookup_insert_ne).
  destruct (i_index Hi) as (_ & _ & Hn & _).
  destruct (Hn _ _ Hm) as [Hs|(k & Ek & Hen & _)].
  { apply (conn_range _ _ _ _ _ Hi) in Hs. lia. }
  eapply conn_borrow_kv_ok; [exact Hi1|exact Ew1|set_solver|done|exact Ek|done|].
  intros t2 k2 Hi2 [Hrc _ Hrh _ _ Hrn] Ek2 (_ & Hv2 & Hd2) _.
  assert (t_conns t2 !! w = Some (set_c_kv cw (Some v))) as Ew2 by (rewrite Hrc; apply lookup_insert_eq).
  eapply change_to_get_out_hit_ok; [exact Hi2|set_solver|exact Ew2|done|exact Ek2| | | |].
  - rewrite Hv2, Hd2. apply (k_complete _ (proj2 (proj2 (i_kvs Hi) _ _ Ek)) Hen).
  - unfold hmap. rewrite Hrh. exact Ha.
  - rewrite Hrc. by apply (off_update w _ w cw).
  - intros t3 Hi3 [Ho Hh3 Hn3].
    assert (hmap t3 = hmap t) as Hmap by (unfold hmap; by rewrite Hh3, Hrh).
    apply HQ; [|by rewrite Hh3, Hrh|by rewrite Hn3, Hrn]. split; rewrite ?Hmap; try done.
    rewrite Ho by done. rewrite Hrc, lookup_insert_ne by done. unfold t1. t_simpl.
    by rewrite lookup_insert_eq.
Qed.

Lemma serve_all l t h v key c (Q : unit -> thread -> Prop) :
  serving t h v key c l -> c_state c <> CONN_STATE_GET_BLOCKED ->
  (forall t', serving t' h v key c [] -> t_hash t' = t_hash t -> next_kv t' = next_kv t -> Q tt t') ->
  wp (iter (fun curr =>
    mod_conn h (fun c => set_c_waiting c (remove curr (c_waiting c)));;
    conn_borrow_kv curr v;; change_to_get_out_hit curr) l) Q t.
Proof.
  revert t. induction l as [|w l IH]; intros t Hsv Hst HQ; cbn [iter].
  { wp_steps. by apply HQ. }
  wp_step. eapply serve_one; [done|done|]. intros t1 Hsv1 Hh1 Hn1. apply IH; [done|done|].
  intros t2 Hsv2 Hh2 Hn2. apply HQ; [done|congruence..].
Qed.

Lemma wait_inv_served h hm C c :
  wait_inv [h] hm C -> C !! h = Some c -> c_waiting c = [] -> wait_inv [] hm C.
Proof.
  intros Hw Ec Hnil g cg Eg. destruct (Hw g cg Eg) as [? Hin]. split; [done|]. intros w Hwg.
  destruct (Hin w Hwg) as (cw & x & ? & ? & ? & Hx). exists cw, x. split_and!; try done.
  destruct Hx as [?|[Hg _]]; [by left|]. assert (g = h) as -> by set_solver.
  assert (cg = c) as -> by congruence. rewrite Hnil in Hwg. set_solver.
Qed.

(** ** Resizing the table *)

Lemma resize_pages X t :
  inv [] X [] t -> hash_resize_page (t_hash t) <> 0 ->
  exists j, hash_resize_page (t_hash t) = 9 * 2 ^ j /\ 0 <= j <= 39 /\
    under_migrating (t_hash t) = false.
Proof.
  intros Hi Hp. pose proof (nodes_bound _ _ _ _ Hi) as Hn.
  destruct (i_index Hi) as ((Hc & _) & Hmk & _). pose proof (inv_heads _ Hc) as (Hm & _).
  pose proof (wf_mask_pos _ Hm) as Hpos.
  destruct (hash_resize_page_cases _ Hm Hp) as (j & j' & Hj & Hj' & E & Hcase & Hpg).
  exists j'. split; [done|]. split.
  - assert (512 * 2 ^ j <= 512 * 2 ^ 39) as Hle by (change (512 * 2 ^ 39) with (2 ^ 48); lia).
    assert (j <= 39) by (apply (Z.pow_le_mono_r_iff 2); lia).
    destruct Hcase as [-> | ->]; [|lia]. unfold hash_resize_page in Hp, Hpg.
    destruct (negb (under_migrating (t_hash t))); [|done].
    destruct (should_grow (t_hash t)) eqn:Eg.
    + unfold should_grow in Eg. apply bool_decide_eq_true in Eg.
      rewrite Z.shiftl_mul_pow2, wrap_small in Eg by lia. change (2 ^ 3) with 8 in Eg.
      assert (512 * 2 ^ j <= 512 * 2 ^ 37) as Hle' by (change (512 * 2 ^ 37) with (2 ^ 46); lia).
      assert (j <= 37) by (apply (Z.pow_le_mono_r_iff 2); lia). lia.
    + destruct (should_shrink (t_hash t)); [|done]. unfold shrink_required_page in Hpg.
      rewrite (MASK_TO_PAGE_eq _ j) in Hpg by done. rewrite Z.shiftr_div_pow2 in Hpg by lia.
      change (2 ^ 1) with 2 in Hpg. rewrite Z.pow_add_r in Hpg by lia. change (2 ^ 1) with 2 in Hpg.
      pose proof (Z.pow_pos_nonneg 2 j ltac:(lia) ltac:(lia)).
      pose proof (Z.div_le_upper_bound (9 * 2 ^ j) 2 (9 * 2 ^ j) ltac:(lia) ltac:(lia)). lia.
  - unfold hash_resize_page in Hp. by destruct (under_migrating (t_hash t)).
Qed.

Lemma inv_resized X t j new :
  inv [] X [] t -> under_migrating (t_hash t) = false -> 0 <= j <= 39 ->
  inv [] X [] (set_hash t (hash_resize (t_hash t) (9 * 2 ^ j) new)) /\
  ht_map (hash_resize (t_hash t) (9 * 2 ^ j) new) = hmap t.
Proof.
  intros Hi Hmg Hj. pose proof (i_index Hi) as (Hht & _ & Hn & Hen).
  assert (old_buckets (t_hash t) = None) as Ho
    by (unfold under_migrating in Hmg; by destruct (old_buckets (t_hash t))).
  destruct (hash_resize_any (t_hash t) j new Hht Ho ltac:(lia)) as (Hht' & Hm & Hmk).
  split; [|done]. assert (512 * 2 ^ j <= 2 ^ 48).
  { change (2 ^ 48) with (512 * 2 ^ 39). pose proof (Z.pow_le_mono_r 2 j 39 ltac:(lia) ltac:(lia)). lia. }
  set (ht := hash_resize _ _ _) in *. clearbody ht.
  split; t_simpl; rewrite ?Hm; try apply Hi. split_and!; [done|lia|by rewrite Hm..].
Qed.

(** ** The lock becomes a value *)

Definition served_conn (c : conn) : conn :=
  set_c_kv (set_c_waiting (set_c_clock c false) []) None.

Lemma resize_ok t h c (Q : unit -> thread -> Prop) :
  inv [] [h] [] t -> t_conns t !! h = Some c -> unlocked (hmap t) h ->
  (forall t', inv [] [h] [] t' -> t_conns t' !! h = Some c -> unlocked (hmap t') h ->
     next_kv t' = next_kv t -> Q tt t') ->
  wp (t ← get_t;
      let page := hash_resize_page (t_hash t) in
      if 0 <? page then
        new ← memory_malloc_advance page;
        match new with
        | Some new => mod_t (fun t => set_hash t (hash_resize (t_hash t) page new))
        | None => skip
        end
      else skip) Q t.
Proof.
  intros Hi Ec Hun HQ. wp_steps. cbv zeta. destruct (Z.ltb_spec 0 (hash_resize_page (t_hash t))) as [Hp|Hp].
  - destruct (resize_pages _ _ Hi) as (j & Ej & Hj & Hmg); [lia|].
    wp_steps. eapply memory_malloc_advance_ok; [done|]. intros p t1 [Hi1 Hf].
    assert (t_conns t1 !! h = Some c) as Ec1 by (by rewrite (f_conns _ _ Hf)).
    assert (unlocked (hmap t1) h) as Hun1.
    { intros key. rewrite (f_locks _ _ Hf) by by exists c. apply Hun. }
    destruct p as [p|]; wp_steps; [|by apply HQ; [..|rewrite (f_next _ _ Hf)]].
    destruct (inv_resized _ _ j p Hi1) as [Hi2 Hm]; [by rewrite (f_mig _ _ Hf)|done|].
    rewrite Ej. apply HQ; [exact Hi2|exact Ec1| |apply (f_next _ _ Hf)].
    unfold hmap. t_simpl. by rewrite Hm.
  - wp_steps. by apply HQ.
Qed.

Lemma unlock_success_ok t h c v k (Q : unit -> thread -> Prop) :
  inv [] [h] [] t -> t_conns t !! h = Some c -> c_state c <> CONN_STATE_GET_BLOCKED ->
  c_kv c = Some v -> t_kvs t !! v = Some k -> k_enabled k = false ->
  Z.of_nat (length (k_data k)) = k_val_size k -> hmap t !! k_key k = Some h ->
  (forall t', inv [] [h] [] t' -> t_conns t' !! h = Some (served_conn c) ->
     unlocked (hmap t') h -> next_kv t' = next_kv t -> Q tt t') ->
  wp (conn_unlock_key_for_success h) Q t.
Proof.
  intros Hi Ec Hs Ev Ek Hdis Hd Hl HQ. unfold conn_unlock_key_for_success. wp_step.
  eapply cancel_clock_ok; [done|done|set_solver|]. intros t1 Hi1 Ec1 Hh1 Hk1 _ Hn1.
  set (c1 := set_c_clock c false) in *.
  assert (t_conns t1 !! h = Some c1) as Eh1 by (rewrite Ec1; apply lookup_insert_eq).
  assert (hmap t1 !! k_key k = Some h) as Hl1 by (unfold hmap; by rewrite Hh1).
  assert (t_kvs t1 !! v = Some k) as Ek1 by (by rewrite Hk1).
  wp_step. eapply (kv_enable_ok t1 h v c1 k); [done..|]. intros t2 Hi2 Ec2 Hm2 Hn2.
  assert (t_conns t2 !! h = Some c1) as Eh2 by (by rewrite Ec2). wp_steps.
  assert (serving t2 h v (k_key k) c1 (c_waiting c1)) as Hsv.
  { split; [done|rewrite Eh2; by destruct c1|by rewrite Hm2, lookup_insert_eq| | |done].
    - apply (kv_range _ _ _ _ _ _ Hi Ek).
    - rewrite Hm2. intros key [[_ E]|[Hne E]]%lookup_insert_Some.
      + pose proof (kv_not_conn _ _ _ _ _ _ Hi Ek). congruence.
      + apply Hne. by eapply ht_map_inj; [apply (i_index Hi1)|..]. }
  eapply serve_all; [exact Hsv|exact Hs|]. intros t3 [Hi3 Eh3 _ _ Hun3 _] _ Hn3. wp_step.
  set (c3 := set_c_waiting c1 []) in *.
  assert (inv [] [h] [] t3) as Hi3'.
  { destruct Hi3. split; try done. by eapply wait_inv_served. }
  eapply conn_return_kv_ok; [exact Hi3'|exact Eh3|set_solver|exact Ev|].
  intros t4 Hi4 [Hrc _ Hrh _ _ Hrn].
  eapply resize_ok; [exact Hi4|rewrite Hrc; apply lookup_insert_eq|unfold hmap; by rewrite Hrh|].
  intros t5 Hi5 Eh5 Hun5 Hn5. apply HQ; [done|exact Eh5|done|congruence].
Qed.

(** ** Answers to commands *)

Lemma state_out_success_ok t h c (Q : unit -> thread -> Prop) :
  inv [] [] [] t -> t_conns t !! h = Some c -> c_state c = CONN_STATE_OUT_SUCCESS ->
  (forall t', settled (next_kv t) t' -> Q tt t') -> wp (state_out_success h) Q t.
Proof.
  intros Hi Ec Es HQ. destruct (inv_tag _ _ _ _ _ _ Hi Ec) as [Hl _]; [set_solver|].
  pose proof Hl as Hl'. unfold link_ok in Hl'. rewrite Es in Hl'. destruct Hl' as [Hkv Ha].
  unfold state_out_success, conn_write_byte_zero. wp_steps.
  apply sys_write_ok with [] [] []; [done|lia|]. intros n wb t1 Hi1 Hq1 Hn. cbv beta iota.
  pose proof (q_conns _ _ Hq1) as Ecs. pose proof (q_next _ _ Hq1) as Hnx.
  assert (t_conns t1 !! h = Some c) as Ec1 by congruence.
  destruct (Z.ltb_spec 0 n).
  - wp_steps. set (t2 := set_output t1 _). assert (quiet t1 t2) as Hq2 by by split.
    assert (inv [] [] [] t2) as Hi2 by (eapply quiet_inv; [exact Hq2|apply Hi1|done]).
    eapply change_to_in_cmd_ok; [apply inv_take, Hi2|exact Ec1|done| | |].
    + unfold hmap. rewrite (q_hash _ _ Hq2), (q_hash _ _ Hq1). exact Ha.
    + eapply off_state; [exact Hi2|exact Ec1|congruence].
    + intros t3 c3 Hi3 _ _ Hn3. apply HQ. split; [done|]. rewrite Hn3. exact Hnx.
  - wp_steps. apply wp_assert; [lia|]. destruct wb; wp_steps.
    + apply HQ. by split.
    + eapply free_conn_ok; [apply inv_take, Hi1|exact Ec1| |].
      * unfold hmap. rewrite (q_hash _ _ Hq1), Ecs, (q_kvs _ _ Hq1). exact Hl.
      * intros t2 Hi2 _ Hn2. wp_steps. apply HQ. split; [done|congruence].
Qed.

Lemma change_to_out_success_ok t h c (Q : unit -> thread -> Prop) :
  inv [] [h] [] t -> t_conns t !! h = Some c -> c_kv c = None -> alone (hmap t) h c ->
  off_lists h (t_conns t) -> (forall t', settled (next_kv t) t' -> Q tt t') ->
  wp (change_to_out_success h) Q t.
Proof.
  intros Hi Ec Hkv Ha Hoff HQ. unfold change_to_out_success. wp_steps.
  set (c1 := set_c_state c CONN_STATE_OUT_SUCCESS).
  assert (inv [] [h] [] (set_conns t (<[h := c1]> (t_conns t)))) as Hi1.
  { eapply inv_update_conn; [done|done|set_solver| |done|done|done|by left].
    by destruct (inv_conn_ok _ _ _ _ _ _ Hi Ec). }
  eapply (state_out_success_ok _ h c1); [|apply lookup_insert_eq|done|exact HQ].
  eapply inv_put; [exact Hi1|apply lookup_insert_eq|by split|done|exact (alone_timed _ _ _ Ha)].
Qed.

Lemma state_get_out_miss_ok t h c (Q : unit -> thread -> Prop) :
  inv [] [] [] t -> t_conns t !! h = Some c -> c_state c = CONN_STATE_GET_OUT_MISS ->
  (forall t', settled (next_kv t) t' -> Q tt t') -> wp (state_get_out_miss h) Q t.
Proof.
  intros Hi Ec Es HQ. pose proof (inv_conn_ok _ _ _ _ _ _ Hi Ec) as Hok.
  destruct (inv_tag _ _ _ _ _ _ Hi Ec) as [Hl Hio]; [set_solver|].
  pose proof Hl as Hl'. unfold link_ok in Hl'. unfold io_ok in Hio. rewrite Es in Hl', Hio.
  destruct Hl' as [Hkv Hlk]. unfold GET_RES_SIZE in *.
  assert (timed c) as Htm by (eapply inv_timed; [exact Hi|exact Ec|set_solver]).
  unfold state_get_out_miss, conn_full_write_bytes. wp_steps.
  assert (forall c1 t1, quiet t t1 -> inv [] [] [] t1 -> conn_ok c1 ->
    c_waiting c1 = c_waiting c -> c_kv c1 = c_kv c -> c_clock_called c1 = c_clock_called c ->
    inv [] [h] [] (set_conns t1 (<[h := c1]> (t_conns t1)))) as Hupd.
  { intros c1 t1 Hq Hi1 Hok1 H1 H2 H3.
    assert (t_conns t1 !! h = Some c) as Ec1 by (by rewrite (q_conns _ _ Hq)).
    eapply inv_update_conn; [apply inv_take, Hi1|exact Ec1|set_solver|done..|].
    left. eapply off_state; [exact Hi1|exact Ec1|congruence]. }
  eapply write_bytes_ok; [done|done|lia| |..].
  - pose proof (c_buffer_length _ Hok). unfold GET_RES_SIZE. rewrite length_drop, wrap_small by lia. lia.
  - intros n t1 Hn Hi1 Hq1. set (c1 := set_c_unio c (c_unio c - n)).
    assert (conn_ok c1) as Hok1
      by (apply conn_ok_unio; [done|]; pose proof (c_unio_range _ Hok); lia).
    wp_step. eapply wp_get_conn; [apply lookup_insert_eq|]. wp_steps.
    cbn [c_unio c1 set_c_unio]. destruct (Z.eqb_spec (c_unio c - n) 0) as [E0|E0].
    + unfold change_to_set_in_value_size. eapply wp_mod_conn; [apply lookup_insert_eq|].
      t_simpl. rewrite insert_insert_eq. set (c2 := set_c_unio _ _).
      assert (inv [] [h] [] (set_conns t1 (<[h := c2]> (t_conns t1)))) as Hi2.
      { apply Hupd; try done. destruct Hok. by split. }
      apply HQ. split; [|apply (q_next _ _ Hq1)].
      eapply inv_put; [exact Hi2|apply lookup_insert_eq| |done|exact Htm].
      split; [done|]. unfold hmap. cbn. rewrite (q_hash _ _ Hq1). exact Hlk.
    + wp_steps. apply HQ. split; [|apply (q_next _ _ Hq1)].
      assert (inv [] [h] [] (set_conns t1 (<[h := c1]> (t_conns t1)))) as Hi2
        by (by apply Hupd).
      eapply inv_put; [exact Hi2|apply lookup_insert_eq| | |exact Htm].
      * unfold link_ok. cbn. rewrite Es. split; [done|]. unfold hmap. cbn. rewrite (q_hash _ _ Hq1).
        exact Hlk.
      * unfold io_ok. cbn. rewrite Es. unfold GET_RES_SIZE. lia.
  - intros t1 Hi1 Hq1. wp_steps. apply HQ. split; [done|apply (q_next _ _ Hq1)].
  - intros t1 Hi1 Hq1. eapply free_conn_ok; [apply inv_take, Hi1|rewrite (q_conns _ _ Hq1); exact Ec| |].
    + unfold hmap. rewrite (q_hash _ _ Hq1), (q_conns _ _ Hq1), (q_kvs _ _ Hq1). exact Hl.
    + intros t2 Hi2 _ Hn2. wp_steps. apply HQ. split; [done|]. rewrite Hn2. apply (q_next _ _ Hq1).
Qed.

Lemma change_to_get_out_miss_ok t h c (Q : unit -> thread -> Prop) :
  inv [] [h] [] t -> t_conns t !! h = Some c -> c_kv c = None -> hmap t !! conn_key c = Some h ->
  off_lists h (t_conns t) -> timed c -> (forall t', settled (next_kv t) t' -> Q tt t') ->
  wp (change_to_get_out_miss h) Q t.
Proof.
  intros Hi Ec Hkv Hl Hoff Htm HQ. unfold change_to_get_out_miss, __change_to_get_out_miss. wp_steps.
  set (c1 := set_c_buffer _ _).
  assert (inv [] [h] [] (set_conns t (<[h := c1]> (t_conns t)))) as Hi1.
  { eapply inv_update_conn; [done|done|set_solver| |done|done|done|by left].
    destruct (inv_conn_ok _ _ _ _ _ _ Hi Ec) as [? ? ? ? Hb ?].
    split; try done; cbn; [by apply Forall_put|]. by rewrite length_put by (rewrite Hb; lia). }
  eapply (state_get_out_miss_ok _ h c1); [|apply lookup_insert_eq|done|exact HQ].
  eapply inv_put; [exact Hi1|apply lookup_insert_eq|by split| |exact Htm]. unfold io_ok. cbn.
  unfold GET_RES_SIZE. lia.
Qed.

(** ** Commands *)

(** Work on the table that keeps its mapping. *)
Lemma inv_rehash W X Y t ht m :
  inv W X Y t -> ht_inv ht -> ht_map ht = hmap t -> mask ht = mask (t_hash t) ->
  inv W X Y (set_memory (set_hash t ht) m).
Proof.
  intros [] Hht Hm Hmk. split; t_simpl; rewrite ?Hm; try done.
  destruct i_index as (_ & ? & Hn & Hen). split_and!; [done|lia|by rewrite Hm..].
Qed.

Lemma hash_get_wp W X Y t key (Q : option Z -> thread -> Prop) :
  inv W X Y t -> wf_key key ->
  (forall t', inv W X Y t' -> t_conns t' = t_conns t -> t_kvs t' = t_kvs t -> hmap t' = hmap t ->
     next_kv t' = next_kv t -> Q (hmap t !! key) t') ->
  wp (thread_hash_get key) Q t.
Proof.
  intros Hi Hk HQ. unfold thread_hash_get. wp_steps.
  destruct (hash_get_ok munmap (t_hash t) key (t_memory t)) as (ht & m & He & Hht & Hm & Hmk);
    [done|apply (i_index Hi)|done|].
  eapply wp_from; [exact He|]. cbv iota. wp_steps. apply HQ; [by apply inv_rehash|done..|exact Hm|done].
Qed.

(** [h] locks a key that is not in the table. *)
Lemma lock_ok t h c (Q : unit -> thread -> Prop) :
  inv [] [h] [] t -> t_conns t !! h = Some c -> c_kv c = None -> alone (hmap t) h c ->
  off_lists h (t_conns t) -> hmap t !! conn_key c = None ->
  (forall t' c', inv [] [h] [] t' -> t_conns t' !! h = Some c' -> c_kv c' = None ->
     hmap t' !! conn_key c' = Some h -> off_lists h (t_conns t') -> timed c' ->
     next_kv t' = next_kv t -> Q tt t') ->
  wp (conn_lock_key h) Q t.
Proof.
  intros Hi Ec Hkv (Hun & Hw & Hcl) Hoff Hno HQ. pose proof (nodes_bound _ _ _ _ Hi) as Hnb.
  destruct (conn_key_wf c (inv_conn_ok _ _ _ _ _ _ Hi Ec)) as (Hwf & _).
  pose proof (i_index Hi) as (Hht & Hmk & Hn & Hen).
  unfold conn_lock_key, thread_hash_add. wp_steps.
  destruct (hash_add_ok munmap (t_hash t) {| e_node := h; e_key := conn_key c |} (t_memory t))
    as (ht & m & He & Hht' & Hm & _ & Hmk'); [done|done|done|exact Hno| |lia|].
  { cbn. rewrite ht_map_node by done. intros [key E]. by apply (Hun key). }
  cbn [e_key e_node] in Hm. fold (hmap t) in Hm. eapply wp_from; [exact He|]. cbv iota. wp_steps.
  set (c1 := set_c_waiting c []). t_simpl.
  assert (c1 = c) as -> by (unfold c1; rewrite <-Hw; by destruct c). rewrite insert_id by done.
  set (t1 := set_conns _ _). assert (hmap t1 = <[conn_key c := h]> (hmap t)) as Hm1 by exact Hm.
  eapply (HQ t1 c); [|exact Ec|done|by rewrite Hm1, lookup_insert_eq|done|by intros Hne; rewrite Hw in Hne|done].
  pose proof Hi as []. split; try done.
  - split_and!; [exact Hht'|change (mask ht + 1 <= 2 ^ 48); lia|..]; fold (hmap t1); rewrite Hm1.
    + intros key g [[<- <-]|[? E]]%lookup_insert_Some; [left; by exists c|by apply Hn].
    + intros v k Ek He'. pose proof (Hen _ _ Ek He') as E. rewrite lookup_insert_ne; [done|].
      intros Ekey. rewrite <-Ekey in E. unfold hmap in Hno. congruence.
  - fold (hmap t1). rewrite Hm1. intros g cg Eg. destruct (i_wait g cg Eg) as [? Hin].
    split; [done|]. intros w Hwg. destruct (Hin w Hwg) as (cw & x & ? & ? & Hx & ?). exists cw, x.
    split_and!; try done. rewrite lookup_insert_ne; [done|]. intros E. rewrite <-E in Hx.
    unfold hmap in Hno. congruence.
  - fold (hmap t1). rewrite Hm1. intros g cg Eg. destruct (i_conns g cg Eg) as [? Ht]. split; [done|].
    intros Hg. destruct (Ht Hg) as [Hl ?]. split; [|done].
    assert (forall key, <[conn_key c := h]> (hmap t) !! key = Some g <-> hmap t !! key = Some g) as Hsame.
    { intros key. rewrite lookup_insert_Some. split; [intros [[_ ->]|[_ ?]]; [set_solver|done]|].
      intros E. right. split; [|done]. intros <-. congruence. }
    assert (alone (hmap t) g cg -> alone (<[conn_key c := h]> (hmap t)) g cg) as Ha.
    { intros (Hu & ? & ?). split_and!; [|done..]. intros key. rewrite Hsame. apply Hu. }
    unfold link_ok in *. fold (hmap t) in Hl. destruct (c_state cg); rewrite ?Hsame; naive_solver.
Qed.

(** A connection that holds a key is in a locked state. *)
Lemma holder_locked t h c key :
  inv [] [] [] t -> t_conns t !! h = Some c -> hmap t !! key = Some h ->
  conn_with_key_locked c = true /\ conn_key c = key.
Proof.
  intros Hi Ec Hk. destruct (inv_tag _ _ _ _ _ _ Hi Ec) as [Hl _]; [set_solver|].
  assert (alone (hmap t) h c -> False) as Hno by (intros (Hu & _); by apply (Hu key)).
  assert (hmap t !! conn_key c = Some h -> conn_key c = key) as Hsame
    by (intros E; eapply ht_map_inj; [apply (i_index Hi)|exact E|exact Hk]).
  rewrite locked_states. unfold link_ok in Hl. destruct (c_state c); naive_solver.
Qed.

Lemma call_clock_ok t h c (Q : unit -> thread -> Prop) :
  inv [] [h] [] t -> t_conns t !! h = Some c -> conn_with_key_locked c = true ->
  link_ok (hmap t) (t_conns t) (t_kvs t) h c -> io_ok (t_kvs t) c ->
  (forall t', settled (next_kv t) t' -> Q tt t') -> wp (call_clock h) Q t.
Proof.
  intros Hi Ec Hlk Hl Hio HQ.
  unfold call_clock, __call_clock. wp_steps. destruct (c_clock_called c) eqn:Ecl; wp_steps.
  { apply HQ. split; [|done]. eapply inv_put; [exact Hi|exact Ec|done|done|by intros _]. }
  apply wp_assert; [done|]. wp_steps. set (c1 := set_c_clock c true). apply HQ. split; [|done].
  pose proof (inv_conn_ok _ _ _ _ _ _ Hi Ec) as Hok.
  assert (inv [] [h] [] (set_clock_probation (set_conns t (<[h := c1]> (t_conns t)))
    (h :: clock_probation t))) as Hi1.
  { pose proof Hi as []. split; t_simpl; try done.
    - by eapply pool_inv_update.
    - by eapply index_inv_update.
    - by eapply borrow_inv_update.
    - destruct i_clock as [Hnd Hin]. split.
      + cbn. apply NoDup_cons. split; [|done]. intros (c0 & E0 & ?)%Hin. congruence.
      + intros g. cbn. rewrite elem_of_cons, Hin. setoid_rewrite lookup_insert_Some. split.
        * intros [->|(c0 & E0 & ?)]; [exists c1; split; [by left|done]|]. exists c0.
          split; [|done]. right. split; [|done]. intros <-. congruence.
        * intros (c0 & [[<- <-]|[? ?]] & ?); [by left|right; eauto].
    - eapply wait_inv_update; [done..|by right].
    - eapply conns_inv_update; [done|done|set_solver| |done]. by destruct Hok. }
  eapply inv_put; [exact Hi1|apply lookup_insert_eq| |done|by intros _].
  apply locked_states in Hlk. unfold link_ok, io_ok in *. cbn.
  destruct Hlk as [E|[E|E]]; rewrite E in *; exact Hl.
Qed.

(** A blocked connection queues up behind the holder of its key. *)
Lemma inv_enqueued t h c g cg :
  inv [] [h] [] t -> t_conns t !! h = Some c -> c_state c = CONN_STATE_GET_BLOCKED ->
  c_kv c = None -> alone (hmap t) h c -> off_lists h (t_conns t) ->
  t_conns t !! g = Some cg -> g <> h -> hmap t !! conn_key c = Some g ->
  conn_with_key_locked cg = true ->
  inv [] [g] [] (set_conns t (<[g := set_c_waiting cg (h :: c_waiting cg)]> (t_conns t))).
Proof.
  intros Hi Ec Es Hkv Ha Hoff Eg Hne Hm Hlk. set (cg' := set_c_waiting cg _).
  pose proof (inv_conn_ok _ _ _ _ _ _ Hi Eg) as Hokg. pose proof (inv_conn_ok _ _ _ _ _ _ Hi Ec) as Hokc.
  pose proof Hi as []. split; t_simpl; try done.
  - by eapply pool_inv_update.
  - by eapply index_inv_update.
  - by eapply borrow_inv_update.
  - by eapply clock_inv_update.
  - assert (forall w cw, t_conns t !! w = Some cw -> exists cw', <[g := cg']> (t_conns t) !! w = Some cw' /\
      c_state cw' = c_state cw /\ conn_key cw' = conn_key cw) as Hfind.
    { intros w cw Ew. destruct (decide (w = g)) as [->|]; [|exists cw; by rewrite lookup_insert_ne].
      exists cg'. rewrite lookup_insert_eq. assert (cw = cg) as -> by congruence. done. }
    assert (forall x cx w, t_conns t !! x = Some cx -> w ∈ c_waiting cx -> exists cw y,
      <[g := cg']> (t_conns t) !! w = Some cw /\ c_state cw = CONN_STATE_GET_BLOCKED /\
      hmap t !! conn_key cw = Some y /\ (y = x \/ x ∈ [] /\ THREAD_MAX_CONN <= y)) as Hold.
    { intros x cx w Ex Hw. destruct (proj2 (i_wait x cx Ex) w Hw) as (cw & y & Ew & ? & ? & ?).
      destruct (Hfind w cw Ew) as (cw' & Ew' & E1 & E2). exists cw', y. rewrite E1, E2. done. }
    intros x cx [[<- <-]|[Hx Ex]]%lookup_insert_Some.
    + destruct (i_wait g cg Eg) as [Hnd _]. split; [apply NoDup_cons; split; [by apply (Hoff g)|done]|].
      intros w [->|Hw]%elem_of_cons; [|by apply (Hold g cg)].
      exists c, g. rewrite lookup_insert_ne by done. split_and!; try done. by left.
    + destruct (i_wait x cx Ex) as [Hnd _]. split; [done|]. intros w Hw. by apply (Hold x cx).
  - assert (forall w, (exists x cx, t_conns t !! x = Some cx /\ w ∈ c_waiting cx) ->
      exists x cx, <[g := cg']> (t_conns t) !! x = Some cx /\ w ∈ c_waiting cx) as Hex.
    { intros w (x & cx & Ex & Hw). destruct (decide (x = g)) as [->|].
      - exists g, cg'. rewrite lookup_insert_eq. assert (cx = cg) as -> by congruence.
        split; [done|]. cbn. set_solver.
      - exists x, cx. by rewrite lookup_insert_ne. }
    intros x cx [[<- <-]|[Hx Ex]]%lookup_insert_Some.
    + split; [by destruct Hokg|set_solver].
    + destruct (decide (x = h)) as [->|Hxh].
      * assert (cx = c) as -> by congruence. split; [done|]. intros _. unfold link_ok, io_ok.
        rewrite Es. split; [|split; [done|exact (alone_timed _ _ _ Ha)]].
        split_and!; try done. exists g, cg'. rewrite lookup_insert_eq.
        split; [done|]. cbn. set_solver.
      * destruct (i_conns x cx Ex) as [? Ht]. split; [done|]. intros _.
        destruct Ht as [Hl ?]; [set_solver|]. split; [|done]. unfold link_ok in *.
        destruct (c_state cx); try done. destruct Hl as (? & ? & Hin). split_and!; try done.
        by apply Hex.
Qed.

Lemma cmd_get_ok t h c (Q : unit -> thread -> Prop) :
  inv [] [] [] t -> t_conns t !! h = Some c -> c_state c = CONN_STATE_IN_CMD ->
  (forall t', settled (next_kv t) t' -> Q tt t') -> wp (cmd_get h) Q t.
Proof.
  intros Hi Ec Es HQ. destruct (inv_tag _ _ _ _ _ _ Hi Ec) as [Hl _]; [set_solver|].
  unfold link_ok in Hl. rewrite Es in Hl. destruct Hl as [Hkv Ha].
  pose proof (inv_conn_ok _ _ _ _ _ _ Hi Ec) as Hok.
  destruct (conn_key_wf c Hok) as (Hwf & _).
  assert (off_lists h (t_conns t)) as Hoff by (eapply off_state; [done|done|congruence]).
  unfold cmd_get. wp_steps. eapply hash_get_wp; [exact Hi|done|].
  intros t1 Hi1 Ec1 Ek1 Hm1 Hn1. assert (t_conns t1 !! h = Some c) as Eh1 by (by rewrite Ec1).
  rewrite <-Hm1. pose proof (i_index Hi1) as (_ & _ & Hn & _).
  assert (alone (hmap t1) h c) as Ha1 by by rewrite Hm1.
  assert (off_lists h (t_conns t1)) as Hoff1 by by rewrite Ec1.
  destruct (hmap t1 !! conn_key c) as [node|] eqn:Enode.
  - unfold thread_range. destruct (Hn _ _ Enode) as [Hs|(k & Ek & Hen & _)].
    + pose proof (conn_range _ _ _ _ _ Hi1 Hs) as Hr. destruct Hs as [cg Eg].
      rewrite (proj2 (Z.leb_le 0 node)), (proj2 (Z.ltb_lt _ _)) by lia. cbn [andb].
      assert (node <> h) as Hne by (intros ->; by apply (proj1 Ha1 (conn_key c))).
      destruct (holder_locked _ _ _ _ Hi1 Eg Enode) as [Hlk _].
      wp_steps. set (c1 := set_c_state c CONN_STATE_GET_BLOCKED). wp_steps.
      eapply wp_mod_conn; [t_simpl; by rewrite lookup_insert_ne|].
      assert (inv [] [h] [] (set_conns t1 (<[h := c1]> (t_conns t1)))) as Hi2.
      { eapply inv_update_conn; [apply inv_take, Hi1|done|set_solver| |done|done|done|by left].
        by destruct Hok. }
      set (t2 := set_conns t1 _) in *.
      assert (t_conns t2 !! node = Some cg) as Eg2 by (unfold t2; t_simpl; by rewrite lookup_insert_ne).
      assert (off_lists h (t_conns t2)) as Hoff2 by (by apply (off_update h _ h c)).
      pose proof (inv_enqueued t2 h c1 node cg Hi2 (lookup_insert_eq _ _ _) eq_refl Hkv Ha1 Hoff2 Eg2
        Hne Enode Hlk) as Hi3.
      destruct (inv_tag _ _ _ _ _ _ Hi2 Eg2) as [Hlg Hiog]; [set_solver|].
      eapply call_clock_ok; [exact Hi3|apply lookup_insert_eq|exact Hlk| |exact Hiog|].
      { apply locked_states in Hlk. unfold link_ok in *. cbn.
        destruct Hlk as [E|[E|E]]; rewrite E in *; exact Hlg. }
      intros t4 [Hi4 Hn4]. apply HQ. split; [done|]. rewrite Hn4. exact Hn1.
    + pose proof (kv_range _ _ _ _ _ _ Hi1 Ek) as Hr.
      rewrite (proj2 (Z.ltb_ge _ _)), andb_false_r by lia. wp_steps.
      eapply conn_borrow_kv_ok; [apply (inv_take h), Hi1|done|set_solver|done|exact Ek|done|].
      intros t2 k2 Hi2 [Hrc _ Hrh _ _ Hrn] Ek2 (_ & Hv2 & Hd2) _.
      eapply (change_to_get_out_hit_ok [] [] t2 h (set_c_kv c (Some node)) node k2);
        [done|set_solver|by rewrite Hrc, lookup_insert_eq|done|done| | | |].
      * rewrite Hv2, Hd2. apply (k_complete _ (proj2 (proj2 (i_kvs Hi1) _ _ Ek)) Hen).
      * unfold hmap. rewrite Hrh. exact Ha1.
      * rewrite Hrc. by apply (off_update h _ h c).
      * intros t3 Hi3 [_ _ Hn3]. apply HQ. split; [done|congruence].
  - wp_steps. eapply lock_ok; [apply inv_take, Hi1|done|done|done|done|done|].
    intros t2 c2 Hi2 Ec2 Hkv2 Hl2 Hoff2 Htm2 Hn2.
    eapply change_to_get_out_miss_ok; [done..|]. intros t3 [Hi3 Hn3]. apply HQ. split; [done|congruence].
Qed.

(** The lock of [h] is taken away; [c] is [h] before. *)
Record freed (t t' : thread) (h : Z) (c : conn) : Prop := {
  fr_next : next_kv t' = next_kv t;
  fr_death : clock_death t' = remove h (clock_death t);
  fr_conn : exists c', t_conns t' !! h = Some c' /\ c_state c' = CONN_STATE_FREE;
  fr_others : forall g cg, g <> h -> t_conns t !! g = Some cg ->
    c_state cg <> CONN_STATE_GET_BLOCKED -> t_conns t' !! g = Some cg;
  fr_rest : forall g cg, g <> h -> head (c_waiting c) <> Some g -> t_conns t !! g = Some cg ->
    t_conns t' !! g = Some cg;
  fr_lock : handed_over t t' c
}.

Lemma waiter_not_self t h c g :
  inv [] [] [] t -> t_conns t !! h = Some c -> c_state c <> CONN_STATE_GET_BLOCKED ->
  g ∈ c_waiting c -> g <> h.
Proof.
  intros Hi Ec Hs Hg ->. destruct (proj2 (i_wait Hi _ _ Ec) _ Hg) as (cw & x & Ew & Esw & _).
  congruence.
Qed.

Lemma change_locked_to_free_ok t h c (Q : unit -> thread -> Prop) :
  inv [] [] [] t -> t_conns t !! h = Some c -> conn_with_key_locked c = true ->
  (forall t', inv [] [] [] t' -> freed t t' h c -> Q tt t') ->
  wp (change_locked_to_free h) Q t.
Proof.
  intros Hi Ec Hlk HQ. destruct (inv_tag _ _ _ _ _ _ Hi Ec) as [Hl _]; [set_solver|].
  assert (c_state c <> CONN_STATE_GET_BLOCKED) as Hnb
    by (apply locked_states in Hlk; naive_solver congruence).
  unfold change_locked_to_free. wp_steps. apply wp_assert; [done|]. wp_step.
  eapply unlock_failure_ok; [apply inv_take, Hi|done|done|by eapply link_locked|].
  intros t1 c1 Hi1 [E1 Hk1 Ha1 Hs1 Hd1 Hn1 Ho1 Hlock Hrest]. wp_steps.
  set (c2 := set_c_state c1 CONN_STATE_FREE). apply HQ.
  - assert (inv [] [h] [] (set_conns t1 (<[h := c2]> (t_conns t1)))) as Hi2.
    { eapply inv_update_conn; [done|done|set_solver| |done|done|done|].
      - by destruct (inv_conn_ok _ _ _ _ _ _ Hi1 E1).
      - left. eapply off_state; [exact Hi1|done|congruence]. }
    eapply inv_put; [exact Hi2|apply lookup_insert_eq|by split|done|exact (alone_timed _ _ _ Ha1)].
  - split; t_simpl; try done.
    + exists c2. by rewrite lookup_insert_eq.
    + intros g cg Hg Eg Hb. rewrite lookup_insert_ne by done. by apply Ho1.
    + intros g cg Hg Hf Eg. rewrite lookup_insert_ne by done. by apply Hrest.
    + unfold handed_over in *. destruct (c_waiting c) as [|first rest] eqn:Ew; [done|].
      destruct Hlock as (Hm & f & Ef & Ef' & Hp & Hout). split; [done|]. exists f. t_simpl.
      rewrite lookup_insert_ne; [done|]. intros <-.
      apply (waiter_not_self t h c h Hi Ec Hnb); [rewrite Ew; set_solver|done].
Qed.

Lemma cmd_del_ok t h c (Q : unit -> thread -> Prop) :
  inv [] [] [] t -> t_conns t !! h = Some c -> c_state c = CONN_STATE_IN_CMD ->
  (forall t', settled (next_kv t) t' -> Q tt t') -> wp (cmd_del h) Q t.
Proof.
  intros Hi Ec Es HQ. destruct (conn_key_wf c (inv_conn_ok _ _ _ _ _ _ Hi Ec)) as (Hwf & _).
  assert (forall t1, inv [] [] [] t1 -> t_conns t1 !! h = Some c -> next_kv t1 = next_kv t ->
    wp (change_to_out_success h) Q t1) as Hend.
  { intros t1 Hi1 Ec1 Hn1. destruct (inv_tag _ _ _ _ _ _ Hi1 Ec1) as [Hl _]; [set_solver|].
    unfold link_ok in Hl. rewrite Es in Hl. destruct Hl as [Hkv Ha].
    eapply change_to_out_success_ok; [apply inv_take, Hi1|done|done|done| |].
    - eapply off_state; [done|done|congruence].
    - rewrite Hn1. exact HQ. }
  unfold cmd_del. wp_steps. eapply hash_get_wp; [exact Hi|done|].
  intros t1 Hi1 Ec1 Ek1 Hm1 Hn1. assert (t_conns t1 !! h = Some c) as Eh1 by (by rewrite Ec1).
  rewrite <-Hm1. pose proof (i_index Hi1) as (_ & _ & Hn & _). wp_step.
  destruct (hmap t1 !! conn_key c) as [node|] eqn:Enode; [|wp_steps; by apply Hend].
  unfold thread_range. destruct (Hn _ _ Enode) as [Hs|(k & Ek & Hen & _)].
  - pose proof (conn_range _ _ _ _ _ Hi1 Hs) as Hr. destruct Hs as [cg Eg].
    rewrite (proj2 (Z.leb_le 0 node)), (proj2 (Z.ltb_lt _ _)) by lia. cbn [andb].
    destruct (holder_locked _ _ _ _ Hi1 Eg Enode) as [Hlk _].
    eapply change_locked_to_free_ok; [exact Hi1|exact Eg|done|].
    intros t2 Hi2 [Hn2 _ _ Ho _ _]. apply Hend; [done| |congruence]. apply Ho; [|done|congruence].
    intros ->. assert (cg = c) as -> by congruence. unfold conn_with_key_locked in Hlk.
    by rewrite Es in Hlk.
  - pose proof (kv_range _ _ _ _ _ _ Hi1 Ek) as Hr.
    rewrite (proj2 (Z.ltb_ge _ _)), andb_false_r by lia. wp_step.
    eapply kv_disable_ok; [done..|]. intros t2 Hi2 Hf2 HK _ _. wp_step.
    eapply wp_get_kv; [by rewrite HK, lookup_insert_eq|].
    eapply drop_ok; [exact Hi2|by rewrite HK, lookup_insert_eq|done|].
    intros t3 Hi3 Hf3 _ _ _. apply Hend; [done|..].
    + by rewrite (f_conns _ _ Hf3), (f_conns _ _ Hf2).
    + by rewrite (f_next _ _ Hf3), (f_next _ _ Hf2).
Qed.

Lemma cmd_run_ok t h c (Q : unit -> thread -> Prop) :
  inv [] [] [] t -> t_conns t !! h = Some c -> c_state c = CONN_STATE_IN_CMD ->
  (forall t', settled (next_kv t) t' -> Q tt t') -> wp (cmd_run h) Q t.
Proof.
  intros Hi Ec Es HQ. unfold cmd_run. wp_steps. case_match; [by eapply cmd_get_ok|].
  case_match; [by eapply cmd_del_ok|]. eapply free_conn_ok; [apply inv_take, Hi|done| |].
  - by apply (inv_tag _ _ _ _ _ _ Hi Ec); set_solver.
  - intros t1 Hi1 _ Hn1. apply HQ. by split.
Qed.

(** ** Reading commands *)

Lemma store_cmd_ok t h c off bs (Q : unit -> thread -> Prop) :
  t_conns t !! h = Some c -> conn_ok c -> Forall is_byte bs ->
  (forall cmd key, 0 <= off -> off + Z.of_nat (length bs) <= CMD_SIZE_MAX ->
     conn_ok (set_c_key (set_c_cmd c cmd) key) ->
     Q tt (set_conns t (<[h := set_c_key (set_c_cmd c cmd) key]> (t_conns t)))) ->
  wp (store_cmd h off bs) Q t.
Proof.
  intros Ec Hok Hbs HQ. unfold store_cmd. wp_step. apply wp_within. intros [H1 H2]. wp_steps.
  set (area := fill _ _ _).
  assert (Forall is_byte area) as Hb.
  { apply Forall_fill; [done|]. constructor; apply Hok. }
  assert (length area = 257%nat) as Hl.
  { unfold area. rewrite length_fill; cbn; rewrite (c_key_length _ Hok); [done|].
    change CMD_SIZE_MAX with 257 in H2. lia. }
  destruct area as [|x l]; [done|]. apply Forall_cons in Hb as [? ?]. cbn [hd tail].
  apply HQ; [done|done|]. destruct Hok. split; try done. by injection Hl.
Qed.

(** Back in [CONN_STATE_IN_CMD] with some bytes of a command read. *)
Lemma inv_in_cmd t h c :
  inv [] [h] [] t -> t_conns t !! h = Some c -> c_state c = CONN_STATE_IN_CMD ->
  c_kv c = None -> alone (hmap t) h c -> c_unio c <= CMD_SIZE_MAX -> inv [] [] [] t.
Proof.
  intros Hi Ec Es Hkv Ha Hu. eapply inv_put; [done|done| | |exact (alone_timed _ _ _ Ha)].
  - unfold link_ok. rewrite Es. done.
  - unfold io_ok. by rewrite Es.
Qed.

Lemma state_in_cmd_ok t h c (Q : unit -> thread -> Prop) :
  inv [] [] [] t -> t_conns t !! h = Some c -> c_state c = CONN_STATE_IN_CMD ->
  (forall t', settled (next_kv t) t' -> Q tt t') -> wp (state_in_cmd h) Q t.
Proof.
  intros Hi Ec Es HQ. pose proof (inv_conn_ok _ _ _ _ _ _ Hi Ec) as Hok.
  destruct (inv_tag _ _ _ _ _ _ Hi Ec) as [Hl Hio]; [set_solver|].
  unfold link_ok in Hl. unfold io_ok in Hio. rewrite Es in Hl, Hio. destruct Hl as [Hkv Ha].
  unfold state_in_cmd, conn_read. wp_steps. apply wp_assert; [done|]. wp_steps.
  apply wp_within. intros Hpos. wp_steps. eapply sys_read_ok; [exact Hi|lia|].
  intros r t1 Hi1 Hq1 Hr. pose proof (q_conns _ _ Hq1) as Ecs.
  assert (t_conns t1 !! h = Some c) as Ec1 by congruence.
  assert (forall n wb, n <= 0 -> wp (conn_check_read h n wb)
    (fun b => wp (if b then c ← get_conn h; if cmd_full_readed c then cmd_run h else skip else skip) Q) t1)
    as Hnothing.
  { intros n wb Hn. eapply wp_mono; [by eapply read_nothing_ok|]. intros b t2 [-> Hs]. wp_steps.
    apply HQ. by rewrite <-(q_next _ _ Hq1). }
  destruct Hr as [bs0 input bs Hin Ebs Hlen Hb|wb|wb]; cbv beta iota.
  - destruct (Z.ltb_spec 0 (Z.of_nat (length bs))); [|lia]. wp_step.
    eapply store_cmd_ok; [done|done|done|]. intros cmd key _ _ Hok2. set (c2 := set_c_key _ _) in *.
    pose proof (c_unio_range _ Hok) as Hu.
    eapply read_some_ok; [apply lookup_insert_eq|cbn; lia|cbn; lia|]. t_simpl. rewrite insert_insert_eq.
    set (c3 := set_c_unio c2 _). set (t3 := set_conns _ _).
    assert (t_conns t3 !! h = Some c3) as Ec3 by apply lookup_insert_eq.
    assert (inv [] [h] [] t3) as Hi3.
    { eapply (inv_update_conn _ _ _ t1 h c c3); [apply inv_take, Hi1|done|set_solver| |done|done|done|].
      - apply conn_ok_unio; [done|]. cbn. lia.
      - left. eapply off_state; [exact Hi1|done|congruence]. }
    assert (inv [] [] [] t3) as Hi3'.
    { eapply inv_in_cmd; [exact Hi3|exact Ec3|done|done| |cbn; lia].
      unfold hmap, t3. t_simpl. rewrite (q_hash _ _ Hq1). exact Ha. }
    wp_steps. case_match; wp_steps.
    + eapply cmd_run_ok; [exact Hi3'|exact Ec3|done|]. intros t4 Hs. apply HQ.
      rewrite <-(q_next _ _ Hq1). exact Hs.
    + apply HQ. split; [done|]. apply (q_next _ _ Hq1).
  - wp_steps. by apply Hnothing.
  - wp_steps. by apply Hnothing.
Qed.

(** ** Reading values *)

Lemma kv_write_ok t v k off bs (Q : unit -> thread -> Prop) :
  t_kvs t !! v = Some k -> kv_ok k -> 0 <= off ->
  off + Z.of_nat (length bs) <= k_val_size k ->
  Q tt (set_kvs t (<[v := set_k_data k (fill (Z.to_nat off) bs (k_data k))]> (t_kvs t))) ->
  wp (kv_write v off bs) Q t.
Proof.
  intros Ek Hk Hoff Hfit HQ. pose proof (k_fits _ Hk). unfold kv_write. wp_steps.
  apply wp_assert; [lia|]. by wp_steps.
Qed.

Lemma fill_end (l bs : list Z) : fill (length l) bs l = l ++ bs.
Proof. unfold fill. rewrite take_ge by lia. rewrite drop_ge by lia. by rewrite app_nil_r. Qed.

(** The bytes of a value that nobody but [h] uses change. *)
Lemma inv_written X Y t h v k d :
  inv [] X Y t -> t_kvs t !! v = Some k -> k_enabled k = false ->
  Z.of_nat (length d) <= k_val_size k ->
  (forall g cg, t_conns t !! g = Some cg -> c_kv cg = Some v -> g ∉ X -> g = h) -> h ∈ X ->
  inv [] X Y (set_kvs t (<[v := set_k_data k d]> (t_kvs t))).
Proof.
  intros Hi Ek He Hd Honly HX. pose proof (proj2 (proj2 (i_kvs Hi) _ _ Ek)) as Hok.
  assert (kv_ok (set_k_data k d)) as Hok' by (destruct Hok; split; try done; cbn; congruence).
  pose proof Hi as []. split; t_simpl; try done.
  - by eapply kvs_inv_update.
  - intros g k0 [[<- <-]|[? E]]%lookup_insert_Some; [apply (i_used _ _ Ek)|by apply i_used].
  - by eapply lru_inv_same.
  - by eapply index_inv_kv.
  - by eapply borrow_inv_kv.
  - intros g cg Eg. destruct (i_conns g cg Eg) as [? Ht]. split; [done|]. intros Hg.
    destruct (Ht Hg) as (Hl & Hio & Htm).
    assert (forall v', c_kv cg = Some v' -> <[v := set_k_data k d]> (t_kvs t) !! v' = t_kvs t !! v') as Hsame.
    { intros v' Ev'. rewrite lookup_insert_ne; [done|]. intros <-. rewrite (Honly _ _ Eg Ev' Hg) in Hg.
      done. }
    unfold link_ok, io_ok in *. split; [|split; [|done]]; destruct (c_state cg); try done.
    + destruct Hl as (? & v' & k' & Ev' & ? & ?). split; [done|]. exists v', k'. by rewrite Hsame.
    + intros v' k' Ev'. rewrite Hsame by done. by apply Hio.
    + intros v' k' Ev'. rewrite Hsame by done. by apply Hio.
Qed.

(** A value under construction is used by its connection alone. *)
Lemma only_user t h c v k g cg :
  inv [] [] [] t -> t_conns t !! h = Some c -> c_state c = CONN_STATE_SET_IN_VALUE ->
  c_kv c = Some v -> t_kvs t !! v = Some k ->
  t_conns t !! g = Some cg -> c_kv cg = Some v -> g = h.
Proof.
  intros Hi Ec Es Ev Ek Eg Evg.
  destruct (inv_tag _ _ _ _ _ _ Hi Ec) as [Hl Hio]; [set_solver|].
  destruct (inv_tag _ _ _ _ _ _ Hi Eg) as [Hlg Hiog]; [set_solver|].
  unfold link_ok, io_ok in *. rewrite Es in Hl, Hio. destruct (Hio v k Ev Ek) as [Hu Hd].
  destruct Hl as (Hm & v0 & k0 & Ev0 & Ek0 & Hk & _).
  assert (v0 = v) as -> by congruence. assert (k0 = k) as -> by congruence.
  destruct (c_state cg) eqn:Esg; try (destruct Hlg as [Hn _]; congruence).
  - destruct (Hiog v k Evg Ek) as [Hd' _]. lia.
  - destruct Hlg as (Hmg & v1 & k1 & Ev1 & Ek1 & Hk1 & _).
    assert (v1 = v) as -> by congruence. assert (k1 = k) as -> by congruence. congruence.
Qed.

(** The value of [h] is complete: it comes into service and [h] reads commands
    again. *)
Lemma value_complete t h c v k cmd unio (Q : unit -> thread -> Prop) :
  inv [] [h] [] t -> t_conns t !! h = Some c -> c_state c <> CONN_STATE_GET_BLOCKED ->
  c_kv c = Some v -> t_kvs t !! v = Some k -> k_enabled k = false ->
  Z.of_nat (length (k_data k)) = k_val_size k -> hmap t !! k_key k = Some h ->
  is_byte cmd -> 0 <= unio < 2 ^ 64 ->
  (forall t' c', next_kv t' = next_kv t -> inv [] [h] [] t' -> t_conns t' !! h = Some c' ->
     c_state c' = c_state c -> c_kv c' = None -> alone (hmap t') h c' -> c_key c' = c_key c ->
     c_unio c' = c_unio c ->
     inv [] [h] [] (set_conns t' (<[h := set_c_cmd (set_c_unio (set_c_state c' CONN_STATE_IN_CMD)
       unio) cmd]> (t_conns t'))) -> Q tt t') ->
  wp (conn_unlock_key_for_success h) Q t.
Proof.
  intros Hi Ec Hs Ev Ek Hdis Hd Hl Hcmd Hu HQ.
  eapply unlock_success_ok; [done..|]. intros t' Hi' Ec' Hun Hn.
  apply (HQ t' (served_conn c)); try done.
  eapply inv_update_conn; [exact Hi'|exact Ec'|set_solver| |done|done|done|].
  - destruct (inv_conn_ok _ _ _ _ _ _ Hi' Ec'). by split.
  - left. eapply off_state; [exact Hi'|exact Ec'|done].
Qed.

Lemma hd_byte l : Forall is_byte l -> is_byte (hd 0 l).
Proof. intros Hl. destruct l; [split; done|]. by apply Forall_cons in Hl as [? _]. Qed.

(** What is known of a connection that receives a value. *)
Record receiving (t : thread) (h v : Z) (c : conn) (k : kv) : Prop := {
  rc_kv : c_kv c = Some v;
  rc_value : t_kvs t !! v = Some k;
  rc_ok : kv_ok k;
  rc_unio : CMD_SIZE_MAX < c_unio c < 2 ^ 64;
  rc_data : Z.of_nat (length (k_data k)) = k_val_size k + CMD_SIZE_MAX - c_unio c;
  rc_key : k_key k = conn_key c;
  rc_dis : k_enabled k = false;
  rc_lock : hmap t !! conn_key c = Some h;
  rc_only : forall g cg, t_conns t !! g = Some cg -> c_kv cg = Some v -> g = h
}.

Lemma in_value_facts t h c :
  inv [] [] [] t -> t_conns t !! h = Some c -> c_state c = CONN_STATE_SET_IN_VALUE ->
  exists v k, receiving t h v c k.
Proof.
  intros Hi Ec Es. destruct (inv_tag _ _ _ _ _ _ Hi Ec) as [Hl Hio]; [set_solver|].
  unfold link_ok in Hl. unfold io_ok in Hio. rewrite Es in Hl, Hio.
  destruct Hl as (Hlk & v & k & Ev & Ek & Hkey & Hdis). destruct (Hio v k Ev Ek) as [Hu Hd].
  pose proof (c_unio_range _ (inv_conn_ok _ _ _ _ _ _ Hi Ec)).
  exists v, k. split; try done; [apply (proj2 (i_kvs Hi) _ _ Ek)|lia|].
  intros g cg. by eapply only_user.
Qed.

(** Bytes [bs] were read: the value takes what it misses, the command buffer the
    rest. *)
Section value_bytes.
Context (t : thread) (h v : Z) (c : conn) (k : kv) (bs : list Z).
Hypothesis Hi : inv [] [] [] t.
Hypothesis Ec : t_conns t !! h = Some c.
Hypothesis Es : c_state c = CONN_STATE_SET_IN_VALUE.
Hypothesis Hr : receiving t h v c k.
Hypothesis Hlen : 0 < Z.of_nat (length bs) <= c_unio c.
Hypothesis Hb : Forall is_byte bs.
Let extra := zdrop (c_unio c - CMD_SIZE_MAX) bs.
Let d := k_data k ++ ztake (c_unio c - CMD_SIZE_MAX) bs.
Let c' := set_c_unio (set_c_key c (fill 0 (tail extra) (c_key c))) (c_unio c - Z.of_nat (length bs)).
Let k' := set_k_data k d.
Let t' := set_conns (set_kvs t (<[v := k']> (t_kvs t))) (<[h := c']> (t_conns t)).

Lemma value_bytes_lengths :
  Z.of_nat (length extra) = Z.max 0 (Z.of_nat (length bs) - (c_unio c - CMD_SIZE_MAX)) /\
  Z.of_nat (length d) = Z.min (k_val_size k)
    (k_val_size k + CMD_SIZE_MAX - c_unio c + Z.of_nat (length bs)).
Proof.
  pose proof (rc_unio _ _ _ _ _ Hr). pose proof (rc_data _ _ _ _ _ Hr). unfold extra, d.
  rewrite length_app, Nat2Z.inj_add, length_ztake, length_zdrop by lia. lia.
Qed.

Lemma value_bytes_inv : inv [] [h] [] t'.
Proof.
  destruct value_bytes_lengths as [He Hd]. pose proof (inv_conn_ok _ _ _ _ _ _ Hi Ec) as Hok.
  pose proof Hr as [Ev Ek Hk Hu _ _ Hdis _ Honly]. change CMD_SIZE_MAX with 257 in *.
  eapply (inv_update_conn _ _ _ (set_kvs t (<[v := k']> (t_kvs t))) h c);
    [|exact Ec|set_solver| |done|done|done|].
  - eapply (inv_written _ _ _ h); [by apply inv_take|done|done|lia| |set_solver].
    intros g cg Eg Evg _. by eapply Honly.
  - apply conn_ok_unio; [|lia]. pose proof (c_key_length _ Hok) as Hkl.
    assert (Forall is_byte (tail extra)) as Hbt.
    { assert (Forall is_byte extra) as Hbe by by apply Forall_zdrop.
      destruct extra; [constructor|by apply Forall_cons in Hbe as [_ ?]]. }
    destruct Hok. split; try done; cbn.
    + by apply Forall_fill.
    + rewrite length_fill; [done|]. destruct extra; cbn in *; lia.
  - left. eapply (off_state _ _ _ t); [exact Hi|exact Ec|congruence].
Qed.

Lemma value_bytes_more : CMD_SIZE_MAX < c_unio c' -> inv [] [] [] t'.
Proof.
  intros Hmore. destruct value_bytes_lengths as [He Hd]. pose proof Hr as [Ev Ek Hk Hu Hdd Hkey Hdis Hlk _].
  cbn [c_unio c' set_c_unio] in Hmore.
  assert (extra = []) as Hex by (destruct extra; [done|cbn in *; lia]).
  assert (conn_key c' = conn_key c) as Hck by (unfold c'; by rewrite Hex).
  eapply inv_put; [exact value_bytes_inv|apply lookup_insert_eq| | |].
  - unfold link_ok. cbn [c_state c' set_c_unio set_c_key]. rewrite Es, Hck. split; [exact Hlk|].
    exists v, k'. split_and!; try done. apply lookup_insert_eq.
  - unfold io_ok. cbn [c_state c' set_c_unio set_c_key]. rewrite Es. intros v1 k1 Ev1 Ek1.
    change (c_kv c') with (c_kv c) in Ev1. assert (v1 = v) as -> by congruence.
    cbn in Ek1. rewrite lookup_insert_eq in Ek1. injection Ek1 as <-. cbn. fold d. lia.
  - apply (inv_timed _ _ _ _ _ _ Hi Ec). set_solver.
Qed.

Lemma value_bytes_complete (Q : unit -> thread -> Prop) :
  c_unio c' <= CMD_SIZE_MAX -> (forall t2, settled (next_kv t) t2 -> Q tt t2) ->
  wp (conn_unlock_key_for_success h;;
      mod_conn h (fun c => set_c_cmd (set_c_state c CONN_STATE_IN_CMD) (hd 0 extra));;
      c ← get_conn h;
      if cmd_full_readed c then cmd_run h else skip) Q t'.
Proof.
  intros Hfull HQ. destruct value_bytes_lengths as [He Hd]. pose proof Hr as [Ev Ek Hk Hu Hdd Hkey Hdis Hlk _].
  cbn [c_unio c' set_c_unio] in Hfull. wp_step.
  eapply (value_complete t' h c' v k' (hd 0 extra) (c_unio c'));
    [exact value_bytes_inv|apply lookup_insert_eq|cbn; congruence|done|apply lookup_insert_eq|done| | | | |].
  - cbn. fold d. lia.
  - cbn. rewrite Hkey. exact Hlk.
  - by apply hd_byte, Forall_zdrop.
  - cbn. lia.
  - intros t4 c4 Hn4 _ Ec4 _ Hkv4 Ha4 _ Hu4 Hi4. wp_steps.
    set (c5 := set_c_cmd _ _) in Hi4. set (c5' := set_c_cmd _ _).
    assert (c5' = c5) as -> by (unfold c5', c5; rewrite <-Hu4; by destruct c4).
    eapply wp_get_conn; [apply lookup_insert_eq|].
    assert (inv [] [] [] (set_conns t4 (<[h := c5]> (t_conns t4)))) as Hi5.
    { eapply inv_in_cmd; [exact Hi4|apply lookup_insert_eq|done|done|exact Ha4|exact Hfull]. }
    case_match; wp_steps.
    + eapply cmd_run_ok; [exact Hi5|apply lookup_insert_eq|done|]. intros t6 Hs. apply HQ.
      change (next_kv t) with (next_kv t'). rewrite <-Hn4. exact Hs.
    + apply HQ. split; [done|]. exact Hn4.
Qed.
End value_bytes.

Lemma state_set_in_value_ok t h c (Q : unit -> thread -> Prop) :
  inv [] [] [] t -> t_conns t !! h = Some c -> c_state c = CONN_STATE_SET_IN_VALUE ->
  (forall t', settled (next_kv t) t' -> Q tt t') -> wp (state_set_in_value h) Q t.
Proof.
  intros Hi Ec Es HQ. destruct (in_value_facts t h c Hi Ec Es) as (v & k & Hr).
  pose proof Hr as [Ev Ek Hkok Hu Hd _ _ _ _]. pose proof (k_size _ Hkok) as Hsz.
  unfold state_set_in_value. wp_steps. change CMD_SIZE_MAX with 257 in *.
  rewrite (wrap_small 64 (k_val_size k + 257 - c_unio c)) by lia.
  rewrite (wrap_small 64 (k_val_size k - (k_val_size k + 257 - c_unio c))) by lia.
  replace (k_val_size k - (k_val_size k + 257 - c_unio c)) with (c_unio c - 257) by lia.
  cbv zeta. apply wp_assert; [lia|]. wp_step. eapply sys_read_ok; [exact Hi|lia|].
  intros r t1 Hi1 Hq1 Hres. rewrite <-(q_next _ _ Hq1) in HQ.
  assert (t_conns t1 !! h = Some c) as Ec1 by by rewrite (q_conns _ _ Hq1).
  destruct Hres as [bs0 input bs Hin Ebs Hlen Hb|wb|wb]; cbv beta iota.
  2,3: change (0 <? -1) with false; change (0 <? 0) with false; cbv iota; wp_steps;
    (eapply wp_mono; [eapply read_nothing_ok; [exact Hi1|exact Ec1|lia]|]);
    intros b t2 [-> Hs]; wp_steps; by apply HQ.
  assert (receiving t1 h v c k) as Hr1.
  { destruct Hq1, Hr. split; try done; unfold hmap in *; by rewrite ?q_kvs, ?q_hash, ?q_conns. }
  rewrite (proj2 (Z.ltb_lt 0 _)) by lia. wp_steps.
  eapply kv_write_ok; [apply Hr1|exact Hkok|lia|rewrite length_ztake by lia; lia|].
  replace (Z.to_nat (k_val_size k + 257 - c_unio c)) with (length (k_data k)) by lia.
  rewrite fill_end. wp_steps.
  eapply read_some_ok; [apply lookup_insert_eq|cbn; lia|cbn; lia|]. t_simpl. rewrite insert_insert_eq.
  cbn [c_unio set_c_key]. set (c3 := set_c_unio _ _). wp_step. eapply wp_get_conn; [apply lookup_insert_eq|].
  assert (0 < Z.of_nat (length bs) <= c_unio c) as Hl by lia.
  destruct (Z.leb_spec (c_unio c3) 257) as [Hfull|Hmore].
  - by apply (value_bytes_complete t1 h v c k bs).
  - wp_steps. apply HQ. split; [|done]. by apply (value_bytes_more t1 h v c k bs).
Qed.
