(* ===== verification/ThreadRun.v ===== *)
(** * Runs of a cache thread (thread.c)

    The last handlers of a connection, the clock, [accept], and the theorems
    about whole runs of [grab_epoll_events] from [thread_init] on. *)

From S2P Require Import Prelude Slab Memory HashTable Kv KvCache SizeClass Proto.
From S2P Require Import Thread ThreadInv ThreadConn ThreadEvents.

(** ** A value comes into being *)

Lemma inv_new_kv X t k :
  inv [] X [] t -> next_kv t < 2 ^ 49 -> kv_ok k -> k_enabled k = false -> k_borrowers k = [] ->
  inv [] X [next_kv t] (add_kv t k).
Proof.
  intros Hi Hlt Hk He Hb. pose proof Hi as []. destruct i_kvs as [Hn HK].
  assert (forall v k0, t_kvs t !! v = Some k0 -> <[next_kv t := k]> (t_kvs t) !! v = Some k0) as Hold.
  { intros v k0 E. rewrite lookup_insert_ne; [done|]. destruct (HK _ _ E). lia. }
  assert (forall v k0, <[next_kv t := k]> (t_kvs t) !! v = Some k0 -> k_enabled k0 = true ->
    t_kvs t !! v = Some k0) as Hnew.
  { intros v k0 [[<- <-]|[? E]]%lookup_insert_Some; [congruence|done]. }
  assert (forall h c v, t_conns t !! h = Some c -> c_kv c = Some v -> is_Some (t_kvs t !! v)) as Hused.
  { intros h c v Ec Ev. destruct (proj1 i_borrow _ _ _ Ec Ev) as (? & ? & _). eauto. }
  split; unfold add_kv; t_simpl; try done.
  - split; [lia|]. intros v k0 [[<- <-]|[? E]]%lookup_insert_Some; [split; [lia|done]|].
    destruct (HK _ _ E). split; [lia|done].
  - intros v k0 [[<- <-]|[? E]]%lookup_insert_Some Hv He0; [destruct Hv; constructor|]. eapply (i_used _ _ E); [set_solver|done].
  - destruct i_lru as (? & ? & ? & Hs & Hm). split_and!; try done.
    + intros v. rewrite Hs. naive_solver.
    + intros v. rewrite Hm. naive_solver.
  - destruct i_index as (? & ? & H1 & H2). split_and!; try done.
    + intros key v E. destruct (H1 _ _ E) as [|(k0 & ? & ? & ?)]; [by left|right]. eauto.
    + intros v k0 E He0. by apply H2; [apply Hnew|].
  - destruct i_borrow as [H1 H2]. split.
    + intros h c v Ec Ev. destruct (H1 _ _ _ Ec Ev) as (k0 & ? & ?). eauto.
    + intros h k0 v [[<- <-]|[? E]]%lookup_insert_Some Hin; [rewrite Hb in Hin; set_solver|].
      by eapply H2.
  - intros g cg Eg. destruct (i_conns g cg Eg) as [? Ht]. split; [done|]. intros Hg.
    destruct (Ht Hg) as (Hl & Hio & Htm).
    assert (forall v, c_kv cg = Some v -> <[next_kv t := k]> (t_kvs t) !! v = t_kvs t !! v) as Hsame.
    { intros v Ev. destruct (Hused _ _ _ Eg Ev) as [k0 E]. by rewrite (Hold _ _ E). }
    unfold link_ok, io_ok in *. split; [|split; [|done]]; destruct (c_state cg); try done.
    + destruct Hl as (? & v & k0 & Ev & ? & ?). split; [done|]. exists v, k0. by rewrite Hsame.
    + intros v k0 Ev. rewrite Hsame by done. by apply Hio.
    + intros v k0 Ev. rewrite Hsame by done. by apply Hio.
Qed.

(** [kv_malloc], [kv_init] and [kv_borrow] of the handler for a value of [val_size]
    bytes. *)
Definition fresh_kv (k : kv) (key : key) (val_size : Z) (h : Z) : kv :=
  {| k_key := key; k_val_size := val_size; k_concat := k_concat k; k_block := k_block k;
     k_bytes := k_bytes k; k_data := []; k_borrowers := [h]; k_enabled := false;
     k_on_s_lru := k_on_s_lru k |}.

Lemma fresh_kv_ok c k val_size h :
  conn_ok c -> 0 <= val_size < 2 ^ 62 -> room_for (c_key c) val_size k ->
  kv_ok (fresh_kv k (conn_key c) val_size h).
Proof.
  intros Hc Hv Hr. destruct (conn_key_wf c Hc) as (Hwf & Hks & Hr1). destruct Hr.
  assert (kv_size (fresh_kv k (conn_key c) val_size h) = sizeof_kv + KEY_SIZE (c_key c) + val_size)
    as Hsz.
  { unfold kv_size. cbn. rewrite <-Hks. apply wrap_small. unfold sizeof_kv. lia. }
  split; cbn; try done.
  - by rewrite <-Hks.
  - by rewrite Hsz.
  - lia.
  - apply NoDup_singleton.
Qed.

Lemma kv_init_ok t c k val_size (Q : unit -> thread -> Prop) :
  conn_ok c -> 0 <= val_size < 2 ^ 62 -> room_for (c_key c) val_size k ->
  Q tt (add_kv t (set_k_borrowers (fresh_kv k (conn_key c) val_size 0) [])) ->
  wp (kv_init (next_kv t) (c_key c) val_size) Q (add_kv t k).
Proof.
  intros Hc Hv Hr HQ. unfold kv_init. wp_step. eapply wp_get_kv; [apply lookup_insert_eq|].
  wp_step.
  apply wp_assert; [pose proof (r_bytes _ _ _ Hr); lia|]. wp_steps.
  unfold add_kv in *. unfold set_kvs in *. t_simpl. rewrite insert_insert_eq.
  rewrite Z.mod_small by lia. exact HQ.
Qed.

(** The thread in which [h] has a value of [val_size] bytes under construction, [d]
    of them written. *)
Definition building (t : thread) (h : Z) (c : conn) (k : kv) (d : list Z) : thread :=
  set_conns (add_kv t (set_k_data k d)) (<[h := set_c_kv c (Some (next_kv t))]> (t_conns t)).

Lemma begin_kv_ok t h c k val_size (m : unit -> M unit) (Q : unit -> thread -> Prop) :
  inv [] [h] [] t -> t_conns t !! h = Some c -> c_kv c = None -> next_kv t < 2 ^ 49 ->
  0 <= val_size < 2 ^ 62 -> room_for (c_key c) val_size k ->
  (let t' := building t h c (fresh_kv k (conn_key c) val_size h) [] in
   inv [] [h] [] t' -> wp (m tt) Q t') ->
  wp (kv_init (next_kv t) (c_key c) val_size;; kv_borrow (next_kv t) h ≫= m) Q (add_kv t k).
Proof.
  intros Hi Ec Hkv Hn Hv Hr HQ. pose proof (inv_conn_ok _ _ _ _ _ _ Hi Ec) as Hok.
  pose proof (fresh_kv_ok c k val_size h Hok Hv Hr) as Hk.
  set (k0 := set_k_borrowers (fresh_kv k (conn_key c) val_size 0) []).
  assert (kv_ok k0) as Hk0 by (destruct Hk; split; try done; apply NoDup_nil_2).
  wp_step. eapply kv_init_ok; [done..|]. fold k0.
  pose proof (inv_new_kv _ _ k0 Hi Hn Hk0 eq_refl eq_refl) as Hi1.
  wp_step. unfold kv_borrow. wp_step. eapply wp_mod_kv; [apply lookup_insert_eq|].
  eapply wp_mod_conn; [exact Ec|].
  pose proof (inv_borrowed [] [h] _ (add_kv t k0) h (next_kv t) c k0 Hi1 Ec ltac:(set_solver) Hkv
    ltac:(apply lookup_insert_eq)) as Hi2.
  rewrite filter_cons_False in Hi2 by (intros Hne; by apply Hne). rewrite filter_nil in Hi2.
  unfold borrowed in Hi2. revert Hi2. unfold building, add_kv in *. unfold set_kvs in *.
  t_simpl. rewrite insert_insert_eq. exact HQ.
Qed.

Lemma kv_copy_val_ok t h c k buffer m (Q : Z -> thread -> Prop) :
  let t0 := building t h c k [] in
  let n := Z.min (k_val_size k) m in
  inv [] [h] [] t0 -> k_borrowers k = [h] -> k_enabled k = false -> m = Z.of_nat (length buffer) ->
  (inv [] [h] [] (building t h c k (ztake n buffer)) -> Q n (building t h c k (ztake n buffer))) ->
  wp (kv_copy_val (next_kv t) buffer m) Q t0.
Proof.
  intros t0 n Hi Hb He Hm HQ.
  assert (t_kvs t0 !! next_kv t = Some (set_k_data k [])) as Ek by apply lookup_insert_eq.
  pose proof (proj2 (proj2 (i_kvs Hi) _ _ Ek)) as Hk. pose proof (k_size _ Hk) as Hsz. cbn in Hsz.
  unfold kv_copy_val. wp_steps. cbn [k_val_size set_k_data].
  assert ((if k_val_size k <? m then k_val_size k else m) = n) as -> by (unfold n; case_match; lia).
  eapply kv_write_ok; [exact Ek|exact Hk|lia|rewrite length_ztake by lia; cbn; lia|]. cbn [k_data set_k_data].
  change (fill (Z.to_nat 0) (ztake n buffer) []) with (ztake n buffer ++ drop (0 + length (ztake n buffer)) []).
  rewrite drop_nil, app_nil_r. wp_steps.
  assert (forall d, set_kvs t0 (<[next_kv t := set_k_data (set_k_data k []) d]> (t_kvs t0)) =
    building t h c k d) as Eb.
  { intros d. unfold t0, building, add_kv, set_kvs. t_simpl. by rewrite insert_insert_eq. }
  rewrite Eb. apply HQ. rewrite <-Eb. eapply (inv_written _ _ _ h); [done|exact Ek|done| | |set_solver].
  - rewrite length_ztake by lia. cbn. lia.
  - intros g cg Eg Evg Hg. destruct (proj1 (i_borrow Hi) _ _ _ Eg Evg) as (k' & Ek' & Hin).
    rewrite Ek in Ek'. injection Ek' as <-. cbn in Hin. rewrite Hb in Hin. set_solver.
Qed.

Section building.
Context (t : thread) (h : Z) (c : conn) (k : kv) (d : list Z).
Let t' := building t h c k d.
Let c' := set_c_kv c (Some (next_kv t)).
Hypothesis Hi : inv [] [h] [] t'.
Hypothesis Hs : c_state c <> CONN_STATE_GET_BLOCKED.
Hypothesis Hl : hmap t !! conn_key c = Some h.
Hypothesis Hkey : k_key k = conn_key c.
Hypothesis Hdis : k_enabled k = false.
Hypothesis Htm : timed c.

Lemma building_conn : t_conns t' !! h = Some c'.
Proof. apply lookup_insert_eq. Qed.

Lemma building_kv : t_kvs t' !! next_kv t = Some (set_k_data k d).
Proof. apply lookup_insert_eq. Qed.

(** Bytes of the value are missing: the connection waits for them. *)
Lemma value_partial_ok (full : bool) (Q : unit -> thread -> Prop) :
  Z.of_nat (length d) < k_val_size k < 2 ^ 62 ->
  (forall t2, settled (next_kv t') t2 -> Q tt t2) ->
  wp (mod_conn h (fun c => set_c_unio (set_c_state c CONN_STATE_SET_IN_VALUE)
        (u64 (k_val_size k + CMD_SIZE_MAX - Z.of_nat (length d))));;
      if full then state_set_in_value h else skip) Q t'.
Proof.
  intros Hd HQ. change CMD_SIZE_MAX with 257. rewrite wrap_small by lia.
  wp_step. eapply wp_mod_conn; [apply building_conn|].
  set (c2 := set_c_unio _ _). set (t2 := set_conns _ _).
  assert (inv [] [h] [] t2) as Hi2.
  { eapply inv_update_conn; [exact Hi|apply building_conn|set_solver| |done|done|done|].
    - pose proof (inv_conn_ok _ _ _ _ _ _ Hi building_conn) as []. split; try done. cbn. lia.
    - left. eapply off_state; [exact Hi|apply building_conn|done]. }
  assert (t_conns t2 !! h = Some c2) as Ec2 by apply lookup_insert_eq.
  assert (inv [] [] [] t2) as Hi2'.
  { eapply inv_put; [exact Hi2|exact Ec2| | |exact Htm].
    - split; [exact Hl|]. exists (next_kv t), (set_k_data k d). split_and!; try done.
      apply building_kv.
    - intros v k0 Ev Ek. injection Ev as <-.
      assert (k0 = set_k_data k d) as -> by (pose proof building_kv; unfold t2 in Ek; cbn in *; congruence).
      change CMD_SIZE_MAX with 257. cbn. lia. }
  destruct full; [eapply state_set_in_value_ok; [exact Hi2'|exact Ec2|done|]|]; [|wp_steps];
    [exact HQ|apply HQ; by split].
Qed.

(** All of it has arrived, and perhaps the beginning of the next command. *)
Lemma value_done_ok (full : bool) m rest (Q : unit -> thread -> Prop) :
  Z.of_nat (length d) = k_val_size k -> Forall is_byte rest -> m = Z.of_nat (length rest) ->
  (forall t2, settled (next_kv t') t2 -> Q tt t2) ->
  wp (conn_unlock_key_for_success h;;
      mod_conn h (fun c => set_c_unio (set_c_state c CONN_STATE_IN_CMD) (u64 (CMD_SIZE_MAX - m)));;
      store_cmd h 0 rest;;
      c ← get_conn h;
      if cmd_full_readed c then cmd_run h else if full then state_in_cmd h else skip) Q t'.
Proof.
  intros Hd Hb -> HQ. change CMD_SIZE_MAX with 257.
  pose proof (inv_conn_ok _ _ _ _ _ _ Hi building_conn) as Hok.
  wp_step. eapply (value_complete t' h c' (next_kv t) (set_k_data k d) (c_cmd c) 0);
    [exact Hi|apply building_conn|exact Hs|done|apply building_kv|done|done| |apply Hok|lia|].
  { cbn. rewrite Hkey. exact Hl. }
  intros t1 c1 Hn1 Hi1 Ec1 Hs1 Hkv1 Ha1 _ _ _. wp_steps.
  set (c2 := set_c_unio _ _).
  assert (conn_ok c2) as Hok2.
  { destruct (inv_conn_ok _ _ _ _ _ _ Hi1 Ec1). split; try done. cbn.
    change (0 <= u64 (257 - Z.of_nat (length rest)) < 2 ^ 64). apply Z.mod_pos_bound. lia. }
  assert (c_state c1 <> CONN_STATE_GET_BLOCKED) as Hs1' by (rewrite Hs1; exact Hs).
  eapply store_cmd_ok; [apply lookup_insert_eq|exact Hok2|exact Hb|].
  intros cmd key _ Hfit Hok3. change CMD_SIZE_MAX with 257 in Hfit.
  unfold set_conns in *. t_simpl. rewrite insert_insert_eq. fold (set_conns t1
    (<[h := set_c_key (set_c_cmd c2 cmd) key]> (t_conns t1))).
  set (c3 := set_c_key _ _) in *. set (t3 := set_conns _ _).
  assert (t_conns t3 !! h = Some c3) as Ec3 by apply lookup_insert_eq.
  assert (inv [] [] [] t3) as Hi3.
  { eapply (inv_in_cmd t3 h c3); [|exact Ec3|done|exact Hkv1|exact Ha1|].
    - eapply inv_update_conn; [exact Hi1|exact Ec1|set_solver|exact Hok3|done|done|done|].
      left. by eapply off_state.
    - change CMD_SIZE_MAX with 257. cbn. change (u64 (257 - Z.of_nat (length rest)) <= 257).
      rewrite wrap_small by lia. lia. }
  wp_step. eapply wp_get_conn; [exact Ec3|]. rewrite <-Hn1 in HQ. case_match.
  - eapply cmd_run_ok; [exact Hi3|exact Ec3|done|exact HQ].
  - destruct full; [eapply state_in_cmd_ok; [exact Hi3|exact Ec3|done|exact HQ]|].
    wp_steps. apply HQ. by split.
Qed.
End building.

(** The size the client announces when a read that was given the bytes [bs0]
    completes it. *)
Definition announced (c : conn) (bs0 : list Z) : option Z :=
  let readed := u64 (SET_REQ_SIZE + SET_EXTRA_BUFFER - c_unio c) in
  let rest := u64 (SET_REQ_SIZE - readed) in
  let bs := ztake (rest + SET_EXTRA_BUFFER) (bytes bs0) in
  if Z.of_nat (length bs) <? rest then None
  else Some (get 0 8 (fill (Z.to_nat readed) (ztake rest bs) (c_buffer c))).

(** No size of 2^62 bytes or more is announced to [h]. *)
Definition modest (t : thread) (h : Z) : bool :=
  match t_conns t !! h, t_input t with
  | Some c, Got bs0 :: _ =>
      if decide (c_state c = CONN_STATE_SET_IN_VALUE_SIZE)
      then match announced c bs0 with Some v => v <? 2 ^ 62 | None => true end
      else true
  | _, _ => true
  end.

Lemma le_combine_pos l : Forall is_byte l -> 0 <= le_combine l.
Proof.
  induction 1 as [|b l [Hb _] _ IH]; [done|]. cbn [le_combine].
  change (0 <= b + 256 * le_combine l). lia.
Qed.

Definition grown (t t' : thread) : Prop :=
  inv [] [] [] t' /\ next_kv t <= next_kv t' <= next_kv t + 1.

Lemma settled_grown t t' : settled (next_kv t) t' -> grown t t'.
Proof. intros [? E]. split; [done|]. rewrite E. lia. Qed.

(** The size has arrived, with the bytes [buffer] after it. *)
Lemma value_size_ok t h c buffer (Q : unit -> thread -> Prop) :
  let val_size := get 0 8 (c_buffer c) in
  let buffer_n := u64 (SET_EXTRA_BUFFER - c_unio c) in
  inv [] [h] [] t -> t_conns t !! h = Some c -> c_state c = CONN_STATE_SET_IN_VALUE_SIZE ->
  c_kv c = None -> hmap t !! conn_key c = Some h -> timed c -> next_kv t < 2 ^ 49 ->
  val_size < 2 ^ 62 ->
  buffer_n = Z.of_nat (length buffer) -> Forall is_byte buffer ->
  (forall t', grown t t' -> Q tt t') ->
  wp (kv ← kv_malloc (c_key c) val_size;
      match kv with
      | None => free_conn h
      | Some kv =>
          kv_init kv (c_key c) val_size;;
          kv_borrow kv h;;
          n ← kv_copy_val kv buffer buffer_n;
          if n <? val_size then
            mod_conn h (fun c => set_c_unio (set_c_state c CONN_STATE_SET_IN_VALUE)
                                   (u64 (val_size + CMD_SIZE_MAX - n)));;
            if buffer_n =? SET_EXTRA_BUFFER then state_set_in_value h else skip
          else
            conn_unlock_key_for_success h;;
            mod_conn h (fun c => set_c_unio (set_c_state c CONN_STATE_IN_CMD)
                                   (u64 (CMD_SIZE_MAX - (buffer_n - n))));;
            store_cmd h 0 (zdrop n buffer);;
            c ← get_conn h;
            if cmd_full_readed c then cmd_run h
            else if buffer_n =? SET_EXTRA_BUFFER then state_in_cmd h else skip
      end) Q t.
Proof.
  intros val_size buffer_n Hi Ec Es Hkv Hl Htm Hnext Hv Hbn Hbb HQ.
  pose proof (inv_conn_ok _ _ _ _ _ _ Hi Ec) as Hok.
  assert (0 <= val_size) as Hv0.
  { apply le_combine_pos, Forall_take, Forall_drop, Hok. }
  destruct (conn_key_wf c Hok) as (_ & _ & Hks).
  wp_step. eapply kv_malloc_ok;
    [exact Hi|exact Hks|done|change PAGE_MASK with 4095; change sizeof_kv with 56; lia|..].
  - intros t1 [Hi1 Hf]. eapply free_conn_ok; [exact Hi1|by rewrite (f_conns _ _ Hf)| |].
    + unfold link_ok. rewrite Es. split; [done|]. apply (f_locks _ _ Hf); eauto.
    + intros t2 Hi2 _ Hn2. apply HQ. split; [done|]. rewrite Hn2, (f_next _ _ Hf). lia.
  - intros t1 k0 [Hi1 Hf] Hroom.
    assert (t_conns t1 !! h = Some c) as Ec1 by by rewrite (f_conns _ _ Hf).
    assert (hmap t1 !! conn_key c = Some h) as Hl1 by (apply (f_locks _ _ Hf); eauto).
    pose proof (f_next _ _ Hf) as Hn1.
    eapply begin_kv_ok; [exact Hi1|exact Ec1|exact Hkv|lia|lia|exact Hroom|].
    intros t2 Hi2. wp_step.
    eapply kv_copy_val_ok; [exact Hi2|done|done|exact Hbn|]. cbn [k_val_size fresh_kv].
    set (k := fresh_kv _ _ _ _) in *. set (n := Z.min _ _). intros Hi3.
    set (d := ztake n buffer) in *.
    assert (0 <= n) as Hn0 by lia.
    assert (Z.of_nat (length d) = n) as Hd by (unfold d; rewrite length_ztake by lia; lia).
    assert (forall t4, settled (next_kv (building t1 h c k d)) t4 -> Q tt t4) as HQ4.
    { intros t4 [Hi4 Hn4]. apply HQ. split; [done|]. rewrite Hn4. cbn. lia. }
    destruct (Z.ltb_spec n val_size) as [Hlt|Hge].
    + rewrite <-Hd. eapply (value_partial_ok t1 h c k d Hi3);
        [congruence|done|done|done|exact Htm|cbn; lia|exact HQ4].
    + eapply (value_done_ok t1 h c k d Hi3); [congruence|done|done|done|exact Htm|cbn; lia| | |exact HQ4].
      * by apply Forall_zdrop.
      * rewrite length_zdrop by lia. lia.
Qed.

Lemma modest_lt t h c bs0 input v :
  modest t h = true -> t_conns t !! h = Some c -> c_state c = CONN_STATE_SET_IN_VALUE_SIZE ->
  t_input t = Got bs0 :: input -> announced c bs0 = Some v -> v < 2 ^ 62.
Proof.
  intros Hm Ec Es Hin Ha. unfold modest in Hm. rewrite Ec, Hin, decide_True, Ha in Hm by done.
  by apply Z.ltb_lt.
Qed.

(** What is known of a connection that receives the size of a value. *)
Lemma in_size_facts t h c :
  inv [] [] [] t -> t_conns t !! h = Some c -> c_state c = CONN_STATE_SET_IN_VALUE_SIZE ->
  SET_EXTRA_BUFFER < c_unio c <= SET_REQ_SIZE + SET_EXTRA_BUFFER /\
  c_kv c = None /\ hmap t !! conn_key c = Some h /\ timed c.
Proof.
  intros Hi Ec Es. destruct (inv_tag _ _ _ _ _ _ Hi Ec) as [Hl Hio]; [set_solver|].
  unfold link_ok in Hl. unfold io_ok in Hio. rewrite Es in Hl, Hio. destruct Hl as [Hkv Hl].
  split_and!; try done; try lia. apply (inv_timed _ _ _ _ _ _ Hi Ec). set_solver.
Qed.

(** Bytes [bs] were read while the size was incomplete: the buffer takes what it
    misses. *)
Section size_bytes.
Context (t : thread) (h : Z) (c : conn) (bs : list Z).
Hypothesis Hi : inv [] [] [] t.
Hypothesis Ec : t_conns t !! h = Some c.
Hypothesis Es : c_state c = CONN_STATE_SET_IN_VALUE_SIZE.
Hypothesis Hlen : 0 < Z.of_nat (length bs) <= c_unio c.
Hypothesis Hb : Forall is_byte bs.
Let readed := SET_REQ_SIZE + SET_EXTRA_BUFFER - c_unio c.
Let c' := set_c_unio (set_c_buffer c (fill (Z.to_nat readed)
  (ztake (c_unio c - SET_EXTRA_BUFFER) bs) (c_buffer c))) (c_unio c - Z.of_nat (length bs)).
Let t' := set_conns t (<[h := c']> (t_conns t)).

Lemma size_bytes_inv : inv [] [h] [] t'.
Proof.
  destruct (in_size_facts t h c Hi Ec Es) as (Hu & _). pose proof (inv_conn_ok _ _ _ _ _ _ Hi Ec) as Hok.
  change SET_EXTRA_BUFFER with 16384 in *. change SET_REQ_SIZE with 8 in *.
  eapply (inv_update_conn _ _ _ t h c); [by apply inv_take|exact Ec|set_solver| |done|done|done|].
  - pose proof (c_unio_range _ Hok). apply conn_ok_unio; [|lia]. pose proof (c_buffer_length _ Hok).
    pose proof (length_ztake (c_unio c - 16384) bs ltac:(lia)) as Hl.
    destruct Hok. split; try done; cbn.
    + apply Forall_fill; [by apply Forall_ztake|done].
    + rewrite length_fill; [done|]. lia.
  - left. eapply off_state; [exact Hi|exact Ec|congruence].
Qed.

Lemma size_bytes_more : SET_EXTRA_BUFFER < c_unio c' -> inv [] [] [] t'.
Proof.
  intros Hmore. destruct (in_size_facts t h c Hi Ec Es) as (Hu & Hkv & Hl & Htm).
  eapply inv_put; [exact size_bytes_inv|apply lookup_insert_eq| | |exact Htm].
  - unfold link_ok. change (c_state c') with (c_state c). rewrite Es. done.
  - unfold io_ok. change (c_state c') with (c_state c). rewrite Es. cbn in *. lia.
Qed.
End size_bytes.

Lemma state_set_in_value_size_ok t h c (Q : unit -> thread -> Prop) :
  inv [] [] [] t -> t_conns t !! h = Some c -> c_state c = CONN_STATE_SET_IN_VALUE_SIZE ->
  next_kv t < 2 ^ 49 -> modest t h = true ->
  (forall t', grown t t' -> Q tt t') -> wp (state_set_in_value_size h) Q t.
Proof.
  intros Hi Ec Es Hnext Hmod HQ. destruct (in_size_facts t h c Hi Ec Es) as (Hio & Hkv & Hl & Htm).
  change SET_EXTRA_BUFFER with 16384 in *. change SET_REQ_SIZE with 8 in *.
  unfold state_set_in_value_size. wp_steps.
  change SET_EXTRA_BUFFER with 16384. change SET_REQ_SIZE with 8.
  rewrite (wrap_small 64 (8 + 16384 - c_unio c)) in * by lia.
  rewrite (wrap_small 64 (8 - (8 + 16384 - c_unio c))) in * by lia.
  replace (8 - (8 + 16384 - c_unio c)) with (c_unio c - 16384) in * by lia.
  cbv zeta. apply wp_assert; [lia|]. wp_step. eapply sys_read_ok; [exact Hi|lia|].
  intros r t1 Hi1 Hq1 Hr. assert (t_conns t1 !! h = Some c) as Ec1 by by rewrite (q_conns _ _ Hq1).
  destruct Hr as [bs0 input bs Hin Ebs Hlen Hb|wb|wb]; cbv beta iota.
  2,3: change (0 <? -1) with false; change (0 <? 0) with false; cbv iota; wp_steps;
    (eapply wp_mono; [eapply read_nothing_ok; [exact Hi1|exact Ec1|lia]|]);
    intros b t2 [-> Hs]; wp_steps; apply HQ, settled_grown; rewrite <-(q_next _ _ Hq1); exact Hs.
  rewrite (proj2 (Z.ltb_lt 0 _)) by lia. wp_steps.
  eapply read_some_ok; [apply lookup_insert_eq|cbn; lia|cbn; lia|]. t_simpl. rewrite insert_insert_eq.
  cbn [c_unio set_c_buffer]. set (c3 := set_c_unio _ _). set (t3 := set_conns _ _).
  assert (t_conns t3 !! h = Some c3) as Ec3 by apply lookup_insert_eq.
  assert (0 < Z.of_nat (length bs) <= c_unio c) as Hlen' by lia.
  assert (inv [] [h] [] t3) as Hi3 by (by apply (size_bytes_inv t1 h c bs)).
  assert (next_kv t3 = next_kv t) as Hn3 by apply (q_next _ _ Hq1).
  wp_steps. change (c_unio c3) with (c_unio c - Z.of_nat (length bs)).
  destruct (Z.ltb_spec 16384 (c_unio c - Z.of_nat (length bs))) as [Hmore|Hfull].
  - wp_steps. apply HQ. split; [|rewrite Hn3; lia]. by apply (size_bytes_more t1 h c bs).
  - eapply (value_size_ok t3 h c3 (zdrop (c_unio c - 16384) bs));
      [exact Hi3|exact Ec3|exact Es|exact Hkv| |exact Htm|lia| | |by apply Forall_zdrop|].
    + unfold hmap. change (t_hash t3) with (t_hash t1). rewrite (q_hash _ _ Hq1). exact Hl.
    + eapply modest_lt; [exact Hmod|exact Ec|exact Es|exact Hin|]. unfold announced.
      change SET_EXTRA_BUFFER with 16384. change SET_REQ_SIZE with 8.
      rewrite (wrap_small 64 (8 + 16384 - c_unio c)) by lia.
      rewrite (wrap_small 64 (8 - (8 + 16384 - c_unio c))) by lia.
      replace (8 - (8 + 16384 - c_unio c)) with (c_unio c - 16384) by lia.
      rewrite <-Ebs, (proj2 (Z.ltb_ge _ _)) by lia. done.
    + change (c_unio c3) with (c_unio c - Z.of_nat (length bs)). change SET_EXTRA_BUFFER with 16384.
      rewrite wrap_small by lia. rewrite length_zdrop by lia. lia.
    + intros t4 [? ?]. apply HQ. split; [done|]. lia.
Qed.

(** ** The clock *)

Lemma called_locked t h c :
  inv [] [] [] t -> t_conns t !! h = Some c -> c_clock_called c = true ->
  conn_with_key_locked c = true.
Proof.
  intros Hi Ec Hc. destruct (inv_tag _ _ _ _ _ _ Hi Ec) as [Hl _]; [set_solver|].
  unfold conn_with_key_locked, link_ok, alone in *.
  destruct (c_state c); naive_solver congruence.
Qed.

Lemma remove_head h l : NoDup (h :: l) -> remove h (h :: l) = l.
Proof.
  intros [Hh _]%NoDup_cons. unfold remove. rewrite filter_cons_False by (intros Hne; by apply Hne).
  by apply remove_none.
Qed.

(** What taking locks away does to the connections of a thread. *)
Record ticked (l : list Z) (t t' : thread) : Prop := {
  tk_live : forall w cw, t_conns t !! w = Some cw -> exists cw', t_conns t' !! w = Some cw' /\
    (c_state cw <> CONN_STATE_GET_BLOCKED -> c_state cw' <> CONN_STATE_GET_BLOCKED) /\
    (c_state cw = CONN_STATE_FREE -> c_state cw' = CONN_STATE_FREE);
  tk_kept : forall g cg, t_conns t !! g = Some cg -> c_state cg <> CONN_STATE_GET_BLOCKED ->
    g ∉ l -> t_conns t' !! g = Some cg;
  tk_freed : forall g, g ∈ l -> exists c', t_conns t' !! g = Some c' /\ c_state c' = CONN_STATE_FREE;
  tk_served : forall g cg w, g ∈ l -> t_conns t !! g = Some cg -> head (c_waiting cg) = Some w ->
    exists cw, t_conns t' !! w = Some cw /\ c_state cw <> CONN_STATE_GET_BLOCKED /\
      c_waiting cw = tail (c_waiting cg) /\ c_clock_called cw = true
}.

Lemma ticked_nil t : ticked [] t t.
Proof. split; try set_solver; eauto. Qed.

Lemma ticked_cons t t1 t' h c l :
  inv [] [] [] t -> t_conns t !! h = Some c -> c_state c <> CONN_STATE_GET_BLOCKED ->
  h ∉ l -> (forall g, g ∈ l -> exists cg, t_conns t !! g = Some cg /\ c_state cg <> CONN_STATE_GET_BLOCKED) ->
  freed t t1 h c -> ticked l t1 t' -> ticked (h :: l) t t'.
Proof.
  intros Hi Ec Hs Hl Hall [_ _ (c1 & E1 & Ef1) Ho Hrest Hlock] [Hlive Hkept Hfreed Hserved].
  assert (forall w, head (c_waiting c) = Some w ->
    exists cw, t_conns t1 !! w = Some cw /\ c_state cw <> CONN_STATE_GET_BLOCKED /\
      c_waiting cw = tail (c_waiting c) /\ c_clock_called cw = true) as Hfirst.
  { intros w Hw. unfold handed_over in Hlock. destruct (c_waiting c) as [|f rest]; [done|].
    injection Hw as ->. destruct Hlock as (_ & f & _ & E & _). by eexists. }
  assert (forall w, head (c_waiting c) = Some w -> w ∉ l) as Hnot.
  { intros w Hw Hwl. destruct (Hall w Hwl) as (cw & Ew & Hb).
    assert (w ∈ c_waiting c) as Hin by (destruct (c_waiting c); [done|injection Hw as ->; left]).
    destruct (proj2 (i_wait Hi _ _ Ec) _ Hin) as (cw' & x & Ew' & Es & _). congruence. }
  split.
  - intros w cw Ew. destruct (decide (w = h)) as [->|Hne].
    + destruct (Hlive _ _ E1) as (cw' & E' & _ & Hf). exists cw'. rewrite (Hf Ef1). done.
    + destruct (decide (head (c_waiting c) = Some w)) as [Hw|Hw].
      * destruct (Hfirst w Hw) as (cw1 & Ew1 & Hs1 & _). destruct (Hlive _ _ Ew1) as (cw' & E' & Hb & Hf).
        exists cw'. split_and!; [done|by intros _; apply Hb|]. intros Hfree.
        assert (t_conns t1 !! w = Some cw) as Esame by (apply Ho; [done|done|congruence]).
        apply Hf. congruence.
      * apply (Hlive w cw). by apply Hrest.
  - intros g cg Eg Hb Hg. apply Hkept; [|done|set_solver]. apply Ho; set_solver.
  - intros g [->|Hg]%elem_of_cons; [|by apply Hfreed].
    destruct (Hlive _ _ E1) as (c' & E' & _ & Hf). eauto.
  - intros g cg w [->|Hg]%elem_of_cons Eg Hw.
    + assert (cg = c) as -> by congruence. destruct (Hfirst w Hw) as (cw & Ew & Hsw & ?).
      exists cw. split; [|done]. apply Hkept; [done|done|by apply Hnot].
    + destruct (Hall g Hg) as (cg0 & E0 & Hb0). assert (cg0 = cg) as -> by congruence.
      apply (Hserved g cg w Hg); [|done]. apply Ho; [|done|done]. intros ->. done.
Qed.

Lemma locked_not_blocked c : conn_with_key_locked c = true -> c_state c <> CONN_STATE_GET_BLOCKED.
Proof. intros Hlk%locked_states. naive_solver congruence. Qed.

Lemma clock_loop_ok l : forall t (Q : unit -> thread -> Prop),
  inv [] [] [] t -> clock_death t = l ->
  (forall t', settled (next_kv t) t' -> clock_death t' = [] -> ticked l t t' -> Q tt t') ->
  wp (iter change_locked_to_free l) Q t.
Proof.
  induction l as [|h l IH]; intros t Q Hi Ed HQ; cbn [iter].
  - wp_steps. apply HQ; [by split|done|apply ticked_nil].
  - destruct (i_clock Hi) as [Hnd Hin]. rewrite Ed in Hnd, Hin.
    assert (forall g, g ∈ h :: l -> exists cg, t_conns t !! g = Some cg /\ conn_with_key_locked cg = true)
      as Hlock.
    { intros g Hg. destruct (proj1 (Hin g)) as (c & Ec & Hc); [set_solver|].
      exists c. split; [done|by eapply called_locked]. }
    apply NoDup_app in Hnd as (_ & _ & Hnd).
    destruct (Hlock h) as (c & Ec & Hc); [set_solver|].
    wp_step. eapply change_locked_to_free_ok; [done|done|done|].
    intros t1 Hi1 Hf. pose proof (fr_next _ _ _ _ Hf) as Hn1. apply IH; [done| |].
    + rewrite (fr_death _ _ _ _ Hf), Ed. by apply remove_head.
    + intros t2. rewrite Hn1. intros Hs Hd Htk. apply HQ; [done|done|].
      eapply (ticked_cons t t1); [done|exact Ec|by apply locked_not_blocked|by apply NoDup_cons in Hnd as [? _]| |done|done].
      intros g Hg. destruct (Hlock g) as (cg & ? & ?); [set_solver|]. exists cg.
      split; [done|by apply locked_not_blocked].
Qed.

(** A tick takes the locks of [clock_death] away, and the connections of
    [clock_probation] are the next. *)
Lemma clock_tick_ok t (Q : unit -> thread -> Prop) :
  inv [] [] [] t ->
  (forall t', settled (next_kv t) t' -> ticked (clock_death t) t t' -> clock_probation t' = [] ->
     (forall g, g ∈ clock_probation t -> g ∈ clock_death t') -> Q tt t') ->
  wp clock_service Q t.
Proof.
  intros Hi HQ. unfold clock_service. wp_steps. eapply clock_loop_ok; [done|done|].
  intros t1 [Hi1 Hn1] Ed1 Htk. wp_steps. pose proof (i_clock Hi) as [Hnd Hin].
  assert (forall g, g ∈ clock_probation t -> g ∈ clock_probation t1) as Hp.
  { intros g Hg. destruct (proj1 (Hin g)) as (c & Ec & Hc); [set_solver|].
    assert (t_conns t1 !! g = Some c) as Ec1.
    { eapply tk_kept; [exact Htk|done| |].
      - eapply locked_not_blocked, called_locked; [exact Hi|done|done].
      - intros Hd. apply NoDup_app in Hnd as (_ & Hdis & _). by apply (Hdis g). }
    pose proof (proj2 (proj2 (i_clock Hi1) g)) as H1. rewrite Ed1, app_nil_r in H1. apply H1. eauto. }
  destruct (clock_probation t1) as [|g p] eqn:Ep; wp_steps.
  - apply HQ; [by split|done|done|]. intros g Hg. apply Hp in Hg. set_solver.
  - apply HQ; [split; [|done]| |done|done].
    + pose proof Hi1 as []. split; try done. t_simpl.
      unfold clock_inv in *. by rewrite Ep, Ed1, app_nil_r in i_clock.
    + by destruct Htk.
Qed.

Lemma clock_service_ok t (Q : unit -> thread -> Prop) :
  inv [] [] [] t -> (forall t', settled (next_kv t) t' -> Q tt t') -> wp clock_service Q t.
Proof. intros Hi HQ. eapply clock_tick_ok; [done|]. intros t' Hs _ _ _. by apply HQ. Qed.

(** ** New connections *)

Lemma inv_new_conn t h pool c :
  inv [] [] [] t -> conn_pool t = h :: pool -> conn_ok c -> c_state c = CONN_STATE_OUT_SUCCESS ->
  c_kv c = None -> c_waiting c = [] -> c_clock_called c = false ->
  inv [] [] [] (set_conns (set_conn_pool t pool) (<[h := c]> (t_conns t))).
Proof.
  intros Hi Ep Hok Es Hkv Hw Hcl. pose proof Hi as []. rewrite Ep in i_pool.
  destruct i_pool as ([Hh Hnd]%NoDup_cons & Hfree & Hall).
  assert (t_conns t !! h = None) as Hnone by (apply Hfree; set_solver).
  assert (0 <= h < THREAD_MAX_CONN) as Hr by (apply Hall; set_solver).
  assert (forall g cg, t_conns t !! g = Some cg -> <[h := c]> (t_conns t) !! g = Some cg) as Hold.
  { intros g cg E. rewrite lookup_insert_ne; [done|congruence]. }
  assert (unlocked (hmap t) h) as Hun.
  { intros key E. destruct (proj1 (proj2 (proj2 i_index)) _ _ E) as [[? ?]|(k & Ek & _)]; [congruence|].
    destruct (proj2 i_kvs _ _ Ek). lia. }
  split; t_simpl; try done.
  - split_and!; [done| |].
    + intros g Hg. rewrite lookup_insert_ne by (intros ->; done). apply Hfree. set_solver.
    + intros g. rewrite <-Hall. destruct (decide (g = h)) as [->|Hne].
      * rewrite lookup_insert_eq. split; [intros _; left; set_solver|eauto].
      * rewrite lookup_insert_ne by done. set_solver.
  - destruct i_index as (? & ? & H1 & H2). split_and!; try done.
    intros key g E. destruct (H1 _ _ E) as [[? ?]|]; [left; eauto|by right].
  - destruct i_borrow as [H1 H2]. split.
    + intros g cg v [[<- <-]|[? E]]%lookup_insert_Some Ev; [congruence|by eapply H1].
    + intros g k v Ek Hg. destruct (H2 _ _ _ Ek Hg) as (cg & ? & ?). eauto.
  - destruct i_clock as [Hn Hin]. split; [done|]. intros g. rewrite Hin. split.
    + intros (cg & E & ?). eauto.
    + intros (cg & [[<- <-]|[? E]]%lookup_insert_Some & ?); [congruence|eauto].
  - intros g cg [[<- <-]|[? E]]%lookup_insert_Some.
    + rewrite Hw. split; [constructor|set_solver].
    + destruct (i_wait _ _ E) as [? Hwt]. split; [done|]. intros w Hin.
      destruct (Hwt w Hin) as (cw & x & Ew & ?). exists cw, x. split; [by apply Hold|done].
  - intros g cg [[<- <-]|[? E]]%lookup_insert_Some.
    + split; [done|]. intros _. unfold link_ok, io_ok. rewrite Es.
      split; [done|split; [done|]]. intros Hne. by rewrite Hw in Hne.
    + destruct (i_conns _ _ E) as [? Ht]. split; [done|]. intros Hg. destruct (Ht Hg) as [Hl Hio].
      split; [|done]. unfold link_ok in *. destruct (c_state cg); try done.
      destruct Hl as (? & ? & g' & cg' & E' & ?). split_and!; [done..|]. exists g', cg'. eauto.
Qed.

Lemma le_combine_lt l : Forall is_byte l -> le_combine l < 2 ^ (8 * Z.of_nat (length l)).
Proof.
  induction 1 as [|b l [_ Hb] _ IH]; [done|]. cbn [le_combine length].
  replace (8 * Z.of_nat (S (length l))) with (8 + 8 * Z.of_nat (length l)) by lia.
  rewrite Z.pow_add_r by lia. change (2 ^ 8) with 256.
  change (b + 256 * le_combine l < 256 * 2 ^ (8 * Z.of_nat (length l))). lia.
Qed.

Lemma get_range o w l : Forall is_byte l -> (o + w <= length l)%nat -> 0 <= get o w l < 2 ^ (8 * Z.of_nat w).
Proof.
  intros Hl Hw. unfold get, field. assert (Forall is_byte (take w (drop o l))) as Hb
    by by apply Forall_take, Forall_drop.
  split; [by apply le_combine_pos|]. pose proof (le_combine_lt _ Hb) as Hlt.
  rewrite length_take, length_drop in Hlt. by rewrite Nat.min_l in Hlt by lia.
Qed.

Lemma inv_emitted W X Y t o : inv W X Y t -> inv W X Y (set_output t o).
Proof. intros Hi. eapply (quiet_inv _ _ _ t); [by split|apply Hi|exact Hi]. Qed.

Lemma thread_accept_ok t fd raw (Q : unit -> thread -> Prop) :
  inv [] [] [] t -> (forall t', settled (next_kv t) t' -> Q tt t') -> wp (thread_accept fd raw) Q t.
Proof.
  intros Hi HQ. unfold thread_accept, conn_malloc. wp_steps.
  destruct (conn_pool t) as [|h pool] eqn:Ep; wp_steps; cbv beta iota.
  - wp_steps. apply HQ. split; [|done]. by apply inv_emitted.
  - assert (Forall is_byte (sized 274 raw)) as Hb by apply bytes_ok.
    assert (length (sized 274 raw) = 274%nat) as Hl.
    { unfold sized, bytes. rewrite length_fmap, length_take, length_app, length_replicate. lia. }
    cbv zeta. wp_steps. unfold epfd_weak_up_conn. wp_steps.
    eapply wp_get_conn; [apply lookup_insert_eq|]. wp_steps. apply HQ. split; [|done].
    apply inv_emitted, (inv_new_conn t h pool _ Hi Ep); try done.
    split; cbn [c_key c_cmd c_buffer c_unio].
    + by apply Forall_take, Forall_drop.
    + unfold field. rewrite length_take, length_drop. lia.
    + apply (get_range 17 1); [done|lia].
    + by apply Forall_take, Forall_drop.
    + unfold field. rewrite length_take, length_drop. lia.
    + apply (get_range 9 8); [done|lia].
Qed.

(** ** Events *)

(** The connection of an event exists, and announces no size of 2^62 bytes. *)
Definition admissible (t : thread) (e : epoll_event) : bool :=
  match e with
  | Ev_conn h _ => bool_decide (is_Some (t_conns t !! h)) && modest t h
  | _ => true
  end.

Lemma blocked_not_ready events :
  Z.land events (Z.lnot (Z.lor EPOLLIN EPOLLOUT)) = 0 ->
  Z.land events (state_code CONN_STATE_GET_BLOCKED) = 0.
Proof.
  intros H. change (state_code CONN_STATE_GET_BLOCKED)
    with (Z.land (Z.lnot (Z.lor EPOLLIN EPOLLOUT)) 8).
  by rewrite Z.land_assoc, H.
Qed.

Lemma process_conn_ok t h c (Q : unit -> thread -> Prop) :
  inv [] [] [] t -> t_conns t !! h = Some c -> c_state c <> CONN_STATE_GET_BLOCKED ->
  next_kv t < 2 ^ 49 -> modest t h = true ->
  (forall t', grown t t' -> Q tt t') -> wp (process_conn h) Q t.
Proof.
  intros Hi Ec Hs Hn Hm HQ.
  assert (forall t', settled (next_kv t) t' -> Q tt t') as HQ' by (intros; by apply HQ, settled_grown).
  unfold process_conn. wp_steps. destruct (c_state c) eqn:Es; [..| |].
  - by eapply state_in_cmd_ok.
  - done.
  - by eapply state_out_success_ok.
  - eapply state_get_out_hit_ok; [exact Hi|set_solver|exact Ec|exact Es|].
    intros t' Hi' [_ _ Hn']. apply HQ'. by split.
  - destruct (inv_tag _ _ _ _ _ _ Hi Ec) as [Hl _]; [set_solver|].
    unfold link_ok in Hl. rewrite Es in Hl. destruct Hl as [Hkv Ha].
    eapply conn_free_ok; [apply inv_take, Hi|exact Ec|exact Hkv|exact Ha| |].
    + eapply off_state; [exact Hi|exact Ec|congruence].
    + intros t' Hi' Hq. apply HQ'. split; [done|]. apply (q_next _ _ Hq).
  - by eapply state_get_out_miss_ok.
  - by eapply state_set_in_value_size_ok.
  - by eapply state_set_in_value_ok.
Qed.

Lemma handle_event_ok t e (Q : unit -> thread -> Prop) :
  inv [] [] [] t -> next_kv t < 2 ^ 49 -> admissible t e = true ->
  (forall t', grown t t' -> Q tt t') -> wp (handle_event e) Q t.
Proof.
  intros Hi Hn Ha HQ.
  assert (forall t', settled (next_kv t) t' -> Q tt t') as HQ' by (intros; by apply HQ, settled_grown).
  destruct e as [fd raw| |h events]; cbn [handle_event].
  - by apply thread_accept_ok.
  - by apply clock_service_ok.
  - cbn in Ha. apply andb_true_iff in Ha as [[c Ec]%bool_decide_eq_true Hm].
    case_match eqn:E1.
    + eapply free_conn_ok; [apply inv_take, Hi|exact Ec| |].
      * by apply (inv_tag _ _ _ _ _ _ Hi Ec); set_solver.
      * intros t' Hi' _ Hn'. apply HQ'. by split.
    + apply negb_false_iff, Z.eqb_eq, blocked_not_ready in E1. wp_steps.
      case_match eqn:E2; wp_steps; [|apply HQ'; by split].
      apply negb_true_iff, Z.eqb_neq in E2.
      eapply process_conn_ok; [exact Hi|exact Ec|congruence|exact Hn|exact Hm|exact HQ].
Qed.

(** ** The start *)

Lemma caches_inv_init : caches_inv size_classes.
Proof.
  split; [done|]. apply list.Forall_forall. intros c [i Hc]%list_elem_of_lookup.
  destruct (size_classes_geom _ _ Hc) as (Hg & -> & _). split; [done|].
  destruct Hg as (_ & _ & ? & _). lia.
Qed.

Lemma pool_inv_init : pool_inv (reverse (zrange (Z.to_nat THREAD_MAX_CONN))) ∅.
Proof.
  split_and!.
  - apply (bool_decide_unpack _). vm_compute. exact I.
  - intros h _. apply lookup_empty.
  - intros h. rewrite lookup_empty, is_Some_alt, elem_of_reverse, elem_of_zrange.
    change THREAD_MAX_CONN with 128. cbn. naive_solver lia.
Qed.

Lemma thread_init_inv raw epfd clock mmap t :
  length raw = Z.to_nat KV_CACHE_LEN -> thread_init raw epfd clock mmap = Some (Some t) ->
  inv [] [] [] t /\ next_kv t = THREAD_MAX_CONN.
Proof.
  intros Hraw Ht. unfold thread_init in Ht. rewrite (kv_cache_list_init_eq raw Hraw) in Ht.
  destruct epfd, clock; try done. cbn [mbind option_bind] in Ht.
  destruct (hash_table_init mmap _) as [[ht|] m] eqn:Eh; [|done].
  pose proof (hash_table_init_inv _ _ _ _ Eh) as [Hht Hmap].
  assert (mask ht = MIN_MASK) as Hmask.
  { unfold hash_table_init in Eh. repeat case_match; by simplify_eq. }
  injection Ht as <-. split; [|done]. split; t_simpl; rewrite ?Hmap.
  - apply pool_inv_init.
  - split; [done|]. intros h k. by rewrite lookup_empty.
  - intros h k. by rewrite lookup_empty.
  - split_and!; try constructor; try done; intros; set_solver.
  - split_and!; [done|by rewrite Hmask| |]; intros h k; rewrite ?Hmap, lookup_empty; done.
  - split; intros h c v; by rewrite lookup_empty.
  - split; [constructor|]. intros h. setoid_rewrite lookup_empty. set_solver.
  - intros g cg. by rewrite lookup_empty.
  - apply caches_inv_init.
  - intros h c. by rewrite lookup_empty.
Qed.

(** ** Runs *)

(** A thread after [n] events, each on a connection that exists. *)
Inductive reachable : nat -> thread -> Prop :=
| reach_init raw mmap t :
    length raw = Z.to_nat KV_CACHE_LEN -> thread_init raw true true mmap = Some (Some t) ->
    reachable 0 t
| reach_event n t e input t' :
    reachable n t -> admissible (set_input t input) e = true ->
    handle_event e (set_input t input) = Ret tt t' -> reachable (S n) t'.

Lemma inv_answered W X Y t l : inv W X Y t -> inv W X Y (set_input t l).
Proof. intros Hi. eapply (quiet_inv _ _ _ t); [by split|apply Hi|exact Hi]. Qed.

Lemma event_ok t e input :
  inv [] [] [] t -> next_kv t < 2 ^ 49 -> admissible (set_input t input) e = true ->
  match handle_event e (set_input t input) with
  | Ret _ t' => grown t t'
  | Overrun => True
  | Fault => False
  end.
Proof.
  intros Hi Hn Ha. apply (handle_event_ok (set_input t input) e (fun _ t' => grown t t'));
    [by apply inv_answered|done|done|]. intros t' Hg. exact Hg.
Qed.

Lemma reachable_inv n t :
  reachable n t -> Z.of_nat n <= 2 ^ 48 ->
  inv [] [] [] t /\ next_kv t <= THREAD_MAX_CONN + Z.of_nat n.
Proof.
  induction 1 as [raw mmap t Hraw Ht|n t e input t' Hr IH Ha He]; intros Hn.
  - destruct (thread_init_inv _ _ _ _ _ Hraw Ht) as [? ->]. split; [done|lia].
  - destruct IH as [Hi Hk]; [lia|]. change THREAD_MAX_CONN with 128 in *.
    pose proof (event_ok t e input Hi ltac:(lia) Ha) as He'. rewrite He in He'.
    destruct He' as [? ?]. split; [done|lia].
Qed.

(** A run of events with the answers of the system to each. *)
Definition step (t : thread) (e : epoll_event * list answer) : outcome unit :=
  handle_event (fst e) (set_input t (snd e)).

Fixpoint run (l : list (epoll_event * list answer)) (t : thread) : outcome unit :=
  match l with
  | [] => Ret tt t
  | e :: l' => match step t e with Ret _ t' => run l' t' | Overrun => Overrun | Fault => Fault end
  end.

(** The admissible runs that return. *)
Fixpoint ranb (l : list (epoll_event * list answer)) (t : thread) : bool :=
  match l with
  | [] => true
  | e :: l' =>
      admissible (set_input t (snd e)) (fst e) &&
      match step t e with Ret _ t' => ranb l' t' | _ => false end
  end.

Lemma run_reachable l : forall n t t',
  reachable n t -> ranb l t = true -> run l t = Ret tt t' -> reachable (length l + n) t'.
Proof.
  induction l as [|e l IH]; intros n t t' Hr Hb Ht; cbn in *; [by injection Ht as <-|].
  apply andb_true_iff in Hb as [Ha Hb]. unfold step in *. destruct (handle_event _ _) as [[] t1| |] eqn:Es; try done.
  replace (S (length l + n)) with (length l + S n)%nat by lia. eapply IH; [|done|done].
  by eapply reach_event.
Qed.

(** A thread with nothing in it, and a client on its connection 127 that finds
    nothing under the key "A" and stores three bytes. *)
Definition empty_thread : thread :=
  match thread_init (replicate 75 uninit) true true (fun _ => Some 65536) with
  | Some (Some t) => t
  | _ => {| t_memory := memory_init 0; s_lru_size := 0; s_lru := []; m_lru := [];
            t_hash := sample_table; clock_probation := []; clock_death := [];
            kv_cache_list := []; conn_pool := []; t_conns := ∅; t_kvs := ∅; next_kv := 0;
            warmed_up := false; t_input := []; t_output := [] |}
  end.

Definition store_run : list (epoll_event * list answer) :=
  [ (Ev_accept 5 [], []);
    (Ev_conn 127 EPOLLOUT, [Wrote 1]);
    (Ev_conn 127 EPOLLIN, [Got [0; 1; 65]; Wrote 9]);
    (Ev_conn 127 EPOLLIN, [Got (le_split 8 3 ++ [10; 11; 12]); Mapped 4096]) ].

Definition after_run (l : list (epoll_event * list answer)) : thread :=
  match run l empty_thread with Ret _ t => t | _ => empty_thread end.

Lemma empty_reachable : reachable 0 empty_thread.
Proof. apply (reach_init (replicate 75 uninit) (fun _ => Some 65536)); reflexivity. Qed.

Lemma after_reachable l :
  ranb l empty_thread = true -> run l empty_thread = Ret tt (after_run l) ->
  reachable (length l) (after_run l).
Proof.
  intros Hb Hr. replace (length l) with (length l + 0)%nat by lia.
  eapply run_reachable; [apply empty_reachable|done|done].
Qed.

Lemma store_run_ok : ranb store_run empty_thread = true /\
  run store_run empty_thread = Ret tt (after_run store_run).
Proof. split; vm_compute; reflexivity. Qed.

(** ** Properties *)

(** C5: in every state a thread reaches by at most 2^48 events on existing
    connections, none of which announces a value of 2^62 bytes or more (what such a
    size does to the unchecked sum of [kv_malloc] is shown by
    ThreadTotal.[client_bytes_unchecked]), its structures agree: a connection is
    free or in use, never both; the nodes of the hash table are the connections
    that hold a lock and the values in service, each under its own key; the
    values in service are on exactly one of the two replacement lists, once, and
    the length of the first is what [s_lru_size] says; a value that is out of
    service is still borrowed, by the connections that point to it and no others;
    every value fits the memory it was given; a blocked connection is on the
    waiting list of the connection that holds its key; the clocks hold exactly
    the connections that called them. *)
Theorem thread_consistent n t (Hr : reachable n t) (Hn : Z.of_nat n <= 2 ^ 48) :
  inv [] [] [] t.
Proof. by destruct (reachable_inv n t Hr Hn). Qed.

Lemma thread_consistent_witness :
  reachable 4 (after_run store_run) /\ inv [] [] [] (after_run store_run) /\
  s_lru (after_run store_run) = [128].
Proof.
  assert (reachable 4 (after_run store_run)) as Hr
    by (destruct store_run_ok; by apply (after_reachable store_run)).
  split; [exact Hr|]. split; [|vm_compute; reflexivity].
  apply (thread_consistent 4 (after_run store_run) Hr). vm_compute. discriminate.
Defined.
