(* ===== verification/ThreadTotal.v ===== *)
(** * Every event returns (thread.c)

    Only two places of thread.c store bytes of a client without a check:
    [conn_read] and the end of [state_set_in_value_size].  Everything else is
    [checked]; these two are traced, so that [handle_event] is known to return
    whenever no client floods its command buffer. *)

From S2P Require Import Prelude Slab Memory HashTable Kv KvCache SizeClass Proto.
From S2P Require Import Thread ThreadInv ThreadConn ThreadEvents ThreadRun.

Definition checked {A} (m : M A) : Prop := forall t, m t <> Overrun.

Create HintDb checked.

Section primitives.
Context {A B : Type}.

Lemma checked_ret (a : A) : checked (mret a).
Proof. done. Qed.

Lemma checked_bind (m : M A) (f : A -> M B) :
  checked m -> (forall a, checked (f a)) -> checked (m ≫= f).
Proof.
  intros Hm Hf t. unfold mbind, M_bind. specialize (Hm t). destruct (m t); try done. apply Hf.
Qed.

Lemma checked_from (x : option A) : checked (from x).
Proof. by destruct x. Qed.

Lemma bind_Overrun (m : M A) (f : A -> M B) t :
  (m ≫= f) t = Overrun -> m t = Overrun \/ exists a t', m t = Ret a t' /\ f a t' = Overrun.
Proof. unfold mbind, M_bind. destruct (m t); intros; [eauto 6|by left|done]. Qed.
End primitives.

Lemma checked_assert P `{!Decision P} : checked (assert P).
Proof. unfold assert. by case_decide. Qed.

Lemma checked_fault {A} : checked (fault (A := A)).
Proof. done. Qed.

Lemma checked_get_t : checked get_t.
Proof. done. Qed.

Lemma checked_mod_t f : checked (mod_t f).
Proof. done. Qed.

Lemma checked_pop : checked pop.
Proof. intros t. unfold pop. by destruct (t_input t). Qed.

#[export] Hint Resolve checked_ret checked_from checked_assert checked_fault checked_get_t
  checked_mod_t checked_pop : checked.

(** Take a computation apart down to what the hint database knows. *)
Ltac checked :=
  intros; cbv zeta;
  repeat match goal with
    | |- checked (mbind _ _) => apply checked_bind; [|intros]; cbv beta zeta
    | |- checked skip => apply checked_ret
    | |- checked (match ?x with _ => _ end) => destruct x
    | |- checked _ => solve [auto with checked]
    end.

Lemma checked_iter {A} (f : A -> M unit) l : (forall x, checked (f x)) -> checked (iter f l).
Proof. intros Hf. induction l as [|x l IH]; cbn [iter]; checked; auto. Qed.

Lemma checked_emit e : checked (emit e).
Proof. done. Qed.
Lemma checked_get_conn h : checked (get_conn h).
Proof. unfold get_conn. checked. Qed.
Lemma checked_put_conn h c : checked (put_conn h c).
Proof. done. Qed.
#[export] Hint Resolve checked_emit checked_get_conn checked_put_conn : checked.
Lemma checked_mod_conn h f : checked (mod_conn h f).
Proof. unfold mod_conn. checked. Qed.
Lemma checked_get_kv h : checked (get_kv h).
Proof. unfold get_kv. checked. Qed.
Lemma checked_put_kv h k : checked (put_kv h k).
Proof. done. Qed.
#[export] Hint Resolve checked_mod_conn checked_get_kv checked_put_kv : checked.
Lemma checked_mod_kv h f : checked (mod_kv h f).
Proof. unfold mod_kv. checked. Qed.
Lemma checked_get_cache i : checked (get_cache i).
Proof. unfold get_cache. checked. Qed.
Lemma checked_put_cache i c : checked (put_cache i c).
Proof. done. Qed.
Lemma checked_get_class s : checked (get_class s).
Proof. unfold get_class. checked. Qed.
#[export] Hint Resolve checked_mod_kv checked_get_cache checked_put_cache checked_get_class : checked.

(** ** Memory and values *)

Lemma checked_memory_malloc page : checked (thread_memory_malloc page).
Proof. unfold thread_memory_malloc. checked. Qed.
Lemma checked_memory_free ptr page : checked (thread_memory_free ptr page).
Proof. unfold thread_memory_free. checked. Qed.
#[export] Hint Resolve checked_memory_malloc checked_memory_free : checked.
Lemma checked_cache_malloc i : checked (cache_malloc i).
Proof. unfold cache_malloc. checked. Qed.
Lemma checked_cache_free i : checked (cache_free i).
Proof. unfold cache_free. checked. Qed.
Lemma checked_new_kv c b n : checked (new_kv c b n).
Proof. unfold new_kv. checked. Qed.
Lemma checked_kv_init h key s : checked (kv_init h key s).
Proof. unfold kv_init. checked. Qed.
Lemma checked_kv_borrow v h : checked (kv_borrow v h).
Proof. unfold kv_borrow. checked. Qed.
Lemma checked_kv_return v h : checked (kv_return v h).
Proof. unfold kv_return. checked. Qed.
Lemma checked_kv_write v o bs : checked (kv_write v o bs).
Proof. unfold kv_write. checked. Qed.
Lemma checked_hash_get k : checked (thread_hash_get k).
Proof. unfold thread_hash_get. checked. Qed.
Lemma checked_hash_add v k : checked (thread_hash_add v k).
Proof. unfold thread_hash_add. checked. Qed.
Lemma checked_hash_del v k : checked (thread_hash_del v k).
Proof. unfold thread_hash_del. checked. Qed.
Lemma checked_lru_del v : checked (lru_del v).
Proof. done. Qed.
#[export] Hint Resolve checked_cache_malloc checked_cache_free checked_new_kv checked_kv_init
  checked_kv_borrow checked_kv_return checked_kv_write checked_hash_get checked_hash_add
  checked_hash_del checked_lru_del : checked.
Lemma checked_kv_copy_val v b n : checked (kv_copy_val v b n).
Proof. unfold kv_copy_val. checked. Qed.
Lemma checked_kv_enable h : checked (kv_enable h).
Proof. unfold kv_enable. checked. Qed.
Lemma checked_kv_disable v : checked (kv_disable v).
Proof. unfold kv_disable. checked. Qed.
Lemma checked_kv_free v : checked (kv_free v).
Proof. unfold kv_free. checked. Qed.
Lemma checked_lru_peek l : checked (lru_peek l).
Proof. unfold lru_peek. checked. Qed.
#[export] Hint Resolve checked_kv_copy_val checked_kv_enable checked_kv_disable checked_kv_free
  checked_lru_peek : checked.
Lemma checked_reclaim_lru : checked reclaim_lru.
Proof. unfold reclaim_lru. checked. Qed.
#[export] Hint Resolve checked_reclaim_lru : checked.
Lemma checked_reclaim_while more fuel : checked (reclaim_while more fuel).
Proof. induction fuel as [|fuel IH]; cbn [reclaim_while]; checked. Qed.
#[export] Hint Resolve checked_reclaim_while : checked.
Lemma checked_reserve_page p : checked (reserve_page p).
Proof. unfold reserve_page. checked. Qed.
#[export] Hint Resolve checked_reserve_page : checked.
Lemma checked_memory_malloc_advance p : checked (memory_malloc_advance p).
Proof. unfold memory_malloc_advance, reserve_page_aggressive. checked. Qed.
Lemma checked_kv_advance i : checked (kv_cache_malloc_kv_advance i).
Proof. unfold kv_cache_malloc_kv_advance, reserve_kv_cache, reserve_kv_cache_aggressive. checked. Qed.
Lemma checked_concat_advance i : checked (kv_cache_malloc_concat_val_advance i).
Proof.
  unfold kv_cache_malloc_concat_val_advance, reserve_kv_cache, reserve_kv_cache_aggressive. checked.
Qed.
#[export] Hint Resolve checked_memory_malloc_advance checked_kv_advance checked_concat_advance : checked.
Lemma checked_kv_malloc key s : checked (kv_malloc key s).
Proof. unfold kv_malloc. checked. Qed.
Lemma checked_conn_borrow_kv h v : checked (conn_borrow_kv h v).
Proof. unfold conn_borrow_kv. checked. Qed.
Lemma checked_conn_return_kv h : checked (conn_return_kv h).
Proof. unfold conn_return_kv. checked. Qed.
#[export] Hint Resolve checked_kv_malloc checked_conn_borrow_kv checked_conn_return_kv : checked.

(** ** Connections *)

Lemma checked_conn_lock_key h : checked (conn_lock_key h).
Proof. unfold conn_lock_key. checked. Qed.
Lemma checked_call_clock0 h : checked (__call_clock h).
Proof. unfold __call_clock. checked. Qed.
#[export] Hint Resolve checked_conn_lock_key checked_call_clock0 : checked.
Lemma checked_call_clock h : checked (call_clock h).
Proof. unfold call_clock. checked. Qed.
Lemma checked_cancel_clock h : checked (cancel_clock h).
Proof. unfold cancel_clock. checked. Qed.
Lemma checked_miss0 h : checked (__change_to_get_out_miss h).
Proof. unfold __change_to_get_out_miss. checked. Qed.
Lemma checked_wake h : checked (epfd_weak_up_conn h).
Proof. unfold epfd_weak_up_conn. checked. Qed.
#[export] Hint Resolve checked_call_clock checked_cancel_clock checked_miss0 checked_wake : checked.
Lemma checked_unlock_failure h : checked (conn_unlock_key_for_failure h).
Proof. unfold conn_unlock_key_for_failure. checked. Qed.
Lemma checked_conn_free h : checked (conn_free h).
Proof. unfold conn_free. checked. Qed.
#[export] Hint Resolve checked_unlock_failure checked_conn_free : checked.
Lemma checked_free_conn h : checked (free_conn h).
Proof. unfold free_conn, interest_del. checked. Qed.
Lemma checked_sys_read n : checked (sys_read n).
Proof. unfold sys_read. checked. Qed.
Lemma checked_sys_write n : checked (sys_write n).
Proof. unfold sys_write. checked. Qed.
#[export] Hint Resolve checked_free_conn checked_sys_read checked_sys_write : checked.
Lemma checked_check_read h n wb : checked (conn_check_read h n wb).
Proof. unfold conn_check_read. checked. Qed.
Lemma checked_check_write h n wb : checked (conn_check_write h n wb).
Proof. unfold conn_check_write. checked. Qed.
#[export] Hint Resolve checked_check_read checked_check_write : checked.
Lemma checked_full_write h bs : checked (conn_full_write_bytes h bs).
Proof. unfold conn_full_write_bytes, conn_write_bytes. checked. Qed.
Lemma checked_write_zero h : checked (conn_write_byte_zero h).
Proof. unfold conn_write_byte_zero. checked. Qed.
Lemma checked_change_to_in_cmd h : checked (change_to_in_cmd h).
Proof. unfold change_to_in_cmd. checked. Qed.
#[export] Hint Resolve checked_full_write checked_write_zero checked_change_to_in_cmd : checked.
Lemma checked_out_success h : checked (state_out_success h).
Proof. unfold state_out_success. checked. Qed.
Lemma checked_out_hit h : checked (state_get_out_hit h).
Proof. unfold state_get_out_hit. checked. Qed.
Lemma checked_out_miss h : checked (state_get_out_miss h).
Proof. unfold state_get_out_miss, change_to_set_in_value_size. checked. Qed.
#[export] Hint Resolve checked_out_success checked_out_hit checked_out_miss : checked.
Lemma checked_change_to_hit h : checked (change_to_get_out_hit h).
Proof. unfold change_to_get_out_hit. checked. Qed.
#[export] Hint Resolve checked_change_to_hit : checked.
Lemma checked_change_locked_to_free h : checked (change_locked_to_free h).
Proof. unfold change_locked_to_free. checked. Qed.
#[export] Hint Resolve checked_change_locked_to_free : checked.
Lemma checked_cmd_run h : checked (cmd_run h).
Proof. unfold cmd_run, cmd_get, cmd_del, change_to_get_out_miss, change_to_out_success. checked. Qed.
Lemma checked_unlock_success h : checked (conn_unlock_key_for_success h).
Proof. unfold conn_unlock_key_for_success. checked. apply checked_iter. checked. Qed.
#[export] Hint Resolve checked_cmd_run checked_unlock_success : checked.
Lemma checked_set_in_value h : checked (state_set_in_value h).
Proof. unfold state_set_in_value. checked. Qed.
Lemma checked_accept fd raw : checked (thread_accept fd raw).
Proof. unfold thread_accept, conn_malloc. checked. Qed.
Lemma checked_clock : checked clock_service.
Proof. unfold clock_service. checked. apply checked_iter. checked. Qed.
#[export] Hint Resolve checked_set_in_value checked_accept checked_clock : checked.

(** ** The two unchecked places *)

Lemma get_conn_Ret h t c t' : get_conn h t = Ret c t' -> t' = t /\ t_conns t !! h = Some c.
Proof.
  unfold get_conn, mbind, M_bind, get_t, from. destruct (t_conns t !! h); intros E; [|done].
  by injection E as -> ->.
Qed.

Lemma mod_conn_Ret h f t x t' :
  mod_conn h f t = Ret x t' -> exists c, t_conns t !! h = Some c /\
    t' = set_conns t (<[h := f c]> (t_conns t)).
Proof.
  unfold mod_conn, mbind, M_bind. destruct (get_conn h t) as [c t1| |] eqn:E; try done.
  apply get_conn_Ret in E as [-> E]. intros Hr. injection Hr as _ <-. eauto.
Qed.

Lemma within_Overrun P `{!Decision P} t : within P t = Overrun -> ~ P.
Proof. unfold within. by case_decide. Qed.

Lemma within_Ret P `{!Decision P} t x t' : within P t = Ret x t' -> t' = t.
Proof. unfold within. case_decide; intros E; [by injection E|done]. Qed.

Lemma asserted_Ret P `{!Decision P} t x t' : assert P t = Ret x t' -> t' = t.
Proof. unfold assert. case_decide; intros E; [by injection E|done]. Qed.

(** Step into a computation that overruns: it is not its first part. *)
Ltac trace H :=
  apply bind_Overrun in H as [H|H];
    [try (exfalso; revert H; match goal with |- ?m ?t = Overrun -> _ =>
            change (m t <> Overrun); apply (fun (Hc : checked m) => Hc t); solve [checked] end)|
     try (let a := fresh "a" in let t1 := fresh "t" in let E := fresh "E" in
          destruct H as (a & t1 & E & H); cbv beta zeta in H)].

Ltac trace_end H :=
  exfalso; revert H; match goal with |- ?m ?t = Overrun -> _ =>
    change (m t <> Overrun); apply (fun (Hc : checked m) => Hc t); solve [checked] end.

Lemma store_cmd_Overrun h off bs t :
  store_cmd h off bs t = Overrun -> 0 <= off -> CMD_SIZE_MAX < off + Z.of_nat (length bs).
Proof.
  intros H Ho. unfold store_cmd in H. trace H; [|trace_end H]. apply within_Overrun in H. lia.
Qed.

Lemma store_cmd_Ret h off bs t x t' :
  store_cmd h off bs t = Ret x t' -> exists c c', t_conns t !! h = Some c /\
    t_conns t' !! h = Some c' /\ c_unio c' = c_unio c.
Proof.
  unfold store_cmd, mbind, M_bind. destruct (within _ t) as [[] t1| |] eqn:E; try done.
  apply within_Ret in E as ->.
  intros (c & Ec & ->)%mod_conn_Ret. exists c. eexists. split_and!; [done|apply lookup_insert_eq|done].
Qed.

Lemma sys_read_Ret len t n wb bs t' :
  0 <= len -> sys_read len t = Ret (n, wb, bs) t' ->
  t_conns t' = t_conns t /\ Z.of_nat (length bs) <= len /\
  (0 < n -> n = Z.of_nat (length bs) /\
     exists bs0 input, t_input t = Got bs0 :: input /\ bs = ztake len (bytes bs0)).
Proof.
  intros Hl. unfold sys_read, mbind, M_bind, pop. destruct (t_input t) as [|a input]; intros E.
  { injection E as <- <- <- <-. cbn. split_and!; [done|lia|lia]. }
  destruct a as [bs0| | | |]; injection E as <- <- <- <-; cbn [length]; split_and!; try done; try lia.
  - rewrite length_ztake by lia. lia.
  - intros _. split; [done|]. by exists bs0, input.
Qed.

Lemma state_in_cmd_no_overrun t h c :
  t_conns t !! h = Some c -> 0 < c_unio c <= CMD_SIZE_MAX -> state_in_cmd h t <> Overrun.
Proof.
  intros Ec Hu H. change CMD_SIZE_MAX with 257 in *. unfold state_in_cmd, conn_read in H.
  trace H. apply get_conn_Ret in E as [-> Ec']. rewrite Ec in Ec'. injection Ec' as <-.
  trace H. apply asserted_Ret in E as ->.
  trace H; [|trace_end H]. trace H. apply get_conn_Ret in E as [-> Ec'].
  rewrite Ec in Ec'. injection Ec' as <-. trace H; [apply within_Overrun in H; lia|].
  apply within_Ret in E as ->.
  trace H. destruct a1 as [[n wb] bs]. apply sys_read_Ret in E as (Ecs & Hlen & _); [|lia].
  trace H; [|trace_end H]. destruct (0 <? n); [|done].
  change CMD_SIZE_MAX with 257 in H. rewrite wrap_small in H by lia.
  apply store_cmd_Overrun in H; change CMD_SIZE_MAX with 257 in *; lia.
Qed.

(** The bytes after the announced size, when a read gives [bs0]. *)
Definition after_size (c : conn) (bs0 : list Z) : Z :=
  let rest := u64 (SET_REQ_SIZE - u64 (SET_REQ_SIZE + SET_EXTRA_BUFFER - c_unio c)) in
  Z.of_nat (length (ztake (rest + SET_EXTRA_BUFFER) (bytes bs0))) - rest.

(** A client has filled the command buffer without completing a command, or
    sends a command buffer of bytes right after a value. *)
Definition floods (t : thread) (e : epoll_event) : bool :=
  match e with
  | Ev_conn h _ =>
      match t_conns t !! h with
      | Some c =>
          match c_state c, t_input t with
          | CONN_STATE_IN_CMD, _ => c_unio c =? 0
          | CONN_STATE_SET_IN_VALUE_SIZE, Got bs0 :: _ =>
              match announced c bs0 with
              | Some v => v + CMD_SIZE_MAX <=? after_size c bs0
              | None => false
              end
          | _, _ => false
          end
      | None => false
      end
  | _ => false
  end.

Lemma kv_copy_val_Ret v buffer m t x t' : kv_copy_val v buffer m t = Ret x t' -> x <= m.
Proof.
  unfold kv_copy_val, mbind, M_bind. destruct (get_kv v t) as [k t1| |]; try done. cbv zeta.
  destruct (kv_write _ _ _ t1) as [[] t2| |]; try done. intros E. injection E as <- _.
  destruct (Z.ltb_spec (k_val_size k) m); lia.
Qed.

(** The part of the handler after the value is complete. *)
Lemma value_done_no_overrun t h m rest (full : bool) :
  0 <= m < CMD_SIZE_MAX -> Z.of_nat (length rest) = m ->
  (conn_unlock_key_for_success h;;
   mod_conn h (fun c => set_c_unio (set_c_state c CONN_STATE_IN_CMD) (u64 (CMD_SIZE_MAX - m)));;
   store_cmd h 0 rest;;
   c ← get_conn h;
   if cmd_full_readed c then cmd_run h else if full then state_in_cmd h else skip) t <> Overrun.
Proof.
  intros Hm Hr H. change CMD_SIZE_MAX with 257 in *.
  trace H. trace H. apply mod_conn_Ret in E0 as (c & Ec & ->).
  trace H; [apply store_cmd_Overrun in H; change CMD_SIZE_MAX with 257 in *; lia|].
  apply store_cmd_Ret in E0 as (c1 & c2 & Ec1 & Ec2 & Hu). cbn in Ec1. rewrite lookup_insert_eq in Ec1.
  injection Ec1 as <-. trace H. apply get_conn_Ret in E0 as [-> Ec3].
  rewrite Ec2 in Ec3. injection Ec3 as <-. destruct (cmd_full_readed c2); [trace_end H|].
  destruct full; [|done]. revert H. eapply state_in_cmd_no_overrun; [exact Ec2|].
  rewrite Hu. cbn [c_unio set_c_unio]. change CMD_SIZE_MAX with 257. rewrite wrap_small by lia. lia.
Qed.

Lemma check_read_Ret h n t b t' :
  conn_check_read h n false t = Ret b t' -> 0 < n ->
  b = true /\ exists c, t_conns t !! h = Some c /\
    t_conns t' !! h = Some (set_c_unio c (u64 (c_unio c - n))).
Proof.
  intros H Hn. unfold conn_check_read in H. destruct (Z.ltb_spec 0 n); [|lia].
  unfold mbind, M_bind in H. destruct (get_conn h t) as [c t1| |] eqn:E; try done.
  apply get_conn_Ret in E as [-> Ec]. destruct (assert _ t) as [[] t1| |] eqn:E; try done.
  apply asserted_Ret in E as ->. destruct (mod_conn h _ t) as [[] t1| |] eqn:E; try done.
  apply mod_conn_Ret in E as (c' & Ec' & ->). rewrite Ec in Ec'. injection Ec' as <-.
  injection H as <- <-. split; [done|]. exists c. split; [done|apply lookup_insert_eq].
Qed.

Lemma check_read_nothing_Ret h n wb t b t' :
  conn_check_read h n wb t = Ret b t' -> n <= 0 -> b = false.
Proof.
  intros H Hn. unfold conn_check_read in H. destruct (Z.ltb_spec 0 n); [lia|].
  unfold mbind, M_bind in H.
  destruct ((if (n =? 0) || negb wb then free_conn h else skip) t) as [[] t1| |]; try done.
  by injection H as <- _.
Qed.

(** Only a read that gave bytes has [EWOULDBLOCK] unset and goes on. *)
Lemma sys_read_flag len t n wb bs t' :
  sys_read len t = Ret (n, wb, bs) t' -> 0 < n -> wb = false.
Proof.
  unfold sys_read, mbind, M_bind, pop. destruct (t_input t) as [|a input]; intros E.
  { injection E as <- <- <- <-. lia. }
  destruct a as [bs0| | | |]; injection E as <- <- <- <-; try lia; done.
Qed.

Lemma state_set_in_value_size_no_overrun t h c :
  t_conns t !! h = Some c -> conn_ok c ->
  SET_EXTRA_BUFFER < c_unio c <= SET_REQ_SIZE + SET_EXTRA_BUFFER ->
  (forall bs0 input v, t_input t = Got bs0 :: input -> announced c bs0 = Some v ->
     after_size c bs0 < v + CMD_SIZE_MAX) ->
  state_set_in_value_size h t <> Overrun.
Proof.
  intros Ec Hok Hu Hfl H. unfold announced, after_size in Hfl.
  set (readed := u64 (SET_REQ_SIZE + SET_EXTRA_BUFFER - c_unio c)) in *.
  set (rest := u64 (SET_REQ_SIZE - readed)) in *.
  assert (rest = c_unio c - SET_EXTRA_BUFFER /\ readed = SET_REQ_SIZE - rest) as [Er Ed].
  { unfold rest, readed. change SET_EXTRA_BUFFER with 16384 in *. change SET_REQ_SIZE with 8 in *.
    rewrite (wrap_small 64 (8 + 16384 - c_unio c)) by lia. rewrite wrap_small by lia. lia. }
  change SET_EXTRA_BUFFER with 16384 in *. change SET_REQ_SIZE with 8 in *.
  change CMD_SIZE_MAX with 257 in *.
  unfold state_set_in_value_size in H. trace H. apply get_conn_Ret in E as [-> Ec'].
  rewrite Ec in Ec'. injection Ec' as <-.
  change SET_EXTRA_BUFFER with 16384 in H. change SET_REQ_SIZE with 8 in H.
  fold readed in H. fold rest in H.
  trace H. apply asserted_Ret in E as ->. trace H. destruct a0 as [[n wb] bs].
  pose proof (sys_read_flag _ _ _ _ _ _ E) as Hwb.
  apply sys_read_Ret in E as (Ecs & Hlen & Hgot); [|lia].
  trace H. trace H. destruct (Z.ltb_spec 0 n) as [Hn|Hn].
  2: { apply check_read_nothing_Ret in E0 as ->; [done|lia]. }
  destruct (Hgot Hn) as (-> & bs0 & input & Hin & Ebs). rewrite (Hwb Hn) in E0.
  apply mod_conn_Ret in E as (c0 & Ec0 & ->). rewrite Ecs, Ec in Ec0. injection Ec0 as <-.
  apply check_read_Ret in E0 as (-> & c1 & Ec1 & Ec2); [|done]. cbn in Ec1.
  rewrite lookup_insert_eq in Ec1. injection Ec1 as <-. cbn [c_unio set_c_buffer] in Ec2.
  pose proof (c_unio_range _ Hok) as Hur. rewrite wrap_small in Ec2 by lia.
  trace H. apply get_conn_Ret in E as [-> Ec3]. rewrite Ec2 in Ec3. injection Ec3 as <-.
  cbn [c_unio set_c_unio c_buffer set_c_buffer c_key] in H.
  set (buffer := zdrop rest bs) in *. set (val_size := get 0 8 _) in H.
  destruct (Z.ltb_spec 16384 (c_unio c - Z.of_nat (length bs))) as [Hmore|Hfull]; [done|].
  pose proof (length_zdrop rest bs ltac:(lia)) as Hl2. fold buffer in Hl2.
  assert (Z.of_nat (length buffer) < val_size + 257) as Hsmall.
  { specialize (Hfl bs0 input val_size Hin). rewrite <-Ebs in Hfl.
    destruct (Z.ltb_spec (Z.of_nat (length bs)) rest); [lia|]. specialize (Hfl eq_refl). lia. }
  assert (0 <= val_size) as Hv0.
  { apply le_combine_pos, Forall_take, Forall_drop, Forall_fill; [|apply Hok].
    apply Forall_ztake. rewrite Ebs. apply Forall_ztake, bytes_ok. }
  trace H. destruct a1 as [v|]; [|trace_end H]. trace H. trace H. trace H.
  rewrite (wrap_small 64 (16384 - _)) in E2, H by lia.
  replace (16384 - (c_unio c - Z.of_nat (length bs))) with (Z.of_nat (length buffer)) in E2, H by lia.
  apply kv_copy_val_Ret in E2. destruct (Z.ltb_spec a3 val_size) as [Hlt|Hge]; [trace_end H|].
  revert H. apply value_done_no_overrun; change CMD_SIZE_MAX with 257; [lia|].
  rewrite length_zdrop by lia. lia.
Qed.

Lemma handle_event_no_overrun t e :
  inv [] [] [] t -> floods t e = false -> handle_event e t <> Overrun.
Proof.
  intros Hi Hf H. destruct e as [fd raw| |h events]; cbn [handle_event] in H;
    [trace_end H|trace_end H|]. case_match; [trace_end H|].
  trace H. apply get_conn_Ret in E as [-> Ec]. case_match; [|done].
  unfold process_conn in H. trace H. apply get_conn_Ret in E as [-> Ec'].
  rewrite Ec in Ec'. injection Ec' as <-. cbn in Hf. rewrite Ec in Hf.
  pose proof (inv_conn_ok _ _ _ _ _ _ Hi Ec) as Hok. pose proof (c_unio_range _ Hok).
  destruct (inv_tag _ _ _ _ _ _ Hi Ec) as [_ Hio]; [set_solver|]. unfold io_ok in Hio.
  destruct (c_state a) eqn:Es; try trace_end H.
  - apply Z.eqb_neq in Hf. revert H. eapply state_in_cmd_no_overrun; [done|lia].
  - revert H. eapply state_set_in_value_size_no_overrun; [done|done|done|].
    intros bs0 input v Hin Ha. rewrite Hin, Ha in Hf. by apply Z.leb_gt.
Qed.

(** ** Properties *)

(** C6: no event on a connection that exists makes a thread fail: outside the
    command buffer no assertion of thread.c fails, no freed value or connection
    is touched and nothing is written past the end of a value, whatever the system
    answers and whatever bytes the clients send, as long as no client announces a
    value of 2^62 bytes; and if no client floods its command buffer, the event is
    handled to its end, every loop terminating, and leaves the thread consistent. *)
Theorem handle_event_returns n t e input
    (Hr : reachable n t) (Hn : Z.of_nat n < 2 ^ 48)
    (Ha : admissible (set_input t input) e = true) :
  handle_event e (set_input t input) <> Fault /\
  (floods (set_input t input) e = false ->
     exists t', handle_event e (set_input t input) = Ret tt t' /\ inv [] [] [] t').
Proof.
  destruct (reachable_inv n t Hr ltac:(lia)) as [Hi Hk]. change THREAD_MAX_CONN with 128 in Hk.
  pose proof (event_ok t e input Hi ltac:(lia) Ha) as He.
  split; [by intros E; rewrite E in He|]. intros Hf.
  pose proof (handle_event_no_overrun (set_input t input) e (inv_answered _ _ _ _ _ Hi) Hf) as Ho.
  destruct (handle_event e (set_input t input)) as [[] t'| |]; try done.
  exists t'. split; [done|]. apply He.
Qed.

Lemma handle_event_returns_witness :
  exists t', handle_event (Ev_conn 127 EPOLLIN)
    (set_input (after_run store_run) [Got [1; 1; 65]; Wrote 1]) = Ret tt t' /\
    inv [] [] [] t'.
Proof.
  apply (handle_event_returns 4 (after_run store_run)).
  - destruct store_run_ok. by apply (after_reachable store_run).
  - lia.
  - vm_compute. reflexivity.
  - vm_compute. reflexivity.
Defined.

(** Two clients, 127 and 126, that ask for the same key: the second waits for the
    first. *)
Definition waiting_run : list (epoll_event * list answer) :=
  [ (Ev_accept 5 [], []);
    (Ev_accept 6 [], []);
    (Ev_conn 127 EPOLLOUT, [Wrote 1]);
    (Ev_conn 126 EPOLLOUT, [Wrote 1]);
    (Ev_conn 127 EPOLLIN, [Got [0; 1; 65]; Wrote 9]);
    (Ev_conn 126 EPOLLIN, [Got [0; 1; 65]]) ].

(** A client on connection 127 that asks for the key "A" and misses. *)
Definition ask_run : list (epoll_event * list answer) :=
  [ (Ev_accept 5 [], []);
    (Ev_conn 127 EPOLLOUT, [Wrote 1]);
    (Ev_conn 127 EPOLLIN, [Got [0; 1; 65]; Wrote 9]) ].

(** C39: what a client sends is not checked: a value size close to 2^64 wraps the
    size of the allocation and the key is written past the object; a value
    followed by more than a command buffer of bytes is copied past [conn->key]; a
    client that has filled the command buffer without completing a command makes
    the assertion of [conn_read] fail. *)
Theorem client_bytes_unchecked :
  run (ask_run ++ [(Ev_conn 127 EPOLLIN, [Got (le_split 8 (2 ^ 64 - 49)); Mapped 4096])])
    empty_thread = Fault /\
  run (ask_run ++ [(Ev_conn 127 EPOLLIN, [Got (le_split 8 0 ++ replicate 258 0); Mapped 4096])])
    empty_thread = Overrun /\
  run (take 2 ask_run ++ [(Ev_conn 127 EPOLLIN, [Got (replicate 257 0)]);
         (Ev_conn 127 EPOLLIN, [Got [0]])]) empty_thread = Overrun.
Proof. vm_compute. split_and!; reflexivity. Qed.

(** C40: serving a waiting connection may free it, because the write to it fails;
    if the batch of events being handled still holds an event of that connection
    (here a hang-up, bit 16), the freed connection is used again, although each
    event of the batch alone is handled well. *)
Theorem stale_event_faults :
  let t := after_run waiting_run in
  let first := Ev_conn 127 EPOLLIN in
  let second := Ev_conn 126 (EPOLLIN + 16) in
  let answers := [Got (le_split 8 3 ++ [10; 11; 12]); Mapped 4096; Failed] in
  reachable 6 t /\ admissible (set_input t answers) first = true /\
  admissible (set_input t answers) second = true /\
  match grab_epoll_events [first] (set_input t answers) with
  | Ret _ t' => t_conns t' !! 126 = None
  | _ => False
  end /\
  grab_epoll_events [first; second] (set_input t answers) = Fault.
Proof.
  cbv zeta. split; [|vm_compute; split_and!; reflexivity].
  apply (after_reachable waiting_run); vm_compute; reflexivity.
Qed.
