(* ===== verification/ThreadSpec.v ===== *)
(** * What a thread does for its clients (thread.c)

    The bytes a client gets for a value, the hand-over of locks, reclaiming and
    allocating memory: the functional behaviour of the operations of Thread.v, on
    top of the invariant. *)

From S2P Require Import Prelude Slab Memory HashTable Kv KvCache SizeClass Proto.
From S2P Require Import Thread ThreadInv ThreadConn ThreadEvents ThreadRun ThreadTotal.

(** A computation that meets its specification and has no unchecked place
    returns. *)
Lemma wp_returns {A} (m : M A) (Q : A -> thread -> Prop) t :
  checked m -> wp m Q t -> exists a t', m t = Ret a t' /\ Q a t'.
Proof. intros Hc Hw. specialize (Hc t). unfold wp in Hw. destruct (m t); naive_solver. Qed.

Lemma bound_Ret {A B} (m : M A) (f : A -> M B) t b t' :
  (m ≫= f) t = Ret b t' -> exists a t1, m t = Ret a t1 /\ f a t1 = Ret b t'.
Proof. unfold mbind, M_bind. destruct (m t); intros; [eauto|done..]. Qed.

(** ** Computations that make no system call *)

Definition same_io (t t' : thread) : Prop := t_output t' = t_output t /\ t_input t' = t_input t.

Definition silent {A} (m : M A) : Prop := forall t a t', m t = Ret a t' -> same_io t t'.

Create HintDb silent.

Lemma silent_ret {A} (a : A) : silent (mret a).
Proof. intros t a' t' E. by injection E as _ <-. Qed.

Lemma silent_bind {A B} (m : M A) (f : A -> M B) :
  silent m -> (forall a, silent (f a)) -> silent (m ≫= f).
Proof.
  intros Hm Hf t b t' (a & t1 & E1 & E2)%bound_Ret.
  destruct (Hf _ _ _ _ E2), (Hm _ _ _ E1). split; congruence.
Qed.

Lemma silent_from {A} (x : option A) : silent (from x).
Proof. destruct x; intros t a' t' E; [by injection E as _ <-|done]. Qed.

Lemma silent_assert P `{!Decision P} : silent (assert P).
Proof. intros t a t' ->%asserted_Ret. done. Qed.

Lemma silent_get_t : silent get_t.
Proof. intros t a' t' E. by injection E as _ <-. Qed.

Lemma silent_get_conn h : silent (get_conn h).
Proof. apply silent_bind; [apply silent_get_t|intros; apply silent_from]. Qed.

Lemma silent_get_kv v : silent (get_kv v).
Proof. apply silent_bind; [apply silent_get_t|intros; apply silent_from]. Qed.

(** An update that leaves the outputs and the answers alone. *)
Lemma silent_mod_t f : (forall t, same_io t (f t)) -> silent (mod_t f).
Proof. intros Hf t a t' E. injection E as _ <-. apply Hf. Qed.

Lemma silent_fault {A} : silent (fault (A := A)).
Proof. intros t a t' E. done. Qed.

#[export] Hint Resolve silent_ret silent_from silent_assert silent_get_t silent_get_conn
  silent_get_kv silent_fault : silent.

Ltac silent :=
  intros; cbv zeta;
  repeat match goal with
    | |- silent (mbind _ _) => apply silent_bind; [|intros]; cbv beta zeta
    | |- silent skip => apply silent_ret
    | |- silent (mod_t _) => apply silent_mod_t; intros; split; reflexivity
    | |- silent (match ?x with _ => _ end) => destruct x
    | |- silent _ => solve [auto with silent]
    end.

Lemma silent_mod_conn h f : silent (mod_conn h f).
Proof. unfold mod_conn, put_conn. silent. Qed.
Lemma silent_mod_kv h f : silent (mod_kv h f).
Proof. unfold mod_kv, put_kv. silent. Qed.
#[export] Hint Resolve silent_mod_conn silent_mod_kv : silent.
Lemma silent_memory_free ptr page : silent (thread_memory_free ptr page).
Proof. unfold thread_memory_free. silent. Qed.
#[export] Hint Resolve silent_memory_free : silent.
Lemma silent_cache_free i : silent (cache_free i).
Proof. unfold cache_free, get_cache, put_cache. silent. Qed.
#[export] Hint Resolve silent_cache_free : silent.
Lemma silent_kv_free v : silent (kv_free v).
Proof. unfold kv_free, get_class. silent. Qed.
#[export] Hint Resolve silent_kv_free : silent.
Lemma silent_conn_return_kv h : silent (conn_return_kv h).
Proof. unfold conn_return_kv, kv_return. silent. Qed.
Lemma silent_change_to_in_cmd h : silent (change_to_in_cmd h).
Proof. unfold change_to_in_cmd. silent. Qed.

(** ** The answer to a hit *)

Definition response (k : kv) : list Z := le_split 8 (k_val_size k) ++ [0] ++ k_data k.

Lemma zdrop_drop {A} n (l : list A) : 0 <= n -> zdrop n l = drop (Z.to_nat n) l.
Proof.
  intros Hn. unfold zdrop. destruct (Z.leb_spec (Z.of_nat (length l)) n); [|done].
  rewrite drop_ge; [done|lia].
Qed.

Lemma ztake_take {A} n (l : list A) : 0 <= n -> ztake n l = take (Z.to_nat n) l.
Proof.
  intros Hn. unfold ztake. destruct (Z.leb_spec (Z.of_nat (length l)) n); [|done].
  rewrite take_ge; [done|lia].
Qed.

Lemma length_response k :
  Z.of_nat (length (k_data k)) = k_val_size k ->
  Z.of_nat (length (response k)) = GET_RES_SIZE + k_val_size k.
Proof. intros Hd. unfold response. rewrite !length_app, length_le_split. cbn. unfold GET_RES_SIZE. lia. Qed.

(** What is left to send is the end of the answer. *)
Lemma hit_iov_response k c :
  Z.of_nat (length (k_data k)) = k_val_size k -> k_val_size k < 2 ^ 62 ->
  0 < c_unio c <= GET_RES_SIZE + k_val_size k -> c_buffer c = le_split 8 (k_val_size k) ++ [0] ->
  let written := u64 (GET_RES_SIZE + k_val_size k - c_unio c) in
  (if written <? GET_RES_SIZE
   then drop (Z.to_nat written) (take (Z.to_nat GET_RES_SIZE) (c_buffer c)) ++ k_data k
   else zdrop (u64 (k_val_size k - c_unio c)) (k_data k)) =
  drop (Z.to_nat (GET_RES_SIZE + k_val_size k - c_unio c)) (response k).
Proof.
  intros Hd Hv Hu Hb. cbv zeta. unfold response. rewrite app_assoc, <-Hb.
  assert (length (c_buffer c) = 9%nat) as Hl by (rewrite Hb, length_app, length_le_split; done).
  change GET_RES_SIZE with 9 in *. rewrite wrap_small by lia.
  destruct (Z.ltb_spec (9 + k_val_size k - c_unio c) 9).
  - rewrite take_ge by lia. rewrite drop_app_le by lia. done.
  - rewrite wrap_small by lia. rewrite zdrop_drop by lia. rewrite drop_app_ge by lia.
    f_equal. lia.
Qed.

(** Step into a computation that returns. *)
Ltac enter H :=
  let a := fresh "a" in let t1 := fresh "t" in let E := fresh "E" in
  apply bound_Ret in H as (a & t1 & E & H); cbv beta zeta in H.

(** The connection [h] of [t] sends the value [v], whose description is [k], and has
    [c_unio c] bytes of the answer left. *)
Record sending (t : thread) (h : Z) (c : conn) (k : kv) : Prop := {
  s_conn : t_conns t !! h = Some c;
  s_state : c_state c = CONN_STATE_GET_OUT_HIT;
  s_kv : exists v, c_kv c = Some v /\ t_kvs t !! v = Some k;
  s_inv : inv [] [] [] t
}.

Lemma sending_io t h c k :
  sending t h c k ->
  Z.of_nat (length (k_data k)) = k_val_size k /\ 0 < c_unio c <= GET_RES_SIZE + k_val_size k /\
  c_buffer c = le_split 8 (k_val_size k) ++ [0] /\ k_val_size k < 2 ^ 62.
Proof.
  intros [Ec Es (v & Ev & Ek) Hi]. destruct (inv_tag _ _ _ _ _ _ Hi Ec) as [_ Hio]; [set_solver|].
  unfold io_ok in Hio. rewrite Es in Hio. destruct (Hio _ _ Ev Ek) as (? & ? & ?).
  split_and!; try done; try lia. apply (k_size _ (proj2 (proj2 (i_kvs Hi) _ _ Ek))).
Qed.

(** What a write of [n > 0] bytes, or one that would block ([n = 0]), does to a
    connection that has [bs] to send. *)
Record written (t : thread) (h : Z) (c : conn) (bs : list Z) (n : Z) (b : bool) (t' : thread)
    : Prop := {
  w_output : t_output t' = t_output t ++
    (if 0 <? n then [Sent (c_fd c) (ztake (Z.min n (c_unio c)) bs)] else []);
  w_conn : t_conns t' = <[h := set_c_unio c (c_unio c - Z.min n (c_unio c))]> (t_conns t);
  w_kvs : t_kvs t' = t_kvs t;
  w_done : b = (0 <? n) && (c_unio c <=? n)
}.

Definition write_answer (n : Z) : answer := if 0 <? n then Wrote n else Again.

Lemma full_write_step t h c bs n input b t' :
  t_conns t !! h = Some c -> 0 <= n -> 0 < c_unio c < 2 ^ 64 ->
  t_input t = write_answer n :: input ->
  conn_full_write_bytes h bs t = Ret b t' -> written t h c bs n b t'.
Proof.
  intros Ec Hn Hu Hin H. unfold conn_full_write_bytes, conn_write_bytes in H.
  enter H. enter E. apply get_conn_Ret in E0 as [-> Ec']. rewrite Ec in Ec'. injection Ec' as <-.
  enter E. apply asserted_Ret in E0 as ->. enter E. apply asserted_Ret in E0 as ->.
  enter E. unfold sys_write, pop, mbind, M_bind in E0. rewrite Hin in E0.
  unfold write_answer in E0. destruct (Z.ltb_spec 0 n) as [Hp|Hp].
  - destruct (Z.ltb_spec 0 n); [|lia]. injection E0 as <- <-.
    enter E. destruct (Z.ltb_spec 0 (Z.min n (c_unio c))); [|lia].
    injection E0 as <- <-. unfold conn_check_write in E.
    destruct (Z.ltb_spec 0 (Z.min n (c_unio c))); [|lia].
    enter E. apply get_conn_Ret in E0 as [-> Ec']. cbn in Ec'. rewrite Ec in Ec'. injection Ec' as <-.
    enter E. apply asserted_Ret in E0 as ->. enter E. apply mod_conn_Ret in E0 as (c' & Ec' & ->).
    cbn in Ec'. rewrite Ec in Ec'. injection Ec' as <-. injection E as <- <-.
    enter H. apply get_conn_Ret in E as [-> Ec']. cbn in Ec'. rewrite lookup_insert_eq in Ec'.
    injection Ec' as <-. injection H as <- <-. rewrite wrap_small by lia. cbn [c_unio set_c_unio].
    split; cbn; try done; destruct (Z.ltb_spec 0 n); try lia; try done.
  - injection E0 as <- <-. enter E. injection E0 as <- <-. unfold conn_check_write in E.
    cbn [Z.ltb Z.compare] in E. enter E. apply asserted_Ret in E0 as ->. enter E. injection E0 as <- <-.
    injection E as <- <-. injection H as <- <-.
    split; cbn; destruct (Z.ltb_spec 0 n); try lia; try done; try by rewrite app_nil_r.
    replace (Z.min n (c_unio c)) with 0 by lia. rewrite Z.sub_0_r.
    rewrite insert_id; [done|]. rewrite Ec. f_equal. by destruct c.
Qed.

(** The bytes sent to a socket. *)
Definition sent (fd : Z) (out : list event) : list Z :=
  concat (map (fun e => match e with Sent fd' bs => if fd' =? fd then bs else [] | _ => [] end) out).

Lemma sent_app fd l l' : sent fd (l ++ l') = sent fd l ++ sent fd l'.
Proof. unfold sent. by rewrite map_app, concat_app. Qed.

(** The connection reads commands and holds no value. *)
Definition idle (t : thread) (h : Z) : Prop :=
  exists c, t_conns t !! h = Some c /\ c_state c = CONN_STATE_IN_CMD /\ c_kv c = None.

Lemma change_to_in_cmd_Ret h t x t' : change_to_in_cmd h t = Ret x t' -> idle t' h.
Proof.
  intros H. unfold change_to_in_cmd in H. enter H. apply get_conn_Ret in E as [-> Ec].
  enter H. assert (c_kv a = None) as Hkv
    by (revert E; unfold assert; case_decide; [done|intros E; discriminate E]).
  apply asserted_Ret in E as ->. apply mod_conn_Ret in H as (c & Ec' & ->).
  rewrite Ec in Ec'. injection Ec' as <-. exists (set_c_unio (set_c_state a CONN_STATE_IN_CMD) CMD_SIZE_MAX).
  split_and!; [apply lookup_insert_eq|done|done].
Qed.

(** One write of [n] bytes. *)
Lemma hit_step t h c k n :
  sending t h c k -> 0 <= n -> t_input t = [write_answer n] ->
  exists t' out, state_get_out_hit h t = Ret tt t' /\
    t_output t' = t_output t ++ out /\
    sent (c_fd c) out =
      take (Z.to_nat n) (drop (Z.to_nat (GET_RES_SIZE + k_val_size k - c_unio c)) (response k)) /\
    ((c_unio c <= n /\ idle t' h /\ inv [] [] [] t') \/
     (n < c_unio c /\ sending t' h (set_c_unio c (c_unio c - n)) k)).
Proof.
  intros Hs Hn Hin. destruct (sending_io _ _ _ _ Hs) as (Hd & Hu & Hb & Hv).
  destruct Hs as [Ec Es (v & Ev & Ek) Hi].
  destruct (wp_returns (state_get_out_hit h) (fun _ t' => inv [] [] [] t') t) as ([] & t' & H & Hi');
    [auto with checked|eapply state_get_out_hit_ok; [exact Hi|set_solver|exact Ec|exact Es|done]|].
  pose proof H as Hret. exists t'. unfold state_get_out_hit in H. enter H.
  apply get_conn_Ret in E as [-> Ec']. rewrite Ec in Ec'. injection Ec' as <-.
  rewrite Ev in H. cbn [from] in H. enter H. injection E as <- <-. enter H.
  unfold get_kv, mbind, M_bind, get_t, from in E. rewrite Ek in E. injection E as <- <-.
  rewrite hit_iov_response in H by done. enter H. pose proof (length_response k Hd) as Hlr.
  change GET_RES_SIZE with 9 in *.
  apply (full_write_step t h c _ n []) in E as [Hout Hcs Hks Hb1];
    [|exact Ec|done|lia|done]. cbn in Hout, Hcs, Hks.
  set (bs := drop _ (response k)) in *.
  assert (Z.of_nat (length bs) = c_unio c) as Hlb by (unfold bs; rewrite length_drop; lia).
  eexists. split; [exact Hret|].
  assert (sent (c_fd c) (if 0 <? n then [Sent (c_fd c) (ztake (Z.min n (c_unio c)) bs)] else []) =
    take (Z.to_nat n) bs) as Hsent.
  { destruct (Z.ltb_spec 0 n) as [Hp|Hp].
    - unfold sent. cbn. rewrite Z.eqb_refl, app_nil_r, ztake_take by lia.
      destruct (Z.le_gt_cases n (c_unio c)); [by rewrite Z.min_l|]. rewrite Z.min_r by lia.
      rewrite !take_ge by lia. done.
    - replace n with 0 by lia. done. }
  destruct (Z.le_gt_cases (c_unio c) n) as [Hfull|Hpart].
  - assert (a = true) as -> by (rewrite Hb1; lia). enter H.
    apply silent_conn_return_kv in E as [E _]. pose proof (silent_change_to_in_cmd _ _ _ _ H) as [Ho _].
    split; [rewrite Ho, E; exact Hout|]. split; [exact Hsent|]. left. split_and!; [done| |done].
    by eapply change_to_in_cmd_Ret.
  - assert (a = false) as -> by (rewrite Hb1; lia). injection H as <-.
    split; [exact Hout|]. split; [exact Hsent|]. right. split; [done|].
    rewrite Z.min_l in Hcs by lia. split; [rewrite Hcs; apply lookup_insert_eq|done| |done].
    exists v. by rewrite Hks.
Qed.

(** One event that lets the connection write [n] bytes. *)
Lemma delivery_step t h c k n :
  sending t h c k -> 0 <= n ->
  exists t' out, handle_event (Ev_conn h EPOLLOUT) (set_input t [write_answer n]) = Ret tt t' /\
    t_output t' = t_output t ++ out /\
    sent (c_fd c) out =
      take (Z.to_nat n) (drop (Z.to_nat (GET_RES_SIZE + k_val_size k - c_unio c)) (response k)) /\
    ((c_unio c <= n /\ idle t' h /\ inv [] [] [] t') \/
     (n < c_unio c /\ sending t' h (set_c_unio c (c_unio c - n)) k)).
Proof.
  intros [Ec Es Hkv Hi] Hn. set (t0 := set_input t _).
  assert (handle_event (Ev_conn h EPOLLOUT) t0 = state_get_out_hit h t0) as ->.
  { cbn [handle_event]. change (Z.land EPOLLOUT (Z.lnot (Z.lor EPOLLIN EPOLLOUT)) =? 0) with true.
    cbn [negb]. rewrite (bind_get_conn h c) by exact Ec. rewrite Es.
    change (Z.land EPOLLOUT (state_code CONN_STATE_GET_OUT_HIT) =? 0) with false. cbn [negb].
    unfold process_conn. rewrite (bind_get_conn h c) by exact Ec. by rewrite Es. }
  apply (hit_step t0); [|done|done]. split; [done|done|done|by apply inv_answered].
Qed.

(** Events that let [h] write [ns] bytes, one after another. *)
Definition deliveries (h : Z) (ns : list Z) : list (epoll_event * list answer) :=
  map (fun n => (Ev_conn h EPOLLOUT, [write_answer n])) ns.

Definition total (ns : list Z) : Z := foldr Z.add 0 ns.

Lemma total_pos ns : Forall (fun n => 0 <= n) ns -> 0 <= total ns.
Proof. unfold total. induction 1; cbn; lia. Qed.

(** An idle connection has nothing to write. *)
Lemma idle_deliveries ns : forall t h,
  idle t h -> inv [] [] [] t -> exists t', run (deliveries h ns) t = Ret tt t' /\
    t_output t' = t_output t /\ idle t' h /\ inv [] [] [] t'.
Proof.
  induction ns as [|n ns IH]; intros t h Hid Hi; [by exists t|].
  assert (handle_event (Ev_conn h EPOLLOUT) (set_input t [write_answer n]) =
    Ret tt (set_input t [write_answer n])) as E.
  { destruct Hid as (c & Ec & Es & _). cbn [handle_event].
    change (Z.land EPOLLOUT (Z.lnot (Z.lor EPOLLIN EPOLLOUT)) =? 0) with true. cbn [negb].
    rewrite (bind_get_conn h c) by exact Ec. by rewrite Es. }
  cbn [deliveries map run step fst snd]. unfold step. cbn [fst snd]. rewrite E.
  destruct (IH (set_input t [write_answer n]) h) as (t' & Hrun & Ho & ? & ?);
    [exact Hid|by apply inv_answered|]. by exists t'.
Qed.

Lemma deliveries_ok ns : forall t h c k,
  sending t h c k -> Forall (fun n => 0 <= n) ns ->
  exists t' out, run (deliveries h ns) t = Ret tt t' /\ t_output t' = t_output t ++ out /\
    sent (c_fd c) out = take (Z.to_nat (total ns))
      (drop (Z.to_nat (GET_RES_SIZE + k_val_size k - c_unio c)) (response k)) /\
    inv [] [] [] t' /\ (c_unio c <= total ns -> idle t' h).
Proof.
  induction ns as [|n ns IH]; intros t h c k Hs Hns.
  { exists t, []. pose proof (sending_io _ _ _ _ Hs) as (_ & ? & _). cbn [total foldr].
    split_and!; [done|by rewrite app_nil_r|done|apply Hs|lia]. }
  apply Forall_cons in Hns as [Hn Hns]. pose proof (total_pos ns Hns) as Htot.
  destruct (sending_io _ _ _ _ Hs) as (Hd & Hu & _). pose proof (length_response k Hd) as Hlr.
  destruct (delivery_step t h c k n Hs Hn) as (t1 & out1 & Hev & Ho1 & Hs1 & Hcase).
  cbn [deliveries map run]. unfold step. cbn [fst snd]. rewrite Hev. cbn [total foldr].
  fold (total ns). destruct Hcase as [(Hfull & Hid & Hi1)|(Hpart & Hs')].
  - destruct (idle_deliveries ns t1 h Hid Hi1) as (t' & Hrun & Ho & Hid' & Hi').
    exists t', out1. split_and!; [done|congruence| |done|done].
    rewrite Hs1, !take_ge; [done|rewrite length_drop; lia..].
  - destruct (IH t1 h _ k Hs' Hns) as (t' & out & Hrun & Ho & Hst & Hi' & Hdone).
    cbn [c_fd c_unio set_c_unio] in *. exists t', (out1 ++ out). split_and!; [done| | |done|].
    + by rewrite Ho, Ho1, app_assoc.
    + rewrite sent_app, Hs1, Hst. rewrite Z2Nat.inj_add by lia. rewrite <-take_take_drop.
      f_equal. rewrite drop_drop. do 2 f_equal. lia.
    + intros Hle. apply Hdone. lia.
Qed.

(** ** A command *)

Lemma bytes_id l : Forall is_byte l -> bytes l = l.
Proof.
  induction 1 as [|b l Hb _ IH]; [done|]. unfold bytes in *. cbn. rewrite IH. f_equal.
  apply (wrap_small 8). exact Hb.
Qed.

(** The connection after it received the command [cmd] for [key]. *)
Definition commanded (c : conn) (cmd : Z) (key : key) : conn :=
  set_c_key (set_c_cmd (set_c_unio c (CMD_SIZE_MAX - (1 + Z.of_nat (length key)))) cmd)
    (key ++ drop (length key) (c_key c)).

Definition received (t : thread) (h : Z) (c : conn) (cmd : Z) (key : key) (input : list answer)
    : thread :=
  set_conns (set_input t input) (<[h := commanded c cmd key]> (t_conns t)).

Section received.
Context (t : thread) (h : Z) (c : conn) (cmd : Z) (key : key) (input : list answer).
Hypothesis Hi : inv [] [] [] t.
Hypothesis Ec : t_conns t !! h = Some c.
Hypothesis Es : c_state c = CONN_STATE_IN_CMD.
Hypothesis Hu : c_unio c = CMD_SIZE_MAX.
Hypothesis Hcmd : is_byte cmd.
Hypothesis Hwf : wf_key key.

Lemma key_lengths : (1 <= length key <= 256)%nat /\ Z.of_nat (length key) = KEY_SIZE key /\
  hd 0 key = Z.of_nat (length key) - 1.
Proof.
  destruct Hwf as (Hb & Hne & Hl). destruct key as [|b l]; [done|].
  apply Forall_cons in Hb as [? _]. unfold key_size, KEY_SIZE in *. cbn [hd] in *.
  change (key_size (b :: l)) with (1 + b) in Hl. cbn [length] in *. lia.
Qed.

Lemma commanded_ok : conn_ok (commanded c cmd key).
Proof.
  pose proof (inv_conn_ok _ _ _ _ _ _ Hi Ec) as []. destruct key_lengths as (? & _).
  split; cbn; try done.
  - apply Forall_app. split; [apply Hwf|by apply Forall_drop].
  - rewrite length_app, length_drop. lia.
  - change CMD_SIZE_MAX with 257. lia.
Qed.

Lemma conn_key_commanded : conn_key (commanded c cmd key) = key.
Proof.
  destruct key_lengths as (? & Hk & _). unfold conn_key. cbn [c_key commanded set_c_key].
  assert (KEY_SIZE (key ++ drop (length key) (c_key c)) = KEY_SIZE key) as ->.
  { unfold KEY_SIZE. destruct key; [cbn in *; lia|done]. }
  rewrite <-Hk, Nat2Z.id. apply take_app_length.
Qed.

Lemma received_inv : inv [] [] [] (received t h c cmd key input).
Proof.
  destruct (inv_tag _ _ _ _ _ _ Hi Ec) as [Hl _]; [set_solver|].
  unfold link_ok in Hl. rewrite Es in Hl. destruct Hl as [Hkv Ha].
  eapply (inv_in_cmd _ h (commanded c cmd key)); [|apply lookup_insert_eq|done|done|exact Ha|].
  - eapply (inv_update_conn _ _ _ (set_input t input) h c);
      [apply inv_take, inv_answered, Hi|exact Ec|set_solver|apply commanded_ok|done|done|done|].
    left. eapply (off_state _ _ _ t); [exact Hi|exact Ec|congruence].
  - cbn. change CMD_SIZE_MAX with 257. lia.
Qed.

(** The whole command in one read is run. *)
Lemma command_received :
  handle_event (Ev_conn h EPOLLIN) (set_input t (Got (cmd :: key) :: input)) =
  cmd_run h (received t h c cmd key input).
Proof.
  destruct key_lengths as (Hlen & Hk & Hhd). pose proof (inv_conn_ok _ _ _ _ _ _ Hi Ec) as Hok.
  destruct (inv_tag _ _ _ _ _ _ Hi Ec) as [Hl _]; [set_solver|].
  unfold link_ok in Hl. rewrite Es in Hl. destruct Hl as [Hkv _].
  set (t0 := set_input t _). assert (t_conns t0 !! h = Some c) as Ec0 by exact Ec.
  cbn [handle_event]. change (Z.land EPOLLIN (Z.lnot (Z.lor EPOLLIN EPOLLOUT)) =? 0) with true.
  cbn [negb]. rewrite (bind_get_conn h c) by exact Ec0. rewrite Es.
  change (Z.land EPOLLIN (state_code CONN_STATE_IN_CMD) =? 0) with false. cbn [negb].
  unfold process_conn. rewrite (bind_get_conn h c) by exact Ec0. rewrite Es.
  unfold state_in_cmd. rewrite (bind_get_conn h c) by exact Ec0.
  rewrite (bind_step _ _ _ tt t0) by by apply assert_run.
  rewrite (bind_step _ _ _ true (received t h c cmd key input)).
  { rewrite (bind_get_conn h (commanded c cmd key)) by apply lookup_insert_eq.
    assert (cmd_full_readed (commanded c cmd key) = true) as ->; [|done].
    unfold cmd_full_readed. cbn [c_unio commanded set_c_key set_c_cmd set_c_unio c_key].
    change CMD_SIZE_MAX with 257. change CMD_SIZE_MIN with 2. rewrite wrap_small by lia.
    apply Z.eqb_eq. destruct key; cbn [hd app length] in *; lia. }
  unfold conn_read. rewrite (bind_get_conn h c) by exact Ec0. rewrite Hu.
  change CMD_SIZE_MAX with 257. change (u64 (257 - 257)) with 0.
  rewrite (bind_step _ _ _ tt t0) by (apply within_run; lia).
  assert (Forall is_byte (cmd :: key)) as Hb by (constructor; [exact Hcmd|apply Hwf]).
  assert (ztake 257 (bytes (cmd :: key)) = cmd :: key) as Ez.
  { rewrite bytes_id by done. unfold ztake. cbn [length].
    destruct (Z.leb_spec (Z.of_nat (S (length key))) 257); [done|lia]. }
  rewrite (bind_step _ _ _ (Z.of_nat (S (length key)), false, cmd :: key) (set_input t input)).
  2: { unfold sys_read, mbind, M_bind, pop. cbn [t_input t0 set_input]. rewrite Ez. done. }
  cbv iota beta. destruct (Z.ltb_spec 0 (Z.of_nat (S (length key)))); [|lia].
  unfold store_cmd. rewrite (bind_step _ _ _ tt (set_conns (set_input t input)
    (<[h := set_c_key (set_c_cmd c cmd) (key ++ drop (length key) (c_key c))]> (t_conns t)))).
  2: { rewrite (bind_step _ _ _ tt (set_input t input))
         by (apply within_run; change CMD_SIZE_MAX with 257; cbn [length]; lia).
       rewrite (mod_conn_run h _ c) by exact Ec. done. }
  unfold conn_check_read. destruct (Z.ltb_spec 0 (Z.of_nat (S (length key)))); [|lia].
  set (c1 := set_c_key _ _). set (t1 := set_conns _ _).
  assert (t_conns t1 !! h = Some c1) as Ec1 by apply lookup_insert_eq.
  rewrite (bind_get_conn h c1) by exact Ec1.
  assert (c_unio c1 = 257) as Hu1 by exact Hu.
  rewrite (bind_step _ _ _ tt t1) by (apply assert_run; lia).
  erewrite bind_step by (apply mod_conn_run; exact Ec1).
  cbv beta. rewrite Hu1, wrap_small by lia. unfold t1, received. unfold mret, M_ret. f_equal.
  unfold set_conns. cbn. f_equal. rewrite insert_insert_eq. f_equal. unfold commanded, c1.
  change CMD_SIZE_MAX with 257. replace (1 + Z.of_nat (length key)) with (Z.of_nat (S (length key))) by lia.
  done.
Qed.
End received.

(** ** A GET that hits *)

Lemma silent_hash_get k : silent (thread_hash_get k).
Proof. unfold thread_hash_get. silent. Qed.
Lemma silent_conn_borrow_kv h v : silent (conn_borrow_kv h v).
Proof. unfold conn_borrow_kv, kv_borrow, lru_del. silent. Qed.

Lemma wp_runs {A} (m : M A) (Q : A -> thread -> Prop) t :
  checked m -> silent m -> wp m Q t -> exists a t', m t = Ret a t' /\ Q a t' /\ same_io t t'.
Proof.
  intros Hc Hs Hw. destruct (wp_returns m Q t Hc Hw) as (a & t' & E & HQ). exists a, t'.
  split_and!; [done|done|by apply (Hs _ _ _ E)..].
Qed.

(** What a node of the table that is not a connection is. *)
Lemma index_value t key v :
  inv [] [] [] t -> hmap t !! key = Some v -> THREAD_MAX_CONN <= v ->
  exists k, t_kvs t !! v = Some k /\ k_enabled k = true /\ k_key k = key.
Proof.
  intros Hi Hl Hv. destruct (proj1 (proj2 (proj2 (i_index Hi))) _ _ Hl) as [Hs|?]; [|done].
  pose proof (conn_range _ _ _ _ _ Hi Hs). lia.
Qed.

Lemma cmd_get_hit t h c v k :
  inv [] [] [] t -> t_conns t !! h = Some c -> c_state c = CONN_STATE_IN_CMD ->
  hmap t !! conn_key c = Some v -> t_kvs t !! v = Some k -> k_enabled k = true ->
  exists t' c' k', cmd_get h t = state_get_out_hit h t' /\ sending t' h c' k' /\
    c_fd c' = c_fd c /\ c_unio c' = GET_RES_SIZE + k_val_size k' /\
    k_val_size k' = k_val_size k /\ k_data k' = k_data k /\ same_io t t'.
Proof.
  intros Hi Ec Es Hl Ek Hen. destruct (inv_tag _ _ _ _ _ _ Hi Ec) as [Hlk _]; [set_solver|].
  unfold link_ok in Hlk. rewrite Es in Hlk. destruct Hlk as [Hkv Ha].
  destruct (conn_key_wf c (inv_conn_ok _ _ _ _ _ _ Hi Ec)) as (Hwf & _).
  pose proof (kv_range _ _ _ _ _ _ Hi Ek) as Hr.
  assert (off_lists h (t_conns t)) as Hoff by (eapply off_state; [done|done|congruence]).
  destruct (wp_runs (thread_hash_get (conn_key c)) (fun r t' => r = Some v /\ inv [] [] [] t' /\
    t_conns t' = t_conns t /\ t_kvs t' = t_kvs t /\ hmap t' = hmap t) t)
    as (r & t1 & E1 & (-> & Hi1 & Ecs1 & Eks1 & Hm1) & Hio1);
    [auto with checked|apply silent_hash_get| |].
  { eapply hash_get_wp; [exact Hi|done|]. intros t' Hi' ? ? ? _. by rewrite Hl. }
  unfold cmd_get. rewrite (bind_get_conn h c) by exact Ec. rewrite (bind_step _ _ _ _ _ E1).
  unfold thread_range. rewrite (proj2 (Z.ltb_ge _ _)), andb_false_r by lia.
  assert (t_conns t1 !! h = Some c) as Ec1 by by rewrite Ecs1.
  assert (t_kvs t1 !! v = Some k) as Ek1 by by rewrite Eks1.
  destruct (wp_runs (conn_borrow_kv h v) (fun _ t' => inv [] [h] [] t' /\
    released t1 t' h (set_c_kv c (Some v)) /\
    exists k', t_kvs t' !! v = Some k' /\ same_bytes k k') t1)
    as (r & t2 & E2 & (Hi2 & [Hrc _ Hrh _ _ Hrn] & k2 & Ek2 & _ & Hv2 & Hd2) & Hio2);
    [auto with checked|apply silent_conn_borrow_kv| |].
  { eapply conn_borrow_kv_ok; [apply (inv_take h), Hi1|done|set_solver|done|exact Ek1|done|]. eauto 6. }
  rewrite (bind_step _ _ _ _ _ E2).
  assert (t_conns t2 !! h = Some (set_c_kv c (Some v))) as Ec2 by (rewrite Hrc; apply lookup_insert_eq).
  assert (Z.of_nat (length (k_data k2)) = k_val_size k2) as Hlen.
  { rewrite Hv2, Hd2. apply (k_complete _ (proj2 (proj2 (i_kvs Hi) _ _ Ek)) Hen). }
  assert (alone (hmap t2) h (set_c_kv c (Some v))) as Ha2.
  { unfold hmap in *. rewrite Hrh, Hm1. exact Ha. }
  assert (off_lists h (t_conns t2)) as Hoff2.
  { rewrite Hrc. apply (off_update h _ h c); [by rewrite Ecs1|done|done]. }
  exists (set_conns t2 (<[h := hit_conn (set_c_kv c (Some v)) k2]> (t_conns t2))),
    (hit_conn (set_c_kv c (Some v)) k2), k2.
  split; [by apply (change_to_get_out_hit_run [] [] t2 h _ v k2)|].
  assert (same_io t t2) as Hio by (destruct Hio1, Hio2; split; congruence).
  split; [|split_and!; try done; by destruct Hio].
  split; [apply lookup_insert_eq|done|by exists v|].
  apply (inv_hit [] [] t2 h _ v k2); try done. set_solver.
Qed.

(** The run of a GET that hits the value [k], with the system's answers [n] and [ns]
    to its writes. *)
Definition hit_answered (t : thread) (h : Z) (c : conn) (key : key) (k : kv) (n : Z) (ns : list Z)
    : Prop :=
  exists t' out,
    run ((Ev_conn h EPOLLIN, [Got (CACHE_CMD_GET_OR_SET :: key); write_answer n])
         :: deliveries h ns) t = Ret tt t' /\
    t_output t' = t_output t ++ out /\
    sent (c_fd c) out = take (Z.to_nat (total (n :: ns)))
      (le_split 8 (k_val_size k) ++ [0] ++ k_data k) /\
    inv [] [] [] t' /\
    (GET_RES_SIZE + k_val_size k <= total (n :: ns) -> idle t' h).

Lemma get_hit_run t h c key v k n ns :
  inv [] [] [] t -> t_conns t !! h = Some c -> c_state c = CONN_STATE_IN_CMD ->
  c_unio c = CMD_SIZE_MAX -> wf_key key -> hmap t !! key = Some v -> t_kvs t !! v = Some k ->
  Forall (fun n => 0 <= n) (n :: ns) -> hit_answered t h c key k n ns.
Proof.
  intros Hi Ec Es Hu Hwf Hl Ek Hn. unfold hit_answered. apply Forall_cons in Hn as [Hn Hns]. pose proof (total_pos ns Hns) as Htot.
  pose proof (kv_range _ _ _ _ _ _ Hi Ek) as Hr.
  destruct (index_value t key v Hi Hl ltac:(lia)) as (k0 & Ek0 & Hen & _).
  rewrite Ek in Ek0. injection Ek0 as <-.
  assert (is_byte CACHE_CMD_GET_OR_SET) as Hb by done.
  cbn [run]. unfold step. cbn [fst snd].
  rewrite (command_received t h c _ key [write_answer n] Hi Ec Es Hu Hb Hwf).
  pose proof (received_inv t h c CACHE_CMD_GET_OR_SET key [write_answer n] Hi Ec Es Hu Hb Hwf) as Hi1.
  set (t1 := received _ _ _ _ _ _) in *. set (c1 := commanded c CACHE_CMD_GET_OR_SET key).
  assert (t_conns t1 !! h = Some c1) as Ec1 by apply lookup_insert_eq.
  destruct (cmd_get_hit t1 h c1 v k) as (t2 & c2 & k2 & Hrun & Hs & Hfd & Hu2 & Hv & Hd & Hio & Hin);
    [done|done|done|unfold c1; by rewrite (conn_key_commanded c CACHE_CMD_GET_OR_SET key Hwf)|done|done|].
  unfold cmd_run. rewrite (bind_get_conn h c1) by exact Ec1. cbn [c_cmd c1 commanded set_c_key set_c_cmd].
  rewrite Z.eqb_refl, Hrun.
  destruct (hit_step t2 h c2 k2 n Hs Hn Hin) as (t3 & out1 & E3 & Ho3 & Hs3 & Hcase).
  rewrite E3. rewrite Hu2, Z.sub_diag in Hs3.
  change (drop (Z.to_nat 0) ?l) with l in Hs3.
  destruct (sending_io _ _ _ _ Hs) as (Hlen & _). pose proof (length_response k2 Hlen) as Hlr.
  assert (response k2 = le_split 8 (k_val_size k) ++ [0] ++ k_data k) as Er
    by (unfold response; by rewrite Hv, Hd).
  rewrite <-Er, <-Hv. change (c_fd c) with (c_fd c1). rewrite <-Hfd.
  cbn [total foldr]. fold (total ns). rewrite Hu2 in Hcase.
  destruct Hcase as [(Hfull & Hid & Hi3)|(Hpart & Hs')].
  - destruct (idle_deliveries ns t3 h Hid Hi3) as (t' & Hrun' & Ho & Hid' & Hi').
    exists t', out1. split_and!; [done|rewrite Ho, Ho3, Hio; done| |done|done].
    rewrite Hs3, !take_ge; [done|lia..].
  - destruct (deliveries_ok ns t3 h _ k2 Hs' Hns) as (t' & out & Hrun' & Ho & Hst & Hi' & Hdone).
    cbn [c_fd c_unio set_c_unio] in *. exists t', (out1 ++ out). split_and!; [done| | |done|].
    + rewrite Ho, Ho3, Hio. by rewrite app_assoc.
    + rewrite sent_app, Hs3, Hst. rewrite Z2Nat.inj_add by lia. rewrite <-take_take_drop.
      do 3 f_equal. lia.
    + intros Hle. apply Hdone. lia.
Qed.

(** C9: a client that asks for a key whose value is in service gets the size of
    the value in 8 bytes, the byte 0 and the bytes of the value, in this order and
    nothing else, however the system cuts the answer into writes; after the last
    byte the connection reads its next command. *)
Theorem get_hit_response t h c key v k n ns
    (Hi : inv [] [] [] t) (Ec : t_conns t !! h = Some c) (Es : c_state c = CONN_STATE_IN_CMD)
    (Hu : c_unio c = CMD_SIZE_MAX) (Hwf : wf_key key) (Hl : hmap t !! key = Some v)
    (Ek : t_kvs t !! v = Some k) (Hn : Forall (fun n => 0 <= n) (n :: ns)) :
  exists t' out,
    run ((Ev_conn h EPOLLIN, [Got (CACHE_CMD_GET_OR_SET :: key); write_answer n])
         :: deliveries h ns) t = Ret tt t' /\
    t_output t' = t_output t ++ out /\
    sent (c_fd c) out = take (Z.to_nat (total (n :: ns)))
      (le_split 8 (k_val_size k) ++ [0] ++ k_data k) /\
    inv [] [] [] t' /\
    (GET_RES_SIZE + k_val_size k <= total (n :: ns) -> idle t' h).
Proof. by apply (get_hit_run t h c key v k n ns). Qed.

Lemma after_inv l n :
  ranb l empty_thread = true -> run l empty_thread = Ret tt (after_run l) -> length l = n ->
  Z.of_nat n <= 2 ^ 48 -> inv [] [] [] (after_run l).
Proof.
  intros Hb Hr <- Hn. apply (reachable_inv (length l)); [|done]. by apply after_reachable.
Qed.

Lemma stored_inv : inv [] [] [] (after_run store_run).
Proof. destruct store_run_ok. by eapply (after_inv store_run 4). Qed.

Lemma get_hit_response_witness :
  exists t' out,
    run ((Ev_conn 127 EPOLLIN, [Got (CACHE_CMD_GET_OR_SET :: [1; 65]); write_answer 4])
         :: deliveries 127 [0; 100]) (after_run store_run) = Ret tt t' /\
    t_output t' = t_output (after_run store_run) ++ out /\
    sent 5 out = [3; 0; 0; 0; 0; 0; 0; 0; 0; 10; 11; 12] /\ idle t' 127.
Proof.
  set (t := after_run store_run).
  assert (exists c, t_conns t !! 127 = Some c) as [c Ec] by (vm_compute; eexists; reflexivity).
  assert (exists k, t_kvs t !! 128 = Some k) as [k Ek] by (vm_compute; eexists; reflexivity).
  assert (match t_conns t !! 127 with Some c => c_state c = CONN_STATE_IN_CMD /\
    c_unio c = CMD_SIZE_MAX /\ c_fd c = 5 | None => False end) as Hc
    by (vm_compute; split_and!; reflexivity).
  assert (match t_kvs t !! 128 with Some k => k_val_size k = 3 /\ k_data k = [10; 11; 12]
    | None => False end) as Hk by (vm_compute; split_and!; reflexivity).
  rewrite Ec in Hc. rewrite Ek in Hk. destruct Hc as (Hs & Hu & Hfd), Hk as (Hv & Hd).
  destruct (get_hit_response t 127 c [1; 65] 128 k 4 [0; 100]) as (t' & out & Hr & Ho & Hsent & _ & Hid);
    [exact stored_inv|exact Ec|exact Hs|exact Hu|split_and!; [decide_now|done|done]|
     vm_compute; reflexivity|exact Ek|by repeat constructor|].
  exists t', out. split; [exact Hr|]. split; [exact Ho|]. rewrite Hfd, Hv, Hd in Hsent.
  split; [exact Hsent|]. apply Hid. rewrite Hv. vm_compute. discriminate.
Defined.

(** ** Waiting for a lock *)

(** The connection is closed at its next event. *)
Definition closing (t : thread) (h : Z) : Prop :=
  exists c, t_conns t !! h = Some c /\ c_state c = CONN_STATE_FREE.

(** The connection exists and does not wait for a lock. *)
Definition served (t : thread) (h : Z) : Prop :=
  exists c, t_conns t !! h = Some c /\ c_state c <> CONN_STATE_GET_BLOCKED.

(** [n] ticks of the clock, with nothing else in between. *)
Fixpoint ticks (n : nat) : M unit :=
  match n with O => mret tt | S n => clock_service;; ticks n end.

(** What one tick does. *)
Lemma tick_run t : inv [] [] [] t ->
  exists t', clock_service t = Ret tt t' /\ inv [] [] [] t' /\ ticked (clock_death t) t t' /\
    clock_probation t' = [] /\ (forall g, g ∈ clock_probation t -> g ∈ clock_death t').
Proof.
  intros Hi.
  destruct (wp_returns clock_service (fun _ t' => inv [] [] [] t' /\ ticked (clock_death t) t t' /\
    clock_probation t' = [] /\ forall g, g ∈ clock_probation t -> g ∈ clock_death t') t)
    as ([] & t' & E & H); [auto with checked| |by exists t'].
  eapply clock_tick_ok; [done|]. by intros t' [? _] ? ? ?.
Qed.

Lemma ticks_S n t t1 : clock_service t = Ret tt t1 -> ticks (S n) t = ticks n t1.
Proof. intros E. cbn [ticks]. unfold mbind, M_bind. by rewrite E. Qed.

(** Ticks end, and neither send a connection back to wait nor revive it. *)
Lemma ticks_live n : forall t, inv [] [] [] t ->
  exists t', ticks n t = Ret tt t' /\ inv [] [] [] t' /\
    (forall h, served t h -> served t' h) /\ (forall h, closing t h -> closing t' h).
Proof.
  induction n as [|n IH]; intros t Hi; [by exists t|].
  destruct (tick_run t Hi) as (t1 & E & Hi1 & Htk & _).
  destruct (IH t1 Hi1) as (t' & E' & Hi' & Hs & Hc). exists t'. rewrite (ticks_S n t t1 E).
  split_and!; [done|done|..]; intros h (c & Ec & Hh); [apply Hs|apply Hc];
    destruct (tk_live _ _ _ Htk _ _ Ec) as (c1 & Ec1 & Hb & Hf); exists c1; auto.
Qed.

(** The holder [g] is on the list of the next tick. *)
Lemma queue_served n : forall t g cg k h,
  inv [] [] [] t -> g ∈ clock_death t -> t_conns t !! g = Some cg -> c_waiting cg !! k = Some h ->
  (k < n)%nat -> exists t', ticks n t = Ret tt t' /\ inv [] [] [] t' /\ closing t' g /\ served t' h.
Proof.
  induction n as [|n IH]; intros t g cg k h Hi Hg Eg Hk Hn; [lia|].
  destruct (tick_run t Hi) as (t1 & E & Hi1 & Htk & Hp & _). rewrite (ticks_S n t t1 E).
  assert (closing t1 g) as Hc1 by apply (tk_freed _ _ _ Htk g Hg).
  destruct (c_waiting cg) as [|first rest] eqn:Hw; [done|].
  destruct (tk_served _ _ _ Htk g cg first Hg Eg) as (f & Ef & Hsf & Hwf & Hcf); [by rewrite Hw|].
  destruct (ticks_live n t1 Hi1) as (t' & E' & Hi' & Hs & Hc).
  destruct k as [|k].
  - injection Hk as <-. exists t'. split_and!; [done|done|by apply Hc|]. apply Hs. by exists f.
  - destruct (IH t1 first f k h) as (t2 & E2 & ? & _ & ?); [done| |done|by rewrite Hwf, Hw|lia|].
    + pose proof (proj2 (proj2 (i_clock Hi1) first)) as Hd. rewrite Hp in Hd. apply Hd. eauto.
    + assert (t2 = t') as -> by congruence. exists t'. split_and!; [done|done|by apply Hc|done].
Qed.

(** C11: the clock serves everyone that waits for a key: if the clients do nothing
    meanwhile, then after [k + 2] ticks, and ever after, the connection that holds
    the lock is marked to be closed and the connection at place [k] of the queue
    (counted from 0) no longer waits, whichever place it has.  (A client that asks
    for the key meanwhile goes to the front of the queue.) *)
Theorem waiter_served_by_clock t g cg k h n
    (Hi : inv [] [] [] t) (Eg : t_conns t !! g = Some cg) (Hw : c_waiting cg !! k = Some h)
    (Hn : (k + 2 <= n)%nat) :
  exists t', ticks n t = Ret tt t' /\ inv [] [] [] t' /\ closing t' g /\ served t' h.
Proof.
  assert (c_clock_called cg = true) as Hcl.
  { eapply inv_timed; [exact Hi|exact Eg|set_solver|]. by intros E; rewrite E in Hw. }
  pose proof (called_locked _ _ _ Hi Eg Hcl) as Hlk.
  assert (g ∈ clock_probation t ++ clock_death t) as Hg
    by (pose proof (proj2 (proj2 (i_clock Hi) g)) as Hc; eauto).
  destruct (decide (g ∈ clock_death t)) as [Hd|Hd]; [eapply queue_served; [done..|lia]|].
  destruct n as [|n]; [lia|]. destruct (tick_run t Hi) as (t1 & E & Hi1 & Htk & _ & Hp).
  rewrite (ticks_S n t t1 E). eapply (queue_served n t1 g cg k); [done| |..|done|lia].
  - apply Hp. set_solver.
  - eapply tk_kept; [exact Htk|done|by apply locked_not_blocked|done].
Qed.

Definition waiting_thread : thread := after_run waiting_run.

Lemma waiting_inv : inv [] [] [] waiting_thread.
Proof. eapply (after_inv waiting_run 6); [vm_compute; reflexivity..|lia]. Qed.

Lemma waiter_served_by_clock_witness :
  exists t', ticks 2 waiting_thread = Ret tt t' /\ closing t' 127 /\ served t' 126.
Proof.
  assert (match t_conns waiting_thread !! 127 with Some c => c_waiting c = [126] | None => False end) as Hc
    by (vm_compute; reflexivity).
  destruct (t_conns waiting_thread !! 127) as [c|] eqn:Ec; [|destruct Hc].
  destruct (waiter_served_by_clock waiting_thread 127 c 0 126 2) as (t' & E & _ & Hcl & Hf);
    [exact waiting_inv|exact Ec|rewrite Hc; reflexivity|lia|].
  exists t'. split; [exact E|]. split; [exact Hcl|exact Hf].
Defined.

(** C21: taking the lock of a key away from a connection closes the connection
    and loses nobody that waits: with an empty queue the key becomes free, else the
    first of the queue holds the lock, heads the rest of the queue in the same
    order, is told that it missed, has its time running, and is woken up. *)
Theorem lock_handed_over t h c
    (Hi : inv [] [] [] t) (Ec : t_conns t !! h = Some c)
    (Hlk : conn_with_key_locked c = true) :
  exists t', change_locked_to_free h t = Ret tt t' /\ inv [] [] [] t' /\ closing t' h /\
    match c_waiting c with
    | [] => hmap t' = delete (conn_key c) (hmap t)
    | first :: rest =>
        hmap t' = <[conn_key c := first]> (hmap t) /\
        exists f, t_conns t' !! first = Some f /\ c_state f = CONN_STATE_GET_OUT_MISS /\
          c_waiting f = rest /\ c_clock_called f = true /\
          last (t_output t') = Some (Woken (c_fd f))
    end.
Proof.
  destruct (wp_returns (change_locked_to_free h) (fun _ t' => inv [] [] [] t' /\ freed t t' h c) t)
    as ([] & t' & E & Hi' & [_ _ Hc _ _ Hl]);
    [auto with checked|by eapply change_locked_to_free_ok|].
  exists t'. split_and!; [done..|]. unfold handed_over in Hl.
  destruct (c_waiting c) as [|first rest]; [done|]. destruct Hl as (Hm & f & _ & Ef & _ & Hout).
  split; [done|]. by exists (promoted_conn rest f).
Qed.

Lemma lock_handed_over_witness :
  exists t', change_locked_to_free 127 waiting_thread = Ret tt t' /\
    hmap t' !! [1; 65] = Some 126 /\ last (t_output t') = Some (Woken 6).
Proof.
  assert (match t_conns waiting_thread !! 127 with
    | Some c => c_waiting c = [126] /\ conn_with_key_locked c = true /\ conn_key c = [1; 65]
    | None => False end) as Hc by (vm_compute; split_and!; reflexivity).
  destruct (t_conns waiting_thread !! 127) as [c|] eqn:Ec; [|destruct Hc]. destruct Hc as (Hw & Hlk & Hk).
  destruct (lock_handed_over waiting_thread 127 c waiting_inv Ec Hlk) as (t' & E & _ & _ & H).
  rewrite Hw, Hk in H. destruct H as (Hm & f & Ef & _ & _ & _ & Hout).
  exists t'. split; [exact E|]. split; [rewrite Hm; apply lookup_insert_eq|].
  assert (match change_locked_to_free 127 waiting_thread with
    | Ret _ t1 => c_fd <$> t_conns t1 !! 126 = Some 6 | _ => False end) as Hfd by (vm_compute; reflexivity).
  rewrite E, Ef in Hfd. injection Hfd as Hfd. rewrite <-Hfd. exact Hout.
Defined.

(** ** Memory *)

(** [reclaim_lru] finds nothing: the main list is empty and the first list holds at
    most a tenth of the entries. *)
Definition nothing_to_evict (t : thread) : Prop :=
  m_lru t = [] /\ s_lru_size t * 10 <= n (t_hash t).

(** [v] is a value with room for [size] bytes that nobody uses yet. *)
Definition unused_room (t : thread) (v size : Z) : Prop :=
  exists k, t_kvs t !! v = Some k /\ size <= k_bytes k /\ k_enabled k = false /\
    k_borrowers k = [].

(** C22: reserving pages ends: it evicts values until enough pages are free, or
    until nothing may be evicted any more (the main list is empty and the first
    list holds at most a tenth of the entries); no connection is touched. *)
Theorem reserve_page_terminates t page (Hi : inv [] [] [] t) :
  exists t', reserve_page page t = Ret tt t' /\ inv [] [] [] t' /\ t_conns t' = t_conns t /\
    (page <= free_pages (t_memory t') \/ nothing_to_evict t').
Proof.
  destruct (wp_returns (reserve_page page) (fun _ t' => inv [] [] [] t' /\ t_conns t' = t_conns t /\
    (page <= free_pages (t_memory t') \/ exhausted t')) t) as ([] & t' & E & ? & ? & ?);
    [auto with checked| |by exists t'].
  unfold reserve_page. wp_steps. eapply reclaim_while_kept; [done|].
  intros t' [Hi' Hf] [Hm|He]; (split_and!; [done|apply (f_conns _ _ Hf)|]); [left|by right].
  by apply Z.ltb_ge.
Qed.

Lemma reserve_page_terminates_witness :
  exists t', reserve_page 10000 (after_run store_run) = Ret tt t' /\ s_lru t' = [] /\
    inv [] [] [] t'.
Proof.
  destruct (reserve_page_terminates (after_run store_run) 10000 stored_inv) as (t' & E & Hi & _).
  exists t'. split; [exact E|]. split; [|exact Hi].
  assert (match reserve_page 10000 (after_run store_run) with Ret _ t1 => s_lru t1 = [] | _ => False end)
    as Hs by (vm_compute; reflexivity).
  rewrite E in Hs. exact Hs.
Defined.

(** C23: an allocation for a value whose header, key and bytes, rounded up to a
    page, do not overflow 64 bits always returns, evicting what it must: either
    nothing, and the thread is consistent, or a value object nobody else has, with
    room for its header, its key and all bytes of the value, not in service and
    not borrowed.  (Beyond that bound the sum wraps and the object is too small.) *)
Theorem kv_malloc_room t key val_size
    (Hi : inv [] [] [] t) (Hk : 1 <= KEY_SIZE key <= 256) (Hv : 0 <= val_size)
    (Hsum : sizeof_kv + KEY_SIZE key + val_size + PAGE_MASK < 2 ^ 64) :
  exists r t', kv_malloc key val_size t = Ret r t' /\ t_conns t' = t_conns t /\
    match r with
    | None => inv [] [] [] t'
    | Some v =>
        t_kvs t !! v = None /\ unused_room t' v (sizeof_kv + KEY_SIZE key + val_size)
    end.
Proof.
  apply (wp_returns (kv_malloc key val_size)); [auto with checked|].
  eapply kv_malloc_ok; [exact Hi|done|done|done|..].
  - intros t' [Hi' Hf]. split; [apply (f_conns _ _ Hf)|done].
  - intros t' k [Hi' Hf] []. split; [apply (f_conns _ _ Hf)|]. rewrite (f_next _ _ Hf). split.
    + apply eq_None_not_Some. intros [k0 E]. destruct (proj2 (i_kvs Hi) _ _ E). lia.
    + exists k. split_and!; [|done..]. unfold add_kv. t_simpl. rewrite (f_next _ _ Hf).
      apply lookup_insert_eq.
Qed.

Lemma kv_malloc_room_witness :
  exists v t' k, kv_malloc [1; 66] 10000 (set_input (after_run store_run) [Mapped 65536; Mapped 131072])
      = Ret (Some v) t' /\ t_kvs t' !! v = Some k /\ sizeof_kv + KEY_SIZE [1; 66] + 10000 <= k_bytes k.
Proof.
  set (t := set_input (after_run store_run) _).
  destruct (kv_malloc_room t [1; 66] 10000) as (r & t' & E & _ & Hr);
    [apply inv_answered, stored_inv|vm_compute; split; discriminate|lia|vm_compute; reflexivity|].
  assert (match kv_malloc [1; 66] 10000 t with Ret r _ => is_Some r | _ => False end) as Hs
    by (vm_compute; eexists; reflexivity).
  rewrite E in Hs. destruct r as [v|]; [|destruct Hs as [? Hs]; discriminate Hs].
  destruct Hr as (_ & k & Ek & Hb & _). exists v, t', k. split; [exact E|]. split; [exact Ek|].
  exact Hb.
Defined.
