(* ===== verification/ThreadSet.v ===== *)
(** * Storing a value (thread.c)

    A client that missed sends the size of its value and the bytes.  Here: the
    bytes end in the hash table under the key, in the order the client sent them,
    however the system cuts the stream into reads, whoever waits for the key and
    whether or not the table is resized; and a later GET of any client returns
    exactly these bytes. *)

From S2P Require Import Prelude Slab Memory HashTable Kv KvCache SizeClass Proto.
From S2P Require Import Thread ThreadInv ThreadConn ThreadEvents ThreadRun ThreadTotal ThreadSpec.

(** ** The steps of a computation that returns *)

Lemma get_kv_Ret v t k t' : get_kv v t = Ret k t' -> t' = t /\ t_kvs t !! v = Some k.
Proof.
  unfold get_kv, mbind, M_bind, get_t, from. destruct (t_kvs t !! v); intros E; [|done].
  by injection E as -> ->.
Qed.

Lemma mod_kv_Ret v f t x t' :
  mod_kv v f t = Ret x t' -> exists k, t_kvs t !! v = Some k /\
    t' = set_kvs t (<[v := f k]> (t_kvs t)).
Proof.
  unfold mod_kv, mbind, M_bind. destruct (get_kv v t) as [k t1| |] eqn:E; try done.
  apply get_kv_Ret in E as [-> E]. intros Hr. injection Hr as _ <-. eauto.
Qed.

Lemma from_returned {A} (x : option A) t a t' : from x t = Ret a t' -> t' = t /\ x = Some a.
Proof. destruct x; intros E; [|done]. by injection E as -> ->. Qed.

(** The steps of a computation that returns, as equations. *)
Ltac returned H :=
  enter H;
  match goal with
  | E : get_conn _ _ = Ret _ _ |- _ => apply get_conn_Ret in E as [-> E]
  | E : get_kv _ _ = Ret _ _ |- _ => apply get_kv_Ret in E as [-> E]
  | E : from _ _ = Ret _ _ |- _ => apply from_returned in E as [-> E]
  | E : assert _ _ = Ret _ _ |- _ => apply asserted_Ret in E as ->
  | E : mod_conn _ _ _ = Ret _ _ |- _ => apply mod_conn_Ret in E as (? & E & ->)
  | E : mod_kv _ _ _ = Ret _ _ |- _ => apply mod_kv_Ret in E as (? & E & ->)
  | E : mod_t _ _ = Ret _ _ |- _ => injection E as <- <-
  | E : get_t _ = Ret _ _ |- _ => injection E as <- <-
  | E : skip _ = Ret _ _ |- _ => injection E as <- <-
  end.

(** What a computation that returns has established. *)
Lemma wp_Ret {A} (m : M A) (Q : A -> thread -> Prop) t a t' : wp m Q t -> m t = Ret a t' -> Q a t'.
Proof. unfold wp. intros H E. by rewrite E in H. Qed.

Lemma wp_both {A} (m : M A) (P Q : A -> thread -> Prop) t :
  wp m P t -> (forall a t', m t = Ret a t' -> P a t' -> Q a t') -> wp m Q t.
Proof. unfold wp. destruct (m t); auto. Qed.

(** ** Values age

    From [t] to [t'] no value comes into service and none in service changes its
    bytes; answers of the system are only consumed; a thread that has begun to evict
    stays so. *)
Record aged (t t' : thread) : Prop := {
  ag_kvs : forall v k', t_kvs t' !! v = Some k' -> k_enabled k' = true ->
    exists k, t_kvs t !! v = Some k /\ k_enabled k = true /\ same_bytes k k';
  ag_input : t_input t' `suffix_of` t_input t;
  ag_warm : warmed_up t = true -> warmed_up t' = true
}.

Create HintDb ages.

Lemma same_bytes_refl k : same_bytes k k.
Proof. done. Qed.
#[export] Hint Resolve same_bytes_refl : ages.

#[export] Instance aged_preorder : PreOrder aged.
Proof.
  split; [intros t; split; [eauto with ages|done|done]|]. intros t1 t2 t3 [K1 I1 W1] [K2 I2 W2]. split; [|by etrans|auto].
  intros v k3 E3 H3. destruct (K2 _ _ E3 H3) as (k2 & E2 & He2 & ? & ? & ?).
  destruct (K1 _ _ E2 He2) as (k1 & E1 & He1 & ? & ? & ?). exists k1. split_and!; try done.
  split_and!; congruence.
Qed.

Lemma aged_same t t' :
  t_kvs t' = t_kvs t -> t_input t' = t_input t -> warmed_up t' = warmed_up t -> aged t t'.
Proof. intros EK EI EW. split; rewrite ?EK, ?EI, ?EW; [by eauto with ages|done..]. Qed.

Definition ages {A} (m : M A) : Prop := forall t a t', m t = Ret a t' -> aged t t'.

Lemma ages_ret {A} (a : A) : ages (mret a).
Proof. intros t a' t' E. by injection E as _ <-. Qed.

Lemma ages_bind {A B} (m : M A) (f : A -> M B) : ages m -> (forall a, ages (f a)) -> ages (m ≫= f).
Proof. intros Hm Hf t b t' (a & t1 & E1 & E2)%bound_Ret. etrans; [by eapply Hm|by eapply Hf]. Qed.

Lemma ages_from {A} (x : option A) : ages (from x).
Proof. intros t a t' [-> _]%from_returned. done. Qed.

Lemma ages_fault {A} : ages (fault (A := A)).
Proof. intros t a t' E. done. Qed.

Lemma ages_assert P `{!Decision P} : ages (assert P).
Proof. by intros t a t' ->%asserted_Ret. Qed.

Lemma ages_within P `{!Decision P} : ages (within P).
Proof. by intros t a t' ->%within_Ret. Qed.

Lemma ages_get_t : ages get_t.
Proof. intros t a t' E. by injection E as _ <-. Qed.

Lemma ages_mod_t f : (forall t, aged t (f t)) -> ages (mod_t f).
Proof. intros Hf t a t' E. injection E as _ <-. apply Hf. Qed.

Lemma ages_pop : ages pop.
Proof.
  intros t a t'. unfold pop. destruct (t_input t) as [|x l] eqn:Ei; intros E; injection E as _ <-; [done|].
  split; cbn; [by eauto with ages| |done]. rewrite Ei. by exists [x].
Qed.

Lemma ages_get_conn h : ages (get_conn h).
Proof. by intros t a t' [-> _]%get_conn_Ret. Qed.

Lemma ages_get_kv v : ages (get_kv v).
Proof. by intros t a t' [-> _]%get_kv_Ret. Qed.

Lemma ages_mod_kv v f :
  (forall k, same_bytes k (f k) /\ (k_enabled (f k) = true -> k_enabled k = true)) -> ages (mod_kv v f).
Proof.
  intros Hf t a t' (k & Ek & ->)%mod_kv_Ret. split; [|done|done]. cbn.
  intros v' k' [[<- <-]|[_ E]]%lookup_insert_Some He; [|by eauto with ages]. exists k. destruct (Hf k). auto.
Qed.

(** A value out of service is written. *)
Lemma ages_put_kv v k : k_enabled k = false -> ages (put_kv v k).
Proof.
  intros Hk. apply ages_mod_t. intros t. split; [|done|done]. cbn.
  intros v' k' [[<- <-]|[_ E]]%lookup_insert_Some He; [congruence|by eauto with ages].
Qed.

Lemma ages_delete v : ages (mod_t (fun t => set_kvs t (delete v (t_kvs t)))).
Proof.
  apply ages_mod_t. intros t. split; [|done|done]. cbn. intros v' k' [_ E]%lookup_delete_Some. eauto with ages.
Qed.

Lemma ages_warm_up : ages (mod_t (fun t => set_warmed_up t true)).
Proof. apply ages_mod_t. intros t. split; cbn; [by eauto with ages|done|done]. Qed.

Lemma ages_iter {A} (f : A -> M unit) l : (forall x, ages (f x)) -> ages (iter f l).
Proof. intros Hf. induction l; cbn [iter]; [apply ages_ret|by apply ages_bind]. Qed.

#[export] Hint Resolve ages_ret ages_from ages_fault ages_assert ages_within ages_get_t ages_pop ages_get_conn
  ages_get_kv ages_delete ages_warm_up : ages.

Ltac ages :=
  intros; cbv beta zeta;
  repeat match goal with
    | |- ages (mbind _ _) => apply ages_bind; [|intros]; cbv beta zeta
    | |- ages skip => apply ages_ret
    | |- ages _ => solve [auto with ages]
    | |- ages (mod_t _) => apply ages_mod_t; intros; apply aged_same; reflexivity
    | |- ages (mod_kv _ _) => apply ages_mod_kv; intros; (split; [by split_and!|by cbn])
    | |- ages (put_kv _ _) => apply ages_put_kv; reflexivity
    | |- ages (iter _ _) => apply ages_iter; intros
    | |- ages (match ?x with _ => _ end) => destruct x
    end.

Lemma ages_mod_conn h f : ages (mod_conn h f).
Proof. unfold mod_conn, put_conn. ages. Qed.
Lemma ages_memory_malloc page : ages (thread_memory_malloc page).
Proof. unfold thread_memory_malloc. ages. Qed.
Lemma ages_memory_free ptr page : ages (thread_memory_free ptr page).
Proof. unfold thread_memory_free. ages. Qed.
#[export] Hint Resolve ages_mod_conn ages_memory_malloc ages_memory_free : ages.
Lemma ages_cache_malloc i : ages (cache_malloc i).
Proof. unfold cache_malloc, get_cache, put_cache. ages. Qed.
Lemma ages_cache_free i : ages (cache_free i).
Proof. unfold cache_free, get_cache, put_cache. ages. Qed.
Lemma ages_hash_del node k : ages (thread_hash_del node k).
Proof. unfold thread_hash_del. ages. Qed.
#[export] Hint Resolve ages_cache_malloc ages_cache_free ages_hash_del : ages.
Lemma ages_kv_free v : ages (kv_free v).
Proof. unfold kv_free, get_class. ages. Qed.
Lemma ages_kv_disable v : ages (kv_disable v).
Proof. unfold kv_disable, lru_del. ages. Qed.
#[export] Hint Resolve ages_kv_free ages_kv_disable : ages.
Lemma ages_reclaim_lru : ages reclaim_lru.
Proof. unfold reclaim_lru, lru_peek. ages. Qed.
#[export] Hint Resolve ages_reclaim_lru : ages.
Lemma ages_reclaim_while more fuel : ages (reclaim_while more fuel).
Proof. induction fuel; cbn [reclaim_while]; ages. Qed.
#[export] Hint Resolve ages_reclaim_while : ages.
Lemma ages_memory_malloc_advance page : ages (memory_malloc_advance page).
Proof. unfold memory_malloc_advance, reserve_page_aggressive, reserve_page. ages. Qed.
Lemma ages_kv_cache_malloc_kv_advance i : ages (kv_cache_malloc_kv_advance i).
Proof. unfold kv_cache_malloc_kv_advance, reserve_kv_cache, reserve_kv_cache_aggressive, get_cache. ages. Qed.
Lemma ages_kv_cache_malloc_concat_val_advance i : ages (kv_cache_malloc_concat_val_advance i).
Proof. apply ages_kv_cache_malloc_kv_advance. Qed.
Lemma ages_new_kv concat block bytes : ages (new_kv concat block bytes).
Proof. unfold new_kv. ages. Qed.
#[export] Hint Resolve ages_memory_malloc_advance ages_kv_cache_malloc_kv_advance
  ages_kv_cache_malloc_concat_val_advance ages_new_kv : ages.
Lemma ages_kv_malloc key val_size : ages (kv_malloc key val_size).
Proof. unfold kv_malloc, get_class, get_cache. ages. Qed.
Lemma ages_kv_init v key val_size : ages (kv_init v key val_size).
Proof. unfold kv_init. ages. Qed.
Lemma ages_kv_borrow v h : ages (kv_borrow v h).
Proof. unfold kv_borrow. ages. Qed.
#[export] Hint Resolve ages_kv_borrow : ages.
Lemma ages_conn_borrow_kv h v : ages (conn_borrow_kv h v).
Proof. unfold conn_borrow_kv, lru_del. ages. Qed.
Lemma ages_conn_return_kv h : ages (conn_return_kv h).
Proof. unfold conn_return_kv, kv_return. ages. Qed.
#[export] Hint Resolve ages_conn_borrow_kv ages_conn_return_kv : ages.
Lemma ages_cancel_clock h : ages (cancel_clock h).
Proof. unfold cancel_clock. ages. Qed.
#[export] Hint Resolve ages_cancel_clock : ages.
Lemma ages_unlock_failure h : ages (conn_unlock_key_for_failure h).
Proof.
  unfold conn_unlock_key_for_failure, __call_clock, __change_to_get_out_miss, epfd_weak_up_conn, emit. ages.
Qed.
#[export] Hint Resolve ages_unlock_failure : ages.
Lemma ages_free_conn h : ages (free_conn h).
Proof. unfold free_conn, interest_del, conn_free, emit. ages. Qed.
#[export] Hint Resolve ages_free_conn : ages.
Lemma ages_state_get_out_hit h : ages (state_get_out_hit h).
Proof.
  unfold state_get_out_hit, conn_full_write_bytes, conn_write_bytes, sys_write, conn_check_write, emit,
    change_to_in_cmd. ages.
Qed.
#[export] Hint Resolve ages_state_get_out_hit : ages.
Lemma ages_change_to_get_out_hit h : ages (change_to_get_out_hit h).
Proof. unfold change_to_get_out_hit. ages. Qed.
#[export] Hint Resolve ages_change_to_get_out_hit : ages.

(** ** The table is resized *)

(** A thread that has not begun to evict has the table it had. *)
Definition spares {A} (m : M A) : Prop := forall t a t', m t = Ret a t' ->
  aged t t' /\ (warmed_up t' = true \/ t_hash t' = t_hash t).

Lemma spares_bind {A B} (m : M A) (f : A -> M B) : spares m -> (forall a, spares (f a)) -> spares (m ≫= f).
Proof.
  intros Hm Hf t b t' (a & t1 & E1 & E2)%bound_Ret. destruct (Hm _ _ _ E1) as [Ha1 H1].
  destruct (Hf _ _ _ _ E2) as [Ha2 H2]. split; [by etrans|].
  destruct H2 as [?|H2]; [by left|]. destruct H1 as [?|H1]; [left; by apply Ha2|right; congruence].
Qed.

Lemma spares_same {A} (m : M A) : ages m -> (forall t a t', m t = Ret a t' -> t_hash t' = t_hash t) -> spares m.
Proof. intros Ha Hh t a t' E. split; [by eapply Ha|right; by eapply Hh]. Qed.

Lemma spares_ret {A} (a : A) : spares (mret a).
Proof. apply spares_same; [apply ages_ret|]. intros t x t' E. by injection E as _ <-. Qed.

Lemma spares_get_t : spares get_t.
Proof. apply spares_same; [apply ages_get_t|]. intros t x t' E. by injection E as _ <-. Qed.

Lemma spares_memory_malloc page : spares (thread_memory_malloc page).
Proof.
  apply spares_same; [apply ages_memory_malloc|]. intros t a t' H. unfold thread_memory_malloc in H.
  returned H. case_match; [by injection H as _ <-|]. enter H. unfold pop in E.
  assert (t_hash t0 = t_hash t) as Ht0 by (destruct (t_input t); by injection E as _ <-).
  destruct (memory_malloc _ _ _) as [p m]. returned H. injection H as _ <-. exact Ht0.
Qed.

Lemma spares_reclaim_lru : spares reclaim_lru.
Proof.
  intros t a t' H. split; [by apply ages_reclaim_lru in H|left]. unfold reclaim_lru in H. returned H.
  revert H. match goal with |- ?m ?t0 = _ -> _ => assert (ages m) as Ha by (unfold lru_peek; ages) end.
  intros H. by apply (ag_warm _ _ (Ha _ _ _ H)).
Qed.

Lemma spares_reclaim_while more fuel : spares (reclaim_while more fuel).
Proof.
  induction fuel as [|fuel IH]; cbn [reclaim_while];
    (apply spares_bind; [apply spares_get_t|intros t]; destruct (more t); [|apply spares_ret]); [done|].
  apply spares_bind; [apply spares_reclaim_lru|intros []]; [done|apply spares_ret].
Qed.

Lemma spares_reserve_page page : spares (reserve_page page).
Proof. apply spares_bind; [apply spares_get_t|intros; apply spares_reclaim_while]. Qed.

Lemma spares_memory_malloc_advance page : spares (memory_malloc_advance page).
Proof.
  apply spares_bind; [apply spares_reserve_page|intros _].
  apply spares_bind; [apply spares_memory_malloc|intros [p|]]; [apply spares_ret|].
  apply spares_bind; [|intros _; apply spares_memory_malloc].
  apply spares_bind; [apply spares_get_t|intros; apply spares_reserve_page].
Qed.

(** The end of [conn_unlock_key_for_success]. *)
Definition resize_table : M unit :=
  t ← get_t;
  let page := hash_resize_page (t_hash t) in
  if 0 <? page then
    new ← memory_malloc_advance page;
    match new with
    | Some new => mod_t (fun t => set_hash t (hash_resize (t_hash t) page new))
    | None => skip
    end
  else skip.

Lemma ages_resize_table : ages resize_table.
Proof. unfold resize_table. ages. Qed.

(** A key stays where it is if the table has its size, or nothing was evicted. *)
Lemma resize_table_map X t x t' :
  inv [] X [] t -> resize_table t = Ret x t' ->
  hash_resize_page (t_hash t) = 0 \/ warmed_up t' = false -> hmap t' = hmap t.
Proof.
  intros Hi H Hor. unfold resize_table in H. returned H.
  destruct (Z.ltb_spec 0 (hash_resize_page (t_hash t))) as [Hp|Hp]; [|by injection H as _ <-].
  destruct Hor as [?|Hw]; [lia|]. destruct (resize_pages _ _ Hi) as (j & Ej & Hj & Hmg); [lia|].
  enter H. assert (kept X t t0) as [Hi0 Hf].
  { eapply (wp_Ret _ (fun _ t' => kept X t t')); [|exact E].
    eapply memory_malloc_advance_ok; [exact Hi|]. by intros. }
  destruct (spares_memory_malloc_advance _ _ _ _ E) as [_ Hh].
  assert (warmed_up t0 = false) as Hw0 by (destruct a; by injection H as _ <-).
  destruct Hh as [Hh|Hh]; [congruence|]. unfold hmap.
  destruct a as [p|]; injection H as _ <-; [|by rewrite Hh].
  destruct (inv_resized _ _ j p Hi0) as [_ Hm]; [by rewrite (f_mig _ _ Hf)|done|].
  rewrite Ej. t_simpl. rewrite Hm. unfold hmap. by rewrite Hh.
Qed.

(** ** The lock becomes a value *)

(** If the key is found in [t], it has the bytes [bs]. *)
Definition nothing_else (t : thread) (key : key) (bs : list Z) : Prop :=
  forall v k, hmap t !! key = Some v -> t_kvs t !! v = Some k ->
    k_val_size k = Z.of_nat (length bs) /\ k_data k = bs.

Definition found (t : thread) (key : key) (bs : list Z) : Prop :=
  exists v k, hmap t !! key = Some v /\ t_kvs t !! v = Some k /\
    k_val_size k = Z.of_nat (length bs) /\ k_data k = bs.

Lemma replace_resize_page ht old e :
  hash_resize_page (hash_replace ht old e) = hash_resize_page ht.
Proof. unfold hash_resize_page, under_migrating. cbn. by destruct (old_buckets ht). Qed.

Lemma kv_enable_Ret t h c v k x t' :
  t_conns t !! h = Some c -> c_kv c = Some v -> t_kvs t !! v = Some k ->
  kv_enable h t = Ret x t' ->
  hash_resize_page (t_hash t') = hash_resize_page (t_hash t) /\
  exists k', t_kvs t' !! v = Some k' /\ same_bytes k k' /\ k_enabled k' = true.
Proof.
  intros Ec Ev Ek H. unfold kv_enable in H. returned H. rewrite Ec in E. injection E as <-.
  returned H. rewrite Ev in E. injection E as <-. returned H. rewrite Ek in E. injection E as <-.
  returned H. returned H. returned H. returned H. cbn in E0. rewrite Ek in E0. injection E0 as <-.
  destruct a; injection H as _ <-; cbn;
    (split; [apply replace_resize_page|eexists; by split; [apply lookup_insert_eq|]]).
Qed.

Lemma silent_kv_enable h : silent (kv_enable h).
Proof. unfold kv_enable. silent. Qed.

Section unlock.
Context (t : thread) (h v : Z) (c : conn) (k : kv) (t' : thread).
Hypothesis Hi : inv [] [h] [] t.
Hypothesis Ec : t_conns t !! h = Some c.
Hypothesis Hs : c_state c <> CONN_STATE_GET_BLOCKED.
Hypothesis Ev : c_kv c = Some v.
Hypothesis Ek : t_kvs t !! v = Some k.
Hypothesis Hdis : k_enabled k = false.
Hypothesis Hd : Z.of_nat (length (k_data k)) = k_val_size k.
Hypothesis Hl : hmap t !! k_key k = Some h.
Hypothesis Hrun : conn_unlock_key_for_success h t = Ret tt t'.

(** The value is in service in [t2], and the table of [t4] is resized at last. *)
Lemma unlock_steps :
  exists t2 k2 t4, inv [h] [h] [] t2 /\ t_kvs t2 !! v = Some k2 /\ same_bytes k k2 /\
    k_enabled k2 = true /\ t_input t2 `suffix_of` t_input t /\ aged t2 t4 /\ inv [] [h] [] t4 /\ hmap t4 !! k_key k = Some v /\
    hash_resize_page (t_hash t4) = hash_resize_page (t_hash t) /\ resize_table t4 = Ret tt t'.
Proof.
  pose proof Hrun as H. unfold conn_unlock_key_for_success in H. fold resize_table in H.
  set (c1 := set_c_clock c false).
  apply bound_Ret in H as (? & t1 & E1 & H). pose proof (ag_input _ _ (ages_cancel_clock _ _ _ _ E1)) as Hin1.
  apply (wp_Ret _ (fun _ t' => inv [] [h] [] t' /\
    t_conns t' = <[h := c1]> (t_conns t) /\ t_hash t' = t_hash t /\ t_kvs t' = t_kvs t)) in E1 as (Hi1 & Ec1 & Hh1 & Hk1);
    [|eapply cancel_clock_ok; [exact Hi|exact Ec|set_solver|by intros]].
  assert (t_conns t1 !! h = Some c1) as Eh1 by (rewrite Ec1; apply lookup_insert_eq).
  assert (t_kvs t1 !! v = Some k) as Ek1 by by rewrite Hk1.
  apply bound_Ret in H as (? & t2 & E2 & H).
  destruct (silent_kv_enable h _ _ _ E2) as [_ Hin2]. destruct (kv_enable_Ret t1 h c1 v k _ t2 Eh1 Ev Ek1 E2) as (Hp2 & k2 & Ek2 & Hsb & Hen).
  apply (wp_Ret _ (fun _ t' => inv [h] [h] [] t' /\
    t_conns t' = t_conns t1 /\ hmap t' = <[k_key k := v]> (hmap t1))) in E2 as (Hi2 & Ec2 & Hm2);
    [|eapply (kv_enable_ok t1 h v c1 k); [done..|by unfold hmap; rewrite Hh1|exact Hd|by intros]].
  assert (t_conns t2 !! h = Some c1) as Eh2 by by rewrite Ec2.
  returned H. rewrite Eh2 in E. injection E as <-. returned H. change (c_kv c1) with (c_kv c) in E.
  rewrite Ev in E. injection E as <-.
  apply bound_Ret in H as (? & t3 & E3 & H).
  assert (aged t2 t3) as Ha3 by (eapply ages_iter; [|exact E3]; ages).
  apply (wp_Ret _ (fun _ t' => serving t' h v (k_key k) c1 [] /\ t_hash t' = t_hash t2)) in E3
    as ([Hi3 Eh3 _ _ _ _] & Hh3); [|eapply (serve_all _ _ h v (k_key k) c1); [|exact Hs|by intros]].
  2: { split; [exact Hi2|rewrite Eh2; by destruct c1|by rewrite Hm2, lookup_insert_eq| | |exact Ev].
       - apply (kv_range _ _ _ _ _ _ Hi Ek).
       - rewrite Hm2. intros key [[_ E]|[Hne E]]%lookup_insert_Some.
         + pose proof (kv_not_conn _ _ _ _ _ _ Hi Ek). congruence.
         + apply Hne. eapply ht_map_inj; [apply (i_index Hi1)|unfold hmap in *; by rewrite Hh1|exact E]. }
  assert (inv [] [h] [] t3) as Hi3'.
  { destruct Hi3. split; try done. by eapply wait_inv_served. }
  apply bound_Ret in H as (? & t4 & E4 & H). pose proof (ages_conn_return_kv _ _ _ _ E4) as Ha4.
  apply (wp_Ret _ (fun _ t' => inv [] [h] [] t' /\ t_hash t' = t_hash t3)) in E4 as (Hi4 & Hh4);
    [|eapply conn_return_kv_ok; [exact Hi3'|exact Eh3|set_solver|exact Ev|by intros t4' ? []]].
  exists t2, k2, t4. split_and!; try done.
  - by rewrite Hin2.
  - by etrans.
  - unfold hmap in *. by rewrite Hh4, Hh3, Hm2, lookup_insert_eq.
  - by rewrite Hh4, Hh3, Hp2, Hh1.
Qed.

Lemma unlock_stored :
  (forall X te, inv [] X [] te -> aged t' te -> nothing_else te (k_key k) (k_data k)) /\
  (hash_resize_page (t_hash t) = 0 \/ warmed_up t' = false -> hmap t' !! k_key k = Some v) /\
  t_input t' `suffix_of` t_input t.
Proof.
  destruct unlock_steps as (t2 & k2 & t4 & Hi2 & Ek2 & Hsb & Hen & Hin2 & Ha4 & Hi4 & Hm4 & Hp4 & E5).
  split_and!; [|by intros Hor; rewrite (resize_table_map _ _ _ _ Hi4 E5) by by rewrite Hp4|].
  2: { etrans; [|exact Hin2]. etrans; [|exact (ag_input _ _ Ha4)]. apply (ag_input _ _ (ages_resize_table _ _ _ E5)). }
  intros X te Hie Hae x kx Hx Ekx. assert (aged t2 te) as Ha.
  { etrans; [exact Ha4|]. etrans; [by eapply ages_resize_table|done]. }
  destruct (i_index Hie) as (_ & _ & Hn & _). destruct (Hn _ _ Hx) as [Hc|(k0 & E0 & He0 & Hk0)].
  { apply (conn_range _ _ _ _ _ Hie) in Hc. apply (kv_range _ _ _ _ _ _ Hie) in Ekx. lia. }
  rewrite Ekx in E0. injection E0 as <-. destruct (ag_kvs _ _ Ha _ _ Ekx He0) as (k3 & E3 & He3 & Hkey & Hv & Hdat).
  destruct Hsb as (Hkey2 & Hv2 & Hd2). destruct (i_index Hi2) as (_ & _ & _ & Hidx).
  pose proof (Hidx _ _ Ek2 Hen) as M2. pose proof (Hidx _ _ E3 He3) as M3.
  assert (k_key k3 = k_key k2) as Hkk by congruence. rewrite Hkk in M3. rewrite M2 in M3. injection M3 as ->.
  rewrite Ek2 in E3. injection E3 as <-. split; [lia|congruence]. 
Qed.
End unlock.

(** A key that is found has the value. *)
Lemma nothing_else_found X t key v bs :
  inv [] X [] t -> nothing_else t key bs -> hmap t !! key = Some v -> THREAD_MAX_CONN <= v -> found t key bs.
Proof.
  intros Hi Hno Hm Hv. destruct (i_index Hi) as (_ & _ & Hn & _).
  destruct (Hn _ _ Hm) as [Hc|(k & Ek & _)]; [apply (conn_range _ _ _ _ _ Hi) in Hc; lia|].
  exists v, k. split_and!; [done|done|by eapply Hno..].
Qed.

(** ** The bytes of a value arrive *)

(** The connection [h] of [t] receives the value [v], whose description is [k]. *)
Record filling (t : thread) (h : Z) (c : conn) (v : Z) (k : kv) : Prop := {
  f_conn : t_conns t !! h = Some c;
  f_state : c_state c = CONN_STATE_SET_IN_VALUE;
  f_kv : c_kv c = Some v;
  f_value : t_kvs t !! v = Some k;
  f_inv : inv [] [] [] t
}.

Lemma filling_io t h c v k :
  filling t h c v k ->
  CMD_SIZE_MAX < c_unio c < 2 ^ 64 /\
  Z.of_nat (length (k_data k)) = k_val_size k + CMD_SIZE_MAX - c_unio c /\
  kv_ok k /\ k_key k = conn_key c /\ k_enabled k = false /\ hmap t !! conn_key c = Some h.
Proof.
  intros [Ec Es Ev Ek Hi]. destruct (in_value_facts t h c Hi Ec Es) as (v0 & k0 & []).
  assert (v0 = v) as -> by congruence. assert (k0 = k) as -> by congruence. split_and!; try done; lia.
Qed.

Lemma filling_answered t h c v k input : filling t h c v k -> filling (set_input t input) h c v k.
Proof. intros []. split; try done. by apply inv_answered. Qed.

Lemma sys_read_run len t bs input :
  t_input t = Got bs :: input -> Forall is_byte bs -> Z.of_nat (length bs) <= len ->
  sys_read len t = Ret (Z.of_nat (length bs), false, bs) (set_input t input).
Proof.
  intros Hin Hb Hl. unfold sys_read, mbind, M_bind, pop. rewrite Hin, bytes_id by done.
  assert (ztake len bs = bs) as -> by (unfold ztake; by rewrite (proj2 (Z.leb_le _ _))). done.
Qed.

Lemma check_read_run h c n t :
  t_conns t !! h = Some c -> 0 < n <= c_unio c -> c_unio c < 2 ^ 64 ->
  conn_check_read h n false t =
    Ret true (set_conns t (<[h := set_c_unio c (c_unio c - n)]> (t_conns t))).
Proof.
  intros Ec Hn Hu. unfold conn_check_read. rewrite (proj2 (Z.ltb_lt _ _)) by lia.
  rewrite (bind_get_conn h c) by done. rewrite (bind_step _ _ _ tt t) by (apply assert_run; lia).
  rewrite (bind_step _ _ _ _ _ (mod_conn_run h _ c t Ec)). by rewrite wrap_small by lia.
Qed.

Lemma kv_write_run t v k off bs :
  t_kvs t !! v = Some k -> kv_ok k -> 0 <= off ->
  off + Z.of_nat (length bs) <= k_val_size k ->
  kv_write v off bs t =
    Ret tt (set_kvs t (<[v := set_k_data k (fill (Z.to_nat off) bs (k_data k))]> (t_kvs t))).
Proof.
  intros Ek Hk Ho Hf. pose proof (k_fits _ Hk). unfold kv_write.
  rewrite (bind_step _ _ _ _ _ (get_kv_run v k t Ek)).
  rewrite (bind_step _ _ _ tt t) by (apply assert_run; lia). done.
Qed.

(** No byte of a command has been read. *)
Lemma nothing_readed c : conn_ok c -> c_unio c = CMD_SIZE_MAX -> cmd_full_readed c = false.
Proof.
  intros Hok Hu. unfold cmd_full_readed. rewrite Hu, Z.sub_diag. change (u64 0) with 0.
  pose proof (hd_byte _ (c_key_bytes _ Hok)) as [? _]. apply Z.eqb_neq. change CMD_SIZE_MIN with 2. lia.
Qed.

(** The key is in service with the bytes [bs], unless it was evicted: which takes a
    table due to be resized ([resized]) and a thread that has begun to evict. *)
Record stored (resized : Prop) (key : key) (bs : list Z) (t : thread) : Prop := {
  st_inv : inv [] [] [] t;
  st_only : nothing_else t key bs;
  st_found : ~ resized \/ warmed_up t = false -> found t key bs
}.

Section arrive.
Context (t : thread) (h v : Z) (c : conn) (k : kv) (bs : list Z) (input : list answer).
Hypothesis Hf : filling t h c v k.
Hypothesis Hin : t_input t = Got bs :: input.
Hypothesis Hb : Forall is_byte bs.
Hypothesis Hl : 0 < Z.of_nat (length bs) <= c_unio c - CMD_SIZE_MAX.

Definition arrived_conn : conn := set_c_unio c (c_unio c - Z.of_nat (length bs)).
Definition arrived_kv : kv := set_k_data k (k_data k ++ bs).
Definition arrived : thread :=
  set_conns (set_kvs (set_input t input) (<[v := arrived_kv]> (t_kvs t)))
    (<[h := arrived_conn]> (t_conns t)).

Lemma arrived_inv : inv [] [h] [] arrived.
Proof.
  destruct (filling_io _ _ _ _ _ Hf) as (Hu & Hd & Hk & Hkey & He & Hm).
  destruct Hf as [Ec Es Ev Ek Hi]. change CMD_SIZE_MAX with 257 in *.
  eapply (inv_update_conn _ _ _ (set_kvs (set_input t input) (<[v := arrived_kv]> (t_kvs t))) h c);
    [|exact Ec|set_solver| |done|done|done|].
  - eapply (inv_written _ _ (set_input t input) h);
      [apply inv_take, inv_answered, Hi|exact Ek|done| | |set_solver].
    + rewrite length_app. lia.
    + intros g cg Eg Evg _. by eapply only_user.
  - apply conn_ok_unio; [apply (inv_conn_ok _ _ _ _ _ _ Hi Ec)|]. lia.
  - left. eapply (off_state _ _ _ t); [exact Hi|exact Ec|congruence].
Qed.

Lemma value_arrives :
  state_set_in_value h t =
  (if c_unio c - Z.of_nat (length bs) <=? CMD_SIZE_MAX then
     conn_unlock_key_for_success h;;
     mod_conn h (fun c => set_c_cmd (set_c_state c CONN_STATE_IN_CMD) 0);;
     c ← get_conn h;
     if cmd_full_readed c then cmd_run h else skip
   else skip) arrived.
Proof.
  destruct (filling_io _ _ _ _ _ Hf) as (Hu & Hd & Hk & Hkey & He & Hm).
  destruct Hf as [Ec Es Ev Ek Hi]. change CMD_SIZE_MAX with 257 in *. pose proof (k_size _ Hk) as Hsz.
  unfold state_set_in_value. rewrite (bind_get_conn h c) by done. rewrite Ev.
  rewrite (bind_step _ _ _ v t) by done. rewrite (bind_step _ _ _ _ _ (get_kv_run v k t Ek)).
  change CMD_SIZE_MAX with 257. rewrite (wrap_small 64 (k_val_size k + 257 - c_unio c)) by lia.
  rewrite (wrap_small 64 (k_val_size k - (k_val_size k + 257 - c_unio c))) by lia.
  replace (k_val_size k - (k_val_size k + 257 - c_unio c)) with (c_unio c - 257) by lia.
  cbv zeta. rewrite (bind_step _ _ _ tt t) by (apply assert_run; lia).
  rewrite (bind_step _ _ _ _ _ (sys_read_run (c_unio c - 257 + 257) t bs input Hin Hb ltac:(lia))).
  cbv beta iota. rewrite (proj2 (Z.ltb_lt 0 _)) by lia.
  assert (ztake (c_unio c - 257) bs = bs) as -> by (unfold ztake; by rewrite (proj2 (Z.leb_le _ _)) by lia).
  assert (zdrop (c_unio c - 257) bs = []) as -> by (unfold zdrop; by rewrite (proj2 (Z.leb_le _ _)) by lia).
  cbn [hd tail]. set (t0 := set_input t input).
  rewrite (bind_step _ _ _ tt (set_conns (set_kvs t0 (<[v := arrived_kv]> (t_kvs t)))
    (<[h := c]> (t_conns t)))).
  2: { rewrite (bind_step _ _ _ _ _ (kv_write_run t0 v k (k_val_size k + 257 - c_unio c) bs Ek Hk
         ltac:(lia) ltac:(lia))).
       replace (Z.to_nat (k_val_size k + 257 - c_unio c)) with (length (k_data k)) by lia.
       rewrite fill_end, (mod_conn_run h _ c) by exact Ec. do 3 f_equal. by destruct c. }
  erewrite bind_step by (apply (check_read_run h c); [apply lookup_insert_eq|lia|lia]).
  t_simpl. unfold set_conns at 1. t_simpl. rewrite insert_insert_eq. fold arrived.
  rewrite (bind_get_conn h arrived_conn) by apply lookup_insert_eq. done.
Qed.

(** The handler returns. *)
Lemma value_returns : exists t', state_set_in_value h t = Ret tt t' /\ inv [] [] [] t'.
Proof.
  destruct Hf as [Ec Es Ev Ek Hi]. destruct (wp_returns (state_set_in_value h)
    (fun _ t' => settled (next_kv t) t') t) as ([] & t' & E & Hi' & _);
    [auto with checked|by eapply state_set_in_value_ok|by exists t'].
Qed.

(** Bytes are still missing. *)
Lemma value_continues :
  Z.of_nat (length bs) < c_unio c - CMD_SIZE_MAX ->
  state_set_in_value h t = Ret tt arrived /\ filling arrived h arrived_conn v arrived_kv.
Proof.
  intros Hlt. destruct value_returns as (t' & E & Hi'). pose proof E as E'.
  rewrite value_arrives, (proj2 (Z.leb_gt _ _)) in E' by lia. injection E' as <-.
  split; [done|]. destruct Hf as [Ec Es Ev Ek Hi]. by split; try apply lookup_insert_eq.
Qed.

(** The last byte has arrived. *)
Lemma value_completes :
  Z.of_nat (length bs) = c_unio c - CMD_SIZE_MAX ->
  exists t', state_set_in_value h t = Ret tt t' /\
    stored (hash_resize_page (t_hash t) <> 0) (conn_key c) (k_data k ++ bs) t'.
Proof.
  intros Hlen. destruct (filling_io _ _ _ _ _ Hf) as (Hu & Hd & Hk & Hkey & He & Hm).
  destruct value_returns as (t' & E & Hi'). exists t'. split; [done|]. pose proof Hf as [Ec Es Ev Ek Hi].
  rewrite value_arrives, (proj2 (Z.leb_le _ _)) in E by lia. enter E. destruct a.
  assert (t_conns arrived !! h = Some arrived_conn) as Ec0 by apply lookup_insert_eq.
  assert (t_kvs arrived !! v = Some arrived_kv) as Ek0 by apply lookup_insert_eq.
  assert (Z.of_nat (length (k_data arrived_kv)) = k_val_size arrived_kv) as Hd0
    by (cbn; rewrite length_app; lia).
  assert (hmap arrived !! k_key arrived_kv = Some h) as Hm0 by (cbn; by rewrite Hkey).
  assert (c_state arrived_conn <> CONN_STATE_GET_BLOCKED) as Hs0 by (cbn; congruence).
  destruct (unlock_stored arrived h v arrived_conn arrived_kv t0 arrived_inv Ec0 Hs0 Ev Ek0 He Hd0 Hm0 E0)
    as (Hno & Hfo & _).
  apply (wp_Ret _ (fun _ t' => inv [] [h] [] t' /\ t_conns t' !! h = Some (served_conn arrived_conn))) in E0
    as [Hi0 Eh0]; [|eapply unlock_success_ok; [exact arrived_inv|done..|by intros]].
  returned E. rewrite Eh0 in E0. injection E0 as <-. returned E. cbn in E0.
  rewrite lookup_insert_eq in E0. injection E0 as <-.
  rewrite nothing_readed in E; [injection E as <-| |cbn; lia].
  2: { destruct (inv_conn_ok _ _ _ _ _ _ Hi0 Eh0). by split. }
  change (k_key arrived_kv) with (k_key k) in *. rewrite Hkey in Hno, Hfo.
  assert (nothing_else (set_conns t0 (<[h := _]> (t_conns t0))) (conn_key c) (k_data k ++ bs)) as Hno'
    by (eapply Hno; [exact Hi'|by apply aged_same]).
  split; [done|done|]. intros Hor. eapply nothing_else_found; [exact Hi'|exact Hno'| |].
  - apply Hfo. destruct Hor as [Hor|Hor]; [left|by right]. by apply dec_stable.
  - apply (kv_range _ _ _ _ _ _ Hi Ek).
Qed.
End arrive.

(** An event of a connection that expects bytes of a value is a read of them. *)
Lemma arrival_event t h c v k input :
  filling t h c v k ->
  handle_event (Ev_conn h EPOLLIN) (set_input t input) = state_set_in_value h (set_input t input).
Proof.
  intros [Ec Es _ _ _]. cbn [handle_event].
  change (Z.land EPOLLIN (Z.lnot (Z.lor EPOLLIN EPOLLOUT)) =? 0) with true. cbn [negb].
  rewrite (bind_get_conn h c) by exact Ec. rewrite Es.
  change (Z.land EPOLLIN (state_code CONN_STATE_SET_IN_VALUE) =? 0) with false. cbn [negb].
  unfold process_conn. rewrite (bind_get_conn h c) by exact Ec. by rewrite Es.
Qed.

(** ** Reads that bring nothing *)

Definition not_read (a : answer) : Prop := match a with Got _ => False | _ => True end.

(** None of the answers left is to a read that brings bytes. *)
Definition no_reads (l : list answer) : Prop := Forall not_read l.

Lemma no_reads_suffix l l' : l' `suffix_of` l -> no_reads l -> no_reads l'.
Proof. intros [x ->] [_ ?]%Forall_app. done. Qed.

Lemma sys_read_nothing len t r t' :
  no_reads (t_input t) -> sys_read len t = Ret r t' ->
  (exists wb, r = (-1, wb, [])) /\ exists l, t' = set_input t l /\ l `suffix_of` t_input t.
Proof.
  intros Hn H. unfold sys_read in H. enter H. injection H as <- <-. unfold pop in E.
  destruct (t_input t) as [|a' l] eqn:Ei; injection E as <- <-.
  - split; [by eexists|]. exists []. rewrite <-Ei. split; [by destruct t|done].
  - apply Forall_cons in Hn as [Hn _]. split; [destruct a'; try done; by eexists|]. exists l. split; [done|by exists [a']].
Qed.

Lemma free_conn_gone h t x t1 : free_conn h t = Ret x t1 -> t_conns t1 !! h = None.
Proof.
  intros H. unfold free_conn, conn_free in H. enter H. enter H. enter H. enter H.
  injection H as _ <-. apply lookup_delete_eq.
Qed.

Lemma check_nothing h wb t b t' :
  conn_check_read h (-1) wb t = Ret b t' -> b = false /\ (t' = t \/ free_conn h t = Ret tt t').
Proof.
  intros H. unfold conn_check_read in H. cbn [Z.ltb Z.compare] in H. enter H. injection H as <- <-.
  split; [done|]. destruct wb; [left; by injection E as _ <-|right]. by destruct a.
Qed.

(** A connection that expects bytes of a value reads in vain. *)
Lemma value_blocked t h c v k :
  filling t h c v k -> no_reads (t_input t) ->
  wp (state_set_in_value h) (fun _ t' => inv [] [] [] t' /\
    (t_conns t' !! h = None \/ filling t' h c v k)) t.
Proof.
  intros Hf Hn. pose proof Hf as [Ec Es Ev Ek Hi].
  assert (wp (state_set_in_value h) (fun _ t' => settled (next_kv t) t') t) as Hw
    by by eapply state_set_in_value_ok.
  unfold wp in *. destruct (state_set_in_value h t) as [[] t'| |] eqn:H; try done.
  split; [apply Hw|]. unfold state_set_in_value in H. returned H. returned H. returned H. returned H.
  enter H. apply sys_read_nothing in E2 as ((wb & ->) & l & -> & _); [|done]. cbn [Z.ltb Z.compare] in H.
  returned H. enter H. apply check_nothing in E2 as [-> [->|E2]]; injection H as <-.
  - right. by apply filling_answered.
  - left. by eapply free_conn_gone.
Qed.

(** A connection that expects a command reads in vain. *)
Lemma in_cmd_blocked t h c x t' :
  t_conns t !! h = Some c -> c_state c = CONN_STATE_IN_CMD -> c_kv c = None -> no_reads (t_input t) ->
  state_in_cmd h t = Ret x t' -> aged t t' /\ t_hash t' = t_hash t /\ warmed_up t' = warmed_up t.
Proof.
  intros Ec Es Hkv Hn H. unfold state_in_cmd, conn_read in H. returned H. returned H.
  enter H. returned E0. enter E0. apply within_Ret in E2 as ->. enter E0.
  apply sys_read_nothing in E2 as ((wb & ->) & l & -> & Hsuf); [|done]. cbn [Z.ltb Z.compare] in E0.
  returned E0. apply check_nothing in E0 as [-> Hor]. injection H as _ <-.
  assert (aged t (set_input t l)) as Ha by (split; cbn; [by eauto with ages|done|done]).
  destruct Hor as [->|H]; [done|]. unfold free_conn, conn_free, emit in H. returned H. cbn in E0.
  rewrite Ec in E0. injection E0 as <-. unfold conn_with_key_locked in H. rewrite Es, Hkv in H.
  change (state_code CONN_STATE_FREE <? state_code CONN_STATE_IN_CMD) with false in H. cbv iota in H.
  rewrite decide_False in H by done. returned H. returned H. returned H. injection H as <-. split; [|done]. etrans; [exact Ha|].
  by apply aged_same.
Qed.

(** ** The size of a value arrives *)

Section stream.
Context (h : Z) (key : key) (value : list Z).

(** What the client sends: the size of its value and the bytes. *)
Definition value_size : Z := Z.of_nat (length value).
Definition stream : list Z := le_split 8 value_size ++ value.

(** The connection [h] of [t] has read [j] bytes of the stream, not all of the size. *)
Record sizing (t : thread) (j : nat) (c : conn) : Prop := {
  sz_conn : t_conns t !! h = Some c;
  sz_state : c_state c = CONN_STATE_SET_IN_VALUE_SIZE;
  sz_key : conn_key c = key;
  sz_count : (j < 8)%nat;
  sz_unio : c_unio c = SET_REQ_SIZE + SET_EXTRA_BUFFER - Z.of_nat j;
  sz_buffer : take j (c_buffer c) = take j stream;
  sz_inv : inv [] [] [] t;
  sz_next : next_kv t < 2 ^ 49
}.

(** It has read the size and bytes of the value. *)
Definition valuing (t : thread) (j : nat) : Prop :=
  (8 <= j)%nat /\ exists c v k, filling t h c v k /\ conn_key c = key /\ k_val_size k = value_size /\
    k_data k = take (j - 8) value.

Definition taking (t : thread) (j : nat) : Prop := (exists c, sizing t j c) \/ valuing t j.

Lemma taken_next j bs more :
  bs ++ more = drop j stream -> take j stream ++ bs = take (j + length bs) stream.
Proof. intros E. by rewrite <-take_take_drop, <-E, take_app_length. Qed.

Lemma stream_value j : (8 <= j)%nat -> drop j stream = drop (j - 8) value.
Proof. intros Hj. unfold stream. by rewrite drop_app_ge, length_le_split by (rewrite length_le_split; lia). Qed.

Hypothesis Hbytes : Forall is_byte value.
Hypothesis Hsize : value_size < 2 ^ 62.

Lemma stream_bytes : Forall is_byte stream.
Proof. apply Forall_app. split; [apply le_split_bytes|done]. Qed.

Section size.
Context (t : thread) (j : nat) (c : conn) (bs more : list Z) (input : list answer).
Hypothesis Hs : sizing t j c.
Hypothesis Hnext : bs ++ more = drop j stream.
Hypothesis Hne : bs <> [].
Hypothesis Hfit : Z.of_nat j + Z.of_nat (length bs) <= SET_REQ_SIZE + SET_EXTRA_BUFFER.

(** The bytes that came after the size. *)
Definition first : list Z := drop (8 - j) bs.

Definition sized_conn : conn :=
  set_c_unio (set_c_buffer c (fill j (take (8 - j) bs) (c_buffer c)))
    (SET_REQ_SIZE + SET_EXTRA_BUFFER - Z.of_nat j - Z.of_nat (length bs)).
Definition sized_thread : thread :=
  set_conns (set_input t input) (<[h := sized_conn]> (t_conns t)).

Lemma bs_bytes : Forall is_byte bs.
Proof.
  pose proof (Forall_drop _ j _ stream_bytes) as Hb. rewrite <-Hnext in Hb. by apply Forall_app in Hb as [? _].
Qed.

Lemma bs_pos : (0 < length bs)%nat.
Proof. destruct bs; [done|cbn; lia]. Qed.

Lemma first_value : (8 <= j + length bs)%nat -> value = first ++ more.
Proof.
  intros Hl. pose proof (sz_count _ _ _ Hs). apply (f_equal (drop (8 - j))) in Hnext as E.
  rewrite drop_drop, drop_app_le in E by lia. replace (j + (8 - j))%nat with 8%nat in E by lia.
  rewrite stream_value in E by lia. symmetry. exact E.
Qed.

Lemma sized_buffer :
  take (j + length (take (8 - j) bs)) (c_buffer sized_conn) = take (j + length (take (8 - j) bs)) stream.
Proof.
  destruct Hs as [Ec _ _ Hj _ Hb Hi _]. pose proof (c_buffer_length _ (inv_conn_ok _ _ _ _ _ _ Hi Ec)).
  cbn [c_buffer sized_conn set_c_unio set_c_buffer]. unfold fill. rewrite app_assoc, take_app_length'
    by (rewrite length_app, !length_take; lia).
  rewrite Hb. apply (taken_next _ _ (drop (8 - j) bs ++ more)). by rewrite app_assoc, take_drop.
Qed.

Lemma sized_size : (8 <= j + length bs)%nat -> get 0 8 (c_buffer sized_conn) = value_size.
Proof.
  intros Hl. pose proof (sz_count _ _ _ Hs). pose proof sized_buffer as Hb. rewrite length_take in Hb.
  replace (j + (8 - j) `min` length bs)%nat with 8%nat in Hb by lia.
  unfold get, field. rewrite drop_0, Hb. unfold stream. rewrite take_app_length' by (by rewrite length_le_split).
  apply le_combine_split. change (2 ^ (8 * Z.of_nat 8)) with (2 ^ 64). unfold value_size in *. lia.
Qed.

(** What the handler does with the bytes. *)
Lemma size_arrives :
  state_set_in_value_size h (set_input t (Got bs :: input)) =
  (if (j + length bs <? 8)%nat then skip
   else
      kv ← kv_malloc (c_key c) value_size;
      match kv with
      | None => free_conn h
      | Some kv =>
          kv_init kv (c_key c) value_size;;
          kv_borrow kv h;;
          n ← kv_copy_val kv first (Z.of_nat (length first));
          if n <? value_size then
            mod_conn h (fun c => set_c_unio (set_c_state c CONN_STATE_SET_IN_VALUE)
                                   (u64 (value_size + CMD_SIZE_MAX - n)));;
            if Z.of_nat (length first) =? SET_EXTRA_BUFFER then state_set_in_value h else skip
          else
            conn_unlock_key_for_success h;;
            mod_conn h (fun c => set_c_unio (set_c_state c CONN_STATE_IN_CMD)
                                   (u64 (CMD_SIZE_MAX - (Z.of_nat (length first) - n))));;
            store_cmd h 0 (zdrop n first);;
            c ← get_conn h;
            if cmd_full_readed c then cmd_run h
            else if Z.of_nat (length first) =? SET_EXTRA_BUFFER then state_in_cmd h else skip
      end) sized_thread.
Proof.
  destruct Hs as [Ec Es _ Hj Hu _ Hi _]. pose proof bs_pos as Hpos. pose proof bs_bytes as Hb.
  set (t0 := set_input t _). assert (t_conns t0 !! h = Some c) as Ec0 by exact Ec.
  unfold state_set_in_value_size. rewrite (bind_get_conn h c) by exact Ec0. rewrite Hu.
  change SET_EXTRA_BUFFER with 16384 in *. change SET_REQ_SIZE with 8 in *. cbv zeta.
  rewrite (wrap_small 64 (8 + 16384 - (8 + 16384 - Z.of_nat j))) by lia.
  replace (8 + 16384 - (8 + 16384 - Z.of_nat j)) with (Z.of_nat j) by lia.
  rewrite (wrap_small 64 (8 - Z.of_nat j)) by lia.
  rewrite (bind_step _ _ _ tt t0) by (apply assert_run; lia).
  erewrite bind_step by (apply (sys_read_run _ t0 bs input eq_refl Hb); lia).
  cbv beta iota. rewrite (proj2 (Z.ltb_lt 0 _)) by lia. rewrite ztake_take, zdrop_drop by lia.
  replace (Z.to_nat (8 - Z.of_nat j)) with (8 - j)%nat by lia. rewrite Nat2Z.id. fold first.
  change (set_input t0 input) with (set_input t input).
  rewrite (bind_step _ _ _ _ _ (mod_conn_run h _ c (set_input t input) Ec)).
  erewrite bind_step by (eapply (check_read_run h); [apply lookup_insert_eq|cbn; lia|cbn; lia]).
  unfold set_conns at 1. t_simpl. rewrite insert_insert_eq. cbn [c_unio set_c_buffer]. rewrite Hu.
  change 8 with SET_REQ_SIZE. change 16384 with SET_EXTRA_BUFFER. fold sized_conn. fold sized_thread.
  rewrite (bind_get_conn h sized_conn) by apply lookup_insert_eq.
  cbn [c_unio c_key sized_conn set_c_unio set_c_buffer].
  change SET_EXTRA_BUFFER with 16384. change SET_REQ_SIZE with 8.
  destruct (Nat.ltb_spec (j + length bs) 8) as [Hlt|Hge].
  { by rewrite (proj2 (Z.ltb_lt 16384 _)) by lia. }
  rewrite (proj2 (Z.ltb_ge 16384 _)) by lia. rewrite sized_size by lia.
  assert (Z.of_nat (length first) = Z.of_nat j + Z.of_nat (length bs) - 8) as Hlf
    by (unfold first; rewrite length_drop; lia).
  rewrite wrap_small by lia.
  replace (16384 - (8 + 16384 - Z.of_nat j - Z.of_nat (length bs))) with (Z.of_nat (length first)) by lia.
  done.
Qed.

Lemma sized_inv : inv [] [h] [] sized_thread.
Proof.
  destruct Hs as [Ec Es _ Hj Hu _ Hi _]. pose proof bs_pos. change SET_EXTRA_BUFFER with 16384 in *.
  change SET_REQ_SIZE with 8 in *.
  pose proof (size_bytes_inv (set_input t input) h c bs (inv_answered _ _ _ _ _ Hi) Ec Es ltac:(lia) bs_bytes) as Hi'.
  rewrite ztake_take in Hi' by (change SET_EXTRA_BUFFER with 16384; lia).
  change SET_EXTRA_BUFFER with 16384 in Hi'. change SET_REQ_SIZE with 8 in Hi'. rewrite Hu in Hi'.
  replace (Z.to_nat (8 + 16384 - (8 + 16384 - Z.of_nat j))) with j in Hi' by lia.
  replace (Z.to_nat (8 + 16384 - Z.of_nat j - 16384)) with (8 - j)%nat in Hi' by lia. exact Hi'.
Qed.

Lemma size_announced :
  announced c bs = if (j + length bs <? 8)%nat then None else Some value_size.
Proof.
  pose proof (sz_unio _ _ _ Hs) as Hu. pose proof (sz_count _ _ _ Hs) as Hj.
  pose proof sized_size as Hsz. cbn [c_buffer sized_conn set_c_unio set_c_buffer] in Hsz.
  unfold announced. rewrite Hu. change SET_EXTRA_BUFFER with 16384 in *. change SET_REQ_SIZE with 8 in *.
  rewrite (wrap_small 64 (8 + 16384 - (8 + 16384 - Z.of_nat j))) by lia.
  replace (8 + 16384 - (8 + 16384 - Z.of_nat j)) with (Z.of_nat j) by lia.
  rewrite (wrap_small 64 (8 - Z.of_nat j)) by lia. rewrite bytes_id by exact bs_bytes.
  assert (ztake (8 - Z.of_nat j + 16384) bs = bs) as ->
    by (unfold ztake; by rewrite (proj2 (Z.leb_le _ _)) by lia).
  destruct (Nat.ltb_spec (j + length bs) 8); [by rewrite (proj2 (Z.ltb_lt _ _)) by lia|].
  rewrite (proj2 (Z.ltb_ge _ _)), ztake_take by lia. rewrite Nat2Z.id.
  replace (Z.to_nat (8 - Z.of_nat j)) with (8 - j)%nat by lia. by rewrite Hsz by lia.
Qed.

Lemma after_size_first : (8 <= j + length bs)%nat -> after_size c bs = Z.of_nat (length first).
Proof.
  intros Hl. pose proof (sz_unio _ _ _ Hs) as Hu. pose proof (sz_count _ _ _ Hs) as Hj.
  unfold after_size. rewrite Hu. change SET_EXTRA_BUFFER with 16384 in *. change SET_REQ_SIZE with 8 in *.
  cbv zeta. rewrite (wrap_small 64 (8 + 16384 - (8 + 16384 - Z.of_nat j))) by lia.
  replace (8 + 16384 - (8 + 16384 - Z.of_nat j)) with (Z.of_nat j) by lia.
  rewrite (wrap_small 64 (8 - Z.of_nat j)) by lia. rewrite bytes_id by exact bs_bytes.
  assert (ztake (8 - Z.of_nat j + 16384) bs = bs) as ->
    by (unfold ztake; by rewrite (proj2 (Z.leb_le _ _)) by lia).
  unfold first. rewrite length_drop. lia.
Qed.

Lemma size_event input' :
  handle_event (Ev_conn h EPOLLIN) (set_input t input') = state_set_in_value_size h (set_input t input').
Proof.
  destruct Hs as [Ec Es _ _ _ _ _ _]. cbn [handle_event].
  change (Z.land EPOLLIN (Z.lnot (Z.lor EPOLLIN EPOLLOUT)) =? 0) with true. cbn [negb].
  rewrite (bind_get_conn h c) by exact Ec. rewrite Es.
  change (Z.land EPOLLIN (state_code CONN_STATE_SET_IN_VALUE_SIZE) =? 0) with false. cbn [negb].
  unfold process_conn. rewrite (bind_get_conn h c) by exact Ec. by rewrite Es.
Qed.

(** The event is handled to its end. *)
Lemma size_returns :
  exists t1, step t (Ev_conn h EPOLLIN, Got bs :: input) = Ret tt t1 /\ inv [] [] [] t1.
Proof.
  pose proof Hs as [Ec Es _ Hj Hu _ Hi Hn]. unfold step. cbn [fst snd].
  assert (admissible (set_input t (Got bs :: input)) (Ev_conn h EPOLLIN) = true) as Ha.
  { unfold admissible. rewrite bool_decide_true by (cbn; eauto). unfold modest.
    cbn [t_conns t_input set_input]. rewrite Ec, decide_True, size_announced by done.
    destruct (j + length bs <? 8)%nat; [done|]. by apply Z.ltb_lt. }
  pose proof (event_ok t _ _ Hi Hn Ha) as He.
  pose proof (handle_event_no_overrun (set_input t (Got bs :: input)) (Ev_conn h EPOLLIN)
    (inv_answered _ _ _ _ _ Hi)) as Ho.
  destruct (handle_event _ _) as [[] t1| |]; [exists t1; split; [done|apply He]| |done].
  exfalso. apply Ho; [|done]. unfold floods. cbn [t_conns t_input set_input]. rewrite Ec, Es, size_announced.
  destruct (Nat.ltb_spec (j + length bs) 8) as [|Hl]; [done|]. rewrite after_size_first by done.
  apply Z.leb_gt. pose proof (f_equal length (first_value Hl)) as Hlen. rewrite length_app in Hlen.
  change CMD_SIZE_MAX with 257. unfold value_size. lia.
Qed.

(** What the event leaves: a closed connection, a connection with more of the
    stream, or the value in the table. *)
Definition came (t1 : thread) : Prop :=
  t_conns t1 !! h = None \/ more <> [] /\ taking t1 (j + length bs) \/
  more = [] /\ stored True key value t1.

Lemma size_more t1 :
  (j + length bs < 8)%nat -> step t (Ev_conn h EPOLLIN, Got bs :: input) = Ret tt t1 ->
  inv [] [] [] t1 -> came t1.
Proof.
  intros Hl E Hi1. unfold step in E. cbn [fst snd] in E. rewrite size_event, size_arrives in E.
  rewrite (proj2 (Nat.ltb_lt _ _)) in E by lia. injection E as <-.
  pose proof Hs as [Ec Es Hk Hj Hu _ Hi Hn]. right; left.
  assert (length (take (8 - j) bs) = length bs) as Hlb by (rewrite length_take; lia). split.
  - intros ->. apply (f_equal length) in Hnext. unfold stream in Hnext.
    rewrite app_nil_r, length_drop, length_app, length_le_split in Hnext. lia.
  - left. exists sized_conn. split; [apply lookup_insert_eq|done|exact Hk|lia|cbn; lia| |done|done].
    pose proof sized_buffer as Hb. by rewrite Hlb in Hb.
Qed.

(** The value object [next_kv t2] holds the bytes that came with the size. *)
Section begun.
Context (t2 : thread) (k : kv).
Let c2 := set_c_kv sized_conn (Some (next_kv t2)).
Let t3 := building t2 h sized_conn k first.
Hypothesis Hfull : (8 <= j + length bs)%nat.
Hypothesis Hi3 : inv [] [h] [] t3.
Hypothesis Hlk : hmap t2 !! key = Some h.
Hypothesis Hkey : k_key k = key.
Hypothesis Hkv : k_val_size k = value_size.
Hypothesis Hdis : k_enabled k = false.
Hypothesis Htm : timed sized_conn.
Hypothesis Hno : no_reads (t_input t2).

Lemma sized_key : conn_key sized_conn = key.
Proof. apply (sz_key _ _ _ Hs). Qed.

Lemma sized_state : c_state sized_conn = CONN_STATE_SET_IN_VALUE_SIZE.
Proof. apply (sz_state _ _ _ Hs). Qed.

Lemma first_length : Z.of_nat (length first) + Z.of_nat (length more) = value_size.
Proof. unfold value_size. rewrite (first_value Hfull), length_app. lia. Qed.

(** Bytes of the value are missing. *)
Lemma begun_partial :
  more <> [] ->
  wp (mod_conn h (fun c => set_c_unio (set_c_state c CONN_STATE_SET_IN_VALUE)
        (u64 (value_size + CMD_SIZE_MAX - Z.of_nat (length first))));;
      if Z.of_nat (length first) =? SET_EXTRA_BUFFER then state_set_in_value h else skip)
    (fun _ t' => inv [] [] [] t' /\ came t') t3.
Proof.
  intros Hmore. pose proof first_length as Hlen.
  assert (0 < Z.of_nat (length more)) by (destruct more; [done|cbn; lia]).
  pose proof (value_partial_ok t2 h sized_conn k first Hi3 ltac:(by rewrite sized_state)
    ltac:(by rewrite sized_key) ltac:(by rewrite sized_key) Hdis Htm false (fun _ t' => inv [] [] [] t')
    ltac:(rewrite Hkv; lia) ltac:(intros ? [? _]; done)) as Hw.
  rewrite Hkv in Hw. unfold wp in Hw.
  rewrite (bind_step _ _ _ _ _ (mod_conn_run h _ c2 t3 (building_conn _ _ _ _ _))) in Hw.
  wp_step. eapply wp_mod_conn; [apply building_conn|]. set (c4 := set_c_unio _ _) in *. set (t4 := set_conns _ _) in *.
  change (inv [] [] [] t4) in Hw.
  assert (filling t4 h c4 (next_kv t2) (set_k_data k first)) as Hf.
  { split; [apply lookup_insert_eq|done|done|apply building_kv|exact Hw]. }
  assert (forall t', filling t' h c4 (next_kv t2) (set_k_data k first) -> came t') as Hcame.
  { intros t' Hf'. right; left. split; [done|]. right. split; [lia|].
    exists c4, (next_kv t2), (set_k_data k first). split_and!; [done|exact sized_key|exact Hkv|].
    pose proof (first_value Hfull) as Hv. rewrite Hv. cbn. rewrite take_app_length'; [done|].
    unfold first. rewrite length_drop. pose proof (sz_count _ _ _ Hs). lia. }
  case_match.
  - eapply wp_mono; [by apply (value_blocked t4 h c4 _ _ Hf)|]. intros _ t' [Hi' Hor]. split; [done|].
    destruct Hor; [by left|by apply Hcame].
  - wp_steps. split; [done|by apply Hcame].
Qed.

(** The value came whole. *)
Lemma begun_whole :
  more = [] ->
  wp (conn_unlock_key_for_success h;;
      mod_conn h (fun c => set_c_unio (set_c_state c CONN_STATE_IN_CMD) (u64 (CMD_SIZE_MAX - 0)));;
      store_cmd h 0 [];;
      c ← get_conn h;
      if cmd_full_readed c then cmd_run h
      else if Z.of_nat (length first) =? SET_EXTRA_BUFFER then state_in_cmd h else skip)
    (fun _ t' => inv [] [] [] t' /\ came t') t3.
Proof.
  intros Hmore. pose proof first_length as Hlen. pose proof (first_value Hfull) as Hv.
  rewrite Hmore in Hlen, Hv. rewrite app_nil_r in Hv.
  assert (Z.of_nat (length first) = k_val_size k) as Hd by (rewrite Hkv; cbn [length] in Hlen; lia).
  pose proof (building_conn t2 h sized_conn k first) as Ec3. pose proof (building_kv t2 h sized_conn k first) as Ek3.
  assert (c_state c2 <> CONN_STATE_GET_BLOCKED) as Hst
    by (change (c_state c2) with (c_state sized_conn); by rewrite sized_state).
  eapply wp_both; [eapply (value_done_ok t2 h sized_conn k first Hi3) with (Q := fun _ t' => inv [] [] [] t');
    [by rewrite sized_state|by rewrite sized_key|by rewrite sized_key|exact Hdis|exact Htm|exact Hd|done|done|by intros ? []]|].
  intros [] t' E Hi'. split; [done|]. right; right. split; [done|].
  enter E. destruct a.
  destruct (unlock_stored t3 h (next_kv t2) c2 (set_k_data k first) t0) as (Hnone & Hfo & Hin);
    [exact Hi3|exact Ec3|exact Hst|done|exact Ek3|exact Hdis|exact Hd|cbn; by rewrite Hkey|exact E0|].
  apply (wp_Ret _ (fun _ t' => inv [] [h] [] t' /\ t_conns t' !! h = Some (served_conn c2))) in E0
    as [Hi0 Eh0]; [|eapply unlock_success_ok; [exact Hi3|exact Ec3|exact Hst|done|exact Ek3|exact Hdis|exact Hd|
      cbn; by rewrite Hkey|by intros]].
  cbn [k_key k_data set_k_data] in Hnone, Hfo. rewrite Hkey in Hnone, Hfo.
  returned E. rewrite Eh0 in E0. injection E0 as <-. enter E. unfold store_cmd in E0. enter E0.
  apply within_Ret in E1 as ->. apply mod_conn_Ret in E0 as (c5 & Ec5 & ->). cbn in Ec5.
  rewrite lookup_insert_eq in Ec5. injection Ec5 as <-. returned E. cbn in E0. rewrite lookup_insert_eq in E0.
  injection E0 as <-. set (c5 := set_c_key _ _) in E. set (t5 := set_conns _ _) in E.
  assert (conn_ok c5) as Hok.
  { destruct (inv_conn_ok _ _ _ _ _ _ Hi0 Eh0). split; cbn; try done. }
  rewrite nothing_readed in E by done.
  assert (aged t0 t5) as Ha5 by by apply aged_same.
  assert (aged t0 t' /\ t_hash t' = t_hash t0 /\ warmed_up t' = warmed_up t0) as (Ha & Hh & Hw).
  { destruct (_ =? SET_EXTRA_BUFFER); [|by injection E as <-].
    eapply in_cmd_blocked in E as (Ha & Hh & Hw); [|apply lookup_insert_eq|done|done|].
    - split; [by etrans|done].
    - eapply no_reads_suffix; [exact Hin|exact Hno]. }
  pose proof (Hnone _ _ Hi' Ha) as Honly. rewrite <-Hv in Honly. split; [done|done|]. intros [Hr|Hwarm]; [by destruct Hr|].
  eapply nothing_else_found; [exact Hi'|exact Honly| |].
  - unfold hmap. rewrite Hh. apply Hfo. right. congruence.
  - apply (kv_range _ _ _ _ _ _ Hi3 Ek3).
Qed.
End begun.

Lemma size_full t1 :
  (8 <= j + length bs)%nat -> no_reads input ->
  step t (Ev_conn h EPOLLIN, Got bs :: input) = Ret tt t1 -> came t1.
Proof.
  intros Hfull Hno E. unfold step in E. cbn [fst snd] in E. rewrite size_event, size_arrives in E.
  rewrite (proj2 (Nat.ltb_ge _ _)) in E by lia. pose proof Hs as [Ec Es Hk Hj Hu _ Hi Hn].
  destruct (in_size_facts t h c Hi Ec Es) as (_ & Hkv & Hl & Htm). rewrite Hk in Hl.
  pose proof sized_inv as Hsi. pose proof (first_length Hfull) as Hlen.
  destruct (conn_key_wf c (inv_conn_ok _ _ _ _ _ _ Hi Ec)) as (_ & _ & Hks).
  assert (t_conns sized_thread !! h = Some sized_conn) as Ec0 by apply lookup_insert_eq.
  enter E. pose proof (no_reads_suffix _ _ (ag_input _ _ (ages_kv_malloc _ _ _ _ _ E0)) Hno) as Hno0.
  apply (wp_Ret _ (fun r t' => match r with
    | Some v => exists t2 k0, kept [h] sized_thread t2 /\ room_for (c_key c) value_size k0 /\
        v = next_kv t2 /\ t' = add_kv t2 k0
    | None => True end)) in E0.
  2: { eapply kv_malloc_ok; [exact Hsi|exact Hks|unfold value_size; lia| |done|].
       - change PAGE_MASK with 4095. change sizeof_kv with 56. lia.
       - intros t' k Hk' Hr. by exists t', k. }
  destruct a as [v|]; [|left; by eapply free_conn_gone].
  destruct E0 as (t2 & k0 & [Hi2 Hf] & Hr & -> & ->).
  assert (t_conns t2 !! h = Some sized_conn) as Ec2 by by rewrite (f_conns _ _ Hf).
  assert (hmap t2 !! key = Some h) as Hl2 by (apply (f_locks _ _ Hf); [eauto|exact Hl]).
  pose proof (f_next _ _ Hf) as Hn2. cbn in Hn2.
  eapply (wp_Ret _ (fun _ t' => came t')); [|exact E].
  eapply (begin_kv_ok t2 h sized_conn k0 value_size);
    [exact Hi2|exact Ec2|exact Hkv|lia|unfold value_size in *; lia|exact Hr|].
  intros t' Hi'. wp_step. eapply kv_copy_val_ok; [exact Hi'|done|done|done|]. intros Hi3.
  cbn [k_val_size fresh_kv] in *. rewrite Z.min_r in * by lia.
  assert (ztake (Z.of_nat (length first)) first = first) as Htk
    by (unfold ztake; by rewrite (proj2 (Z.leb_le _ _)) by lia).
  rewrite Htk in *. rewrite sized_key in *.
  assert (more = [] \/ more <> []) as [Hm|Hm] by (destruct more; [by left|by right]).
  - rewrite (proj2 (Z.ltb_ge _ _)) by (rewrite Hm in Hlen; cbn [length] in Hlen; lia).
    rewrite Z.sub_diag. unfold zdrop. rewrite Z.leb_refl.
    eapply wp_mono; [eapply begun_whole; [done|exact Hi3|done|done|done|done|exact Htm|exact Hno0|exact Hm]|].
    by intros _ t4 [_ ?].
  - assert (0 < Z.of_nat (length more)) by (destruct more; [done|cbn; lia]).
    rewrite (proj2 (Z.ltb_lt _ _)) by lia.
    eapply wp_mono; [eapply begun_partial; [done|exact Hi3|done|done|done|done|exact Htm|exact Hno0|exact Hm]|].
    by intros _ t4 [_ ?].
Qed.

Lemma size_step :
  no_reads input ->
  exists t1, step t (Ev_conn h EPOLLIN, Got bs :: input) = Ret tt t1 /\ inv [] [] [] t1 /\ came t1.
Proof.
  intros Hno. destruct size_returns as (t1 & E & Hi1). exists t1. split_and!; [done|done|].
  destruct (Nat.lt_ge_cases (j + length bs) 8); [by apply size_more|by apply size_full].
Qed.
End size.

(** A piece of the value arrives. *)
Lemma value_step t j bs more input :
  valuing t j -> bs ++ more = drop j stream -> bs <> [] ->
  exists t1, step t (Ev_conn h EPOLLIN, Got bs :: input) = Ret tt t1 /\ inv [] [] [] t1 /\
    (more <> [] /\ valuing t1 (j + length bs) \/
     more = [] /\ stored (hash_resize_page (t_hash t) <> 0) key value t1).
Proof.
  intros (Hj & c & v & k & Hf & Hk & Hvs & Hd) Hnext Hne.
  pose proof (Forall_drop _ j _ stream_bytes) as Hb. rewrite <-Hnext in Hb. apply Forall_app in Hb as [Hb _].
  assert (0 < Z.of_nat (length bs)) as Hpos by (destruct bs; [done|cbn; lia]).
  pose proof (taken_next _ _ _ Hnext) as Htk. rewrite stream_value in Hnext by lia.
  assert (k_data k ++ bs = take (j + length bs - 8) value) as Hdat.
  { rewrite Hd. replace (j + length bs - 8)%nat with (j - 8 + length bs)%nat by lia.
    by rewrite <-take_take_drop, <-Hnext, take_app_length. }
  assert (Z.of_nat (length bs) + Z.of_nat (length more) = c_unio c - CMD_SIZE_MAX) as Hl.
  { destruct (filling_io _ _ _ _ _ Hf) as (_ & Hio & _). apply (f_equal length) in Hnext, Hd.
    rewrite length_app, length_drop in Hnext. rewrite length_take in Hd. unfold value_size in *. lia. }
  unfold step. cbn [fst snd]. rewrite (arrival_event t h c v k) by done.
  pose proof (filling_answered t h c v k (Got bs :: input) Hf) as Hf0. set (t0 := set_input t _) in *.
  assert (more = [] \/ more <> []) as [->|Hm] by (destruct more; [by left|by right]).
  - rewrite app_nil_r in Hnext. cbn [length] in Hl.
    destruct (value_completes t0 h v c k bs input) as (t1 & E & Hst); [done|done|done|lia|lia|].
    exists t1. split_and!; [done|apply Hst|]. right. split; [done|]. rewrite Hk, Hd in Hst.
    by rewrite Hnext, take_drop in Hst.
  - assert (0 < Z.of_nat (length more)) by (destruct more; [done|cbn; lia]).
    destruct (value_continues t0 h v c k bs input) as [E Hf1]; [done|done|done|lia|lia|].
    eexists. split_and!; [exact E|apply Hf1|]. left. split; [done|]. split; [lia|].
    eexists _, v, _. by split_and!; [exact Hf1| | |].
Qed.
End stream.

(** ** SET and GET *)

(** The connection [h] of [t] has been told that it missed and sends its value. *)
Record asked (t : thread) (h : Z) (c : conn) : Prop := {
  a_conn : t_conns t !! h = Some c;
  a_state : c_state c = CONN_STATE_SET_IN_VALUE_SIZE;
  a_unio : c_unio c = SET_REQ_SIZE + SET_EXTRA_BUFFER;
  a_inv : inv [] [] [] t;
  a_next : next_kv t < 2 ^ 49
}.

(** Events that bring [h] pieces of its stream, one after another, each with the
    answers to the other system calls. *)
Definition sets (h : Z) (cuts : list (list Z * list answer)) : list (epoll_event * list answer) :=
  map (fun cut => (Ev_conn h EPOLLIN, Got (fst cut) :: snd cut)) cuts.

(** [pieces] are results of reads that begin after [j] bytes: none is empty, and a
    read of the size asks for the 8 bytes of it and 16384 more. *)
Fixpoint fits (j : nat) (pieces : list (list Z)) : Prop :=
  match pieces with
  | [] => True
  | bs :: pieces' =>
      bs <> [] /\
      ((j < 8)%nat -> Z.of_nat j + Z.of_nat (length bs) <= SET_REQ_SIZE + SET_EXTRA_BUFFER) /\
      fits (j + length bs) pieces'
  end.

(** No event of [l] closes the connection [h]. *)
Fixpoint stays_open (h : Z) (l : list (epoll_event * list answer)) (t : thread) : bool :=
  match l with
  | [] => true
  | e :: l' =>
      match step t e with
      | Ret _ t' => bool_decide (is_Some (t_conns t' !! h)) && stays_open h l' t'
      | _ => true
      end
  end.

(** The thread that handles the last event of [l]. *)
Fixpoint before_last (l : list (epoll_event * list answer)) (t : thread) : thread :=
  match l with
  | [] | [_] => t
  | e :: l' => match step t e with Ret _ t' => before_last l' t' | _ => t end
  end.

(** The last piece holds bytes of the value only, and the table has its size then. *)
Definition settled_table (h : Z) (value : list Z) (cuts : list (list Z * list answer)) (t : thread) : Prop :=
  (length (default [] (fst <$> last cuts)) <= length value)%nat /\
  hash_resize_page (t_hash (before_last (sets h cuts) t)) = 0.

Definition has_value (t : thread) (key : key) : Prop :=
  exists v k, hmap t !! key = Some v /\ t_kvs t !! v = Some k.

Section run.
Context (h : Z) (key : key) (value : list Z).
Hypothesis Hbytes : Forall is_byte value.
Hypothesis Hsize : value_size value < 2 ^ 62.

Lemma found_has_value t : found t key value -> has_value t key.
Proof. intros (v & k & ? & ? & _). by exists v, k. Qed.

Lemma sets_stored cuts : forall t j,
  taking h key value t j -> cuts <> [] -> concat (map fst cuts) = drop j (stream value) ->
  fits j (map fst cuts) -> Forall no_reads (map snd cuts) -> stays_open h (sets h cuts) t = true ->
  exists t2, run (sets h cuts) t = Ret tt t2 /\ inv [] [] [] t2 /\ nothing_else t2 key value /\
    (settled_table h value cuts t \/ warmed_up t2 = false -> has_value t2 key).
Proof.
  induction cuts as [|[bs input] cuts IH]; intros t j Ht Hne Hcat Hf Hno Hopen; [done|]. destruct Hf as (Hbs & Hfit & Hfits).
  cbn [map concat fst snd] in *. apply Forall_cons in Hno as [Hno Hnos].
  assert (exists t1, step t (Ev_conn h EPOLLIN, Got bs :: input) = Ret tt t1 /\ inv [] [] [] t1 /\
    (t_conns t1 !! h = None \/ concat (map fst cuts) <> [] /\ taking h key value t1 (j + length bs) \/
     concat (map fst cuts) = [] /\ stored ((8 <= j)%nat -> hash_resize_page (t_hash t) <> 0) key value t1))
    as (t1 & E & Hi1 & Hcame).
  { destruct Ht as [[c Hs]|Hv].
    - destruct (size_step h key value Hbytes Hsize t j c bs (concat (map fst cuts)) input)
        as (t1 & E & Hi1 & Hcame); [done|done|done|apply Hfit, Hs|done|].
      exists t1. split_and!; [done|done|]. destruct Hcame as [?|[?|[? [? ? Hw]]]]; [by left|by right; left|].
      right; right. split; [done|]. split; [done|done|]. intros [Hr|?]; [|by apply Hw; right].
      destruct Hr. intros Hj. pose proof (sz_count _ _ _ _ _ _ Hs). lia.
    - destruct (value_step h key value Hbytes t j bs (concat (map fst cuts)) input Hv Hcat Hbs)
        as (t1 & E & Hi1 & Hcame).
      exists t1. split_and!; [done|done|]. destruct Hcame as [[? ?]|[? [? ? Hw]]]; right.
      + left. split; [done|by right].
      + right. split; [done|]. split; [done|done|]. intros [Hr|?]; [|by apply Hw; right].
        apply Hw. left. intros Hp. apply Hr. by intros _. }
  cbn [sets map run stays_open fst snd] in *. rewrite E in *.
  apply andb_true_iff in Hopen as [Ho%bool_decide_eq_true Hopen].
  destruct Hcame as [Hgone|[[Hmore Ht1]|[Hend [_ Hst Hfo]]]]; [by rewrite Hgone in Ho; destruct Ho| |].
  - destruct cuts as [|cut cuts]; [done|].
    destruct (IH t1 (j + length bs)%nat Ht1) as (t2 & E2 & Hi2 & Hno2 & Hhas); [done| |done|done|done|].
    { apply (f_equal (drop (length bs))) in Hcat. by rewrite drop_app_length, drop_drop in Hcat. }
    exists t2. split_and!; [done..|]. intros Hor. apply Hhas. destruct Hor as [[Hl Hp]|?]; [left|by right].
    split; [exact Hl|]. revert Hp. cbn [before_last sets map fst snd]. by rewrite E.
  - assert (cuts = []) as -> by (destruct cuts as [|[[|]]]; [done|by destruct Hfits|done]).
    exists t1. split_and!; [done..|]. intros Hor. apply found_has_value, Hfo.
    destruct Hor as [[Hl Hp]|?]; [left|by right]. intros Hr. apply Hr; [|exact Hp]. cbn in Hl, Hcat.
    rewrite app_nil_r in Hcat. apply (f_equal length) in Hcat. unfold stream in Hcat.
    rewrite length_drop, length_app, length_le_split in Hcat.
    destruct bs; [done|cbn in Hcat, Hl; lia].
Qed.
End run.

(** C10: what one client stores, every client gets.  A client that missed sends the
    size of its value and the bytes, in pieces of any sizes: the size may come byte by
    byte, with the first bytes of the value or with all of them, and every event may
    bring answers to other system calls, except that a read which follows in the same
    event, after one that filled the 16 KiB buffer, brings nothing.  If the thread
    keeps the connection (it finds memory for the value) and no event of another
    connection comes in between, all events are handled, also with clients waiting for the key and with the table being resized.  Afterwards the
    key has a value if the thread has not begun to evict, or if the last piece holds
    bytes of the value only and the table was not due to be resized before it.  And if
    the key has a value, any client that asks for it gets the size, the byte 0 and
    exactly the bytes that were sent, in their order, however the system cuts the
    answer into writes. *)
Theorem set_get_roundtrip t h c value cuts
    (Ha : asked t h c) (Hb : Forall is_byte value)
    (Hsize : Z.of_nat (length value) < 2 ^ 62)
    (Hcuts : concat (map fst cuts) = le_split 8 (Z.of_nat (length value)) ++ value)
    (Hfit : fits 0 (map fst cuts)) (Hno : Forall no_reads (map snd cuts))
    (Hopen : stays_open h (sets h cuts) t = true) :
  exists t2, run (sets h cuts) t = Ret tt t2 /\ inv [] [] [] t2 /\
    (settled_table h value cuts t \/ warmed_up t2 = false -> has_value t2 (conn_key c)) /\
    (has_value t2 (conn_key c) -> forall g cg n ns,
       t_conns t2 !! g = Some cg -> c_state cg = CONN_STATE_IN_CMD -> c_unio cg = CMD_SIZE_MAX ->
       Forall (fun n => 0 <= n) (n :: ns) ->
       exists t' out,
         run ((Ev_conn g EPOLLIN, [Got (CACHE_CMD_GET_OR_SET :: conn_key c); write_answer n]) ::
              deliveries g ns) t2 = Ret tt t' /\
         t_output t' = t_output t2 ++ out /\
         sent (c_fd cg) out = take (Z.to_nat (total (n :: ns)))
           (le_split 8 (Z.of_nat (length value)) ++ [0] ++ value) /\
         inv [] [] [] t' /\
         (GET_RES_SIZE + Z.of_nat (length value) <= total (n :: ns) -> idle t' g)).
Proof.
  destruct Ha as [Ec Es Hu Hi Hn].
  destruct (sets_stored h (conn_key c) value Hb Hsize cuts t 0) as (t2 & E2 & Hi2 & Hno2 & Hhas);
    [|by intros ->|exact Hcuts|done|done|done|].
  { left. exists c. split; try done. lia. }
  exists t2. split_and!; [done..|]. intros (v & k & Hm & Ek) g cg n ns Eg Esg Hug Hns.
  destruct (Hno2 v k Hm Ek) as [Hv Hd].
  destruct (conn_key_wf c (inv_conn_ok _ _ _ _ _ _ Hi Ec)) as [Hwf _].
  destruct (get_hit_run t2 g cg (conn_key c) v k n ns) as (t' & out & E' & Ho' & Hs' & Hi' & Hid'); [done..|].
  exists t', out. rewrite Hv, Hd in Hs'. rewrite Hv in Hid'. done.
Qed.

Lemma run_app l l' t t1 : run l t = Ret tt t1 -> run (l ++ l') t = run l' t1.
Proof.
  revert t. induction l as [|e l IH]; intros t E; [by injection E as ->|].
  cbn [app run] in *. destruct (step t e) as [[] t2| |]; try done. by apply IH.
Qed.

(** Three clients: 127 has missed the key "A", 126 waits for it. *)
Definition missed_run : list (epoll_event * list answer) :=
  [ (Ev_accept 5 [], []);
    (Ev_accept 6 [], []);
    (Ev_accept 7 [], []);
    (Ev_conn 127 EPOLLOUT, [Wrote 1]);
    (Ev_conn 126 EPOLLOUT, [Wrote 1]);
    (Ev_conn 125 EPOLLOUT, [Wrote 1]);
    (Ev_conn 127 EPOLLIN, [Got [0; 1; 65]; Wrote 9]);
    (Ev_conn 126 EPOLLIN, [Got [0; 1; 65]]) ].

Lemma missed_inv : inv [] [] [] (after_run missed_run).
Proof. eapply (after_inv missed_run 8); [vm_compute; reflexivity..|lia]. Qed.

(** The value 10 11 12 13, its size cut in two. *)
Definition cut_value : list (list Z * list answer) :=
  [ ([4; 0; 0], []); ([0; 0; 0; 0; 0; 10], [Mapped 4096]); ([11; 12], []); ([13], [Wrote 13]) ].

Lemma set_get_roundtrip_witness :
  exists t' out,
    run (sets 127 cut_value ++
         [ (Ev_conn 125 EPOLLIN, [Got [0; 1; 65]; Wrote 5]);
           (Ev_conn 125 EPOLLOUT, [Again]);
           (Ev_conn 125 EPOLLOUT, [Wrote 100]) ]) (after_run missed_run) = Ret tt t' /\
    sent 7 out = [4; 0; 0; 0; 0; 0; 0; 0; 0; 10; 11; 12; 13] /\ idle t' 125.
Proof.
  set (t := after_run missed_run).
  assert (match t_conns t !! 127 with Some c => c_state c = CONN_STATE_SET_IN_VALUE_SIZE /\
    c_unio c = SET_REQ_SIZE + SET_EXTRA_BUFFER /\ conn_key c = [1; 65] | None => False end) as Hc
    by (vm_compute; split_and!; reflexivity).
  destruct (t_conns t !! 127) as [c|] eqn:Ec; [|destruct Hc]. destruct Hc as (Hs & Hu & Hk).
  destruct (set_get_roundtrip t 127 c [10; 11; 12; 13] cut_value) as (t2 & E2 & _ & Hhas & Hget);
    [split; [exact Ec|exact Hs|exact Hu|exact missed_inv|vm_compute; reflexivity]|decide_now|
     vm_compute; reflexivity|vm_compute; reflexivity| |by repeat constructor|vm_compute; reflexivity|].
  { cbn -[Z.add Z.le]. split_and!; try done; vm_compute; discriminate. }
  assert (match run (sets 127 cut_value) t with Ret _ t2 => warmed_up t2 = false /\
    match t_conns t2 !! 125 with Some cg => c_state cg = CONN_STATE_IN_CMD /\ c_unio cg = CMD_SIZE_MAX /\
      c_fd cg = 7 | None => False end | _ => False end) as H2 by (vm_compute; split_and!; reflexivity).
  rewrite E2 in H2. destruct H2 as [Hw Hg]. destruct (t_conns t2 !! 125) as [cg|] eqn:Eg; [|destruct Hg].
  destruct Hg as (Hgs & Hgu & Hfd).
  destruct (Hget (Hhas (or_intror Hw)) 125 cg 5 [0; 100] Eg Hgs Hgu) as (t' & out & Hrun & _ & Hsent & _ & Hid);
    [by repeat constructor|].
  rewrite Hk in Hrun. rewrite Hfd in Hsent. exists t', out. rewrite (run_app _ _ _ _ E2).
  split; [exact Hrun|]. split; [exact Hsent|]. apply Hid. vm_compute. discriminate.
Defined.
