(* ===== verification/ThreadCache.v ===== *)
(** * The size classes a thread counts are the slab allocator (kv_cache.c, thread.c)

    Thread.v keeps of a size class its counters and of the memory the budget;
    KvCache.v models the allocator with its objects in memory.  Here the first is
    shown to follow the second step by step. *)

From S2P Require Import Prelude Words Slab Lists Memory HashTable Kv KvCache.
From S2P Require Import SizeClass Proto Thread ThreadInv ThreadTotal.

(** What a thread knows of a size class. *)
Definition counters (c : kv_cache) : Z * Z * Z * Z :=
  (slab_page c, obj_size c, slab_objects c, free_objects c).

(** The system call that gives the answer [a]. *)
Definition mmap_answer (a : answer) (len : Z) : option Z :=
  match a with Mapped p => if len =? 0 then None else Some p | _ => None end.

(** ** The allocator leaves the counters to its entry points *)

Lemma add_slab_loop_counters n : forall m c slab curr m' c',
  add_slab_loop m c slab curr n = Some (m', c') -> counters c' = counters c.
Proof.
  induction n as [|n IH]; intros m c slab curr m' c' H; cbn in H; [by injection H as _ <-|].
  apply bind_Some in H as (m1 & _ & H). apply bind_Some in H as (soo & _ & H).
  apply IH in H. by rewrite H.
Qed.

Lemma pop_counters m c soo c' : __pop_free_soo m c = Some (soo, c') ->
  counters c' = counters c /\ soo <> 0.
Proof.
  unfold __pop_free_soo. case_guard as Hg; [|done]. cbn. intros (next & _ & H)%bind_Some.
  by injection H as <- <-.
Qed.

Lemma pop_outside_counters m slab fuel : forall c soo c',
  pop_outside m c slab fuel = Some (soo, c') -> counters c' = counters c.
Proof.
  induction fuel as [|fuel IH]; intros c soo c' H; cbn in H; [done|].
  apply bind_Some in H as ([soo1 c1] & Hp & H). apply pop_counters in Hp as [Hc _].
  case_bool_decide; [apply IH in H; congruence|by injection H as _ <-].
Qed.

Lemma clear_slab_loop_counters slab n : forall m c curr m' c',
  clear_slab_loop m c slab curr n = Some (m', c') -> counters c' = counters c.
Proof.
  induction n as [|n IH]; intros m c curr m' c' H; cbn [clear_slab_loop] in H; [by injection H as _ <-|].
  apply bind_Some in H as (fr & _ & H). apply bind_Some in H as ([m1 c1] & H1 & H).
  apply IH in H. rewrite H. destruct fr; [by injection H1 as _ <-|].
  apply bind_Some in H1 as ([soo c2] & Hp & H1). apply bind_Some in H1 as (m2 & _ & H1).
  injection H1 as _ <-. by eapply pop_outside_counters.
Qed.

Lemma drop_leading_counters m slab fuel : forall c c',
  drop_leading m c slab fuel = Some c' -> counters c' = counters c.
Proof.
  induction fuel as [|fuel IH]; intros c c' H; cbn in H; case_bool_decide; try by injection H as <-.
  - done.
  - apply bind_Some in H as ([soo c1] & Hp & H). apply pop_counters in Hp as [Hc _].
    apply IH in H. congruence.
Qed.

Lemma clean_free_list_counters m c slab m' c' :
  __clean_free_list m c slab = Some (m', c') -> counters c' = counters c.
Proof.
  unfold __clean_free_list. intros (c1 & Hd & H)%bind_Some. apply bind_Some in H as (m1 & _ & H).
  injection H as _ <-. by eapply drop_leading_counters.
Qed.

(** ** The steps of a thread *)

Lemma memory_malloc_run t page ptr mm :
  memory_malloc (mmap_answer (hd Again (t_input t))) (t_memory t) page = (ptr, mm) ->
  exists t', thread_memory_malloc page t = Ret ptr t' /\ t_memory t' = mm /\
    kv_cache_list t' = kv_cache_list t.
Proof.
  intros H. unfold thread_memory_malloc, mbind, M_bind, get_t.
  destruct (Z.ltb_spec (free_pages (t_memory t)) page) as [Hp|Hp].
  - unfold memory_malloc in H. rewrite bool_decide_true in H by done. injection H as <- <-. by exists t.
  - unfold pop. destruct (t_input t) as [|a input] eqn:Ein; cbn [hd] in H.
    + exists (set_memory t mm). fold (mmap_answer Again). by rewrite H.
    + exists (set_memory (set_input t input) mm). fold (mmap_answer a). cbn [t_memory set_input].
      by rewrite H.
Qed.

Lemma memory_free_run t ptr page mm :
  memory_free munmap (t_memory t) ptr page = Some mm ->
  thread_memory_free 0 page t = Ret tt (set_memory t mm).
Proof.
  intros Hm. unfold thread_memory_free, mbind, M_bind, get_t, from.
  assert (memory_free munmap (t_memory t) 0 page = Some mm) as ->; [|done]. exact Hm.
Qed.

Lemma get_cache_run i c t : kv_cache_list t !! Z.to_nat i = Some c -> get_cache i t = Ret c t.
Proof. intros Hc. unfold get_cache, mbind, M_bind, get_t, from. by rewrite Hc. Qed.

Lemma put_cache_run i c t :
  put_cache i c t = Ret tt (set_kv_cache_list t (<[Z.to_nat i := c]> (kv_cache_list t))).
Proof. done. Qed.

Lemma counters_eq c c' : counters c = counters c' ->
  slab_page c = slab_page c' /\ obj_size c = obj_size c' /\ slab_objects c = slab_objects c' /\
  free_objects c = free_objects c'.
Proof. unfold counters. intros H. by injection H. Qed.

(** ** Allocating and giving back *)

Lemma cache_malloc_follows t i c0 c m soo m' c' mm
    (Hi : kv_cache_list t !! Z.to_nat i = Some c0) (Hc : counters c0 = counters c)
    (Ha : kv_cache_malloc (mmap_answer (hd Again (t_input t))) m c (t_memory t)
            = Some (soo, m', c', mm)) :
  exists t' c0', cache_malloc i t = Ret (negb (soo =? 0)) t' /\ t_memory t' = mm /\
    kv_cache_list t' = <[Z.to_nat i := c0']> (kv_cache_list t) /\ counters c0' = counters c'.
Proof.
  destruct (counters_eq _ _ Hc) as (Hpg & Hos & Hso & Hfo).
  assert (Z.to_nat i < length (kv_cache_list t))%nat as Hlt by (by eapply lookup_lt_Some).
  unfold kv_cache_malloc in Ha. apply bind_Some in Ha as ([[[ok m1] c1] mm1] & Hadd & Ha).
  assert (exists t1 c2, (if free_objects c0 =? 0 then
      slab ← thread_memory_malloc (slab_page c0);
      match slab with
      | Some _ => put_cache i (set_free c0 (slab_objects c0) (next_free_soo c0));; mret true
      | None => mret false
      end else mret true) t = Ret ok t1 /\ t_memory t1 = mm1 /\
    kv_cache_list t1 = <[Z.to_nat i := c2]> (kv_cache_list t) /\ counters c2 = counters c1)
    as (t1 & c2 & E1 & Hm1 & Hl1 & Hc2).
  { rewrite Hfo. case_bool_decide as Hz.
    - rewrite (proj2 (Z.eqb_eq _ _)) by done. unfold add_slab in Hadd. case_guard; [|done]. cbn in Hadd.
      destruct (memory_malloc _ _ (slab_page c)) as [ptr mm2] eqn:Em.
      destruct (memory_malloc_run t (slab_page c) ptr mm2 Em) as (t1 & E1 & Hm1 & Hl1).
      rewrite Hpg, (bind_step _ _ _ _ _ E1). destruct ptr as [slab|].
      + apply bind_Some in Hadd as ([m3 c3] & Hloop & Hadd). injection Hadd as <- _ <- <-.
        apply add_slab_loop_counters, counters_eq in Hloop as (? & ? & ? & ?).
        eexists _, (set_free c0 (slab_objects c0) (next_free_soo c0)).
        split_and!; [done|exact Hm1|cbn; by rewrite Hl1|].
        unfold counters. cbn. congruence.
      + injection Hadd as <- _ <- <-. exists t1, c0. split_and!; [done|exact Hm1| |done].
        rewrite Hl1. by rewrite list_insert_id.
    - rewrite (proj2 (Z.eqb_neq _ _)) by done. injection Hadd as <- _ <- <-. exists t, c0.
      split_and!; [done|done|by rewrite list_insert_id|done]. }
  unfold cache_malloc. rewrite (bind_step _ _ _ _ _ (get_cache_run i c0 t Hi)).
  rewrite (bind_step _ _ _ _ _ E1). destruct ok.
  - apply bind_Some in Ha as ([soo1 c3] & Hpop & Ha). injection Ha as -> _ -> ->.
    apply pop_counters in Hpop as [Hc3 Hnz]. rewrite (proj2 (Z.eqb_neq _ _)) by done.
    assert (kv_cache_list t1 !! Z.to_nat i = Some c2) as Hi1
      by (rewrite Hl1; by apply list_lookup_insert_eq).
    rewrite (bind_step _ _ _ _ _ (get_cache_run i c2 t1 Hi1)).
    rewrite (bind_step _ _ _ _ _ (put_cache_run _ _ _)).
    eexists _, _. split_and!; [done|exact Hm1|cbn; by rewrite Hl1, list_insert_insert_eq|].
    rewrite Hc3. apply counters_eq in Hc2 as (? & ? & ? & ?). unfold counters. cbn. congruence.
  - injection Ha as <- _ <- <-. exists t1, c2. by split_and!.
Qed.

Lemma cache_free_follows t i c0 c m soo m' c' mm
    (Hi : kv_cache_list t !! Z.to_nat i = Some c0) (Hc : counters c0 = counters c)
    (Ha : kv_cache_free munmap m c soo (t_memory t) = Some (m', c', mm)) :
  exists t' c0', cache_free i t = Ret tt t' /\ t_memory t' = mm /\
    kv_cache_list t' = <[Z.to_nat i := c0']> (kv_cache_list t) /\ counters c0' = counters c'.
Proof.
  destruct (counters_eq _ _ Hc) as (Hpg & Hos & Hso & Hfo).
  unfold kv_cache_free in Ha. apply bind_Some in Ha as (m1 & _ & Ha).
  unfold cache_free. rewrite (bind_step _ _ _ _ _ (get_cache_run i c0 t Hi)). cbv zeta.
  cbn [slab_objects free_objects set_free slab_page] in *. rewrite Hso, Hfo.
  set (n1 := u16 (free_objects c + 1)) in *. case_bool_decide as Hfull.
  - rewrite (proj2 (Z.leb_le _ _)) by done. unfold reclaim_slab in Ha.
    apply bind_Some in Ha as ([soo1 c1] & Hpop & Ha). apply pop_counters in Hpop as [Hc1 _].
    apply bind_Some in Ha as ([m2 c2] & Hcl & Ha). apply clear_slab_loop_counters in Hcl.
    apply bind_Some in Ha as ([m3 c3] & Hcf & Ha). apply clean_free_list_counters in Hcf.
    rewrite Hcl, Hc1 in Hcf. apply counters_eq in Hcf as (E1 & E2 & E3 & E4). cbn in E1, E2, E3, E4.
    apply bind_Some in Ha as (mm1 & Hmm & Ha). case_guard as Hg; [|done]. injection Ha as _ <- <-.
    rewrite E1, <-Hpg in Hmm. erewrite bind_step by (eapply memory_free_run; exact Hmm).
    rewrite (bind_step _ _ _ tt (set_memory t mm1)) by (apply assert_run; congruence).
    rewrite put_cache_run. eexists _, _. split_and!; [done..|]. unfold counters. cbn. congruence.
  - rewrite (proj2 (Z.leb_gt _ _)) by lia. injection Ha as _ <- <-. rewrite put_cache_run.
    eexists _, _. split_and!; [done..|]. unfold counters. cbn. congruence.
Qed.

(** The last size class of an empty thread, with nothing mapped. *)
Definition one_class : list answer -> thread := fun input =>
  {| t_memory := memory_init 8; s_lru_size := 0; s_lru := []; m_lru := [];
     t_hash := sample_table; clock_probation := []; clock_death := []; kv_cache_list := [cache0];
     conn_pool := []; t_conns := ∅; t_kvs := ∅; next_kv := THREAD_MAX_CONN; warmed_up := false;
     t_input := input; t_output := [] |}.

(** The class with one object handed out. *)
Definition filled : option (Z * mem * kv_cache * memory) :=
  kv_cache_malloc (mmap_answer (Mapped 65536)) ∅ cache0 (memory_init 8).

(** ** Properties *)

(** What a thread counts of a size class is what the slab allocator does.
    Where the allocator returns an object, or fails, the thread's view of the
    allocation succeeds, or fails; giving an object back changes both alike, also
    when the allocator empties a slab by migrating its live objects and returns the
    pages.  Both end with the same free objects of the class and the same pages left
    in the budget. *)
Theorem cache_classes_refine t i c0 c m soo
    (Hi : kv_cache_list t !! Z.to_nat i = Some c0) (Hc : counters c0 = counters c) :
  (forall r m' c' mm,
     kv_cache_malloc (mmap_answer (hd Again (t_input t))) m c (t_memory t) = Some (r, m', c', mm) ->
     exists t' c0', cache_malloc i t = Ret (negb (r =? 0)) t' /\ t_memory t' = mm /\
       kv_cache_list t' = <[Z.to_nat i := c0']> (kv_cache_list t) /\ counters c0' = counters c') /\
  (forall m' c' mm,
     kv_cache_free munmap m c soo (t_memory t) = Some (m', c', mm) ->
     exists t' c0', cache_free i t = Ret tt t' /\ t_memory t' = mm /\
       kv_cache_list t' = <[Z.to_nat i := c0']> (kv_cache_list t) /\ counters c0' = counters c').
Proof.
  split; intros; [by eapply cache_malloc_follows|by eapply cache_free_follows].
Qed.

Lemma cache_classes_refine_witness :
  exists soo m c mm m' c' mm' t1 t2, filled = Some (soo, m, c, mm) /\
    cache_malloc 0 (one_class [Mapped 65536]) = Ret (negb (soo =? 0)) t1 /\ t_memory t1 = mm /\
    kv_cache_free munmap m c soo mm = Some (m', c', mm') /\
    cache_free 0 (set_kv_cache_list (set_memory (one_class []) mm) [c]) = Ret tt t2 /\
    t_memory t2 = mm'.
Proof.
  assert (match filled with
    | Some (soo, m, c, mm) => match kv_cache_free munmap m c soo mm with Some _ => true | None => false end
    | None => false end = true) as Hf by (vm_compute; reflexivity).
  destruct filled as [[[[soo m] c] mm]|] eqn:Hm; [|discriminate Hf].
  destruct (kv_cache_free munmap m c soo mm) as [[[m' c'] mm']|] eqn:Hr; [|discriminate Hf].
  destruct (cache_classes_refine (one_class [Mapped 65536]) 0 cache0 cache0 ∅ 0) as [H1 _];
    [reflexivity|reflexivity|].
  destruct (cache_classes_refine (set_kv_cache_list (set_memory (one_class []) mm) [c]) 0 c c m soo)
    as [_ H2]; [reflexivity|reflexivity|].
  destruct (H1 soo m c mm Hm) as (t1 & _ & E1 & Hm1 & _). destruct (H2 m' c' mm' Hr) as (t2 & _ & E2 & Hm2 & _).
  exists soo, m, c, mm, m', c', mm', t1, t2. split; [reflexivity|]. split; [exact E1|].
  split; [exact Hm1|]. split; [exact Hr|]. split; [exact E2|exact Hm2].
Defined.
