(* ===== verification/Service.v ===== *)
(** * The single-machine service (service.c, socket.c, epoll.h)

    The main thread listens, accepts clients and reads the eight bytes of their
    connect request; the last four say which cache thread the client wants, and
    the socket is handed to that thread.  While the request is being read the
    connection is a [struct service_conn]: four bytes of [fd], four bytes of
    [buffer].  The request is read over both: [fd] is saved and restored around
    every read, and until the last byte has arrived the byte it will occupy
    counts the bytes still missing.

    The world of the main thread is its heap of connections, the sockets it
    has open, its epoll instance and the TLS sessions; [w_log] records what
    happened to sockets, the latest first.  Operations run in the option monad:
    [None] is a failed assertion, an access to a freed connection, a
    [close] of a socket that is not open, or a TLS session released twice.
    Answers of the system are arguments; an answer the call cannot get counts
    as a failure.  [tls] says whether the build has [CONFIG_KERNEL_TLS]. *)

From S2P Require Import Prelude Slab Memory HashTable Kv KvCache SizeClass Tls Proto Thread ThreadInv ThreadRun.

Module Service.

Definition CONFIG_THREAD_NR : Z := 4.

(** ** The world of the main thread *)

(** [sc_session] is [session.session != NULL]. *)
Record service_conn := {
  sc_fd : Z;
  sc_buffer : list Z;
  sc_session : bool
}.

Definition set_fd (c : service_conn) (x : Z) : service_conn :=
  {| sc_fd := x; sc_buffer := sc_buffer c; sc_session := sc_session c |}.
Definition set_buffer (c : service_conn) (x : list Z) : service_conn :=
  {| sc_fd := sc_fd c; sc_buffer := x; sc_session := sc_session c |}.
Definition set_session (c : service_conn) (x : bool) : service_conn :=
  {| sc_fd := sc_fd c; sc_buffer := sc_buffer c; sc_session := x |}.

(** What happened to a socket: [Dispatched id data] is its registration with the
    epoll instance of thread [id] under [data]. *)
Inductive action :=
  | Opened (fd : Z)
  | Closed (fd : Z)
  | Dispatched (id data : Z).

#[global] Instance action_eq_dec : EqDecision action.
Proof. solve_decision. Defined.

Record world := {
  w_conns : gmap Z service_conn;
  w_epoll : gmap Z Z;
  w_open : gset Z;
  w_sessions : gset Z;
  w_listen : option Z;
  w_log : list action
}.

Definition set_conns (w : world) (x : gmap Z service_conn) : world :=
  {| w_conns := x; w_epoll := w_epoll w; w_open := w_open w; w_sessions := w_sessions w;
     w_listen := w_listen w; w_log := w_log w |}.
Definition set_epoll (w : world) (x : gmap Z Z) : world :=
  {| w_conns := w_conns w; w_epoll := x; w_open := w_open w; w_sessions := w_sessions w;
     w_listen := w_listen w; w_log := w_log w |}.
Definition set_sessions (w : world) (x : gset Z) : world :=
  {| w_conns := w_conns w; w_epoll := w_epoll w; w_open := w_open w; w_sessions := x;
     w_listen := w_listen w; w_log := w_log w |}.
Definition set_listen (w : world) (x : option Z) : world :=
  {| w_conns := w_conns w; w_epoll := w_epoll w; w_open := w_open w; w_sessions := w_sessions w;
     w_listen := x; w_log := w_log w |}.
Definition set_open (w : world) (x : gset Z) (l : list action) : world :=
  {| w_conns := w_conns w; w_epoll := w_epoll w; w_open := x; w_sessions := w_sessions w;
     w_listen := w_listen w; w_log := l |}.

(** ** Sockets and epoll *)

(** The number a new descriptor can get. *)
Definition fresh (fd : Z) (w : world) : bool := bool_decide (0 <= fd < 2 ^ 31 /\ fd ∉ w_open w).

Definition open_fd (fd : Z) (w : world) : world :=
  set_open w ({[fd]} ∪ w_open w) (Opened fd :: w_log w).

(** Closing a socket takes it out of the epoll instance. *)
Definition close (fd : Z) (w : world) : option world :=
  guard (fd ∈ w_open w);;
  Some (set_epoll (set_open w (w_open w ∖ {[fd]}) (Closed fd :: w_log w)) (delete fd (w_epoll w))).

Definition __epoll_add (fd data : Z) (ok : bool) (w : world) : bool * world :=
  if ok then (true, set_epoll w (<[fd := data]> (w_epoll w))) else (false, w).

Definition epoll_add_in := __epoll_add.

Definition epoll_del (fd : Z) (w : world) : option world :=
  guard (is_Some (w_epoll w !! fd));;
  Some (set_epoll w (delete fd (w_epoll w))).

(** The answers to [listen_port]: the socket, and whether each of the options,
    [bind], [listen] and the registration succeeded. *)
Record listen_answer := { l_fd : option Z; l_setup : list bool; l_add : bool }.

Definition listen_port (a : listen_answer) (event_data : Z) (w : world) : option (option Z * world) :=
  match l_fd a with
  | None => Some (None, w)
  | Some fd =>
      if negb (fresh fd w) then Some (None, w) else
      let w := open_fd fd w in
      if forallb id (l_setup a) then
        let '(added, w) := epoll_add_in fd event_data (l_add a) w in
        if added then Some (Some fd, w) else w ← close fd w; Some (None, w)
      else w ← close fd w; Some (None, w)
  end.

(** The session inside the connection at [p] is released. *)
Definition session_deinit (p : Z) (w : world) : option world :=
  live ← tls_deinit p (w_sessions w); Some (set_sessions w live).

(** ** Connections that have not said their thread yet *)

Section build.
Context (tls : bool).

Definition EPOLL_EVENTS : Z := if tls then Z.lor EPOLLIN EPOLLOUT else EPOLLIN.

(** What [accept2] and the calls after it answer: the socket, the address
    [malloc] gives (0 for NULL), [raw] the bytes of the fresh [buffer]. *)
Record accept_answer := {
  a_fd : Z;
  a_malloc : Z;
  a_raw : list Z;
  a_tls : tls_answer;
  a_add : bool
}.

Definition malloc (a : accept_answer) (w : world) : option Z :=
  if bool_decide (0 < a_malloc a /\ w_conns w !! a_malloc a = None /\ length (a_raw a) = 4%nat)
  then Some (a_malloc a) else None.

Definition service_conn_malloc (a : accept_answer) (fd : Z) (w : world) : option (option Z * world) :=
  match malloc a w with
  | None => Some (None, w)
  | Some p =>
      let conn := {| sc_fd := fd; sc_buffer := <[3%nat := 8]> (a_raw a); sc_session := tls |} in
      if tls then
        '(ok, live) ← tls_init_server (a_tls a) p (w_sessions w);
        let w := set_sessions w live in
        if (ok : bool) then Some (Some p, set_conns w (<[p := conn]> (w_conns w)))
        else Some (None, w)
      else Some (Some p, set_conns w (<[p := conn]> (w_conns w)))
  end.

Definition free (p : Z) (w : world) : option world :=
  guard (is_Some (w_conns w !! p));;
  Some (set_conns w (delete p (w_conns w))).

Definition service_conn_free (p : Z) (w : world) : option world :=
  conn ← w_conns w !! p;
  w ← close (sc_fd conn) w;
  w ← (if sc_session conn then session_deinit p w else Some w);
  free p w.

(** The struct as it lies in memory, and a write of [bs] at the offset [o]. *)
Definition conn_bytes (c : service_conn) : list Z := le_split 4 (sc_fd c) ++ sc_buffer c.
Definition conn_write (o : nat) (bs : list Z) (c : service_conn) : service_conn :=
  let b := fill o bs (conn_bytes c) in
  set_buffer (set_fd c (get 0 4 b)) (drop 4 b).

(** [Read bs]: the bytes that have arrived, of which [read] takes as many as
    it was asked for; none is the end of the stream. *)
Inductive read_answer :=
  | Read (bs : list Z)
  | EWOULDBLOCK
  | Read_error.

Definition service_conn_full_read_connect_in (p : Z) (a : read_answer) (w : world)
    : option (bool * world) :=
  conn ← w_conns w !! p;
  unread ← sc_buffer conn !! 3%nat;
  guard (0 < unread);;
  match a with
  | Read bs =>
      let bs := take (Z.to_nat unread) bs in
      let n := Z.of_nat (length bs) in
      let conn := set_fd (conn_write (Z.to_nat (8 - unread)) bs conn) (sc_fd conn) in
      let w := set_conns w (<[p := conn]> (w_conns w)) in
      if 0 <? n then
        guard (n <= unread);;
        if unread =? n then Some (true, w)
        else
          last ← sc_buffer conn !! 3%nat;
          let conn := set_buffer conn (<[3%nat := u8 (last - n)]> (sc_buffer conn)) in
          Some (false, set_conns w (<[p := conn]> (w_conns w)))
      else w ← service_conn_free p w; Some (false, w)
  | EWOULDBLOCK => Some (false, w)
  | Read_error => w ← service_conn_free p w; Some (false, w)
  end.

Definition handshake (p : Z) (a : handshake_answer) (w : world) : option (bool * world) :=
  conn ← w_conns w !! p;
  if sc_session conn then
    ret ← tls_handshake a p (w_sessions w);
    match ret with
    | GNUTLS_E_SUCCESS _ =>
        w ← session_deinit p w;
        Some (true, set_conns w (<[p := set_session conn false]> (w_conns w)))
    | GNUTLS_E_AGAIN _ => Some (false, w)
    | GNUTLS_E_OTHER => w ← service_conn_free p w; Some (false, w)
    end
  else Some (true, w).

(** The data a socket is registered with at a cache thread. *)
Definition dispatch_data (fd : Z) : Z := u64 (Z.lor (Z.shiftl fd 32) 1).

Definition thread_dispatch (id fd : Z) (ok : bool) (w : world) : option world :=
  guard (0 <= id < CONFIG_THREAD_NR);;
  if ok then
    guard (fd ∈ w_open w);;
    Some (set_open w (w_open w ∖ {[fd]}) (Dispatched id (dispatch_data fd) :: w_log w))
  else close fd w.

(** The answers to the calls made for one event of a connection. *)
Record conn_answer := { ca_handshake : handshake_answer; ca_read : read_answer; ca_dispatch : bool }.

Definition read_thread_info (p : Z) (a : conn_answer) (w : world) : option world :=
  '(secured, w) ← (if tls then handshake p (ca_handshake a) w else Some (true, w));
  if (secured : bool) then
    '(full, w) ← service_conn_full_read_connect_in p (ca_read a) w;
    if (full : bool) then
      conn ← w_conns w !! p;
      let thread_id := get 0 4 (sc_buffer conn) in
      if CONFIG_THREAD_NR <=? thread_id then service_conn_free p w
      else
        w ← epoll_del (sc_fd conn) w;
        w ← thread_dispatch thread_id (sc_fd conn) (ca_dispatch a) w;
        guard (sc_session conn = false);;
        free p w
    else Some w
  else Some w.

(** The answers to the calls of [accept_new_conn]: clients, then [again], that
    the last failure was [EWOULDBLOCK]. *)
Fixpoint accept_new_conn (l : list accept_answer) (again : bool) (w : world)
    : option (bool * world) :=
  match l with
  | [] => Some (again, w)
  | a :: l =>
      if negb (fresh (a_fd a) w) then Some (false, w) else
      '(conn, w) ← service_conn_malloc a (a_fd a) (open_fd (a_fd a) w);
      match conn with
      | None => w ← close (a_fd a) w; accept_new_conn l again w
      | Some p =>
          let '(added, w) := __epoll_add (a_fd a) p (a_add a) w in
          if added then accept_new_conn l again w
          else w ← service_conn_free p w; accept_new_conn l again w
      end
  end.

(** ** The event loop *)

(** An event [epoll_wait] reports, by its [data.ptr], with the answers to the
    calls its handler makes. *)
Inductive event :=
  | Ev_client (p : Z) (events : Z) (a : conn_answer)
  | Ev_listen (l : list accept_answer) (again : bool).

Definition handle (e : event) (w : world) : option world :=
  match e with
  | Ev_client p events a =>
      if negb (Z.land events (Z.lnot EPOLL_EVENTS) =? 0) then service_conn_free p w
      else read_thread_info p a w
  | Ev_listen l again =>
      fd ← w_listen w;
      '(ok, w) ← accept_new_conn l again w;
      if (ok : bool) then Some w
      else w ← close fd w; Some (set_listen w None)
  end.

Fixpoint handle_all (l : list event) (w : world) : option world :=
  match l with [] => Some w | e :: l => w ← handle e w; handle_all l w end.

(** The part of an iteration of the loop before [epoll_wait], then the rest. *)
Definition relisten (a : listen_answer) (w : world) : option world :=
  match w_listen w with
  | None => '(fd, w) ← listen_port a 0 w; Some (set_listen w fd)
  | Some _ => Some w
  end.

Definition iteration (a : listen_answer) (events : list event) (w : world) : option world :=
  w ← relisten a w; handle_all events w.

(** ** The start *)

(** The answers to the calls that start a cache thread. *)
Record start := {
  st_caches : list kv_cache;
  st_epfd : bool;
  st_timerfd : option Z;
  st_settime : bool;
  st_add : bool;
  st_mmap : Z -> option Z;
  st_pthread : bool
}.

Definition clock_data (timerfd : Z) : Z := u64 (Z.lor (Z.shiftl timerfd 32) 2).

(** The data the timer is registered with; the sockets closed. *)
Definition thread_create_clock_service (a : start) : option Z * list Z :=
  match st_timerfd a with
  | None => (None, [])
  | Some timerfd =>
      if st_settime a then
        if st_add a then (Some (clock_data timerfd), []) else (None, [timerfd])
      else (None, [timerfd])
  end.

Definition thread_run (a : start) : option (option thread) :=
  let clock := bool_decide (is_Some (fst (thread_create_clock_service a))) in
  t ← thread_init (st_caches a) (st_epfd a) clock (st_mmap a);
  Some (if st_pthread a then t else None).

Fixpoint threads_run_loop (n : nat) (l : list start) : option (option (list thread)) :=
  match n, l with
  | O, _ => Some (Some [])
  | S _, [] => Some None
  | S n, a :: l =>
      t ← thread_run a;
      match t with
      | None => Some None
      | Some t =>
          ts ← threads_run_loop n l;
          Some (match ts with Some ts => Some (t :: ts) | None => None end)
      end
  end.

Definition threads_run (l : list start) : option (option (list thread)) :=
  threads_run_loop (Z.to_nat CONFIG_THREAD_NR) l.

(** [must_service_run] up to its loop; the result is [Some None] where [must]
    aborts the program. *)
Definition must_service_start (epfd : bool) (a : listen_answer) (l : list start)
    : option (option (world * list thread)) :=
  let w := {| w_conns := ∅; w_epoll := ∅; w_open := ∅; w_sessions := ∅; w_listen := None;
              w_log := [] |} in
  if epfd then
    '(fd, w) ← listen_port a 0 w;
    match fd with
    | None => Some None
    | Some fd =>
        ts ← threads_run l;
        Some (match ts with Some ts => Some (set_listen w (Some fd), ts) | None => None end)
    end
  else Some None.

End build.

(** ** Events at a cache thread *)

(** Which event of Thread.v the [data] of an epoll event stands for, where the
    array [__conns] lies at [conns] and a connection has [size] bytes. *)
Definition decode_event (conns size : Z) (data events : Z) (raw : list Z) : epoll_event :=
  if negb (Z.land data 1 =? 0) then Ev_accept (Z.shiftr data 32) raw
  else if negb (Z.land data 2 =? 0) then Ev_clock
  else Ev_conn ((data - conns) / size) events.

(** ** Reading a request in pieces *)

(** The connection after [got] has arrived. *)
Definition byte (b : Z) : Prop := 0 <= b < 256.

Record received (got : list Z) (c : service_conn) : Prop := {
  r_bytes : Forall byte got;
  r_short : (length got < 8)%nat;
  r_length : length (sc_buffer c) = 4%nat;
  r_unread : sc_buffer c !! 3%nat = Some (8 - Z.of_nat (length got));
  r_stored : take (length got - 4) (sc_buffer c) = drop 4 got
}.

Lemma length_conn_bytes c : length (conn_bytes c) = (4 + length (sc_buffer c))%nat.
Proof. unfold conn_bytes. by rewrite length_app, length_le_split. Qed.

(** A write over the struct changes [buffer] as a write to the part of it
    that lies behind [fd]. *)
Lemma conn_write_buffer o bs c :
  (o + length bs <= 4 + length (sc_buffer c))%nat ->
  sc_buffer (conn_write o bs c) =
    take (o - 4) (sc_buffer c) ++ drop (4 - o) bs ++ drop (o + length bs - 4) (sc_buffer c).
Proof.
  intros Ho. unfold conn_write, fill. cbn [sc_buffer set_buffer].
  rewrite !drop_app, drop_drop, !length_take, length_conn_bytes.
  unfold conn_bytes. rewrite ?drop_app, ?length_le_split.
  rewrite (drop_ge (le_split 4 (sc_fd c)))
    by (rewrite length_le_split; lia).
  cbn [app].
  f_equal; [|f_equal].
  - rewrite take_app, length_le_split, drop_app, length_take, length_le_split.
    rewrite (drop_ge (take _ (le_split _ _))) by (rewrite length_take, length_le_split; lia).
    cbn [app]. destruct (decide (4 <= o)%nat).
    + by replace (4 - Nat.min o 4)%nat with 0%nat by lia.
    + replace (o - 4)%nat with 0%nat by lia. by rewrite !take_0, drop_nil.
  - f_equal. lia.
  - f_equal. lia.
Qed.

Lemma buffer_received got bs c :
  received got c -> (length got + length bs <= 8)%nat ->
  sc_buffer (conn_write (length got) bs c) =
    drop 4 (got ++ bs) ++ drop (length (got ++ bs) - 4) (sc_buffer c).
Proof.
  intros [_ Hs Hl _ Hst] Hb. rewrite conn_write_buffer by lia.
  by rewrite Hst, drop_app, length_app, app_assoc.
Qed.

Lemma received_full got bs c :
  received got c -> (length got + length bs = 8)%nat ->
  sc_buffer (conn_write (length got) bs c) = drop 4 (got ++ bs).
Proof.
  intros Hr Hb. rewrite buffer_received by (done || lia).
  rewrite (drop_ge (sc_buffer c)), app_nil_r; [done|].
  rewrite length_app, (r_length _ _ Hr). lia.
Qed.

(** The byte that counts is out of reach of a read that is not the last. *)
Lemma received_more got bs c :
  received got c -> Forall byte bs -> (length got + length bs < 8)%nat ->
  let b := sc_buffer (conn_write (length got) bs c) in
  b !! 3%nat = Some (8 - Z.of_nat (length got)) /\
  forall c', sc_buffer c' = <[3%nat := 8 - Z.of_nat (length (got ++ bs))]> b ->
    received (got ++ bs) c'.
Proof.
  intros Hr Hbs Hb b. subst b. rewrite buffer_received by (done || lia).
  pose proof Hr as [Hg Hs Hl Hu Hst].
  set (n := length (got ++ bs)).
  assert (n = length got + length bs)%nat as Hn by apply length_app.
  assert (length (drop 4 (got ++ bs)) = n - 4)%nat as Hd by (rewrite length_drop; lia).
  assert (length (drop (n - 4) (sc_buffer c)) = 4 - (n - 4))%nat as Hd' by (rewrite length_drop; lia).
  split.
  - rewrite lookup_app_r, lookup_drop, Hd by lia.
    by replace (n - 4 + (3 - (n - 4)))%nat with 3%nat by lia.
  - intros c' Hc'. split; rewrite ?Hc'; fold n.
    + by apply Forall_app.
    + lia.
    + rewrite length_insert, length_app. lia.
    + apply list_lookup_insert_eq. rewrite length_app. lia.
    + rewrite take_insert_ge by lia. by rewrite take_app_length' by lia.
Qed.

Definition renewed (c c' : service_conn) : Prop :=
  sc_fd c' = sc_fd c /\ sc_session c' = sc_session c.

Lemma full_read_partial p w c got bs :
  w_conns w !! p = Some c -> received got c -> Forall byte bs -> bs <> [] ->
  (length got + length bs < 8)%nat ->
  exists c', service_conn_full_read_connect_in p (Read bs) w =
      Some (false, set_conns w (<[p := c']> (w_conns w))) /\
    renewed c c' /\ received (got ++ bs) c'.
Proof.
  intros Hp Hr Hbs Hne Hl. unfold service_conn_full_read_connect_in.
  rewrite Hp. cbn [mbind option_bind]. rewrite (r_unread _ _ Hr). cbn [mbind option_bind].
  rewrite option_guard_True by lia. cbn [mbind option_bind].
  set (u := 8 - Z.of_nat (length got)).
  replace (Z.to_nat (8 - u)) with (length got) by lia.
  rewrite (take_ge bs) by lia.
  assert (0 < length bs)%nat by (destruct bs; cbn; [done|lia]).
  rewrite (proj2 (Z.ltb_lt _ _)) by lia. rewrite option_guard_True by lia.
  cbn [mbind option_bind]. rewrite (proj2 (Z.eqb_neq _ _)) by lia.
  destruct (received_more got bs c Hr Hbs Hl) as [Hu Hm].
  cbn [sc_buffer set_fd]. rewrite Hu. cbn [mbind option_bind w_conns set_conns].
  eexists. split.
  { f_equal. f_equal. unfold set_conns. cbn [w_conns w_epoll w_open w_sessions w_listen w_log].
    f_equal. by rewrite insert_insert_eq. }
  split; [done|]. apply Hm. cbn [sc_buffer set_buffer]. f_equal.
  rewrite wrap_small by (change (2 ^ 8) with 256; lia). rewrite length_app. lia.
Qed.

Lemma full_read_last p w c got bs :
  w_conns w !! p = Some c -> received got c ->
  (8 <= length got + length bs)%nat ->
  exists c', service_conn_full_read_connect_in p (Read bs) w =
      Some (true, set_conns w (<[p := c']> (w_conns w))) /\
    renewed c c' /\ sc_buffer c' = drop 4 (got ++ take (8 - length got) bs).
Proof.
  intros Hp Hr Hl. pose proof (r_short _ _ Hr). unfold service_conn_full_read_connect_in.
  rewrite Hp. cbn [mbind option_bind]. rewrite (r_unread _ _ Hr). cbn [mbind option_bind].
  rewrite option_guard_True by lia. cbn [mbind option_bind].
  set (u := 8 - Z.of_nat (length got)).
  replace (Z.to_nat (8 - u)) with (length got) by lia.
  replace (Z.to_nat u) with (8 - length got)%nat by lia.
  rewrite (proj2 (Z.ltb_lt _ _)) by (rewrite length_take; lia).
  rewrite option_guard_True by (rewrite length_take; lia).
  cbn [mbind option_bind]. rewrite (proj2 (Z.eqb_eq _ _)) by (rewrite length_take; lia).
  eexists. split; [done|]. split; [done|]. cbn [sc_buffer set_fd].
  apply received_full; [done|]. rewrite length_take. lia.
Qed.

(** ** The invariant *)

Section proofs.
Context (tls : bool).

(** What the log says of [fd]: the times it was opened less the times it was
    closed or given to a cache thread. *)
Definition weight (fd : Z) (a : action) : Z :=
  match a with
  | Opened fd' => if decide (fd' = fd) then 1 else 0
  | Closed fd' => if decide (fd' = fd) then -1 else 0
  | Dispatched _ data => if decide (Z.shiftr data 32 = fd) then -1 else 0
  end.
Definition balance (fd : Z) (l : list action) : Z := foldr (fun a x => weight fd a + x) 0 l.

Record inv (w : world) : Prop := {
  i_conn : forall p c, w_conns w !! p = Some c ->
    0 < p /\ (exists got, received got c) /\ w_epoll w !! sc_fd c = Some p /\
    (tls = false -> sc_session c = false);
  i_listen : forall fd, w_listen w = Some fd -> w_epoll w !! fd = Some 0;
  i_epoll : forall fd p, w_epoll w !! fd = Some p ->
    (p = 0 /\ w_listen w = Some fd) \/ (exists c, w_conns w !! p = Some c /\ sc_fd c = fd);
  i_open : forall fd, fd ∈ w_open w <-> is_Some (w_epoll w !! fd);
  i_range : forall fd, fd ∈ w_open w -> 0 <= fd < 2 ^ 31;
  i_sessions : forall p, p ∈ w_sessions w <->
    exists c, w_conns w !! p = Some c /\ sc_session c = true;
  i_log : forall fd, balance fd (w_log w) = if decide (fd ∈ w_open w) then 1 else 0
}.

Lemma dispatch_data_fd fd : 0 <= fd < 2 ^ 31 -> Z.shiftr (dispatch_data fd) 32 = fd.
Proof.
  intros Hfd. unfold dispatch_data.
  rewrite Z.shiftl_mul_pow2 by lia.
  rewrite (lor_disjoint_add _ _ 32) by (rewrite ?Z.mod_mul; lia).
  rewrite wrap_small, Z.shiftr_div_pow2 by lia.
  rewrite Z.div_add_l by lia. change (1 / 2 ^ 32) with 0. lia.
Qed.

Lemma decode_dispatched conns size fd ev raw :
  0 <= fd < 2 ^ 31 -> decode_event conns size (dispatch_data fd) ev raw = Ev_accept fd raw.
Proof.
  intros Hfd. unfold decode_event. rewrite dispatch_data_fd by done.
  assert (Z.land (dispatch_data fd) 1 = 1) as ->; [|done].
  unfold dispatch_data. rewrite Z.shiftl_mul_pow2 by lia.
  rewrite (lor_disjoint_add _ _ 32) by (rewrite ?Z.mod_mul; lia).
  rewrite wrap_small by lia. rewrite (land_mask _ 1 ltac:(lia)).
  change (2 ^ 32) with (2 ^ 31 * 2). rewrite Z.mul_assoc, Z.add_comm, Z.mod_add by lia. done.
Qed.

(** ** The changes an event makes *)

(** [conn->...] assigned. *)
Definition update (p : Z) (c : service_conn) (w : world) : world :=
  set_conns w (<[p := c]> (w_conns w)).

(** The connection is gone, its socket closed or given away. *)
Definition leave (p : Z) (c : service_conn) (a : action) (w : world) : world :=
  {| w_conns := delete p (w_conns w); w_epoll := delete (sc_fd c) (w_epoll w);
     w_open := w_open w ∖ {[sc_fd c]}; w_sessions := w_sessions w ∖ {[p]};
     w_listen := w_listen w; w_log := a :: w_log w |}.

(** A new connection, registered. *)
Definition enter (p : Z) (c : service_conn) (w : world) : world :=
  {| w_conns := <[p := c]> (w_conns w); w_epoll := <[sc_fd c := p]> (w_epoll w);
     w_open := {[sc_fd c]} ∪ w_open w;
     w_sessions := if sc_session c then {[p]} ∪ w_sessions w else w_sessions w;
     w_listen := w_listen w; w_log := Opened (sc_fd c) :: w_log w |}.

Ltac w_simpl := cbn [w_conns w_epoll w_open w_sessions w_listen w_log update leave enter
  set_conns set_epoll set_open set_sessions set_listen open_fd sc_fd sc_buffer sc_session
  set_fd set_buffer set_session] in *.

Lemma inv_update p c c' w :
  inv w -> w_conns w !! p = Some c -> renewed c c' -> (exists got, received got c') ->
  inv (update p c' w).
Proof.
  intros Hi Hp [Hf Hs] Hr. destruct (i_conn _ Hi _ _ Hp) as (Hp0 & _ & He & Ht).
  split; w_simpl; try apply Hi.
  - intros q d [[<- <-]|[Hne Hq]]%lookup_insert_Some; [|by apply (i_conn _ Hi)].
    rewrite Hf, Hs. done.
  - intros fd q Hq. destruct (i_epoll _ Hi _ _ Hq) as [?|(d & Hd & <-)]; [by left|right].
    destruct (decide (q = p)) as [->|]; [|exists d; by rewrite lookup_insert_ne].
    exists c'. rewrite lookup_insert_eq. split; [done|]. by simplify_eq.
  - intros q. rewrite (i_sessions _ Hi). destruct (decide (q = p)) as [->|].
    + rewrite lookup_insert_eq. split; intros (d & ? & ?); simplify_eq; eauto.
      all: eexists; split; [done|]; congruence.
    + by rewrite lookup_insert_ne.
Qed.

Definition departure (fd : Z) (a : action) : Prop :=
  a = Closed fd \/ exists id, a = Dispatched id (dispatch_data fd).

Lemma weight_departure fd fd' a :
  0 <= fd < 2 ^ 31 -> departure fd a -> weight fd' a = if decide (fd' = fd) then -1 else 0.
Proof.
  intros Hr [->|(id & ->)]; cbn [weight]; rewrite ?dispatch_data_fd by done;
    repeat case_decide; congruence.
Qed.

Lemma same_conn w p q c d :
  inv w -> w_conns w !! p = Some c -> w_conns w !! q = Some d -> sc_fd c = sc_fd d -> p = q.
Proof.
  intros Hi Hp Hq Hf. destruct (i_conn _ Hi _ _ Hp) as (_ & _ & He & _).
  destruct (i_conn _ Hi _ _ Hq) as (_ & _ & He' & _). congruence.
Qed.

Lemma conn_open w p c : inv w -> w_conns w !! p = Some c -> sc_fd c ∈ w_open w.
Proof.
  intros Hi Hp. apply (i_open _ Hi). destruct (i_conn _ Hi _ _ Hp) as (_ & _ & -> & _). done.
Qed.

Lemma inv_leave p c a w :
  inv w -> w_conns w !! p = Some c -> departure (sc_fd c) a -> inv (leave p c a w).
Proof.
  intros Hi Hp Ha. pose proof (conn_open _ _ _ Hi Hp) as Ho.
  destruct (i_conn _ Hi _ _ Hp) as (Hp0 & _ & He & _).
  split; w_simpl.
  - intros q d [Hne Hq]%lookup_delete_Some.
    destruct (i_conn _ Hi _ _ Hq) as (? & ? & Hd & ?). repeat split; try done.
    rewrite lookup_delete_ne; [done|]. intros E. by destruct Hne, (same_conn w p q c d).
  - intros fd Hl%(i_listen _ Hi). rewrite lookup_delete_ne; [done|]. intros <-.
    rewrite He in Hl. simplify_eq. lia.
  - intros fd q [Hne Hq]%lookup_delete_Some.
    destruct (i_epoll _ Hi _ _ Hq) as [?|(d & Hd & <-)]; [by left|right].
    exists d. rewrite lookup_delete_ne; [done|]. intros ->. congruence.
  - intros fd. rewrite elem_of_difference, elem_of_singleton, (i_open _ Hi).
    destruct (decide (fd = sc_fd c)) as [->|].
    + rewrite lookup_delete_eq. split; [naive_solver|by intros []].
    + rewrite lookup_delete_ne by done. naive_solver.
  - intros fd [? _]%elem_of_difference. by apply Hi.
  - intros q. rewrite elem_of_difference, elem_of_singleton, (i_sessions _ Hi).
    setoid_rewrite lookup_delete_Some. naive_solver.
  - intros fd. cbn [balance foldr]. fold (balance fd (w_log w)).
    rewrite (weight_departure (sc_fd c)), (i_log _ Hi) by (done || by apply Hi).
    destruct (decide (fd = sc_fd c)) as [->|].
    + rewrite decide_True, decide_False by set_solver. done.
    + repeat case_decide; set_solver.
Qed.

Lemma fresh_spec fd w : fresh fd w = true -> 0 <= fd < 2 ^ 31 /\ fd ∉ w_open w.
Proof. unfold fresh. by intros ?%bool_decide_eq_true. Qed.

Lemma fresh_epoll fd w : inv w -> fresh fd w = true -> w_epoll w !! fd = None.
Proof.
  intros Hi [_ Hf]%fresh_spec. rewrite (i_open _ Hi) in Hf. by apply eq_None_not_Some.
Qed.

Lemma inv_enter p c w :
  inv w -> fresh (sc_fd c) w = true -> w_conns w !! p = None -> 0 < p -> received [] c ->
  (tls = false -> sc_session c = false) -> inv (enter p c w).
Proof.
  intros Hi Hf Hp Hp0 Hr Ht. pose proof (fresh_epoll _ _ Hi Hf) as He.
  pose proof (fresh_spec _ _ Hf) as [Hr' Hn].
  split; w_simpl.
  - intros q d [[<- <-]|[Hne Hq]]%lookup_insert_Some.
    + rewrite lookup_insert_eq. eauto.
    + destruct (i_conn _ Hi _ _ Hq) as (? & ? & Hd & ?). repeat split; try done.
      rewrite lookup_insert_ne; [done|congruence].
  - intros fd Hl%(i_listen _ Hi). rewrite lookup_insert_ne; [done|congruence].
  - intros fd q [[<- <-]|[Hne Hq]]%lookup_insert_Some.
    + right. exists c. by rewrite lookup_insert_eq.
    + destruct (i_epoll _ Hi _ _ Hq) as [?|(d & Hd & <-)]; [by left|right].
      exists d. rewrite lookup_insert_ne; [done|congruence].
  - intros fd. rewrite elem_of_union, elem_of_singleton, (i_open _ Hi).
    rewrite lookup_insert_is_Some. destruct (decide (fd = sc_fd c)); naive_solver.
  - intros fd [->%elem_of_singleton|?]%elem_of_union; [done|]. by apply Hi.
  - intros q. destruct (decide (q = p)) as [->|].
    + rewrite lookup_insert_eq. assert (p ∉ w_sessions w).
      { rewrite (i_sessions _ Hi). intros (? & ? & _). congruence. }
      destruct (sc_session c) eqn:Es; [set_solver|]. split; [done|].
      intros (? & ? & ?). congruence.
    + rewrite lookup_insert_ne by done. rewrite <-(i_sessions _ Hi).
      destruct (sc_session c); set_solver.
  - intros fd. cbn [balance foldr weight]. fold (balance fd (w_log w)). rewrite (i_log _ Hi).
    repeat case_decide; set_solver.
Qed.

Lemma close_run fd w : fd ∈ w_open w ->
  close fd w = Some (set_epoll (set_open w (w_open w ∖ {[fd]}) (Closed fd :: w_log w))
                       (delete fd (w_epoll w))).
Proof. intros. unfold close. by rewrite option_guard_True. Qed.

Lemma service_conn_free_eq p c w :
  w_conns w !! p = Some c -> sc_fd c ∈ w_open w -> (p ∈ w_sessions w <-> sc_session c = true) ->
  service_conn_free p w = Some (leave p c (Closed (sc_fd c)) w).
Proof.
  intros Hp Ho Hse. unfold service_conn_free. rewrite Hp. cbn [mbind option_bind].
  rewrite close_run by done. cbn [mbind option_bind]. w_simpl.
  destruct (sc_session c) eqn:Es.
  - unfold session_deinit. rewrite tls_deinit_live by (w_simpl; tauto).
    cbn [mbind option_bind]. unfold free. w_simpl. rewrite Hp. by rewrite option_guard_True.
  - cbn [mbind option_bind]. unfold free. w_simpl. rewrite Hp.
    rewrite option_guard_True by done. cbn [mbind option_bind].
    unfold leave, set_conns. w_simpl. do 2 f_equal. apply leibniz_equiv.
    rewrite difference_disjoint; [done|]. apply disjoint_singleton_r. rewrite Hse. done.
Qed.

Lemma session_live p c w :
  inv w -> w_conns w !! p = Some c -> p ∈ w_sessions w <-> sc_session c = true.
Proof.
  intros Hi Hp. rewrite (i_sessions _ Hi). split; [intros (? & ? & ?); congruence|eauto].
Qed.

Lemma leave_updated p c c' a w : renewed c c' -> leave p c' a (update p c' w) = leave p c a w.
Proof. intros [Hf _]. unfold leave. w_simpl. by rewrite delete_insert_eq, Hf. Qed.

(** Freeing a connection whose bytes have changed since the invariant held. *)
Lemma service_conn_free_run p c c' w :
  inv w -> w_conns w !! p = Some c -> renewed c c' ->
  service_conn_free p (update p c' w) = Some (leave p c (Closed (sc_fd c)) w).
Proof.
  intros Hi Hp Hn. pose proof Hn as [Hf Hs]. rewrite (service_conn_free_eq p c'); w_simpl.
  - by rewrite (leave_updated p c), Hf.
  - apply lookup_insert_eq.
  - rewrite Hf. by apply (conn_open _ p).
  - rewrite Hs. by apply session_live.
Qed.

Lemma update_same p c w : w_conns w !! p = Some c -> update p c w = w.
Proof.
  intros Hp. unfold update, set_conns. rewrite insert_id by done. by destruct w.
Qed.

Lemma service_conn_free_live p c w :
  inv w -> w_conns w !! p = Some c ->
  service_conn_free p w = Some (leave p c (Closed (sc_fd c)) w).
Proof.
  intros Hi Hp. rewrite <-(service_conn_free_run p c c w) by done. by rewrite update_same.
Qed.

(** A client that could not be taken: its socket was opened and closed. *)
Definition passed (fd : Z) (w : world) : world :=
  set_open w (w_open w) (Closed fd :: Opened fd :: w_log w).

Lemma inv_passed fd w : inv w -> inv (passed fd w).
Proof.
  intros Hi. split; w_simpl; try apply Hi. intros fd'. cbn [passed set_open w_log w_open balance foldr weight].
  fold (balance fd' (w_log w)). rewrite (i_log _ Hi). repeat case_decide; lia.
Qed.

Lemma close_new fd w :
  inv w -> fresh fd w = true -> close fd (open_fd fd w) = Some (passed fd w).
Proof.
  intros Hi Hf. pose proof (fresh_epoll _ _ Hi Hf). apply fresh_spec in Hf as [_ Hf].
  rewrite close_run by (w_simpl; set_solver). f_equal. unfold passed, set_epoll, set_open. w_simpl.
  f_equal; [by rewrite delete_id|]. apply leibniz_equiv. set_solver.
Qed.

(** ** Accepting *)

Definition accepted (a : accept_answer) : service_conn :=
  {| sc_fd := a_fd a; sc_buffer := <[3%nat := 8]> (a_raw a); sc_session := tls |}.

Lemma malloc_spec a w p : malloc a w = Some p ->
  p = a_malloc a /\ 0 < p /\ w_conns w !! p = None /\ length (a_raw a) = 4%nat.
Proof. unfold malloc. case_bool_decide; [|done]. intros. simplify_eq. tauto. Qed.

Lemma received_accepted a : length (a_raw a) = 4%nat -> received [] (accepted a).
Proof.
  intros Hl. split; cbn [accepted sc_buffer].
  - constructor.
  - cbn. lia.
  - by rewrite length_insert.
  - rewrite list_lookup_insert_eq by lia. done.
  - done.
Qed.

Lemma no_session p w : inv w -> w_conns w !! p = None -> p ∉ w_sessions w.
Proof. intros Hi Hp. rewrite (i_sessions _ Hi). intros (? & ? & _). congruence. Qed.

Lemma service_conn_malloc_run a w :
  inv w ->
  let w1 := open_fd (a_fd a) w in
  service_conn_malloc tls a (a_fd a) w1 = Some (None, w1) \/
  (0 < a_malloc a /\ w_conns w !! a_malloc a = None /\ received [] (accepted a) /\
   service_conn_malloc tls a (a_fd a) w1 = Some (Some (a_malloc a),
     set_conns (set_sessions w1 (if tls then {[a_malloc a]} ∪ w_sessions w else w_sessions w))
       (<[a_malloc a := accepted a]> (w_conns w)))).
Proof.
  intros Hi w1. unfold service_conn_malloc.
  destruct (malloc a w1) as [p|] eqn:Hm; [|by left].
  apply malloc_spec in Hm as (-> & Hp & Hn & Hl). pose proof (received_accepted a Hl).
  subst w1. w_simpl. pose proof (no_session _ _ Hi Hn).
  unfold accepted in *. destruct tls; [|right; split_and!; by try done].
  rewrite tls_init_server_eq by done. cbn [mbind option_bind].
  destruct (granted (a_tls a)); [by right|by left].
Qed.

Lemma accept_step a l again w :
  inv w -> fresh (a_fd a) w = true ->
  exists w', accept_new_conn tls (a :: l) again w = accept_new_conn tls l again w' /\
    (w' = passed (a_fd a) w \/
     (w_conns w !! a_malloc a = None /\ w' = enter (a_malloc a) (accepted a) w)) /\ inv w'.
Proof.
  intros Hi Hf. cbn [accept_new_conn]. rewrite Hf. cbn [negb].
  destruct (service_conn_malloc_run a w Hi) as [->|(Hp & Hn & Hr & ->)]; cbn [mbind option_bind].
  { rewrite close_new by done. cbn [mbind option_bind]. eexists. split; [done|].
    split; [by left|by apply inv_passed]. }
  set (w1 := set_conns _ _). unfold __epoll_add. destruct (a_add a).
  - exists (enter (a_malloc a) (accepted a) w). split; [|split; [by right|]].
    + done.
    + apply inv_enter; try done.
  - exists (passed (a_fd a) w). split; [|split; [by left|by apply inv_passed]].
    pose proof (no_session _ _ Hi Hn) as Hs. pose proof (fresh_epoll _ _ Hi Hf) as He.
    apply fresh_spec in Hf as [_ Hf].
    rewrite (service_conn_free_eq _ (accepted a)); subst w1; w_simpl.
    + cbn [mbind option_bind]. f_equal. unfold leave, passed, set_open. w_simpl.
      cbn [accepted sc_fd]. f_equal; [by rewrite delete_insert_id|by rewrite delete_id|..];
        apply leibniz_equiv; destruct tls; set_solver.
    + apply lookup_insert_eq.
    + cbn [accepted sc_fd]. set_solver.
    + cbn [accepted sc_session]. destruct tls; set_solver.
Qed.

(** ** The request of a client *)

(** What becomes of a client that asked for the thread [id]. *)
Definition verdict (fd id : Z) (ok : bool) : action :=
  if (id <? CONFIG_THREAD_NR) && ok then Dispatched id (dispatch_data fd) else Closed fd.

Lemma verdict_departure fd id ok : departure fd (verdict fd id ok).
Proof. unfold verdict, departure. destruct (_ && _); eauto. Qed.

Lemma byte_combine_range l : Forall byte l -> 0 <= le_combine l < 2 ^ (8 * Z.of_nat (length l)).
Proof.
  induction 1 as [|b l Hb _ IH]; [done|]. cbn [le_combine length]. unfold byte in Hb.
  replace (8 * Z.of_nat (S (length l))) with (8 + 8 * Z.of_nat (length l)) by lia.
  rewrite Z.pow_add_r by lia. change (2 ^ 8) with 256. lia.
Qed.

(** Once there is no TLS session the handler is that of the build without. *)
Lemma read_thread_info_secured p c a w :
  w_conns w !! p = Some c -> sc_session c = false ->
  read_thread_info tls p a w = read_thread_info false p a w.
Proof.
  intros Hp Hs. unfold read_thread_info. destruct tls; [|done].
  unfold handshake. rewrite Hp. cbn [mbind option_bind]. by rewrite Hs.
Qed.

Lemma dispatch_run p c c' id ok w :
  inv w -> w_conns w !! p = Some c -> renewed c c' -> 0 <= id < CONFIG_THREAD_NR ->
  sc_session c = false ->
  (w1 ← epoll_del (sc_fd c) (update p c' w);
   w2 ← thread_dispatch id (sc_fd c) ok w1;
   guard (sc_session c' = false);; free p w2) = Some (leave p c (verdict (sc_fd c) id ok) w).
Proof.
  intros Hi Hp [Hf Hs'] Hid Hs. pose proof (conn_open _ _ _ Hi Hp) as Ho.
  destruct (i_conn _ Hi _ _ Hp) as (_ & _ & He & _).
  assert (w_sessions w ∖ {[p]} = w_sessions w) as Hse.
  { apply leibniz_equiv. rewrite difference_disjoint; [done|].
    apply disjoint_singleton_r. rewrite (session_live _ _ _ Hi Hp). congruence. }
  unfold epoll_del. w_simpl. rewrite option_guard_True by (by rewrite He).
  cbn [mbind option_bind]. unfold thread_dispatch. rewrite option_guard_True by done.
  cbn [mbind option_bind]. unfold verdict. rewrite (proj2 (Z.ltb_lt _ _)) by lia.
  unfold leave. rewrite Hse. destruct ok; cbn [andb].
  - rewrite option_guard_True by (by w_simpl). cbn [mbind option_bind].
    rewrite option_guard_True by congruence. cbn [mbind option_bind]. unfold free. w_simpl.
    rewrite lookup_insert_eq, option_guard_True by done. cbn [mbind option_bind].
    unfold set_conns. w_simpl. by rewrite delete_insert_eq.
  - rewrite close_run by (by w_simpl). cbn [mbind option_bind].
    rewrite option_guard_True by congruence. cbn [mbind option_bind]. unfold free. w_simpl.
    rewrite lookup_insert_eq, option_guard_True by done. cbn [mbind option_bind].
    unfold set_conns. w_simpl. rewrite delete_insert_eq. do 2 f_equal. by rewrite delete_delete_eq.
Qed.

(** The last bytes of the request decide. *)
Lemma read_full p c a w got bs :
  inv w -> w_conns w !! p = Some c -> sc_session c = false -> received got c ->
  ca_read a = Read bs -> Forall byte bs -> (8 <= length got + length bs)%nat ->
  let req := got ++ take (8 - length got) bs in
  read_thread_info tls p a w =
    Some (leave p c (verdict (sc_fd c) (get 4 4 req) (ca_dispatch a)) w).
Proof.
  intros Hi Hp Hs Hr Ha Hb Hl req.
  rewrite (read_thread_info_secured p c) by done. unfold read_thread_info.
  cbn [mbind option_bind]. rewrite Ha.
  destruct (full_read_last p w c got bs Hp Hr Hl) as (c' & -> & Hn & Hbuf).
  cbn [mbind option_bind]. w_simpl. rewrite lookup_insert_eq. cbn [mbind option_bind].
  assert (get 0 4 (sc_buffer c') = get 4 4 req) as ->.
  { rewrite Hbuf. fold req. unfold get, field. by rewrite drop_0. }
  assert (0 <= get 4 4 req) as Hid.
  { unfold get, field. apply byte_combine_range. apply Forall_take, Forall_drop, Forall_app.
    split; [apply Hr|by apply Forall_take]. }
  destruct (CONFIG_THREAD_NR <=? get 4 4 req) eqn:El.
  - change (set_conns w _) with (update p c' w). rewrite (service_conn_free_run p c) by done.
    unfold verdict. by rewrite (proj2 (Z.ltb_ge _ _)) by lia.
  - pose proof Hn as [Hf _]. rewrite Hf. apply dispatch_run; try done. lia.
Qed.

Lemma read_partial p c a w got bs :
  inv w -> w_conns w !! p = Some c -> sc_session c = false -> received got c ->
  ca_read a = Read bs -> Forall byte bs -> bs <> [] -> (length got + length bs < 8)%nat ->
  exists c', read_thread_info tls p a w = Some (update p c' w) /\ renewed c c' /\
    received (got ++ bs) c'.
Proof.
  intros Hi Hp Hs Hr Ha Hb Hne Hl. rewrite (read_thread_info_secured p c) by done.
  unfold read_thread_info. cbn [mbind option_bind]. rewrite Ha.
  destruct (full_read_partial p w c got bs Hp Hr Hb Hne Hl) as (c' & -> & Hn & Hr').
  by exists c'.
Qed.

Lemma full_read_again p c w got :
  w_conns w !! p = Some c -> received got c ->
  service_conn_full_read_connect_in p EWOULDBLOCK w = Some (false, w).
Proof.
  intros Hp Hr. unfold service_conn_full_read_connect_in. rewrite Hp. cbn [mbind option_bind].
  rewrite (r_unread _ _ Hr). cbn [mbind option_bind]. pose proof (r_short _ _ Hr).
  by rewrite option_guard_True by lia.
Qed.

(** The client closed its end, or the socket failed. *)
Lemma full_read_gone p c a w got :
  inv w -> w_conns w !! p = Some c -> received got c -> a = Read [] \/ a = Read_error ->
  service_conn_full_read_connect_in p a w = Some (false, leave p c (Closed (sc_fd c)) w).
Proof.
  intros Hi Hp Hr Ha. unfold service_conn_full_read_connect_in. rewrite Hp.
  cbn [mbind option_bind]. rewrite (r_unread _ _ Hr). cbn [mbind option_bind].
  pose proof (r_short _ _ Hr). rewrite option_guard_True by lia. cbn [mbind option_bind].
  destruct Ha as [-> | ->]; [|by rewrite (service_conn_free_live p c)].
  rewrite take_nil. cbn [length Z.of_nat Z.ltb Z.compare].
  change (set_conns w (<[p := ?x]> (w_conns w))) with (update p x w).
  by rewrite (service_conn_free_run p c).
Qed.

Lemma read_again p c a w got :
  w_conns w !! p = Some c -> sc_session c = false -> received got c ->
  ca_read a = EWOULDBLOCK -> read_thread_info tls p a w = Some w.
Proof.
  intros Hp Hs Hr Ha. rewrite (read_thread_info_secured p c) by done.
  unfold read_thread_info. cbn [mbind option_bind]. by rewrite Ha, (full_read_again p c w got).
Qed.

Lemma read_gone p c a w got :
  inv w -> w_conns w !! p = Some c -> sc_session c = false -> received got c ->
  ca_read a = Read [] \/ ca_read a = Read_error ->
  read_thread_info tls p a w = Some (leave p c (Closed (sc_fd c)) w).
Proof.
  intros Hi Hp Hs Hr Ha. rewrite (read_thread_info_secured p c) by done.
  unfold read_thread_info. cbn [mbind option_bind]. by rewrite (full_read_gone p c _ w got).
Qed.

(** ** Every event leaves the main thread in order *)

(** What [read] stores are bytes. *)
Definition answer_ok (a : conn_answer) : Prop :=
  match ca_read a with Read bs => Forall byte bs | _ => True end.

Definition ev_ptr (e : event) : Z := match e with Ev_client p _ _ => p | Ev_listen _ _ => 0 end.
Definition event_ok (e : event) : Prop :=
  match e with Ev_client p _ a => p <> 0 /\ answer_ok a | Ev_listen _ _ => True end.

(** What [epoll_wait] may report: [data] of a registered socket. *)
Definition reported (w : world) (e : event) : Prop :=
  event_ok e /\ exists fd, w_epoll w !! fd = Some (ev_ptr e).

(** The kernel does not take over the connection although its handshake is
    done: the answer on which the assertion of [tls_handshake] fails. *)
Definition no_ktls (a : conn_answer) : bool :=
  match ca_handshake a with GNUTLS_E_SUCCESS false => true | _ => false end.
Definition ktls_missing (w : world) (e : event) : bool :=
  match e with
  | Ev_client p events a =>
      (Z.land events (Z.lnot (EPOLL_EVENTS tls)) =? 0) && no_ktls a &&
      match w_conns w !! p with Some c => sc_session c | None => false end
  | Ev_listen _ _ => false
  end.

Lemma no_ktls_false a : no_ktls a = false <-> ca_handshake a <> GNUTLS_E_SUCCESS false.
Proof. unfold no_ktls. by destruct (ca_handshake a) as [[]| |]. Qed.

(** The registrations of everything but [p], and their connections, stay. *)
Definition spared (p : Z) (w w' : world) : Prop :=
  (forall q fd, q <> p -> w_epoll w !! fd = Some q -> w_epoll w' !! fd = Some q) /\
  (forall q c, q <> p -> w_conns w !! q = Some c -> w_conns w' !! q = Some c).

Lemma spared_trans p w1 w2 w3 : spared p w1 w2 -> spared p w2 w3 -> spared p w1 w3.
Proof. unfold spared. naive_solver. Qed.
Lemma spared_refl p w : spared p w w.
Proof. done. Qed.

Lemma spared_update p c w : spared p w (update p c w).
Proof. split; [done|]. intros. w_simpl. by rewrite lookup_insert_ne. Qed.

Lemma spared_leave p c a w : inv w -> w_conns w !! p = Some c -> spared p w (leave p c a w).
Proof.
  intros Hi Hp. destruct (i_conn _ Hi _ _ Hp) as (_ & _ & He & _).
  split; intros; w_simpl; by rewrite lookup_delete_ne by congruence.
Qed.

(** The handshake is over. *)
Definition secured (p : Z) (c : service_conn) (w : world) : world :=
  update p (set_session c false) (set_sessions w (w_sessions w ∖ {[p]})).

Lemma received_buffer got c c' : sc_buffer c' = sc_buffer c -> received got c -> received got c'.
Proof. intros Hb [????]. split; by rewrite ?Hb. Qed.

Lemma inv_secured p c w : inv w -> w_conns w !! p = Some c -> inv (secured p c w).
Proof.
  intros Hi Hp. destruct (i_conn _ Hi _ _ Hp) as (Hp0 & (got & Hr) & He & Ht).
  split; unfold secured; w_simpl; try apply Hi.
  - intros q d [[<- <-]|[Hne Hq]]%lookup_insert_Some; [|by apply (i_conn _ Hi)].
    split_and!; try done. exists got. by apply (received_buffer _ c).
  - intros fd q Hq. destruct (i_epoll _ Hi _ _ Hq) as [?|(d & Hd & <-)]; [by left|right].
    destruct (decide (q = p)) as [->|]; [|exists d; by rewrite lookup_insert_ne].
    eexists. rewrite lookup_insert_eq. split; [done|]. by simplify_eq.
  - intros q. rewrite elem_of_difference, elem_of_singleton, (i_sessions _ Hi).
    setoid_rewrite lookup_insert_Some. naive_solver.
Qed.

Lemma spared_secured p c w : spared p w (secured p c w).
Proof. split; [done|]. intros. unfold secured. w_simpl. by rewrite lookup_insert_ne. Qed.

(** A client's event in terms of the three things it can do. *)
Lemma handshake_run p c a w :
  inv w -> w_conns w !! p = Some c -> sc_session c = true -> a <> GNUTLS_E_SUCCESS false ->
  handshake p a w = match a with
    | GNUTLS_E_SUCCESS _ => Some (true, secured p c w)
    | GNUTLS_E_AGAIN _ => Some (false, w)
    | GNUTLS_E_OTHER => Some (false, leave p c (Closed (sc_fd c)) w)
    end.
Proof.
  intros Hi Hp Hs Ha. unfold handshake. rewrite Hp. cbn [mbind option_bind]. rewrite Hs.
  assert (p ∈ w_sessions w) as Hlive by (by apply (session_live p c)).
  rewrite tls_handshake_live by done. cbn [mbind option_bind]. destruct a as [?|?|].
  - unfold session_deinit. by rewrite tls_deinit_live.
  - done.
  - by rewrite (service_conn_free_live p c).
Qed.

Definition orderly (p : Z) (w : world) (r : option world) : Prop :=
  exists w', r = Some w' /\ inv w' /\ w_listen w' = w_listen w /\ spared p w w'.

Lemma read_orderly p c a w :
  inv w -> w_conns w !! p = Some c -> sc_session c = false -> answer_ok a ->
  orderly p w (read_thread_info tls p a w).
Proof.
  intros Hi Hp Hs Ha. destruct (i_conn _ Hi _ _ Hp) as (_ & (got & Hr) & _).
  assert (forall act, departure (sc_fd c) act -> orderly p w (Some (leave p c act w))) as Hl.
  { intros act Hd. eexists. split_and!; [done|by apply inv_leave|done|by apply spared_leave]. }
  unfold answer_ok in Ha. destruct (ca_read a) as [bs| |] eqn:Er.
  - destruct (decide (bs = [])) as [->|].
    { rewrite (read_gone p c a w got) by auto. apply Hl. by left. }
    destruct (decide (length got + length bs < 8)%nat).
    + destruct (read_partial p c a w got bs) as (c' & -> & Hn & Hr'); try done.
      eexists. split_and!; [done|by eapply inv_update; eauto|done|apply spared_update].
    + rewrite (read_full p c a w got bs) by (done || lia). apply Hl, verdict_departure.
  - rewrite (read_again p c a w got) by done. by exists w.
  - rewrite (read_gone p c a w got) by auto. apply Hl. by left.
Qed.

(** A finished handshake is followed by a read in the same event. *)
Lemma read_thread_info_handshake p c a w :
  inv w -> w_conns w !! p = Some c -> sc_session c = true ->
  ca_handshake a <> GNUTLS_E_SUCCESS false ->
  read_thread_info tls p a w = match ca_handshake a with
    | GNUTLS_E_SUCCESS _ => read_thread_info tls p a (secured p c w)
    | GNUTLS_E_AGAIN _ => Some w
    | GNUTLS_E_OTHER => Some (leave p c (Closed (sc_fd c)) w)
    end.
Proof.
  intros Hi Hp Hs Ha. destruct (i_conn _ Hi _ _ Hp) as (_ & _ & _ & Ht).
  rewrite (read_thread_info_secured p (set_session c false) a (secured p c w));
    [|apply lookup_insert_eq|done].
  unfold read_thread_info. destruct tls; [|rewrite Ht in Hs; done].
  rewrite (handshake_run p c) by done. by destruct (ca_handshake a).
Qed.

Lemma info_orderly p c a w :
  inv w -> w_conns w !! p = Some c -> answer_ok a -> no_ktls a && sc_session c = false ->
  orderly p w (read_thread_info tls p a w).
Proof.
  intros Hi Hp Ha Hk. destruct (sc_session c) eqn:Hs; [|by eapply read_orderly].
  rewrite andb_true_r in Hk. apply no_ktls_false in Hk. rewrite (read_thread_info_handshake p c) by done.
  destruct (ca_handshake a) as [d| |].
  - destruct (read_orderly p (set_session c false) a (secured p c w)) as (w' & ? & ? & Hl & Hs');
      [by apply inv_secured|apply lookup_insert_eq|done|done|].
    exists w'. split_and!; [done|done|by rewrite Hl|]. eapply spared_trans; [|done].
    apply spared_secured.
  - by exists w.
  - eexists. split_and!; [done|apply inv_leave; by try left|done|by apply spared_leave].
Qed.

Lemma spared_enter p q c w :
  inv w -> fresh (sc_fd c) w = true -> w_conns w !! p = None -> spared q w (enter p c w).
Proof.
  intros Hi Hf Hp. pose proof (fresh_epoll _ _ Hi Hf).
  split; intros; w_simpl; by rewrite lookup_insert_ne by congruence.
Qed.

Lemma accept_orderly p l again w :
  inv w -> exists ok w', accept_new_conn tls l again w = Some (ok, w') /\ inv w' /\
    w_listen w' = w_listen w /\ spared p w w'.
Proof.
  revert w. induction l as [|a l IH]; intros w Hi; [by exists again, w|].
  destruct (fresh (a_fd a) w) eqn:Hf.
  2: { exists false, w. cbn [accept_new_conn]. by rewrite Hf. }
  destruct (accept_step a l again w Hi Hf) as (w1 & -> & Hw1 & Hi1).
  destruct (IH w1 Hi1) as (ok & w' & -> & Hi' & Hl & Hs). exists ok, w'. split_and!; try done.
  - rewrite Hl. by destruct Hw1 as [->|[_ ->]].
  - eapply spared_trans; [|done]. destruct Hw1 as [->|[Hn ->]]; [done|].
    by apply spared_enter.
Qed.

(** The listening socket is closed. *)
Definition unlisten (fd : Z) (w : world) : world :=
  set_listen (set_epoll (set_open w (w_open w ∖ {[fd]}) (Closed fd :: w_log w))
                (delete fd (w_epoll w))) None.

Lemma inv_unlisten fd w : inv w -> w_listen w = Some fd -> inv (unlisten fd w).
Proof.
  intros Hi Hl. pose proof (i_listen _ Hi _ Hl) as He. unfold unlisten. split; w_simpl.
  - intros q d Hq. destruct (i_conn _ Hi _ _ Hq) as (? & ? & Hd & ?). split_and!; try done.
    rewrite lookup_delete_ne; [done|]. intros ->. rewrite Hd in He. simplify_eq. lia.
  - done.
  - intros f q [Hne Hq]%lookup_delete_Some. right.
    destruct (i_epoll _ Hi _ _ Hq) as [[_ ?]|?]; [congruence|done].
  - intros f. rewrite elem_of_difference, elem_of_singleton, (i_open _ Hi).
    destruct (decide (f = fd)) as [->|].
    + rewrite lookup_delete_eq. split; [naive_solver|by intros []].
    + rewrite lookup_delete_ne by done. naive_solver.
  - intros f [? _]%elem_of_difference. by apply Hi.
  - apply Hi.
  - intros f. cbn [balance foldr weight]. fold (balance f (w_log w)). rewrite (i_log _ Hi).
    assert (fd ∈ w_open w) by (apply (i_open _ Hi); by rewrite He).
    repeat case_decide; set_solver.
Qed.

(** The assertion fails. *)
Lemma handle_ktls e w : inv w -> ktls_missing w e = true -> handle tls e w = None.
Proof.
  intros Hi. destruct e as [p events a|l again]; [|done]. cbn [handle ktls_missing].
  destruct (w_conns w !! p) as [c|] eqn:Hp; [|by rewrite andb_false_r].
  rewrite !andb_true_iff. intros [[-> Hk] Hs]. cbn [negb]. unfold read_thread_info, handshake.
  destruct (i_conn _ Hi _ _ Hp) as (_ & _ & _ & Ht).
  destruct tls; [|by rewrite Ht in Hs]. rewrite Hp. cbn [mbind option_bind]. rewrite Hs.
  unfold no_ktls in Hk. destruct (ca_handshake a) as [[]| |]; try done.
  destruct (tls_handshake _ p _) eqn:E; [|done]. by apply tls_handshake_Some in E as (_ & _ & []).
Qed.

Lemma handle_ok e w :
  inv w -> reported w e -> ktls_missing w e = false -> exists w', handle tls e w = Some w' /\ inv w' /\
    spared (ev_ptr e) w w' /\ (ev_ptr e <> 0 -> w_listen w' = w_listen w).
Proof.
  intros Hi [He (fd & Hfd)] Hk.
  destruct e as [p events a|l again]; cbn [handle ev_ptr event_ok ktls_missing] in *.
  - destruct He as [Hp0 Ha].
    destruct (i_epoll _ Hi _ _ Hfd) as [[? _]|(c & Hp & _)]; [done|]. rewrite Hp in Hk.
    destruct (_ =? 0); cbn [negb andb] in *.
    2: { rewrite (service_conn_free_live p c) by done. eexists.
      split_and!; [done|apply inv_leave; by try left|by apply spared_leave|done]. }
    destruct (info_orderly p c a w) as (w' & -> & ? & ? & ?); try done. by exists w'.
  - destruct (i_epoll _ Hi _ _ Hfd) as [[_ Hl]|(c & Hp & _)].
    2: { destruct (i_conn _ Hi _ _ Hp). lia. }
    rewrite Hl. cbn [mbind option_bind].
    destruct (accept_orderly 0 l again w Hi) as (ok & w' & -> & Hi' & Hl' & Hs).
    rewrite Hl in Hl'. cbn [mbind option_bind]. destruct ok; [by exists w'|].
    pose proof (i_listen _ Hi' _ Hl') as He'.
    rewrite close_run by (apply (i_open _ Hi'); by rewrite He').
    exists (unlisten fd w'). split_and!; [done|by apply inv_unlisten| |done].
    eapply spared_trans; [done|]. split; [|done]. intros q f Hq Hf. unfold unlisten. w_simpl.
    by rewrite lookup_delete_ne by congruence.
Qed.

(** An event that was handled did not meet it. *)
Lemma handled e w w' :
  inv w -> reported w e -> handle tls e w = Some w' ->
  inv w' /\ spared (ev_ptr e) w w' /\ (ev_ptr e <> 0 -> w_listen w' = w_listen w).
Proof.
  intros Hi Hr E. destruct (ktls_missing w e) eqn:Hk; [by rewrite handle_ktls in E|].
  destruct (handle_ok e w Hi Hr Hk) as (w2 & E2 & ?). rewrite E in E2. by injection E2 as ->.
Qed.

(** ** Runs of the main thread *)

(** Events handled one after another, each reported when it is handled, with
    the socket renewed at any time in between. *)
Inductive serves : world -> list event -> world -> Prop :=
  | serves_nil w : serves w [] w
  | serves_event w e l w1 w' :
      reported w e -> handle tls e w = Some w1 -> serves w1 l w' -> serves w (e :: l) w'
  | serves_listen w a l w1 w' : relisten a w = Some w1 -> serves w1 l w' -> serves w l w'.

Definition reachable (w : world) : Prop :=
  exists epfd a l w0 ts evs, must_service_start epfd a l = Some (Some (w0, ts)) /\ serves w0 evs w.

(** What one [epoll_wait] reports: no socket twice. *)
Definition batch (w : world) (l : list event) : Prop :=
  Forall (reported w) l /\ NoDup (ev_ptr <$> l).

Definition listened (fd : Z) (w : world) : world :=
  set_listen (set_epoll (open_fd fd w) (<[fd := 0]> (w_epoll w))) (Some fd).

Lemma inv_listened fd w :
  inv w -> w_listen w = None -> fresh fd w = true -> inv (listened fd w).
Proof.
  intros Hi Hl Hf. pose proof (fresh_epoll _ _ Hi Hf) as He.
  pose proof (fresh_spec _ _ Hf) as [Hr Hn]. unfold listened. split; w_simpl.
  - intros q d Hq. destruct (i_conn _ Hi _ _ Hq) as (? & ? & Hd & ?). split_and!; try done.
    rewrite lookup_insert_ne; [done|congruence].
  - intros f [= <-]. apply lookup_insert_eq.
  - intros f q [[<- <-]|[Hne Hq]]%lookup_insert_Some; [by left|].
    destruct (i_epoll _ Hi _ _ Hq) as [[_ ?]|?]; [congruence|by right].
  - intros f. rewrite elem_of_union, elem_of_singleton, (i_open _ Hi), lookup_insert_is_Some.
    destruct (decide (f = fd)); naive_solver.
  - intros f [->%elem_of_singleton|?]%elem_of_union; [done|]. by apply Hi.
  - apply Hi.
  - intros f. cbn [balance foldr weight]. fold (balance f (w_log w)). rewrite (i_log _ Hi).
    repeat case_decide; set_solver.
Qed.

Lemma listen_run a w :
  inv w -> w_listen w = None ->
  exists fd w', listen_port a 0 w = Some (fd, w') /\ inv (set_listen w' fd) /\
    w_conns w' = w_conns w /\ w_listen w' = None.
Proof.
  intros Hi Hl. unfold listen_port.
  assert (inv (set_listen w None)) as Hi' by (by rewrite <-Hl; destruct w).
  destruct (l_fd a) as [fd|]; [|by exists None, w].
  destruct (fresh fd w) eqn:Hf; cbn [negb]; [|by exists None, w].
  assert (forall r, r = close fd (open_fd fd w) -> exists fd' w',
    (x ← r; Some (None, x)) = Some (fd', w') /\ inv (set_listen w' fd') /\
    w_conns w' = w_conns w /\ w_listen w' = None) as Hc.
  { intros r ->. rewrite close_new by done. exists None, (passed fd w). split_and!; [done| |done|done].
    apply (inv_passed fd) in Hi'. by unfold passed, set_listen, set_open in *. }
  destruct (forallb id (l_setup a)); [|by apply Hc].
  unfold epoll_add_in, __epoll_add. destruct (l_add a); [|by apply Hc].
  eexists _, _. split; [done|]. split; [by apply (inv_listened fd w)|done].
Qed.

Lemma relisten_ok a w :
  inv w -> exists w', relisten a w = Some w' /\ inv w' /\ w_conns w' = w_conns w.
Proof.
  intros Hi. unfold relisten. destruct (w_listen w) eqn:Hl; [by exists w|].
  destruct (listen_run a w Hi Hl) as (fd & w' & -> & Hi' & Hc & _). cbn [mbind option_bind].
  by exists (set_listen w' fd).
Qed.

Lemma start_inv epfd a l w ts : must_service_start epfd a l = Some (Some (w, ts)) -> inv w.
Proof.
  unfold must_service_start. set (w0 := Build_world ∅ ∅ ∅ ∅ None []).
  assert (inv w0) as Hi.
  { split; subst w0; w_simpl; try done.
    - intros f. rewrite lookup_empty. split; [set_solver|by intros []].
    - intros p. split; [set_solver|]. intros (? & ? & ?). done. }
  destruct epfd; [|done]. destruct (listen_run a w0 Hi eq_refl) as (fd & w' & -> & Hi' & _).
  cbn [mbind option_bind]. destruct fd as [fd|]; [|done].
  destruct (threads_run l) as [[ts'|]|]; cbn [mbind option_bind]; [|done..]. by intros [= <- _].
Qed.

Lemma serves_inv w l w' : serves w l w' -> inv w -> inv w'.
Proof.
  induction 1 as [w|w e l w1 w' Hr He _ IH|w a l w1 w' He _ IH]; intros Hi; [done|apply IH..].
  - by apply (handled e w).
  - destruct (relisten_ok a w Hi) as (w2 & He' & ? & _). congruence.
Qed.

Lemma service_inv w : reachable w -> inv w.
Proof. intros (? & ? & ? & ? & ? & ? & Hs & Hr). eauto using serves_inv, start_inv. Qed.

(** The other events of a batch are as they were after one is handled. *)
Lemma batch_spared e l w w1 :
  inv w -> batch w (e :: l) -> spared (ev_ptr e) w w1 ->
  batch w1 l /\ forall x, x ∈ l -> ktls_missing w1 x = ktls_missing w x.
Proof.
  intros Hi [[He Hr]%Forall_cons Hd] [Hs Hc]. rewrite fmap_cons in Hd. apply NoDup_cons in Hd as [Hn Hd].
  rewrite list.Forall_forall in Hr.
  assert (forall x, x ∈ l -> ev_ptr x <> ev_ptr e) as Hne.
  { intros x Hx E. apply Hn. rewrite <-E. by apply list_elem_of_fmap_2. }
  split.
  - split; [|done]. apply list.Forall_forall. intros x Hx. destruct (Hr x Hx) as [? (fd & Hfd)].
    split; [done|]. exists fd. apply Hs; [by apply Hne|done].
  - intros [p ev a|] Hx; [|done]. cbn [ktls_missing]. f_equal.
    destruct (Hr _ Hx) as [[Hp0 _] (fd & Hfd)]. cbn [ev_ptr] in Hfd.
    destruct (i_epoll _ Hi _ _ Hfd) as [[? _]|(c & Hp & _)]; [done|].
    by rewrite Hp, (Hc p c) by (done || by apply (Hne _ Hx)).
Qed.

(** A batch is handled to its end, or ends in the assertion. *)
Lemma handle_all_ok l w :
  inv w -> batch w l ->
  if existsb (ktls_missing w) l then handle_all tls l w = None
  else exists w', handle_all tls l w = Some w' /\ serves w l w'.
Proof.
  revert w. induction l as [|e l IH]; intros w Hi Hb.
  { exists w. split; [done|constructor]. }
  cbn [handle_all existsb]. pose proof Hb as [[He _]%Forall_cons _].
  destruct (ktls_missing w e) eqn:Hk; cbn [orb]; [by rewrite handle_ktls|].
  destruct (handle_ok e w Hi He Hk) as (w1 & E & Hi1 & Hs & _). rewrite E. cbn [mbind option_bind].
  destruct (batch_spared e l w w1 Hi Hb Hs) as [Hb1 Hm]. specialize (IH w1 Hi1 Hb1).
  assert (existsb (ktls_missing w1) l = existsb (ktls_missing w) l) as Hx.
  { clear -Hm. induction l as [|x l IH]; [done|]. cbn [existsb]. f_equal; [apply Hm; left|].
    apply IH. intros y Hy. apply Hm. by right. }
  rewrite Hx in IH. destruct (existsb _ l); [done|]. destruct IH as (w' & -> & Hw').
  exists w'. split; [done|]. by econstructor.
Qed.

(** ** A client that sends its request in pieces *)

(** An event of another client, or one that brings no failure. *)
Definition patient (p : Z) (e : event) : Prop :=
  match e with
  | Ev_client q events a => q = p ->
      Z.land events (Z.lnot (EPOLL_EVENTS tls)) = 0 /\ ca_handshake a <> GNUTLS_E_OTHER /\
      ca_read a <> Read [] /\ ca_read a <> Read_error
  | Ev_listen _ _ => True
  end.

Definition read_bytes (a : conn_answer) : list Z :=
  match ca_read a with Read bs => bs | _ => [] end.
Definition wait (a : conn_answer) : bool :=
  match ca_handshake a with GNUTLS_E_AGAIN _ => true | _ => false end.

(** The bytes of [p] that the events bring, and whether its handshake is still
    under way after them, [s] saying whether it was before. *)
Fixpoint progress (p : Z) (s : bool) (l : list event) : list Z * bool :=
  match l with
  | [] => ([], s)
  | Ev_client q _ a :: l =>
      if decide (q = p) then
        if s && wait a then progress p s l
        else let '(bs, s') := progress p false l in (read_bytes a ++ bs, s')
      else progress p s l
  | Ev_listen _ _ :: l => progress p s l
  end.

(** The connection of [p] in a world that has [got] of its request. *)
Definition holds (p fd : Z) (s : bool) (got : list Z) (w : world) : Prop :=
  inv w /\ exists c, w_conns w !! p = Some c /\ sc_fd c = fd /\ sc_session c = s /\ received got c.

Lemma handle_plain p fd got ev a w :
  holds p fd false got w -> answer_ok a -> patient p (Ev_client p ev a) ->
  (length got + length (read_bytes a) < 8)%nat ->
  exists w', handle tls (Ev_client p ev a) w = Some w' /\ holds p fd false (got ++ read_bytes a) w'.
Proof.
  intros [Hi (c & Hp & Hf & Hs & Hr)] Ha Hpat Hl. destruct (Hpat eq_refl) as (Hev & _ & Hne & Hre).
  cbn [handle]. rewrite Hev. cbn [negb Z.eqb]. unfold read_bytes, answer_ok in *.
  destruct (ca_read a) as [bs| |] eqn:Er; [|rewrite app_nil_r|done].
  - destruct (read_partial p c a w got bs) as (c' & -> & Hn & Hr'); try done; [congruence|].
    eexists. split; [done|]. split; [by eapply inv_update; eauto|]. exists c'.
    destruct Hn. split_and!; [apply lookup_insert_eq|congruence|congruence|done].
  - rewrite (read_again p c a w got) by done. exists w. split; [done|]. split; [done|]. by exists c.
Qed.

Lemma handle_secured p c fd got ev a w :
  holds p fd true got w -> w_conns w !! p = Some c -> no_ktls a = false ->
  patient p (Ev_client p ev a) ->
  handle tls (Ev_client p ev a) w =
    (if wait a then Some w else handle tls (Ev_client p ev a) (secured p c w)) /\
  holds p fd false got (secured p c w).
Proof.
  intros [Hi (c' & Hp & Hf & Hs & Hr)] Hc Ha%no_ktls_false Hpat.
  assert (c' = c) as -> by congruence.
  destruct (Hpat eq_refl) as (Hev & Ho & _).
  split.
  - cbn [handle]. rewrite Hev. cbn [negb Z.eqb].
    rewrite (read_thread_info_handshake p c) by done. unfold wait.
    by destruct (ca_handshake a) as [[]| |].
  - split; [by apply inv_secured|]. exists (set_session c false).
    split_and!; [apply lookup_insert_eq|done|done|]. by apply (received_buffer _ c).
Qed.

Lemma holds_spared p fd s got q w w' :
  q <> p -> holds p fd s got w -> inv w' -> spared q w w' -> holds p fd s got w'.
Proof.
  intros Hq [_ (c & Hp & ?)] Hi [_ Hs]. split; [done|]. exists c. split; [|done]. by apply Hs.
Qed.

(** One event of [p]. *)
Lemma handle_progress p fd s got ev a w w' :
  holds p fd s got w -> answer_ok a -> patient p (Ev_client p ev a) ->
  handle tls (Ev_client p ev a) w = Some w' ->
  if s && wait a then holds p fd s got w'
  else (length got + length (read_bytes a) < 8)%nat -> holds p fd false (got ++ read_bytes a) w'.
Proof.
  intros Hh Ha Hpat He.
  assert (forall u, handle tls (Ev_client p ev a) u = Some w' -> holds p fd false got u ->
    (length got + length (read_bytes a) < 8)%nat ->
    holds p fd false (got ++ read_bytes a) w') as Hplain.
  { intros u Hu Hhu Hlu. destruct (handle_plain p fd got ev a u) as (v & ? & ?); try done.
    congruence. }
  destruct s; cbn [andb]; [|by apply (Hplain w)]. pose proof Hh as [Hi (c & Hc & _ & Hs & _)].
  assert (no_ktls a = false) as Hk.
  { destruct (no_ktls a) eqn:Hk; [|done]. rewrite handle_ktls in He; [done|done|].
    cbn [ktls_missing]. destruct (Hpat eq_refl) as [-> _]. by rewrite Hk, Hc, Hs. }
  destruct (handle_secured p c fd got ev a w Hh Hc Hk Hpat) as [Eh Hh'].
  rewrite He in Eh. destruct (wait a); [by injection Eh as ->|]. by apply (Hplain (secured p c w)).
Qed.

Lemma serves_progress p fd w l w' :
  serves w l w' -> forall s got, holds p fd s got w -> Forall (patient p) l ->
  (length got + length (fst (progress p s l)) < 8)%nat ->
  holds p fd (snd (progress p s l)) (got ++ fst (progress p s l)) w'.
Proof.
  induction 1 as [w|w e l w1 w' Hr He _ IH|w a l w1 w' He _ IH]; intros s got Hh Hpat Hl.
  - cbn. by rewrite app_nil_r.
  - apply Forall_cons in Hpat as [Hpe Hpat].
    destruct (handled e w w1) as (Hi & Hs & _); [apply Hh|done|done|].
    destruct e as [q ev a|]; cbn [progress ev_ptr] in *.
    + destruct (decide (q = p)) as [->|Hq]; [|apply IH; [by eapply holds_spared|done|done]].
      destruct Hr as [[_ Ha] _]. pose proof (handle_progress p fd s got ev a w w1 Hh Ha Hpe He) as Hp.
      destruct (s && wait a); [by apply IH|].
      specialize (IH false (got ++ read_bytes a)).
      destruct (progress p false l) as [bs s'] eqn:Ep. cbn [fst snd] in *.
      rewrite length_app in Hl. rewrite app_assoc. apply IH; [apply Hp; lia|done|].
      rewrite length_app. lia.
    + apply IH; [|done|done]. pose proof Hh as [Hi0 (c & Hc & _)].
      destruct (i_conn _ Hi0 _ _ Hc) as [Hp _].
      apply (holds_spared p fd s got 0 w); [lia|done..].
  - apply IH; [|done|done]. destruct Hh as [Hi0 (c & Hc & ?)].
    destruct (relisten_ok a w Hi0) as (w2 & E & Hi2 & Hc2). rewrite He in E. injection E as <-.
    split; [done|]. exists c. by rewrite Hc2.
Qed.

(** ** Theorems *)

(** C7: In every reachable world an iteration of the main thread's loop, for any
    answers of the system and any batch one [epoll_wait] reports, faults exactly
    if the assertion of [tls_handshake] fails, that is if the batch has an event
    of a connection in its handshake which GnuTLS ends without kernel TLS in
    both directions; in every other case it returns in a reachable world.  So no
    connection is used after it was freed, no socket is closed twice, no TLS
    session is released twice and no other assertion fails. *)
Theorem service_never_faults (w : world) (a : listen_answer) :
  reachable w ->
  exists w1, relisten a w = Some w1 /\ reachable w1 /\
    forall events, batch w1 events ->
      if existsb (ktls_missing w1) events then iteration tls a events w = None
      else exists w', iteration tls a events w = Some w' /\ reachable w'.
Proof.
  intros Hr. pose proof (service_inv _ Hr) as Hi.
  destruct (relisten_ok a w Hi) as (w1 & E & Hi1 & _). exists w1.
  assert (forall l w2, serves w1 l w2 -> reachable w2) as Hreach.
  { intros l w2 H2. destruct Hr as (epfd & b & ls & w0 & ts & evs & Hs & Hw).
    exists epfd, b, ls, w0, ts, (evs ++ l). split; [done|]. clear Hs Hi.
    induction Hw; cbn [app]; [by eapply serves_listen|eapply serves_event|eapply serves_listen]; eauto. }
  split_and!; [done|apply (Hreach []); constructor|]. intros events Hb.
  pose proof (handle_all_ok events w1 Hi1 Hb) as Hall. unfold iteration. rewrite E.
  cbn [mbind option_bind]. destruct (existsb _ events); [done|]. destruct Hall as (w' & -> & Hs). eauto.
Qed.

(** C18: Every socket is accounted for: in a reachable world the log says that
    a socket was opened once more than it was closed or given to a thread
    exactly when it is open, the open sockets are the listening one and those
    of the connections, no two connections share a socket, and the TLS
    sessions that exist are those of connections in their handshake. *)
Theorem sockets_accounted (w : world) :
  reachable w ->
  (forall fd, balance fd (w_log w) = (if decide (fd ∈ w_open w) then 1 else 0)) /\
  (forall fd, fd ∈ w_open w <-> w_listen w = Some fd \/
     exists p c, w_conns w !! p = Some c /\ sc_fd c = fd) /\
  (forall p q c d, w_conns w !! p = Some c -> w_conns w !! q = Some d ->
     sc_fd c = sc_fd d -> p = q) /\
  (forall p, p ∈ w_sessions w <-> exists c, w_conns w !! p = Some c /\ sc_session c = true).
Proof.
  intros Hi%service_inv. split_and!; [apply Hi| |by eauto using same_conn|apply Hi].
  intros fd. rewrite (i_open _ Hi). split.
  - intros [p Hp]. destruct (i_epoll _ Hi _ _ Hp) as [[_ ?]|(c & ? & ?)]; eauto.
  - intros [Hl|(p & c & Hp & <-)].
    + by rewrite (i_listen _ Hi _ Hl).
    + destruct (i_conn _ Hi _ _ Hp) as (_ & _ & -> & _). done.
Qed.

(** C8: A client that sends its eight-byte connect request in any pieces, with
    events of other clients handled in between, is given to the thread whose
    number the last four bytes hold, or its socket is closed if there is no
    such thread or the thread's epoll instance refuses it; either way the
    connection is freed, nothing else happens to its socket, and the thread
    decodes what it was given as the arrival of this socket. *)
Theorem connect_request_dispatched (p : Z) (c : service_conn) (l : list event) (w w1 : world)
    (ev : Z) (a : conn_answer) (got bs : list Z) (s : bool) :
  reachable w -> w_conns w !! p = Some c -> received [] c -> serves w l w1 ->
  Forall (patient p) (l ++ [Ev_client p ev a]) -> answer_ok a ->
  progress p (sc_session c) l = (got, s) -> (length got < 8)%nat ->
  (s = true -> ca_handshake a = GNUTLS_E_SUCCESS true) ->
  ca_read a = Read bs -> (8 <= length got + length bs)%nat ->
  let id := get 4 4 (got ++ bs) in
  exists w' last, handle tls (Ev_client p ev a) w1 = Some w' /\
    w_conns w' !! p = None /\ sc_fd c ∉ w_open w' /\ w_log w' = last :: w_log w1 /\
    if (id <? CONFIG_THREAD_NR) && ca_dispatch a then
      exists data, last = Dispatched id data /\
        forall conns size raw, decode_event conns size data EPOLLOUT raw = Ev_accept (sc_fd c) raw
    else last = Closed (sc_fd c).
Proof.
  intros Hreach Hp Hr Hserve Hpat Ha Hprog Hgot Hsec Hread Hfull id.
  pose proof (service_inv _ Hreach) as Hi.
  apply Forall_app in Hpat as [Hpat [He _]%Forall_cons].
  destruct (serves_progress p (sc_fd c) w l w1 Hserve (sc_session c) []) as [Hi1 (c1 & Hc1 & Hf1 & Hs1 & Hr1)];
    [split; eauto|done|by rewrite Hprog|]. rewrite Hprog in Hs1, Hr1. cbn [fst snd app] in *.
  assert (exists w' c2, inv w' /\ w_conns w' !! p = Some c2 /\ sc_fd c2 = sc_fd c /\
    sc_session c2 = false /\ received got c2 /\ w_log w' = w_log w1 /\
    handle tls (Ev_client p ev a) w1 = read_thread_info tls p a w')
    as (w2 & c2 & Hi2 & Hc2 & Hf2 & Hs2 & Hr2 & Hlog & ->).
  { destruct (He eq_refl) as (Hev & _). cbn [handle]. rewrite Hev. cbn [negb Z.eqb].
    destruct s; [|by exists w1, c1]. exists (secured p c1 w1), (set_session c1 false).
    rewrite (read_thread_info_handshake p c1) by (done || by rewrite Hsec). rewrite Hsec by done.
    split_and!; try done; [by apply inv_secured|apply lookup_insert_eq|by apply (received_buffer _ c1)]. }
  pose proof Ha as Hb. unfold answer_ok in Hb. rewrite Hread in Hb.
  rewrite (read_full p c2 a w2 got bs) by done. eexists _, _. split_and!; [done| |..].
  - w_simpl. apply lookup_delete_eq.
  - w_simpl. rewrite Hf2. set_solver.
  - w_simpl. by rewrite Hlog.
  - assert (get 4 4 (got ++ take (8 - length got) bs) = id) as ->.
    { subst id. unfold get, field. f_equal. rewrite !drop_app, !take_app, !length_drop.
      f_equal. rewrite skipn_firstn_comm, take_take. f_equal. lia. }
    unfold verdict. rewrite Hf2. destruct (_ && _); [|done]. eexists. split; [done|].
    intros. apply decode_dispatched. rewrite <-Hf2. apply (i_range _ Hi2). by apply (conn_open _ p).
Qed.

(** What is left of a connection after [read] brought [a] when [got] of the
    request had arrived, and whether the request is complete. *)
Definition read_outcome (p : Z) (c : service_conn) (got : list Z) (a : read_answer) (w w' : world)
    (full : bool) : Prop :=
  match a with
  | EWOULDBLOCK => full = false /\ w' = w
  | Read [] | Read_error => full = false /\ w_conns w' !! p = None /\ sc_fd c ∉ w_open w'
  | Read bs => full = bool_decide (8 <= length got + length bs)%nat /\
      exists c', w_conns w' !! p = Some c' /\ sc_fd c' = sc_fd c /\ sc_session c' = sc_session c /\
        length (sc_buffer c') = 4%nat /\
        if full then sc_buffer c' = drop 4 (got ++ take (8 - length got) bs)
        else received (got ++ bs) c'
  end.

(** C26: Reading into the connection keeps its type: in a reachable world every
    connection has received some [got] of less than eight bytes, which means
    that the last byte of its buffer is exactly the number of bytes still to come
    and the bytes in front of it are those behind the fourth of [got]; and a read
    never faults and either leaves it alone, frees it, or keeps its socket, its
    TLS session and the four bytes of buffer and makes it the connection that has
    received the longer request, counter included, until the last byte of the
    request takes the place of the counter. *)
Theorem connect_in_typed (p : Z) (c : service_conn) (w : world) :
  reachable w -> w_conns w !! p = Some c ->
  (exists got, received got c) /\
  forall got a, received got c -> match a with Read bs => Forall byte bs | _ => True end ->
    exists full w', service_conn_full_read_connect_in p a w = Some (full, w') /\
      read_outcome p c got a w w' full.
Proof.
  intros Hi%service_inv Hp. destruct (i_conn _ Hi _ _ Hp) as (_ & Hex & _). split; [done|].
  intros got a Hr Ha.
  assert (forall act, w_conns (leave p c act w) !! p = None /\ sc_fd c ∉ w_open (leave p c act w)) as Hl.
  { intros act. w_simpl. split; [apply lookup_delete_eq|set_solver]. }
  destruct a as [bs| |]; unfold read_outcome.
  - pose proof (r_short _ _ Hr). destruct bs as [|b bs'] eqn:Hbs.
    { rewrite (full_read_gone p c _ w got) by auto. eexists _, _. by split. }
    rewrite <-Hbs in *. destruct (decide (8 <= length got + length bs)%nat).
    + destruct (full_read_last p w c got bs) as (c' & -> & [Hf Hs] & Hb); try done.
      eexists _, _. split; [done|]. rewrite bool_decide_eq_true_2 by done. split; [done|]. exists c'.
      w_simpl. split_and!; [apply lookup_insert_eq|done|done| |done].
      rewrite Hb, length_drop, length_app, length_take. lia.
    + destruct (full_read_partial p w c got bs) as (c' & -> & [Hf Hs] & Hr'); try done; [by subst|lia|].
      eexists _, _. split; [done|]. rewrite bool_decide_eq_false_2 by done. split; [done|]. exists c'.
      w_simpl. split_and!; [apply lookup_insert_eq|done|done|apply Hr'|done].
  - rewrite (full_read_again p c w got) by done. eexists _, _. by split.
  - rewrite (full_read_gone p c _ w got) by auto. eexists _, _. by split.
Qed.

End proofs.

Lemma clock_data_eq fd : 0 <= fd < 2 ^ 31 -> clock_data fd = (fd * 2 ^ 30) * 2 ^ 2 + 2.
Proof.
  intros Hfd. unfold clock_data. rewrite Z.shiftl_mul_pow2 by lia.
  rewrite (lor_disjoint_add _ _ 32) by (rewrite ?Z.mod_mul; lia).
  rewrite wrap_small by lia. lia.
Qed.

Lemma low_bits x y : 0 <= y < 2 ^ 2 ->
  Z.land (x * 2 ^ 2 + y) 1 = y mod 2 /\ Z.land (x * 2 ^ 2 + y) 2 = Z.land y 2.
Proof.
  intros Hy. split.
  - rewrite (land_mask _ 1 ltac:(lia)). change (2 ^ 2) with (2 * 2). change (2 ^ 1) with 2.
    by rewrite Z.mul_assoc, Z.add_comm, Z.mod_add by lia.
  - rewrite <-(lor_disjoint_add _ _ 2) by (rewrite ?Z.mod_mul; lia).
    rewrite Z.land_lor_distr_l. change 2 with (Z.land (2 ^ 2 - 1) 2) at 3.
    rewrite Z.land_assoc, land_mask, Z.mod_mul by lia. done.
Qed.

(** The data of an event at a cache thread names its source: a socket the
    main thread gave it, the timer and a connection of the thread's array are
    told apart by the two low bits, and the socket and the index of the
    connection are read back as they were registered. *)
Theorem event_data_decoded (conns size h fd timerfd events : Z) (raw : list Z) :
  0 <= fd < 2 ^ 31 -> 0 <= timerfd < 2 ^ 31 ->
  conns mod 8 = 0 -> size mod 8 = 0 -> 0 < size -> 0 <= h ->
  decode_event conns size (dispatch_data fd) events raw = Ev_accept fd raw /\
  decode_event conns size (clock_data timerfd) events raw = Ev_clock /\
  decode_event conns size (conns + h * size) events raw = Ev_conn h events.
Proof.
  intros Hfd Ht Hc Hs Hs0 Hh. split_and!; [by apply decode_dispatched|..]; unfold decode_event.
  - rewrite clock_data_eq by done. by destruct (low_bits (timerfd * 2 ^ 30) 2) as [-> ->].
  - apply Z.mod_divide in Hc as [k ->]; [|lia]. apply Z.mod_divide in Hs as [m ->]; [|lia].
    replace (k * 8 + h * (m * 8)) with ((2 * (k + h * m)) * 2 ^ 2 + 0) by lia.
    destruct (low_bits (2 * (k + h * m)) 0) as [-> ->]; [done|]. cbn [negb Z.eqb].
    replace (2 * (k + h * m) * 2 ^ 2 + 0 - k * 8) with (h * (m * 8)) by lia. by rewrite Z.div_mul by lia.
Qed.

Lemma thread_run_ok a :
  length (st_caches a) = Z.to_nat KV_CACHE_LEN ->
  exists r, thread_run a = Some r /\ forall t, r = Some t -> ThreadRun.reachable 0 t.
Proof.
  intros Hl. unfold thread_run. set (clock := bool_decide _).
  destruct (thread_init (st_caches a) (st_epfd a) clock (st_mmap a)) as [r|] eqn:E; cbn [mbind option_bind].
  - eexists. split; [done|]. intros t Ht. destruct (st_pthread a); [|done]. subst r.
    apply (reach_init (st_caches a) (st_mmap a)); [done|].
    unfold thread_init in E |- *. by destruct (st_epfd a), clock; try destruct (kv_cache_list_init _).
  - exfalso. unfold thread_init in E. rewrite (kv_cache_list_init_eq _ Hl) in E.
    destruct (st_epfd a), clock; try done. cbn [mbind option_bind] in E.
    by destruct (hash_table_init _ _) as [[] ?].
Qed.

Lemma threads_run_ok n l :
  Forall (fun a => length (st_caches a) = Z.to_nat KV_CACHE_LEN) l ->
  exists r, threads_run_loop n l = Some r /\
    forall ts, r = Some ts -> length ts = n /\ Forall (ThreadRun.reachable 0) ts.
Proof.
  intros Hl. revert n. induction Hl as [|a l Ha _ IH]; intros [|n]; cbn [threads_run_loop];
    try (eexists; split; [done|]; intros ts [= <-]; split; [done|constructor]).
  { by exists None. }
  destruct (thread_run_ok a Ha) as (r & -> & Hr). cbn [mbind option_bind].
  destruct r as [t|]; [|by exists None].
  destruct (IH n) as (rs & -> & Hrs). cbn [mbind option_bind]. eexists. split; [done|].
  destruct rs as [ts'|]; [|done]. intros ts [= <-]. destruct (Hrs ts' eq_refl).
  split; [cbn; congruence|]. constructor; [by apply Hr|done].
Qed.

(** The start is all or nothing: it never faults, and unless a call of the
    system fails, which aborts the program, the main thread listens on an open
    socket with no connection yet, and all cache threads are in their initial
    state. *)
Theorem service_starts (epfd : bool) (a : listen_answer) (l : list start) :
  Forall (fun st => length (st_caches st) = Z.to_nat KV_CACHE_LEN) l ->
  exists r, must_service_start epfd a l = Some r /\
    forall w ts, r = Some (w, ts) ->
      w_conns w = ∅ /\ w_open w = match l_fd a with Some fd => {[fd]} | None => ∅ end /\
      w_listen w = l_fd a /\ is_Some (l_fd a) /\
      Z.of_nat (length ts) = CONFIG_THREAD_NR /\ Forall (ThreadRun.reachable 0) ts.
Proof.
  intros Hl. unfold must_service_start, threads_run.
  destruct (threads_run_ok (Z.to_nat CONFIG_THREAD_NR) l Hl) as (r & Hr & Hts).
  destruct epfd; [|by exists None]. unfold listen_port.
  destruct (l_fd a) as [fd|]; [|by exists None].
  assert (forall w, close fd (open_fd fd w) <> None) as Hc.
  { intros w. rewrite close_run by (cbn; set_solver). done. }
  set (w0 := Build_world ∅ ∅ ∅ ∅ None []). specialize (Hc w0).
  destruct (negb (fresh fd w0)); [by exists None|].
  destruct (forallb id (l_setup a)).
  - unfold epoll_add_in, __epoll_add. destruct (l_add a).
    + cbn [mbind option_bind]. rewrite Hr. cbn [mbind option_bind]. eexists. split; [done|].
      intros w ts' E. destruct r as [ts|]; [|done]. injection E as <- <-.
      destruct (Hts ts eq_refl) as [-> ?]. split_and!; [done| |done|done|done|done].
      cbn. apply right_id_L, _.
    + destruct (close fd (open_fd fd w0)); [|done]. by exists None.
  - destruct (close fd (open_fd fd w0)); [|done]. by exists None.
Qed.

(** ** Witnesses *)

Definition sample_start : start :=
  {| st_caches := replicate 75 uninit; st_epfd := true; st_timerfd := Some 7; st_settime := true;
     st_add := true; st_mmap := fun _ => Some 65536; st_pthread := true |}.
Definition sample_listen : listen_answer :=
  {| l_fd := Some 5; l_setup := replicate 8 true; l_add := true |}.
Definition sample_world : world :=
  match must_service_start true sample_listen (replicate 4 sample_start) with
  | Some (Some (w, _)) => w
  | _ => Build_world ∅ ∅ ∅ ∅ None []
  end.

(** A client with TLS is accepted at the socket 9, its connection at 4096. *)
Definition sample_accept : event :=
  Ev_listen [{| a_fd := 9; a_malloc := 4096; a_raw := [0; 0; 0; 0];
                a_tls := {| g_init := true; g_priority := true; g_credentials := true |};
                a_add := true |}] true.
Definition sample_read (h : handshake_answer) (r : read_answer) : event :=
  Ev_client 4096 EPOLLIN {| ca_handshake := h; ca_read := r; ca_dispatch := true |}.
Definition after (l : list event) : world := default sample_world (handle_all true l sample_world).

Definition sample_client : service_conn :=
  {| sc_fd := 9; sc_buffer := [0; 0; 0; 8]; sc_session := true |}.

Lemma sample_reachable : reachable true (after [sample_accept]).
Proof.
  destruct (must_service_start true sample_listen (replicate 4 sample_start)) as [[[w ts]|]|] eqn:E;
    [|vm_compute in E; discriminate E..].
  exists true, sample_listen, (replicate 4 sample_start), w, ts, [sample_accept]. split; [done|].
  assert (w = sample_world) as ->; [unfold sample_world; by rewrite E|].
  apply (serves_event _ _ _ _ (after [sample_accept])).
  - split; [done|]. exists 5. vm_compute. reflexivity.
  - vm_compute. reflexivity.
  - constructor.
Qed.

Lemma sample_bytes : Forall byte [1; 0] /\ Forall byte [0; 0; 2; 0; 0; 0; 9; 9].
Proof. unfold byte. split; repeat (constructor; [lia|]); constructor. Qed.

Lemma sample_conn : w_conns (after [sample_accept]) !! 4096 = Some sample_client.
Proof. vm_compute. reflexivity. Qed.

Lemma sample_received : received [] sample_client.
Proof. split; try done. cbn. lia. Qed.

Lemma service_never_faults_witness :
  exists w1, relisten sample_listen (after [sample_accept]) = Some w1 /\ reachable true w1 /\
    forall events, batch w1 events ->
      if existsb (ktls_missing true w1) events
      then iteration true sample_listen events (after [sample_accept]) = None
      else exists w', iteration true sample_listen events (after [sample_accept]) = Some w' /\
        reachable true w'.
Proof. apply (service_never_faults true _ sample_listen sample_reachable). Defined.

Lemma sockets_accounted_witness :
  balance 9 (w_log (after [sample_accept])) =
    (if decide (9 ∈ w_open (after [sample_accept])) then 1 else 0).
Proof. apply (sockets_accounted true _ sample_reachable). Defined.

(** Two of the eight bytes arrive: six are to come. *)
Lemma connect_in_typed_witness :
  exists w' c', service_conn_full_read_connect_in 4096 (Read [1; 0]) (after [sample_accept]) =
      Some (false, w') /\
    w_conns w' !! 4096 = Some c' /\ sc_fd c' = 9 /\ sc_buffer c' !! 3%nat = Some 6.
Proof.
  destruct (connect_in_typed true 4096 _ _ sample_reachable sample_conn) as [_ H].
  destruct (H [] (Read [1; 0]) sample_received (proj1 sample_bytes)) as (full & w' & E & Hf & c' & Hc & Hfd & _ & _ & Hr).
  rewrite bool_decide_eq_false_2 in Hf by (cbn; lia). subst full.
  exists w', c'. split; [exact E|]. split; [exact Hc|]. split; [exact Hfd|]. apply (r_unread _ _ Hr).
Defined.

Lemma event_data_decoded_witness :
  decode_event 65536 360 (65536 + 3 * 360) 4 [] = Ev_conn 3 4.
Proof. apply (event_data_decoded 65536 360 3 9 7 4 []); reflexivity || (split; reflexivity) || lia. Defined.

Lemma service_starts_witness :
  exists r, must_service_start true sample_listen (replicate 4 sample_start) = Some r /\
    (r = None -> False).
Proof.
  destruct (service_starts true sample_listen (replicate 4 sample_start)) as (r & H & _).
  { repeat (constructor; [reflexivity|]). constructor. }
  exists r. split; [exact H|]. intros ->. vm_compute in H. discriminate H.
Defined.

(** The handshake takes two events, the second brings two bytes of the request
    as well; the rest arrives with the first bytes of a command. *)
Definition sample_pieces : list event :=
  [sample_read (GNUTLS_E_AGAIN false) EWOULDBLOCK; sample_read (GNUTLS_E_SUCCESS true) (Read [1; 0])].
Definition sample_last : conn_answer :=
  {| ca_handshake := GNUTLS_E_AGAIN true; ca_read := Read [0; 0; 2; 0; 0; 0; 9; 9]; ca_dispatch := true |}.

Lemma connect_request_dispatched_witness :
  exists w' last,
    handle true (Ev_client 4096 EPOLLIN sample_last) (after (sample_accept :: sample_pieces)) = Some w' /\
    w_log w' = last :: w_log (after (sample_accept :: sample_pieces)) /\
    exists data, last = Dispatched 2 data.
Proof.
  destruct (connect_request_dispatched true 4096 sample_client sample_pieces
    (after [sample_accept]) (after (sample_accept :: sample_pieces)) EPOLLIN sample_last [1; 0]
    [0; 0; 2; 0; 0; 0; 9; 9] false) as (w' & last & H1 & _ & _ & H2 & H3).
  - exact sample_reachable.
  - exact sample_conn.
  - exact sample_received.
  - apply (serves_event _ _ _ _ (after [sample_accept])).
    { split; [split; [discriminate|constructor]|].
      exists 9. vm_compute. reflexivity. }
    { vm_compute. reflexivity. }
    apply (serves_event _ _ _ _ (after (sample_accept :: sample_pieces))).
    { split; [split; [discriminate|apply sample_bytes]|].
      exists 9. vm_compute. reflexivity. }
    { vm_compute. reflexivity. }
    constructor.
  - repeat constructor; try discriminate.
  - apply sample_bytes.
  - reflexivity.
  - cbn. lia.
  - discriminate.
  - reflexivity.
  - cbn. lia.
  - exists w', last. split; [exact H1|]. split; [exact H2|]. destruct H3 as (data & H3 & _).
    exists data. exact H3.
Defined.

End Service.
